(** * Episode streaming-link resolution: a shallow embedding

    This development embeds the scraping service of the Otakudesu REST
    facade (utils.js, scraper.js, routes.js) and the parts of the Node
    runtime it leans on (Buffer base64/UTF-8 decoding, JSON.parse, the
    regular expressions of the source) and proves properties of the
    streaming-link subsystem.

    Conventions.
    - A JavaScript string is its sequence of UTF-16 code units, each an [N].
    - A byte is an [N] below 256.
    - Asynchronous functions are computations in a small writer/exception
      monad [M]: the value is the settled outcome of the promise, the log is
      the list of external effects (network calls, timers, cache accesses).
    - Everything the program cannot control (the network, the HTML parser,
      the clock) is a field of a [world] record; theorems quantify over it. *)

From Stdlib Require Import List NArith ZArith Lia Bool String Ascii.
From stdpp Require Import gmap.
Import ListNotations.

Local Open Scope N_scope.

(* ===================================================================== *)
(** * 1. JavaScript strings                                              *)
(* ===================================================================== *)

Definition jsstring := list N.

(** [js "abc"] is the JavaScript string literal 'abc'. *)
Definition js (s : string) : jsstring :=
  List.map N_of_ascii (list_ascii_of_string s).

Definition jsstring_eqb (a b : jsstring) : bool :=
  bool_decide (a = b).

(** WhiteSpace and LineTerminator of ECMAScript: what [String.prototype.trim]
    strips and what [\s] matches in a regular expression. *)
Definition is_js_space (c : N) : bool :=
  ((9 <=? c) && (c <=? 13)) || (c =? 32) || (c =? 160) || (c =? 5760)
  || ((8192 <=? c) && (c <=? 8202)) || (c =? 8232) || (c =? 8233)
  || (c =? 8239) || (c =? 8287) || (c =? 12288) || (c =? 65279).

Fixpoint drop_spaces (s : jsstring) : jsstring :=
  match s with
  | c :: rest => if is_js_space c then drop_spaces rest else s
  | [] => []
  end.

(** [s.trim()] *)
Definition trim (s : jsstring) : jsstring :=
  rev (drop_spaces (rev (drop_spaces s))).

(** [hay.startsWith(needle)] *)
Fixpoint starts_with (needle hay : jsstring) : bool :=
  match needle, hay with
  | [], _ => true
  | n :: needle', h :: hay' => (n =? h) && starts_with needle' hay'
  | _ :: _, [] => false
  end.

(** [hay.includes(needle)] *)
Fixpoint includes (needle hay : jsstring) : bool :=
  starts_with needle hay ||
  match hay with
  | [] => false
  | _ :: hay' => includes needle hay'
  end.

(** [s.toLowerCase()] on the Basic Latin and Latin-1 letters; code units
    beyond Latin-1 are left as they are (no message of the service has
    any). *)
Definition lower_unit (c : N) : N :=
  if ((65 <=? c) && (c <=? 90))
     || ((192 <=? c) && (c <=? 222) && negb (c =? 215))
  then c + 32 else c.

Definition toLowerCase (s : jsstring) : jsstring := List.map lower_unit s.

(** [sep.join(parts)] *)
Fixpoint join (sep : jsstring) (parts : list jsstring) : jsstring :=
  match parts with
  | [] => []
  | [p] => p
  | p :: rest => p ++ sep ++ join sep rest
  end.

(** Decimal digits of a natural number, most significant first:
    [String(n)] for a non-negative integer. *)
Fixpoint digits_aux (fuel : nat) (n : N) (acc : list N) : list N :=
  match fuel with
  | O => acc
  | S fuel' =>
      let acc' := (48 + n mod 10) :: acc in
      if n <? 10 then acc' else digits_aux fuel' (n / 10) acc'
  end.

Definition digits (n : N) : list N :=
  digits_aux (S (N.to_nat (N.log2 n))) n [].

(** [String(z)] for an integer. *)
Definition digits_Z (z : Z) : jsstring :=
  if (z <? 0)%Z then 45 :: digits (Z.abs_N z) else digits (Z.abs_N z).

(* ===================================================================== *)
(** * 2. Buffer: base64 and UTF-8                                         *)
(* ===================================================================== *)

(** ** 2.1 base64 *)

(** Value of a base64 character. Node accepts the standard alphabet and
    the URL-safe one ('-' and '_') alike. *)
Definition unbase64 (c : N) : option N :=
  if (65 <=? c) && (c <=? 90) then Some (c - 65)
  else if (97 <=? c) && (c <=? 122) then Some (c - 71)
  else if (48 <=? c) && (c <=? 57) then Some (c + 4)
  else if (c =? 43) || (c =? 45) then Some 62
  else if (c =? 47) || (c =? 95) then Some 63
  else None.

(** The legal sextets of the input up to the first '='. Node's decoder
    skips every character outside the alphabet and stops at the first
    padding character; it reads a code unit through a cast to one byte. *)
Fixpoint base64_sextets (s : jsstring) : list N :=
  match s with
  | [] => []
  | c :: rest =>
      let c8 := c mod 256 in
      match unbase64 c8 with
      | Some v => v :: base64_sextets rest
      | None => if c8 =? 61 then [] else base64_sextets rest
      end
  end.

(** Four sextets give three bytes; a final group of two or three sextets
    gives one or two bytes; a single left-over sextet gives nothing. *)
Fixpoint sextets_to_bytes (l : list N) : list N :=
  match l with
  | a :: b :: c :: d :: rest =>
      (a * 4 + b / 16) :: ((b mod 16) * 16 + c / 4) :: ((c mod 4) * 64 + d)
      :: sextets_to_bytes rest
  | [a; b; c] => [a * 4 + b / 16; (b mod 16) * 16 + c / 4]
  | [a; b] => [a * 4 + b / 16]
  | _ => []
  end.

(** [Buffer.from(s, 'base64')] for a string [s]: never throws. *)
Definition base64_decode (s : jsstring) : list N :=
  sextets_to_bytes (base64_sextets s).

Definition base64_char (v : N) : N :=
  if v <? 26 then v + 65
  else if v <? 52 then v + 71
  else if v <? 62 then v - 4
  else if v =? 62 then 43 else 47.

(** Modelled from the spec: the encoder is not part of the repository (the
    upstream site produces the tokens); this is the standard base64
    encoding with padding (RFC 4648, section 4), [buf.toString('base64')]. *)
Fixpoint base64_encode (bs : list N) : jsstring :=
  match bs with
  | x :: y :: z :: rest =>
      base64_char (x / 4) :: base64_char ((x mod 4) * 16 + y / 16)
      :: base64_char ((y mod 16) * 4 + z / 64) :: base64_char (z mod 64)
      :: base64_encode rest
  | [x; y] =>
      [base64_char (x / 4); base64_char ((x mod 4) * 16 + y / 16);
       base64_char ((y mod 16) * 4); 61]
  | [x] => [base64_char (x / 4); base64_char ((x mod 4) * 16); 61; 61]
  | [] => []
  end.

(** ** 2.2 UTF-8 *)

(** State of the UTF-8 decoder between two bytes (WHATWG Encoding,
    section 9.1.1): the code point being assembled, how many continuation
    bytes are still needed, and the range allowed for the next byte. *)
Record utf8_state := {
  u_cp : N;
  u_needed : nat;
  u_lower : N;
  u_upper : N
}.

Definition utf8_init : utf8_state :=
  {| u_cp := 0; u_needed := 0; u_lower := 128; u_upper := 191 |}.

Definition REPLACEMENT : N := 65533.

(** UTF-16 code units of one code point. *)
Definition utf16_units (cp : N) : list N :=
  if cp <? 65536 then [cp]
  else [55296 + (cp - 65536) / 1024; 56320 + (cp - 65536) mod 1024].

(** First byte of a sequence: the code units to emit and the next state. *)
Definition utf8_lead (b : N) : list N * utf8_state :=
  if b <? 128 then ([b], utf8_init)
  else if (194 <=? b) && (b <=? 223) then
    ([], {| u_cp := b mod 32; u_needed := 1; u_lower := 128; u_upper := 191 |})
  else if (224 <=? b) && (b <=? 239) then
    ([], {| u_cp := b mod 16; u_needed := 2;
            u_lower := if b =? 224 then 160 else 128;
            u_upper := if b =? 237 then 159 else 191 |})
  else if (240 <=? b) && (b <=? 244) then
    ([], {| u_cp := b mod 8; u_needed := 3;
            u_lower := if b =? 240 then 144 else 128;
            u_upper := if b =? 244 then 143 else 191 |})
  else ([REPLACEMENT], utf8_init).

Definition utf8_step (st : utf8_state) (b : N) : list N * utf8_state :=
  match u_needed st with
  | O => utf8_lead b
  | S k =>
      if (u_lower st <=? b) && (b <=? u_upper st) then
        let cp := u_cp st * 64 + b mod 64 in
        match k with
        | O => (utf16_units cp, utf8_init)
        | S _ => ([], {| u_cp := cp; u_needed := k;
                         u_lower := 128; u_upper := 191 |})
        end
      else
        (* the truncated sequence becomes U+FFFD and the byte is read
           again as the first byte of a new sequence *)
        let '(out, st') := utf8_lead b in (REPLACEMENT :: out, st')
  end.

Fixpoint utf8_run (st : utf8_state) (bs : list N) : jsstring :=
  match bs with
  | [] => match u_needed st with O => [] | S _ => [REPLACEMENT] end
  | b :: rest =>
      let '(out, st') := utf8_step st b in out ++ utf8_run st' rest
  end.

(** [buf.toString('utf-8')]: never throws; ill-formed input decodes to
    U+FFFD. *)
Definition utf8_decode (bs : list N) : jsstring := utf8_run utf8_init bs.

(** UTF-8 bytes of one code point. *)
Definition utf8_bytes (cp : N) : list N :=
  if cp <? 128 then [cp]
  else if cp <? 2048 then [192 + cp / 64; 128 + cp mod 64]
  else if cp <? 65536 then
    [224 + cp / 4096; 128 + (cp / 64) mod 64; 128 + cp mod 64]
  else [240 + cp / 262144; 128 + (cp / 4096) mod 64;
        128 + (cp / 64) mod 64; 128 + cp mod 64].

Definition is_high_surrogate (c : N) : bool := (55296 <=? c) && (c <=? 56319).
Definition is_low_surrogate (c : N) : bool := (56320 <=? c) && (c <=? 57343).

(** Modelled from the spec: the encoder side of the payload,
    [Buffer.from(s, 'utf-8')]; a lone surrogate is encoded as U+FFFD. *)
Fixpoint utf8_encode (s : jsstring) : list N :=
  match s with
  | [] => []
  | c :: rest =>
      if is_high_surrogate c then
        match rest with
        | d :: rest' =>
            if is_low_surrogate d
            then utf8_bytes (65536 + (c - 55296) * 1024 + (d - 56320))
                   ++ utf8_encode rest'
            else utf8_bytes REPLACEMENT ++ utf8_encode rest
        | [] => utf8_bytes REPLACEMENT
        end
      else if is_low_surrogate c then utf8_bytes REPLACEMENT ++ utf8_encode rest
      else utf8_bytes c ++ utf8_encode rest
  end.

(* ===================================================================== *)
(** * 3. JavaScript values and JSON                                       *)
(* ===================================================================== *)

(** ** 3.1 Objects *)

(** A JavaScript object as the list of its own properties in insertion
    order, each key once. (JavaScript lists array-index keys first when
    it enumerates; nothing here depends on the order of enumeration.) *)
Definition jsobj (V : Type) := list (jsstring * V).

(** [o[k]] on the own properties. *)
Fixpoint obj_get {V} (k : jsstring) (o : jsobj V) : option V :=
  match o with
  | [] => None
  | (k', v) :: rest => if jsstring_eqb k' k then Some v else obj_get k rest
  end.

(** CreateDataProperty: what an object literal, a spread and JSON.parse do
    for each member. A key already present keeps its place and takes the
    new value. *)
Fixpoint obj_define {V} (k : jsstring) (v : V) (o : jsobj V) : jsobj V :=
  match o with
  | [] => [(k, v)]
  | (k', v') :: rest =>
      if jsstring_eqb k' k then (k, v) :: rest
      else (k', v') :: obj_define k v rest
  end.

(** The assignment [o[k] = v] on an ordinary object. The key '__proto__'
    reaches the inherited setter, which creates no own property. *)
Definition obj_assign {V} (k : jsstring) (v : V) (o : jsobj V) : jsobj V :=
  if jsstring_eqb k (js "__proto__") then o else obj_define k v o.

Definition obj_of_members {V} (members : list (jsstring * V)) : jsobj V :=
  fold_left (fun o kv => obj_define (fst kv) (snd kv) o) members [].

(** ** 3.2 JSON values *)

(** The values JSON.parse can produce. A number is kept as the exact
    decimal [m * 10^e] that its literal denotes; JavaScript rounds it to
    a double, which this model does not (integers up to 2^53 are exact
    in both). The number that JavaScript holds for [JNum m e] is the
    double nearest to the decimal ([to_double], section 3.3). A non-JSON
    response body is a [JStr]. *)
#[warnings="-register-all"]
Inductive json :=
| JNull
| JBool (b : bool)
| JNum (m e : Z)
| JStr (s : jsstring)
| JArr (items : list json)
| JObj (members : jsobj json).

(** A JavaScript value that may be [undefined]. *)
Definition jsval := option json.

(** ToBoolean. Arrays and objects are truthy, also when empty. *)
Definition json_truthy (v : json) : bool :=
  match v with
  | JNull => false
  | JBool b => b
  | JNum m _ => negb (m =? 0)%Z
  | JStr s => match s with [] => false | _ => true end
  | JArr _ | JObj _ => true
  end.

Class Truthy (A : Type) := truthy : A -> bool.

#[global] Instance json_Truthy : Truthy json := json_truthy.

#[global] Instance option_Truthy {A} `{Truthy A} : Truthy (option A) :=
  fun o => match o with Some a => truthy a | None => false end.

#[global] Instance jsstring_Truthy : Truthy jsstring :=
  fun s => match s with [] => false | _ => true end.

(** [a || b] on values of one type. *)
Definition js_or {A} `{Truthy A} (a b : A) : A := if truthy a then a else b.

(** ** 3.3 Numbers *)

(** A JavaScript number is a binary64 value. A finite one that is not
    negative is written here as [(M, E)] for M * 2^E, with
    2^52 <= M < 2^53 and -1074 <= E <= 971 (normal), or M < 2^52 and
    E = -1074 (subnormal, zero when M = 0). The two zeros are one value,
    as they are for [===] and in the text JSON.stringify writes. *)
Definition double := (Z * Z)%type.

Section Binary64.

Local Open Scope Z_scope.

(** The integer nearest to a / b, the even one of two that are equally
    near. *)
Definition round_half_even (a b : Z) : Z :=
  let q := a / b in
  match 2 * (a mod b) ?= b with
  | Lt => q
  | Gt => q + 1
  | Eq => if Z.even q then q else q + 1
  end.

(** The exponent of the power of two at or below a / b. *)
Definition floor_log2 (a b : Z) : Z :=
  let l := Z.log2 a - Z.log2 b in
  if (if 0 <=? l then b * 2 ^ l <=? a else b <=? a * 2 ^ (- l))
  then l else l - 1.

(** 2^r <= a / b < 2^(r+1) *)
Definition in_binade (a b r : Z) : Prop :=
  if 0 <=? r then b * 2 ^ r <= a < b * 2 ^ (r + 1)
  else b <= a * 2 ^ (- r) < 2 * b.

(** a / b times base^x, as a fraction. *)
Definition scale (base a b x : Z) : Z * Z :=
  if 0 <=? x then (a * base ^ x, b) else (a, b * base ^ (- x)).

(** The double nearest to a / b, ties to the even significand; [None]
    is Infinity. *)
Definition nearest_double (a b : Z) : option double :=
  if a =? 0 then Some (0, -1074)
  else
    let E := Z.max (floor_log2 a b - 52) (-1074) in
    let '(a', b') := scale 2 a b (- E) in
    let M := round_half_even a' b' in
    let '(M, E) := if M =? 2 ^ 53 then (2 ^ 52, E + 1) else (M, E) in
    if E <=? 971 then Some (M, E) else None.

(** The double of a positive integer below 2^53, which it holds
    exactly. *)
Definition double_of_integer (y : Z) : double :=
  (y * 2 ^ (52 - Z.log2 y), Z.log2 y - 52).

(** The Number value of the decimal m * 10^e, as JSON.parse takes it
    from a literal. *)
Definition to_double (m e : Z) : option double :=
  let '(a, b) := scale 10 m 1 e in nearest_double a b.

Definition digits_count (x : Z) : Z :=
  Z.of_nat (length (digits (Z.to_N x))).

(** The n with 10^(n-1) <= a / b < 10^n. *)
Definition decimal_point (a b : Z) : Z :=
  if b <=? a then digits_count (a / b) else 1 - digits_count ((b - 1) / a).

Definition rounds_to (d : double) (s g : Z) : bool :=
  match to_double s g with
  | Some (M, E) => (M =? fst d) && (E =? snd d)
  | None => false
  end.

(** The decimal s * 10^g of [k] digits that Number::toString would print
    for [d] if [k] digits are enough to tell [d] from the other doubles:
    of the two decimals of that length around [d], one that rounds to
    [d], the nearer one when both do, and the even one of two that are
    equally near. *)
Definition digits_of_length (d : double) (k : Z) : option (Z * Z) :=
  let '(a, b) := scale 2 (fst d) 1 (snd d) in
  let g := decimal_point a b - k in
  let '(a', b') := scale 10 a b (- g) in
  let t := a' / b' in
  match rounds_to d t g, rounds_to d (t + 1) g with
  | true, true =>
      match 2 * (a' mod b') ?= b' with
      | Lt => Some (t, g)
      | Gt => Some (t + 1, g)
      | Eq => Some (if Z.even t then t else t + 1, g)
      end
  | true, false => Some (t, g)
  | false, true => Some (t + 1, g)
  | false, false => None
  end.

Fixpoint shortest_from (fuel : nat) (d : double) (k : Z) : option (Z * Z) :=
  match fuel with
  | O => None
  | S fuel' =>
      match digits_of_length d k with
      | Some r => Some r
      | None => shortest_from fuel' d (k + 1)
      end
  end.

(** The digits Number::toString prints for a positive double: as few as
    possible. The search stops at seventeen, the most that a binary64
    value needs. *)
Definition Number_digits (d : double) : option (Z * Z) := shortest_from 17 d 1.

(** s * 10^g = m * 10^e *)
Definition same_decimal (s g m e : Z) : bool :=
  let c := Z.min g e in s * 10 ^ (g - c) =? m * 10 ^ (e - c).

End Binary64.

(** ** 3.4 JSON.stringify *)

Definition hex_digit (d : N) : N := if d <? 10 then 48 + d else 87 + d.

(** [\uXXXX] with lower-case digits. *)
Definition unicode_escape (c : N) : jsstring :=
  [92; 117; hex_digit ((c / 4096) mod 16); hex_digit ((c / 256) mod 16);
   hex_digit ((c / 16) mod 16); hex_digit (c mod 16)].

(** QuoteJSONString on one code unit that is not a surrogate. *)
Definition quote_unit (c : N) : jsstring :=
  if c =? 34 then [92; 34]
  else if c =? 92 then [92; 92]
  else if c =? 8 then [92; 98]
  else if c =? 9 then [92; 116]
  else if c =? 10 then [92; 110]
  else if c =? 12 then [92; 102]
  else if c =? 13 then [92; 114]
  else if c <? 32 then unicode_escape c
  else [c].

(** A surrogate pair is copied; a lone surrogate is escaped. *)
Fixpoint quote_body (s : jsstring) : jsstring :=
  match s with
  | [] => []
  | c :: rest =>
      if is_high_surrogate c then
        match rest with
        | d :: rest' =>
            if is_low_surrogate d then c :: d :: quote_body rest'
            else unicode_escape c ++ quote_body rest
        | [] => unicode_escape c
        end
      else if is_low_surrogate c then unicode_escape c ++ quote_body rest
      else quote_unit c ++ quote_body rest
  end.

Definition quote (s : jsstring) : jsstring := 34 :: quote_body s ++ [34].

Fixpoint drop_zeros (l : list N) : list N :=
  match l with
  | c :: rest => if c =? 48 then drop_zeros rest else l
  | [] => []
  end.

(** A digit string without its trailing zeros. *)
Definition significant (ds : list N) : list N := rev (drop_zeros (rev ds)).

(** The layout of Number::toString in radix 10 for a positive number with
    the digits [s] (there are k of them, the last one not a zero) and the
    decimal point after [n] digits, so that the number is 0.s * 10^n:
    - k <= n <= 21: the digits and n - k zeros;
    - 0 < n <= 21: a point after the first n digits;
    - -6 < n <= 0: a zero, the point, -n zeros and the digits;
    - otherwise the exponent notation, the first digit, a point when more
      digits follow, the letter e, a sign and n - 1. *)
Definition number_layout (s : list N) (n : Z) : jsstring :=
  let k := Z.of_nat (length s) in
  if ((k <=? n) && (n <=? 21))%Z then s ++ repeat 48 (Z.to_nat (n - k))
  else if ((0 <? n) && (n <=? 21))%Z then
    firstn (Z.to_nat n) s ++ 46 :: skipn (Z.to_nat n) s
  else if ((-6 <? n) && (n <=? 0))%Z then
    48 :: 46 :: repeat 48 (Z.to_nat (- n)) ++ s
  else
    let x := (n - 1)%Z in
    let exponent :=
      101 :: (if (x <? 0)%Z then 45 else 43) :: digits (Z.abs_N x) in
    match s with
    | [] => exponent
    | [d] => d :: exponent
    | d :: more => d :: 46 :: more ++ exponent
    end.

(** The decimal [m * 10^e] in the layout of Number::toString: the digits
    of [m] without the trailing zeros, and a sign. This is [String(x)]
    when these digits are the ones that [Number_digits] finds for x. *)
Definition Number_toString (m e : Z) : jsstring :=
  if (m =? 0)%Z then [48]
  else
    let ds := digits (Z.abs_N m) in
    (if (m <? 0)%Z then [45] else [])
    ++ number_layout (significant ds) (Z.of_nat (length ds) + e).

(** JSON.stringify of the number that JavaScript holds for the decimal
    m * 10^e: the digits of the nearest double in the layout of
    Number::toString, 0 for either zero, and null when the decimal is
    beyond the doubles, where JavaScript holds an infinity. *)
Definition stringify_number (m e : Z) : jsstring :=
  match to_double (Z.abs m) e with
  | None => js "null"
  | Some (M, E) =>
      if (M =? 0)%Z then [48]
      else
        match Number_digits (M, E) with
        | Some (s, g) => Number_toString (if (m <? 0)%Z then (- s)%Z else s) g
        | None => Number_toString m e
        end
  end.

(** Modelled from the spec: the serialisation the upstream applies before
    base64, [JSON.stringify(v)] without indentation. *)
Fixpoint stringify (v : json) : jsstring :=
  match v with
  | JNull => js "null"
  | JBool true => js "true"
  | JBool false => js "false"
  | JNum m e => stringify_number m e
  | JStr s => quote s
  | JArr items =>
      91 :: (fix elements (l : list json) : jsstring :=
               match l with
               | [] => [93]
               | [x] => stringify x ++ [93]
               | x :: rest => stringify x ++ 44 :: elements rest
               end) items
  | JObj members =>
      123 :: (fix fields (l : jsobj json) : jsstring :=
                match l with
                | [] => [125]
                | [(k, x)] => quote k ++ 58 :: stringify x ++ [125]
                | (k, x) :: rest =>
                    quote k ++ 58 :: stringify x ++ 44 :: fields rest
                end) members
  end.

(** The text of the elements of an array after its opening bracket, and
    of the members of an object after its opening brace. *)
Definition stringify_elements : list json -> jsstring :=
  fix elements (l : list json) : jsstring :=
    match l with
    | [] => [93]
    | [x] => stringify x ++ [93]
    | x :: rest => stringify x ++ 44 :: elements rest
    end.

Definition stringify_fields : jsobj json -> jsstring :=
  fix fields (l : jsobj json) : jsstring :=
    match l with
    | [] => [125]
    | [(k, x)] => quote k ++ 58 :: stringify x ++ [125]
    | (k, x) :: rest => quote k ++ 58 :: stringify x ++ 44 :: fields rest
    end.

(** ** 3.5 JSON.parse *)

Definition is_json_ws (c : N) : bool :=
  (c =? 32) || (c =? 9) || (c =? 10) || (c =? 13).

Fixpoint skip_ws (s : jsstring) : jsstring :=
  match s with
  | c :: rest => if is_json_ws c then skip_ws rest else s
  | [] => []
  end.

Definition is_digit (c : N) : bool := (48 <=? c) && (c <=? 57).

(** The longest prefix of decimal digits and what follows it. *)
Fixpoint span_digits (s : jsstring) : list N * jsstring :=
  match s with
  | c :: rest =>
      if is_digit c
      then let '(ds, r) := span_digits rest in (c :: ds, r)
      else ([], s)
  | [] => ([], [])
  end.

Definition digits_value (ds : list N) : N :=
  fold_left (fun acc d => acc * 10 + (d - 48)) ds 0.

Definition hex_value (c : N) : option N :=
  if is_digit c then Some (c - 48)
  else if (97 <=? c) && (c <=? 102) then Some (c - 87)
  else if (65 <=? c) && (c <=? 70) then Some (c - 55)
  else None.

(** The character after a backslash, [u] apart. *)
Definition simple_escape (c : N) : option N :=
  if c =? 34 then Some 34
  else if c =? 92 then Some 92
  else if c =? 47 then Some 47
  else if c =? 98 then Some 8
  else if c =? 102 then Some 12
  else if c =? 110 then Some 10
  else if c =? 114 then Some 13
  else if c =? 116 then Some 9
  else None.

(** The characters of a string literal after its opening quote, up to
    and including the closing quote. *)
Fixpoint parse_string_body (s : jsstring) : option (jsstring * jsstring) :=
  match s with
  | [] => None
  | c :: rest =>
      if c =? 34 then Some ([], rest)
      else if c =? 92 then
        match rest with
        | [] => None
        | x :: rest1 =>
            if x =? 117 then
              match rest1 with
              | h1 :: h2 :: h3 :: h4 :: rest2 =>
                  match hex_value h1, hex_value h2, hex_value h3, hex_value h4 with
                  | Some a, Some b, Some c', Some d =>
                      match parse_string_body rest2 with
                      | Some (str, r) =>
                          Some (a * 4096 + b * 256 + c' * 16 + d :: str, r)
                      | None => None
                      end
                  | _, _, _, _ => None
                  end
              | _ => None
              end
            else
              match simple_escape x with
              | Some u =>
                  match parse_string_body rest1 with
                  | Some (str, r) => Some (u :: str, r)
                  | None => None
                  end
              | None => None
              end
        end
      else if c <? 32 then None
      else
        match parse_string_body rest with
        | Some (str, r) => Some (c :: str, r)
        | None => None
        end
  end.

(** What reading one code unit [c] and then [tail] amounts to. *)
Definition then_unit (c : N) (tail : jsstring) : option (jsstring * jsstring) :=
  match parse_string_body tail with
  | Some (str, r) => Some (c :: str, r)
  | None => None
  end.

Definition parse_int_part (s : jsstring) : option (list N * jsstring) :=
  match s with
  | c :: r =>
      if c =? 48 then Some ([48], r)
      else if is_digit c then Some (span_digits s)
      else None
  | [] => None
  end.

Definition parse_frac_part (s : jsstring) : option (list N * jsstring) :=
  match s with
  | c :: r =>
      if c =? 46 then
        match span_digits r with
        | ([], _) => None
        | (fs, r') => Some (fs, r')
        end
      else Some ([], s)
  | [] => Some ([], [])
  end.

Definition parse_exp_part (s : jsstring) : option (Z * jsstring) :=
  match s with
  | c :: r =>
      if (c =? 101) || (c =? 69) then
        let '(neg, r1) :=
          match r with
          | sg :: r' =>
              if sg =? 45 then (true, r')
              else if sg =? 43 then (false, r') else (false, r)
          | [] => (false, r)
          end in
        match span_digits r1 with
        | ([], _) => None
        | (es, r2) =>
            let x := Z.of_N (digits_value es) in
            Some (if neg then (- x)%Z else x, r2)
        end
      else Some (0%Z, s)
  | [] => Some (0%Z, [])
  end.

(** A number literal: [-? int frac? exp?]. *)
Definition parse_number (s : jsstring) : option (json * jsstring) :=
  let '(neg, s1) :=
    match s with
    | c :: r => if c =? 45 then (true, r) else (false, s)
    | [] => (false, s)
    end in
  match parse_int_part s1 with
  | None => None
  | Some (ds, s2) =>
      match parse_frac_part s2 with
      | None => None
      | Some (fs, s3) =>
          match parse_exp_part s3 with
          | None => None
          | Some (x, s4) =>
              let mag := Z.of_N (digits_value (ds ++ fs)) in
              Some (JNum (if neg then (- mag)%Z else mag)
                         (x - Z.of_nat (length fs))%Z, s4)
          end
      end
  end.

(** [expect lit s]: [s] without its prefix [lit]. *)
Fixpoint expect (lit s : jsstring) : option jsstring :=
  match lit, s with
  | [], _ => Some s
  | a :: lit', b :: s' => if a =? b then expect lit' s' else None
  | _ :: _, [] => None
  end.

(** Recursive descent; [fuel] bounds the nesting and the number of
    elements, and the length of the text is always enough. A value may be
    preceded by white space. Duplicate keys follow JavaScript: the last
    value wins. *)
Fixpoint parse_value (fuel : nat) (s : jsstring) : option (json * jsstring) :=
  match fuel with
  | O => None
  | S fuel' =>
      match skip_ws s with
      | [] => None
      | c :: rest =>
          if c =? 123 then
            match skip_ws rest with
            | d :: rest' =>
                if d =? 125 then Some (JObj [], rest')
                else
                  match parse_members fuel' rest with
                  | Some (kvs, r) => Some (JObj (obj_of_members kvs), r)
                  | None => None
                  end
            | [] => None
            end
          else if c =? 91 then
            match skip_ws rest with
            | d :: rest' =>
                if d =? 93 then Some (JArr [], rest')
                else
                  match parse_elements fuel' rest with
                  | Some (vs, r) => Some (JArr vs, r)
                  | None => None
                  end
            | [] => None
            end
          else if c =? 34 then
            match parse_string_body rest with
            | Some (str, r) => Some (JStr str, r)
            | None => None
            end
          else if c =? 116 then
            match expect (js "rue") rest with
            | Some r => Some (JBool true, r)
            | None => None
            end
          else if c =? 102 then
            match expect (js "alse") rest with
            | Some r => Some (JBool false, r)
            | None => None
            end
          else if c =? 110 then
            match expect (js "ull") rest with
            | Some r => Some (JNull, r)
            | None => None
            end
          else parse_number (c :: rest)
      end
  end

with parse_elements (fuel : nat) (s : jsstring)
  : option (list json * jsstring) :=
  match fuel with
  | O => None
  | S fuel' =>
      match parse_value fuel' s with
      | None => None
      | Some (v, r) =>
          match skip_ws r with
          | c :: r' =>
              if c =? 44 then
                match parse_elements fuel' r' with
                | Some (vs, r'') => Some (v :: vs, r'')
                | None => None
                end
              else if c =? 93 then Some ([v], r')
              else None
          | [] => None
          end
      end
  end

with parse_members (fuel : nat) (s : jsstring)
  : option (list (jsstring * json) * jsstring) :=
  match fuel with
  | O => None
  | S fuel' =>
      match skip_ws s with
      | q :: s1 =>
          if q =? 34 then
            match parse_string_body s1 with
            | None => None
            | Some (k, s2) =>
                match skip_ws s2 with
                | colon :: s3 =>
                    if colon =? 58 then
                      match parse_value fuel' s3 with
                      | None => None
                      | Some (v, r) =>
                          match skip_ws r with
                          | c :: r' =>
                              if c =? 44 then
                                match parse_members fuel' r' with
                                | Some (kvs, r'') => Some ((k, v) :: kvs, r'')
                                | None => None
                                end
                              else if c =? 125 then Some ([(k, v)], r')
                              else None
                          | [] => None
                          end
                      end
                    else None
                | [] => None
                end
            end
          else None
      | [] => None
      end
  end.

(** [JSON.parse(text)]: [None] is the SyntaxError. *)
Definition JSON_parse (text : jsstring) : option json :=
  match parse_value (S (length text)) text with
  | Some (v, rest) =>
      match skip_ws rest with
      | [] => Some v
      | _ :: _ => None
      end
  | None => None
  end.

(* ===================================================================== *)
(** * 4. Errors, promises and the outside world                           *)
(* ===================================================================== *)

(** An Error object: its message, [error.code] and, for an HTTP error of
    axios, [error.response.status]. *)
Record js_error := {
  err_message : jsstring;
  err_code : option jsstring;
  err_status : option Z
}.

(** [new Error(msg)] *)
Definition Error (msg : jsstring) : js_error :=
  {| err_message := msg; err_code := None; err_status := None |}.

Definition TypeError (msg : jsstring) : js_error := Error msg.
Definition SyntaxError (msg : jsstring) : js_error := Error msg.

(** External effects, in the order they are started. *)
Inductive event :=
| EvGet (url : jsstring)
| EvPost (url body : jsstring) (headers : list (jsstring * jsstring))
| EvSleep (ms : Z)
| EvCacheGet (key : jsstring)
| EvCacheSet (key : jsstring) (ttl : Z).

Inductive outcome (A : Type) :=
| Returned (a : A)
| Thrown (e : js_error).
Arguments Returned {A} a.
Arguments Thrown {A} e.

(** An asynchronous computation that has run to completion: the effects
    it started and how its promise settled. Console output is not
    recorded. *)
Definition M (A : Type) : Type := list event * outcome A.

Definition ret {A} (a : A) : M A := ([], Returned a).
Definition throw {A} (e : js_error) : M A := ([], Thrown e).
Definition emit (ev : event) : M unit := ([ev], Returned tt).
Definition lift {A} (o : outcome A) : M A := ([], o).

Definition bind {A B} (m : M A) (k : A -> M B) : M B :=
  match m with
  | (evs, Returned a) => let '(evs', r) := k a in (evs ++ evs', r)
  | (evs, Thrown e) => (evs, Thrown e)
  end.

(** [try { m } catch (error) { handler error }] *)
Definition try_catch {A} (m : M A) (handler : js_error -> M A) : M A :=
  match m with
  | (evs, Returned a) => (evs, Returned a)
  | (evs, Thrown e) => let '(evs', r) := handler e in (evs ++ evs', r)
  end.

Declare Scope async_scope.
Delimit Scope async_scope with async.
Notation "x <- c ;; k" := (bind c (fun x => k))
  (at level 100, c at next level, right associativity) : async_scope.
Notation "c ;;; k" := (bind c (fun _ => k))
  (at level 100, right associativity) : async_scope.
Local Open Scope async_scope.

(** The result of [Promise.allSettled] for one promise. *)
Inductive settled (A : Type) :=
| Fulfilled (value : A)
| Rejected (reason : js_error).
Arguments Fulfilled {A} value.
Arguments Rejected {A} reason.

(** Waiting for a promise inside [Promise.allSettled]: never throws. *)
Definition allSettled {A} (m : M A) : M (settled A) :=
  match m with
  | (evs, Returned a) => (evs, Returned (Fulfilled a))
  | (evs, Thrown e) => (evs, Returned (Rejected e))
  end.

(** [Promise.all] over promises started in list order; [f] receives the
    index of the element, as cheerio's [map] and [each] pass it. *)
Fixpoint all_from {A B} (f : nat -> A -> M B) (i : nat) (l : list A)
  : M (list B) :=
  match l with
  | [] => ret []
  | x :: rest =>
      y <- f i x ;;
      ys <- all_from f (S i) rest ;;
      ret (y :: ys)
  end.

(** ** 4.1 The page, as cheerio shows it to the scraper *)

(** An [a] element of a mirror list: its text and what
    [$(el).data('content')] returns ([None] when the attribute is
    missing; cheerio converts the attribute text, so the value need not
    be a string). *)
Record anchor := {
  a_text : jsstring;
  a_data_content : jsval
}.

(** An [a] element of the quality tabs: its text and its [href]. *)
Record tab := {
  tab_text : jsstring;
  tab_href : option jsstring
}.

Record download_anchor := {
  da_text : jsstring;
  da_href : option jsstring
}.

(** An [li] of the download section: the text of its [strong]
    descendants and its [a] descendants. *)
Record download_item := {
  li_strong_text : jsstring;
  li_anchors : list download_anchor
}.

(** What the selectors of [getEpisodeStreaming] and its helpers find in a
    loaded document. *)
Record document := {
  (** [$('.venutama h1').first().text()] *)
  venutama_h1_text : jsstring;
  (** [$('iframe').first().attr('src')] *)
  first_iframe_src : option jsstring;
  (** [$('.mirrorstream .tabs li a')] *)
  mirror_tabs : list tab;
  (** [$(selector)] for a selector computed from the page; cheerio throws
      on a selector it cannot parse *)
  select_anchors : jsstring -> outcome (list anchor);
  (** [$('.download ul li')] *)
  download_items : list download_item
}.

(** ** 4.2 Results *)

Record resolved_mirror := {
  name : jsstring;
  url : option jsstring      (* [None] is null *)
}.

(** What [extractMirrorLinks] resolves to: the empty array of its early
    return, or the object [mirrorsByQuality]. *)
Inductive mirror_links :=
| EmptyArray
| ByQuality (mirrorsByQuality : jsobj (list resolved_mirror)).

#[global] Instance mirror_links_Truthy : Truthy mirror_links := fun _ => true.

(** The own property [q] of the value, [None] when there is none. *)
Definition mirrors_get (q : jsstring) (m : mirror_links)
  : option (list resolved_mirror) :=
  match m with
  | EmptyArray => None
  | ByQuality o => obj_get q o
  end.

Record download_entry := {
  provider : jsstring;
  dl_url : option jsstring
}.

Definition download_map := jsobj (list download_entry).

#[global] Instance download_map_Truthy : Truthy download_map := fun _ => true.

Record streaming := {
  title : jsstring;
  iframe : option jsstring;   (* [None] is null *)
  mirrors : mirror_links;
  downloads : download_map
}.

(** ** 4.3 The world *)

Inductive net_result :=
| NetFail (e : js_error)                 (* no response: DNS, reset, timeout *)
| NetResponse (status : Z) (data : json). (* [data] as axios parsed it *)

Record response := {
  resp_status : Z;
  resp_data : json
}.

(** Every network call of one run is named, so that the answer to one
    call does not bind the answer to another, whatever the order in which
    concurrent calls are served. *)
Inductive call_site :=
| PageFetch (attempt : Z)
| NonceOfAssembly
| NonceOfAggregator
| Resolve (tier link : nat).

Record world := {
  net_get : call_site -> jsstring -> net_result;
  net_post : call_site -> jsstring -> jsstring
             -> list (jsstring * jsstring) -> net_result;
  (** [cheerio.load(data)] *)
  cheerio_load : json -> outcome document;
  (** [new URLSearchParams(obj).toString()]; it throws when a value has
      no string conversion *)
  form_urlencoded : jsobj json -> outcome jsstring;
  (** [Buffer.from(v)] for an array or an object [v]; [None] is the
      TypeError *)
  buffer_from_object : json -> option (list N);
  (** the order in which the per-tier promises of one page complete *)
  completion_order : list (jsstring * list resolved_mirror)
                     -> list (jsstring * list resolved_mirror);
  (** [new Date().toISOString()] *)
  now_iso : jsstring;
  (** [scrapers.getAnimeDetails(slug, sourceUrl, apiBaseUrl)], which this
      development does not open *)
  getAnimeDetails : jsstring -> jsstring -> jsstring -> M json
}.

(** A completion order only reorders. *)
Definition fair_world (w : world) : Prop :=
  forall l, Permutation (completion_order w l) l.

(* ===================================================================== *)
(** * 5. utils.js                                                         *)
(* ===================================================================== *)

(** [validateStatus: (status) => status < 500] *)
Definition validateStatus (status : Z) : bool := (status <? 500)%Z.

(** How axios settles a request: a response whose status passes
    [validateStatus] fulfils, any other rejects with an error that
    carries the response. *)
Definition axios_settle (r : net_result) : outcome response :=
  match r with
  | NetFail e => Thrown e
  | NetResponse status data =>
      if validateStatus status
      then Returned {| resp_status := status; resp_data := data |}
      else Thrown {| err_message :=
                       js "Request failed with status code " ++ digits_Z status;
                     err_code := Some (js "ERR_BAD_RESPONSE");
                     err_status := Some status |}
  end.

(** [httpClient.get(url)]; the response interceptor logs and rejects
    again. *)
Definition httpClient_get (w : world) (site : call_site) (target : jsstring)
  : M response :=
  ([EvGet target], axios_settle (net_get w site target)).

(** [httpClient.post(url, body, { headers })] *)
Definition httpClient_post (w : world) (site : call_site)
    (target body : jsstring) (headers : list (jsstring * jsstring))
  : M response :=
  ([EvPost target body headers],
   axios_settle (net_post w site target body headers)).

(** The class [[a-zA-Z0-9\-_]] of the slug pattern and of the cache keys. *)
Definition is_slug_unit (c : N) : bool :=
  ((97 <=? c) && (c <=? 122)) || ((65 <=? c) && (c <=? 90))
  || is_digit c || (c =? 45) || (c =? 95).

(** [String(arg).replace(/[^a-zA-Z0-9\-_]/g, '_')] *)
Definition sanitize_arg (arg : jsstring) : jsstring :=
  List.map (fun c => if is_slug_unit c then c else 95) arg.

(** The elements other than null and undefined: [filter(arg => arg != null)]
    and, on an array of objects and nulls, [filter(Boolean)]. *)
Fixpoint non_null {A} (args : list (option A)) : list A :=
  match args with
  | [] => []
  | Some a :: rest => a :: non_null rest
  | None :: rest => non_null rest
  end.

(** [generateCacheKey(prefix, ...args)]. The arguments of every caller are
    strings; [None] stands for null or undefined. *)
Definition generateCacheKey (prefix : jsstring) (args : list (option jsstring))
  : jsstring :=
  let sanitizedArgs := List.map sanitize_arg (non_null args) in
  prefix ++ js ":" ++ join (js ":") sanitizedArgs.

(** [s.replace(/\s+/g, ' ')]: every run of white space becomes one
    space; [in_run] tells that the previous code unit was white space. *)
Fixpoint collapse_from (in_run : bool) (s : jsstring) : jsstring :=
  match s with
  | [] => []
  | c :: rest =>
      if is_js_space c then
        if in_run then collapse_from true rest
        else 32 :: collapse_from true rest
      else c :: collapse_from false rest
  end.

Definition collapse_spaces (s : jsstring) : jsstring := collapse_from false s.

(** [<], [>], the double quote, the apostrophe and [&] *)
Definition is_markup_unit (c : N) : bool :=
  (c =? 60) || (c =? 62) || (c =? 34) || (c =? 39) || (c =? 38).

(** [sanitizeQuery(query)]: trim, drop the markup characters, collapse
    white space, keep the first 100 code units. *)
Definition sanitizeQuery (query : jsval) : jsstring :=
  match query with
  | Some (JStr q) =>
      firstn 100
        (collapse_spaces
           (List.filter (fun c => negb (is_markup_unit c)) (trim q)))
  | _ => []
  end.

(** The [{status, message}] pair of [handleError]. *)
Record error_info := {
  info_status : Z;
  info_message : jsstring
}.

(** [handleError(error)]: a timeout, then the status of a response, then
    a message that tells 'not found', then 500. *)
Definition handleError (error : js_error) : error_info :=
  if bool_decide (err_code error = Some (js "ECONNABORTED"))
     || includes (js "timeout") (err_message error)
  then {| info_status := 408;
          info_message :=
            js "Request Timeout: The target server took too long to respond." |}
  else
    let by_message :=
      if includes (js "not found") (toLowerCase (err_message error))
      then {| info_status := 404; info_message := js "Content Not Found" |}
      else {| info_status := 500; info_message := js "Internal Server Error" |}
    in
    match err_status error with
    | Some status =>
        if (status =? 404)%Z
        then {| info_status := 404;
                info_message := js "Content Not Found on the target server." |}
        else if (400 <=? status)%Z
        then {| info_status := status;
                info_message :=
                  js "The target server responded with status "
                  ++ digits_Z status ++ js "." |}
        else by_message
    | None => by_message
    end.

(** [/^[a-zA-Z0-9\-_]+$/.test(s)] *)
Definition slug_pattern (s : jsstring) : bool :=
  match s with
  | [] => false
  | _ :: _ => forallb is_slug_unit s
  end.

(** [slug && typeof slug === 'string' && /^[a-zA-Z0-9\-_]+$/.test(slug)]:
    a falsy [slug] is returned as it is. *)
Definition isValidSlug (slug : jsval) : jsval :=
  if negb (truthy slug) then slug
  else match slug with
       | Some (JStr s) => Some (JBool (slug_pattern s))
       | _ => Some (JBool false)
       end.

(** [s.replace(/^\/+/, '')] *)
Fixpoint drop_slashes (s : jsstring) : jsstring :=
  match s with
  | c :: rest => if c =? 47 then drop_slashes rest else s
  | [] => []
  end.

(** [buildUrl(baseUrl, path)] *)
Definition buildUrl (baseUrl path : jsstring) : jsstring :=
  let cleanBase := rev (drop_slashes (rev baseUrl)) in
  let cleanPath := drop_slashes path in
  cleanBase ++ js "/" ++ cleanPath.

(** [error.response?.status >= 400 && error.response?.status !== 429] *)
Definition no_retry_status (error : js_error) : bool :=
  match err_status error with
  | Some status => (400 <=? status)%Z && negb (status =? 429)%Z
  | None => false
  end.

(** The iterations [i, i+1, ...] of the loop of [retryRequest], [n] of
    them left. [requestFn i] is the run of the [i]-th call of the request
    function. Falling out of the loop returns undefined, [None]. *)
Fixpoint retry_loop {A} (requestFn : Z -> M A) (maxRetries delay : Z)
    (n : nat) (i : Z) : M (option A) :=
  match n with
  | O => ret None
  | S n' =>
      try_catch
        (a <- requestFn i ;; ret (Some a))
        (fun error =>
           if (i =? maxRetries)%Z then throw error
           else if no_retry_status error then throw error
           else
             emit (EvSleep (delay * (i + 1))) ;;;
             retry_loop requestFn maxRetries delay n' (i + 1)%Z)
  end.

(** [for (let i = 0; i <= maxRetries; i++)] runs [maxRetries + 1] times
    unless it is left early. *)
Definition retryRequest {A} (requestFn : Z -> M A) (maxRetries delay : Z)
  : M (option A) :=
  retry_loop requestFn maxRetries delay (Z.to_nat (maxRetries + 1)) 0%Z.

(* ===================================================================== *)
(** * 6. scraper.js                                                       *)
(* ===================================================================== *)

(** [settledPromise.status === 'fulfilled' ? settledPromise.value ||
    defaultValue : defaultValue] *)
Definition getSettledValue {A} `{Truthy A} (settledPromise : settled A)
    (defaultValue : A) : A :=
  match settledPromise with
  | Fulfilled value => js_or value defaultValue
  | Rejected _ => defaultValue
  end.

(** [v?.data]: undefined on null and on every value without that own
    property. *)
Definition get_data (v : json) : jsval :=
  match v with
  | JObj members => obj_get (js "data") members
  | _ => None
  end.

Definition null : jsval := Some JNull.

Definition ajax_url (sourceUrl : jsstring) : jsstring :=
  sourceUrl ++ js "/wp-admin/admin-ajax.php".

Definition NONCE_ACTION : jsstring := js "aa1208d27f29ca340c92c66d1926f13f".
Definition RESOLVE_ACTION : jsstring := js "2a3505c93b0035d3f455df82bf976b84".

Definition nonce_headers (sourceUrl : jsstring) : list (jsstring * jsstring) :=
  [(js "x-requested-with", js "XMLHttpRequest"); (js "origin", sourceUrl)].

(** The serialisation of [new URLSearchParams({ action })] *)
Definition nonce_body : jsstring := js "action=" ++ NONCE_ACTION.

(** [getNonce(sourceUrl)]; [site] names the call. *)
Definition getNonce (w : world) (site : call_site) (sourceUrl : jsstring)
  : M jsval :=
  try_catch
    (r <- httpClient_post w site (ajax_url sourceUrl) nonce_body
            (nonce_headers sourceUrl) ;;
     let data := resp_data r in
     ret (js_or (get_data data) null))
    (fun error => ret null).

(** [Buffer.from(v, 'base64')] for any value [v]. *)
Definition Buffer_from_base64 (w : world) (v : json) : outcome (list N) :=
  match v with
  | JStr s => Returned (base64_decode s)
  | JArr _ | JObj _ =>
      match buffer_from_object w v with
      | Some bytes => Returned bytes
      | None => Thrown (TypeError (js "The first argument must be of type string"))
      end
  | _ => Thrown (TypeError (js "The first argument must be of type string"))
  end.

(** The own enumerable properties that [{...v}] copies. *)
Definition spread (v : json) : jsobj json :=
  match v with
  | JObj members => members
  | JArr items =>
      (fix indexed (i : N) (l : list json) : jsobj json :=
         match l with
         | [] => []
         | x :: rest => (digits i, x) :: indexed (i + 1) rest
         end) 0 items
  | JStr s =>
      (fix indexed (i : N) (l : jsstring) : jsobj json :=
         match l with
         | [] => []
         | c :: rest => (digits i, JStr [c]) :: indexed (i + 1) rest
         end) 0 s
  | _ => []
  end.

(** The run of code units before the next double quote, and the rest. *)
Fixpoint span_unquoted (s : jsstring) : jsstring * jsstring :=
  match s with
  | c :: rest =>
      if c =? 34 then ([], s)
      else let '(v, r) := span_unquoted rest in (c :: v, r)
  | [] => ([], [])
  end.

(** [html.match(re)] for the pattern of the source: [src=], a double
    quote, a group of one or more code units other than the double quote,
    and a double quote. The result is the group of the leftmost match,
    [None] when there is no match. *)
Fixpoint match_src (html : jsstring) : option jsstring :=
  match html with
  | [] => None
  | _ :: rest =>
      match expect (js "src=" ++ [34]) html with
      | Some after =>
          match span_unquoted after with
          | (c :: v, _ :: _) => Some (c :: v)
          | _ => match_src rest
          end
      | None => match_src rest
      end
  end.

(** The parameters of the resolve request: [{...payload, nonce, action}] *)
Definition resolve_params (payload nonce : json) : jsobj json :=
  obj_define (js "action") (JStr RESOLVE_ACTION)
    (obj_define (js "nonce") nonce (spread payload)).

Definition resolve_headers (sourceUrl slug : jsstring)
  : list (jsstring * jsstring) :=
  [(js "x-requested-with", js "XMLHttpRequest");
   (js "origin", sourceUrl);
   (js "referer", buildUrl sourceUrl (js "/episode/" ++ slug))].

(** [fetchIframeUrl(content, nonce, sourceUrl, slug)]; [None] is null. *)
Definition fetchIframeUrl (w : world) (site : call_site) (content nonce : json)
    (sourceUrl slug : jsstring) : M (option jsstring) :=
  try_catch
    (bytes <- lift (Buffer_from_base64 w content) ;;
     payload <- match JSON_parse (utf8_decode bytes) with
                | Some v => ret v
                | None => throw (SyntaxError (js "Unexpected token in JSON"))
                end ;;
     body <- lift (form_urlencoded w (resolve_params payload nonce)) ;;
     r <- httpClient_post w site (ajax_url sourceUrl) body
            (resolve_headers sourceUrl slug) ;;
     let data := resp_data r in
     match get_data data with
     | Some d =>
         if negb (truthy d) then ret None
         else
           bytes' <- lift (Buffer_from_base64 w d) ;;
           let html := utf8_decode bytes' in
           ret (match_src html)
     | None => ret None
     end)
    (fun error => ret None).

(** The callback of [$(targetId + ' ul li a').map(async (_, el) => ...)]
    for the [li]-th link of the [ti]-th tab. *)
Definition resolve_link (w : world) (nonce : json) (sourceUrl slug : jsstring)
    (ti li : nat) (el : anchor) : M (option resolved_mirror) :=
  let content := a_data_content el in
  match content with
  | Some c =>
      if negb (truthy c) then ret None
      else
        u <- fetchIframeUrl w (Resolve ti li) c nonce sourceUrl slug ;;
        ret (Some {| name := trim (a_text el); url := u |})
  | None => ret None
  end.

(** [String(targetId)] for the value of [attr('href')] *)
Definition string_of_attr (a : option jsstring) : jsstring :=
  match a with
  | Some s => s
  | None => js "undefined"
  end.

(** The callback of [$('.mirrorstream .tabs li a').each((_, tab) => ...)]
    together with the promise it pushes: the quality and the links that
    [then] will store under it. *)
Definition resolve_tab (w : world) (doc : document) (nonce : json)
    (sourceUrl slug : jsstring) (ti : nat) (t : tab)
  : M (jsstring * list resolved_mirror) :=
  let quality := trim (tab_text t) in
  let targetId := tab_href t in
  els <- lift (select_anchors doc (string_of_attr targetId ++ js " ul li a")) ;;
  links <- all_from (resolve_link w nonce sourceUrl slug ti) 0 els ;;
  ret (quality, non_null links).

(** [o[k] = v] for each pair of [done], in order. *)
Definition store_all {V} (done : list (jsstring * V)) (o : jsobj V) : jsobj V :=
  fold_left (fun o ql => obj_assign (fst ql) (snd ql) o) done o.

(** [mirrorsByQuality[quality] = links] for each tab, in the order in
    which the tabs complete. *)
Definition store_links (done : list (jsstring * list resolved_mirror))
  : jsobj (list resolved_mirror) :=
  store_all done [].

(** [extractMirrorLinks($, sourceUrl, slug)] *)
Definition extractMirrorLinks (w : world) (doc : document)
    (sourceUrl slug : jsstring) : M mirror_links :=
  nonce <- getNonce w NonceOfAggregator sourceUrl ;;
  match nonce with
  | Some n =>
      if negb (truthy n) then ret EmptyArray
      else
        tiers <- all_from (resolve_tab w doc n sourceUrl slug) 0
                   (mirror_tabs doc) ;;
        ret (ByQuality (store_links (completion_order w tiers)))
  | None => ret EmptyArray
  end.

(** [extractDownloadLinks($)] *)
Definition extractDownloadLinks (doc : document) : M download_map :=
  ret (fold_left
         (fun downloads li =>
            let quality := trim (li_strong_text li) in
            if negb (truthy quality) then downloads
            else obj_assign quality
                   (List.map (fun a => {| provider := trim (da_text a);
                                          dl_url := da_href a |})
                             (li_anchors li))
                   downloads)
         (download_items doc) []).

(** The page fetch of [getEpisodeStreaming]:
    [utils.retryRequest(() => httpClient.get(url))] with the default
    [maxRetries = 2] and [delay = 1000]. *)
Definition fetch_episode_page (w : world) (slug sourceUrl : jsstring)
  : M (option response) :=
  let target := buildUrl sourceUrl (js "/episode/" ++ slug) in
  retryRequest (fun i => httpClient_get w (PageFetch i) target) 2 1000.

(** [getEpisodeStreaming(slug, sourceUrl)]. Reading [response.data] of
    an undefined response would be a TypeError. *)
Definition getEpisodeStreaming (w : world) (slug sourceUrl : jsstring)
  : M streaming :=
  try_catch
    (fetched <- fetch_episode_page w slug sourceUrl ;;
     match fetched with
     | None => throw (TypeError (js "Cannot read properties of undefined"))
     | Some r =>
         doc <- lift (cheerio_load w (resp_data r)) ;;
         let title := trim (venutama_h1_text doc) in
         if negb (truthy title) then throw (Error (js "Episode not found"))
         else
           nonce <- allSettled (getNonce w NonceOfAssembly sourceUrl) ;;
           mirrorLinks <- allSettled (extractMirrorLinks w doc sourceUrl slug) ;;
           downloadLinks <- allSettled (extractDownloadLinks doc) ;;
           ret {| title := title;
                  iframe := match first_iframe_src doc with
                            | Some s => if truthy s then Some s else None
                            | None => None
                            end;
                  mirrors := getSettledValue mirrorLinks EmptyArray;
                  downloads := getSettledValue downloadLinks [] |}
     end)
    (fun error => throw error).

(* ===================================================================== *)
(** * 7. routes.js                                                        *)
(* ===================================================================== *)

Inductive api_data :=
| AnimeData (details : json)
| EpisodeData (s : streaming).

(** The JSON bodies the routes send. *)
Inductive api_body :=
| ErrorBody (error : jsstring) (success : bool) (timestamp : option jsstring)
| DataBody (success : bool) (slug : jsstring) (data : api_data)
           (timestamp : jsstring).

Definition body_success (b : api_body) : bool :=
  match b with
  | ErrorBody _ success _ => success
  | DataBody success _ _ _ => success
  end.

Record http_response := {
  res_status : Z;
  res_body : api_body
}.

(** [res.json(body)] answers with status 200. *)
Definition res_json (body : api_body) : http_response :=
  {| res_status := 200; res_body := body |}.

(** The state a request handler leaves behind: its answer, the cache and
    the effects it started. *)
Record handled := {
  answer : http_response;
  cache_after : gmap jsstring api_body;
  effects : list event
}.

(** [withCache(req, res, cacheKey, cacheDuration, asyncFunction)]. An
    entry past its time to live is absent from [cache]. *)
Definition withCache (w : world) (cache : gmap jsstring api_body)
    (cacheKey : jsstring) (cacheDuration : Z) (asyncFunction : M api_body)
  : handled :=
  match cache !! cacheKey with
  | Some cached =>
      {| answer := res_json cached; cache_after := cache;
         effects := [EvCacheGet cacheKey] |}
  | None =>
      match asyncFunction with
      | (evs, Returned result) =>
          if body_success result
          then {| answer := res_json result;
                  cache_after := <[cacheKey := result]> cache;
                  effects := EvCacheGet cacheKey :: evs
                             ++ [EvCacheSet cacheKey cacheDuration] |}
          else {| answer := res_json result; cache_after := cache;
                  effects := EvCacheGet cacheKey :: evs |}
      | (evs, Thrown error) =>
          let errorInfo := handleError error in
          {| answer := {| res_status := info_status errorInfo;
                          res_body := ErrorBody (info_message errorInfo) false
                                        (Some (now_iso w)) |};
             cache_after := cache;
             effects := EvCacheGet cacheKey :: evs |}
      end
  end.

(** config.js *)
Record config := {
  sourceUrl : jsstring;
  app_baseUrl : jsstring;
  ttl_anime : Z;
  ttl_episode : Z
}.

Definition default_config : config :=
  {| sourceUrl := js "https://otakudesu.cloud";
     app_baseUrl := js "http://localhost:3000";
     ttl_anime := 300;
     ttl_episode := 180 |}.

(** [String(slug)] once [isValidSlug] has accepted it. *)
Definition slug_text (slug : jsval) : jsstring :=
  match slug with
  | Some (JStr s) => s
  | _ => []
  end.

(** [router.get('/anime/:slug', ...)] with [req.params.slug = slug] *)
Definition route_anime (w : world) (cfg : config)
    (cache : gmap jsstring api_body) (slug : jsval) : handled :=
  if negb (truthy (isValidSlug slug)) then
    {| answer := {| res_status := 400;
                    res_body := ErrorBody (js "Invalid anime slug") false None |};
       cache_after := cache; effects := [] |}
  else
    let cacheKey := generateCacheKey (js "anime") [Some (slug_text slug)] in
    withCache w cache cacheKey (ttl_anime cfg)
      (details <- getAnimeDetails w (slug_text slug) (sourceUrl cfg)
                    (app_baseUrl cfg) ;;
       ret (DataBody true (slug_text slug) (AnimeData details) (now_iso w))).

(** [router.get('/episode/:slug', ...)] with [req.params.slug = slug] *)
Definition route_episode (w : world) (cfg : config)
    (cache : gmap jsstring api_body) (slug : jsval) : handled :=
  if negb (truthy (isValidSlug slug)) then
    {| answer := {| res_status := 400;
                    res_body := ErrorBody (js "Invalid episode slug") false None |};
       cache_after := cache; effects := [] |}
  else
    let cacheKey := generateCacheKey (js "episode") [Some (slug_text slug)] in
    withCache w cache cacheKey (ttl_episode cfg)
      (streaming <- getEpisodeStreaming w (slug_text slug) (sourceUrl cfg) ;;
       ret (DataBody true (slug_text slug) (EpisodeData streaming) (now_iso w))).

(* ===================================================================== *)
(** * 8. The payload codec                                                *)
(* ===================================================================== *)

(** The Payload Decoder of [fetchIframeUrl]:
    [JSON.parse(Buffer.from(content, 'base64').toString('utf-8'))] for a
    string [content]; [None] is the SyntaxError of JSON.parse. *)
Definition decodePayload (content : jsstring) : option json :=
  JSON_parse (utf8_decode (base64_decode content)).

(** Modelled from the spec: the encoding whose inverse the decoder is,
    base64 of the UTF-8 bytes of the serialisation. *)
Definition encodePayload (v : json) : jsstring :=
  base64_encode (utf8_encode (stringify v)).

(** Strings of code units below 128. *)
Definition ascii_only (s : list N) : Prop := Forall (fun c => c < 128) s.

Fixpoint distinct (keys : list jsstring) : bool :=
  match keys with
  | [] => true
  | k :: rest => negb (existsb (jsstring_eqb k) rest) && distinct rest
  end.

(** ** 8.1 The numbers of a payload *)

Section PayloadNumbers.

Local Open Scope Z_scope.

(** The decimal is in the range of the doubles: the number that
    JavaScript holds for it is finite. Every decimal literal that is not
    too large is such a number, whatever its digits: 1.5, 1e21, 2^53 + 1
    (for which JavaScript holds 2^53), 0.1000000000000000055 (held as
    0.1). The digits of every double are found within seventeen; where
    the double is not zero, that they are found is a part of the
    condition. *)
Definition js_number (m e : Z) : bool :=
  match to_double (Z.abs m) e with
  | Some (M, E) =>
      (M =? 0) || match Number_digits (M, E) with
                  | Some _ => true
                  | None => false
                  end
  | None => false
  end.

(** The decimal is the one JavaScript prints for the double nearest to
    it. *)
Definition prints_back (m e : Z) : bool :=
  match to_double m e with
  | Some (M, E) =>
      (0 <? M)
      && match Number_digits (M, E) with
         | Some (s, g) => same_decimal s g m e
         | None => false
         end
  | None => false
  end.

(** The spelling in which [parse_number] gives the decimal of a literal
    that Number::toString wrote: an integer of at most 21 digits has the
    exponent 0, and a number that is printed with a point or with an
    exponent has a last digit that is not a zero (1.5 is [15] and [-1],
    1e21 is [1] and [21], 100 is [100] and [0]). *)
Definition number_form (m e : Z) : bool :=
  let len := Z.of_nat (length (digits (Z.abs_N m))) in
  ((e =? 0) && (len <=? 21))
  || (negb (Z.abs_N m mod 10 =? 0)%N && ((e <? 0) || (21 <? len + e))).

(** The decimal is zero or, up to its sign, the decimal that JavaScript
    prints for a double, in any spelling (1.5 is [15] and [-1], or [150]
    and [-2]). The exact digits of 2^60 are not such a decimal:
    JavaScript prints 1152921504606847000 for it. *)
Definition printed_number (m e : Z) : bool :=
  (m =? 0) || prints_back (Z.abs m) e.

(** The two decimals are the same number of JavaScript: both are held as
    a zero, or they have one sign and one double. *)
Definition same_number (m e m' e' : Z) : bool :=
  match to_double (Z.abs m) e, to_double (Z.abs m') e' with
  | Some (M, E), Some (M', E') =>
      ((M =? 0) && (M' =? 0))
      || ((M =? M') && (E =? E') && Bool.eqb (m <? 0) (m' <? 0))
  | _, _ => false
  end.

End PayloadNumbers.


(** The decimal that [parse_number] reads from the text that
    [Number_toString] writes for m * 10^e: the same number, with the
    exponent 0 when it is printed as an integer and without trailing
    zeros when it is not. *)
Definition Number_literal (m e : Z) : Z * Z :=
  if (m =? 0)%Z then (0, 0)%Z
  else
    let ds := digits (Z.abs_N m) in
    let s := significant ds in
    let k := Z.of_nat (length s) in
    let n := (Z.of_nat (length ds) + e)%Z in
    let signed (x : N) := if (m <? 0)%Z then (- Z.of_N x)%Z else Z.of_N x in
    if ((k <=? n) && (n <=? 21))%Z
    then (signed (digits_value (s ++ repeat 48 (Z.to_nat (n - k)))), 0%Z)
    else (signed (digits_value s), (n - k)%Z).

(** The number that [parse_number] reads from the text that
    [stringify_number] writes. *)
Definition reprinted_number (m e : Z) : json :=
  match to_double (Z.abs m) e with
  | None => JNull
  | Some (M, E) =>
      if (M =? 0)%Z then JNum 0 0
      else
        let '(m', e') :=
          match Number_digits (M, E) with
          | Some (s, g) => Number_literal (if (m <? 0)%Z then (- s)%Z else s) g
          | None => Number_literal m e
          end in
        JNum m' e'
  end.

(** ** 8.2 The values that are read back *)

(** The values of JavaScript that JSON holds: null, booleans, finite
    numbers, strings, arrays, and objects, which list each key once. *)
Fixpoint js_value (v : json) : bool :=
  match v with
  | JNum m e => js_number m e
  | JArr items => forallb js_value items
  | JObj members =>
      distinct (List.map fst members)
      && forallb (fun kv => js_value (snd kv)) members
  | _ => true
  end.

(** Every object lists each key once. *)
Fixpoint distinct_keys (v : json) : bool :=
  match v with
  | JArr items => forallb distinct_keys items
  | JObj members =>
      distinct (List.map fst members)
      && forallb (fun kv => distinct_keys (snd kv)) members
  | _ => true
  end.

(** The value is written as JavaScript prints it: every number is a
    decimal that JavaScript prints, in the spelling in which
    [parse_number] reads it, and every object lists each key once. *)
Fixpoint as_printed (v : json) : bool :=
  match v with
  | JNum m e => number_form m e && printed_number m e
  | JArr items => forallb as_printed items
  | JObj members =>
      distinct (List.map fst members)
      && forallb (fun kv => as_printed (snd kv)) members
  | _ => true
  end.

(** The value that is read from the serialisation: every number as it
    is read from the text printed for it. *)
Fixpoint reprinted (v : json) : json :=
  match v with
  | JNum m e => reprinted_number m e
  | JArr items => JArr (List.map reprinted items)
  | JObj members =>
      JObj (List.map (fun kv => (fst kv, reprinted (snd kv))) members)
  | _ => v
  end.

(** Equality of JSON values in JavaScript: the same structure, the same
    keys in the same order, the same strings and booleans, and the same
    numbers, however their decimals are written. *)
Fixpoint same_value (a b : json) : bool :=
  match a, b with
  | JNull, JNull => true
  | JBool x, JBool y => Bool.eqb x y
  | JNum m e, JNum m' e' => same_number m e m' e'
  | JStr s, JStr s' => jsstring_eqb s s'
  | JArr xs, JArr ys =>
      (fix all2 (xs ys : list json) : bool :=
         match xs, ys with
         | [], [] => true
         | x :: xs', y :: ys' => same_value x y && all2 xs' ys'
         | _, _ => false
         end) xs ys
  | JObj xs, JObj ys =>
      (fix all2 (xs ys : jsobj json) : bool :=
         match xs, ys with
         | [], [] => true
         | (k, x) :: xs', (k', y) :: ys' =>
             jsstring_eqb k k' && same_value x y && all2 xs' ys'
         | _, _ => false
         end) xs ys
  | _, _ => false
  end.

(** The JSON values whose numbers are integers that a double holds
    exactly. *)
Fixpoint plain_json (v : json) : bool :=
  match v with
  | JNum m e => (e =? 0)%Z && (Z.abs m <=? 9007199254740991)%Z
  | JArr items => forallb plain_json items
  | JObj members =>
      distinct (List.map fst members)
      && forallb (fun kv => plain_json (snd kv)) members
  | _ => true
  end.

(** A bound on the fuel that reading back a value takes. *)
Fixpoint json_size (v : json) : nat :=
  match v with
  | JArr items => S (fold_right (fun x n => S (json_size x + n)) O items)
  | JObj members =>
      S (fold_right (fun kv n => S (json_size (snd kv) + n)) O members)
  | _ => O
  end.

(** What may follow a value inside a JSON text: nothing, a comma, or a
    closing bracket or brace. *)
Definition delimited (rest : jsstring) : Prop :=
  match rest with
  | [] => True
  | c :: _ => c = 44 \/ c = 93 \/ c = 125
  end.

(** What stops a run of digits. *)
Definition ends_digits (rest : jsstring) : Prop :=
  match rest with
  | [] => True
  | c :: _ => is_digit c = false
  end.

(** [text] is a number literal that begins with a digit and that
    [parse_number] takes apart, before [rest], into an integer part, a
    fraction and an exponent that together denote 0.s * 10^n. *)
Definition number_parts (text s : jsstring) (n : Z) (rest : jsstring)
  : Prop :=
  exists tl c ds fs x s2 s3,
    text = c :: tl /\ is_digit c = true
    /\ parse_int_part (c :: tl ++ rest) = Some (ds, s2)
    /\ parse_frac_part s2 = Some (fs, s3)
    /\ parse_exp_part s3 = Some (x, rest)
    /\ digits_value (ds ++ fs) = digits_value s
    /\ (x - Z.of_nat (length fs) = n - Z.of_nat (length s))%Z.

(** Reading back the serialisation of [v], whatever follows it. *)
Definition reads_back (v : json) : Prop :=
  distinct_keys v = true ->
  forall fuel rest, (json_size v < fuel)%nat -> delimited rest ->
  parse_value fuel (stringify v ++ rest) = Some (reprinted v, rest).

(** The effects of the calls [i, i+1, ..., i+k] of a request function
    with the pauses of [retryRequest] between them: after the call
    number [j] the pause is [delay * (j + 1)]. *)
Fixpoint attempts_log {A} (requestFn : Z -> M A) (delay : Z) (k : nat) (i : Z)
  : list event :=
  match k with
  | O => fst (requestFn i)
  | S k' =>
      fst (requestFn i)
      ++ EvSleep (delay * (i + 1)) :: attempts_log requestFn delay k' (i + 1)%Z
  end.

(* ===================================================================== *)
(** * 9. Sample inputs                                                    *)
(* ===================================================================== *)

(** A request that fails twice without a response and then succeeds. *)
Definition flaky_request (i : Z) : M N :=
  if (i <? 2)%Z
  then ([EvGet (js "https://otakudesu.cloud/episode/x")],
        Thrown (Error (js "socket hang up")))
  else ([EvGet (js "https://otakudesu.cloud/episode/x")], Returned 7).

(** A world in which nothing answers. *)
Definition offline_world : world :=
  {| net_get := fun _ _ => NetFail (Error (js "getaddrinfo ENOTFOUND"));
     net_post := fun _ _ _ _ => NetFail (Error (js "getaddrinfo ENOTFOUND"));
     cheerio_load := fun _ => Thrown (Error (js "no document"));
     form_urlencoded := fun _ => Returned (js "nonce=n0nce&action=resolve");
     buffer_from_object := fun _ => None;
     completion_order := fun done => done;
     now_iso := js "2024-01-01T00:00:00.000Z";
     getAnimeDetails := fun _ _ _ => throw (Error (js "Anime not found")) |}.

(** [w] with other answers to POST requests. *)
Definition with_post (w : world)
    (post : call_site -> jsstring -> jsstring -> list (jsstring * jsstring)
            -> net_result) : world :=
  {| net_get := net_get w;
     net_post := post;
     cheerio_load := cheerio_load w;
     form_urlencoded := form_urlencoded w;
     buffer_from_object := buffer_from_object w;
     completion_order := completion_order w;
     now_iso := now_iso w;
     getAnimeDetails := getAnimeDetails w |}.

(** The upstream refuses the nonce request with status 403 and a JSON
    body that has a [data] field, as WordPress error bodies have. *)
Definition forbidden_world : world :=
  with_post offline_world
    (fun _ _ _ _ => NetResponse 403 (JObj [(js "success", JBool false);
                                           (js "data", JStr (js "forbidden"))])).

Definition iframe_html : jsstring :=
  js "<iframe src=" ++ [34] ++ js "https://desustream.me/e/1" ++ [34]
  ++ js " allowfullscreen></iframe>".

(** The upstream hands out the nonce [n0nce] and resolves every mirror to
    the same player. *)
Definition resolving_world : world :=
  with_post offline_world
    (fun site _ _ _ =>
       match site with
       | Resolve _ _ =>
           NetResponse 200
             (JObj [(js "data", JStr (base64_encode (utf8_encode iframe_html)))])
       | _ => NetResponse 200 (JObj [(js "data", JStr (js "n0nce"))])
       end).

(** ** Occurrences of the pattern of [match_src] *)

(** [html] holds [src=], a double quote, the non-empty text [v] without
    a double quote, and a double quote. *)
Definition src_attribute (html v : jsstring) : Prop :=
  exists before after,
    html = before ++ js "src=" ++ 34 :: v ++ 34 :: after
    /\ v <> [] /\ ~ In 34 v.

(** An episode page with two quality tiers. In the first tier the
    second link carries a token that does not decode and the third link
    carries none. *)
Definition episode_page : document :=
  {| venutama_h1_text := js "  One Piece Episode 1 Subtitle Indonesia ";
     first_iframe_src := Some (js "https://desustream.me/e/0");
     mirror_tabs :=
       [ {| tab_text := js " 360p "; tab_href := Some (js "#m360p") |};
         {| tab_text := js "720p"; tab_href := Some (js "#m720p") |} ];
     select_anchors := fun selector =>
       if jsstring_eqb selector (js "#m360p ul li a") then
         Returned
           [ {| a_text := js "desudesu";
                a_data_content :=
                  Some (JStr (encodePayload (JObj [(js "id", JNum 186 0);
                                                   (js "i", JNum 0 0);
                                                   (js "q", JStr (js "360p"))]))) |};
             {| a_text := js "otakustream";
                a_data_content := Some (JStr (js "!!!")) |};
             {| a_text := js "soon"; a_data_content := None |} ]
       else if jsstring_eqb selector (js "#m720p ul li a") then
         Returned
           [ {| a_text := js " desudesu ";
                a_data_content :=
                  Some (JStr (encodePayload (JObj [(js "id", JNum 186 0);
                                                   (js "i", JNum 0 0);
                                                   (js "q", JStr (js "720p"))]))) |} ]
       else Thrown (Error (js "Unmatched selector"));
     download_items :=
       [ {| li_strong_text := js "Mp4 360p";
            li_anchors := [ {| da_text := js "ZippyShare";
                               da_href := Some (js "https://zippy.example/1") |} ] |} ] |}.

(** What the upstream serves for a slug it does not know: a page without
    the episode heading. *)
Definition missing_page : document :=
  {| venutama_h1_text := js " ";
     first_iframe_src := None;
     mirror_tabs := [];
     select_anchors := fun _ => Returned [];
     download_items := [] |}.

(** [w] once the page fetch succeeds and the HTML loads as [doc]. *)
Definition serving (doc : document) (w : world) : world :=
  {| net_get := fun _ _ => NetResponse 200 (JStr (js "<!DOCTYPE html>"));
     net_post := net_post w;
     cheerio_load := fun _ => Returned doc;
     form_urlencoded := form_urlencoded w;
     buffer_from_object := buffer_from_object w;
     completion_order := completion_order w;
     now_iso := now_iso w;
     getAnimeDetails := getAnimeDetails w |}.

(** ** The links of one tier *)

(** The elements of a list with their positions, counted from [i]. *)
Definition indexed_from {A} (i : nat) (l : list A) : list (nat * A) :=
  combine (seq i (length l)) l.

(** A link that carries a truthy [data-content]. *)
Definition has_content (el : nat * anchor) : bool :=
  truthy (a_data_content (snd el)).

(** [link] is the entry of the [li]-th link [el] of the [ti]-th tab: its
    name is the trimmed text of the link and its url is what the Mirror
    Resolver returned for the content of the link. *)
Definition entry_of (w : world) (nonce : json) (sourceUrl slug : jsstring)
    (ti : nat) (el : nat * anchor) (link : resolved_mirror) : Prop :=
  name link = trim (a_text (snd el))
  /\ exists content,
       a_data_content (snd el) = Some content
       /\ snd (fetchIframeUrl w (Resolve ti (fst el)) content nonce sourceUrl slug)
          = Returned (url link).

(** The selector that [extractMirrorLinks] builds for a tab. *)
Definition links_selector (t : tab) : jsstring :=
  string_of_attr (tab_href t) ++ js " ul li a".

(** The key under which a tab is stored. *)
Definition quality_of (t : tab) : jsstring := trim (tab_text t).

(* ===================================================================== *)
(** * 10. The episode scraper: measures and further samples              *)
(* ===================================================================== *)

(** A POST request to the ajax endpoint of the source. *)
Definition ajax_post (src : jsstring) (ev : event) : Prop :=
  exists body headers, ev = EvPost (ajax_url src) body headers.

(** The number of links of a tab that carry a content, none when the
    selector of the tab cannot be parsed. *)
Definition content_links (doc : document) (t : tab) : nat :=
  match select_anchors doc (links_selector t) with
  | Returned els =>
      length (List.filter (fun el => truthy (a_data_content el)) els)
  | Thrown _ => 0
  end.

(** An episode page whose second tab points nowhere that cheerio can
    parse. *)
Definition broken_page : document :=
  {| venutama_h1_text := js "One Piece Episode 2";
     first_iframe_src := Some [];
     mirror_tabs :=
       [ {| tab_text := js "360p"; tab_href := Some (js "#m360p") |};
         {| tab_text := js "480p"; tab_href := Some (js "a[") |} ];
     select_anchors := select_anchors episode_page;
     download_items :=
       [ {| li_strong_text := js "Mp4 360p";
            li_anchors := [ {| da_text := js "ZippyShare";
                               da_href := Some (js "https://zippy.example/1") |} ] |};
         {| li_strong_text := js " ";
            li_anchors := [] |};
         {| li_strong_text := js " Mp4 360p ";
            li_anchors := [ {| da_text := js " Mega ";
                               da_href := None |} ] |} ] |}.

(** The upstream answers every page request with status 503. *)
Definition unavailable_world : world :=
  {| net_get := fun _ _ => NetResponse 503 (JStr (js "Service Unavailable"));
     net_post := net_post offline_world;
     cheerio_load := cheerio_load offline_world;
     form_urlencoded := form_urlencoded offline_world;
     buffer_from_object := buffer_from_object offline_world;
     completion_order := completion_order offline_world;
     now_iso := now_iso offline_world;
     getAnimeDetails := getAnimeDetails offline_world |}.

(** The callback of [$('.download ul li').each((_, li) => ...)]. *)
Definition download_step (downloads : download_map) (li : download_item)
  : download_map :=
  let quality := trim (li_strong_text li) in
  if negb (truthy quality) then downloads
  else obj_assign quality
         (List.map (fun a => {| provider := trim (da_text a);
                                dl_url := da_href a |})
                   (li_anchors li))
         downloads.

(** What a slug route may do to the cache: it changes no key but [key],
    stores there only the successful body it answers with, stores
    nothing when it answers with another status than 200, and leaves a
    cache that held only successful bodies in that state. *)
Definition cache_discipline (cache : gmap jsstring api_body) (key : jsstring)
    (h : handled) : Prop :=
  (forall k, k <> key -> cache_after h !! k = cache !! k)
  /\ (forall b, cache_after h !! key = Some b ->
        cache !! key = Some b
        \/ (body_success b = true /\ answer h = res_json b))
  /\ (res_status (answer h) <> 200%Z -> cache_after h = cache)
  /\ (map_Forall (fun _ b => body_success b = true) cache ->
      map_Forall (fun _ b => body_success b = true) (cache_after h)).

(* ===================================================================== *)
(** * 11. utils.js: the slug of a link                                    *)
(* ===================================================================== *)

(** The [type] argument of [parseSlugFromLink]: 'anime' (the default) or
    'episode'. *)
Inductive link_type := AnimeLink | EpisodeLink.

Definition type_text (type : link_type) : jsstring :=
  match type with
  | AnimeLink => js "anime"
  | EpisodeLink => js "episode"
  end.

(** The longest run of code units of the slug class at the start of a
    text, and the rest. *)
Fixpoint span_slug (s : jsstring) : jsstring * jsstring :=
  match s with
  | c :: rest =>
      if is_slug_unit c
      then let '(v, r) := span_slug rest in (c :: v, r)
      else ([], s)
  | [] => ([], [])
  end.

(** [url.match(re)] for the pattern that [parseSlugFromLink] builds: the
    text [prefix] followed by a group of one or more code units of the
    slug class. The result is the group of the leftmost match, [None]
    when there is no match. *)
Fixpoint match_slug (prefix url : jsstring) : option jsstring :=
  match url with
  | [] => None
  | _ :: rest =>
      match expect prefix url with
      | Some after =>
          match span_slug after with
          | (c :: v, _) => Some (c :: v)
          | ([], _) => match_slug prefix rest
          end
      | None => match_slug prefix rest
      end
  end.

(** [parseSlugFromLink(url, type)] for the value of an [href] attribute;
    [None] is undefined for the argument and null for the result. *)
Definition parseSlugFromLink (url : option jsstring) (type : link_type)
  : option jsstring :=
  match url with
  | Some u =>
      if negb (truthy u) then None
      else match_slug (js "/" ++ type_text type ++ js "/") u
  | None => None
  end.

(* ===================================================================== *)
(** * 12. scraper.js: lists, search and details                           *)
(* ===================================================================== *)

(** ** 12.1 encodeURIComponent *)

(** The code units that [encodeURIComponent] leaves as they are: letters,
    digits and [- _ . ! ~ * ' ( )]. *)
Definition is_uri_unreserved (c : N) : bool :=
  ((97 <=? c) && (c <=? 122)) || ((65 <=? c) && (c <=? 90)) || is_digit c
  || (c =? 45) || (c =? 95) || (c =? 46) || (c =? 33) || (c =? 126)
  || (c =? 42) || (c =? 39) || (c =? 40) || (c =? 41).

Definition upper_hex_digit (d : N) : N := if d <? 10 then 48 + d else 55 + d.

(** [%XX] for a byte. *)
Definition percent (b : N) : jsstring :=
  [37; upper_hex_digit (b / 16); upper_hex_digit (b mod 16)].

Definition percent_encode (bytes : list N) : jsstring := flat_map percent bytes.

(** [encodeURIComponent(s)]; [None] is the URIError that a lone surrogate
    raises. *)
Fixpoint encodeURIComponent (s : jsstring) : option jsstring :=
  match s with
  | [] => Some []
  | c :: rest =>
      if is_uri_unreserved c then
        match encodeURIComponent rest with
        | Some t => Some (c :: t)
        | None => None
        end
      else if is_low_surrogate c then None
      else if is_high_surrogate c then
        match rest with
        | d :: rest' =>
            if is_low_surrogate d then
              match encodeURIComponent rest' with
              | Some t =>
                  Some (percent_encode
                          (utf8_bytes (65536 + (c - 55296) * 1024 + (d - 56320)))
                        ++ t)
              | None => None
              end
            else None
        | [] => None
        end
      else
        match encodeURIComponent rest with
        | Some t => Some (percent_encode (utf8_bytes c) ++ t)
        | None => None
        end
  end.

Definition URIError (msg : jsstring) : js_error := Error msg.

(** ** 12.2 The pages, as cheerio shows them to the scrapers *)

(** An [li] of [$('.venz ul li')] on a list page. *)
Record list_entry := {
  jdlflm_text : jsstring;              (* [$(el).find('.jdlflm').text()] *)
  list_href : option jsstring;         (* [$(el).find('a').attr('href')] *)
  list_img_src : option jsstring;      (* [$(el).find('img').attr('src')] *)
  epz_text : jsstring;                 (* [$(el).find('.epz').text()] *)
  epztipe_text : jsstring;             (* [$(el).find('.epztipe').text()] *)
  newnime_text : jsstring              (* [$(el).find('.newnime').text()] *)
}.

(** An [li] of [$('ul.chivsrc > li')] on a search page. *)
Record search_entry := {
  h2_a_text : jsstring;                (* [$(el).find('h2 a').text()] *)
  h2_a_href : option jsstring;         (* [$(el).find('h2 a').attr('href')] *)
  search_img_src : option jsstring;    (* [$(el).find('img').attr('src')] *)
  (** the texts of the [a] descendants of [$(el).find('.set').first()] *)
  set0_a_texts : list jsstring;
  set1_text : jsstring;                (* [$(el).find('.set').eq(1).text()] *)
  set2_text : jsstring                 (* [$(el).find('.set').eq(2).text()] *)
}.

(** A [p] of [main.find('.infozingle p')]. *)
Record info_row := {
  row_b_text : jsstring;               (* [$(el).find('b').text()] *)
  row_text : jsstring;                 (* [$(el).text()] *)
  row_a_texts : list jsstring          (* the texts of [$(el).find('a')] *)
}.

(** An [li] of [main.find('.episodelist ul li')]. *)
Record episode_li := {
  ep_href : option jsstring;           (* [$(li).find('a').attr('href')] *)
  ep_a_text : jsstring;                (* [$(li).find('a').text()] *)
  zeebr_text : jsstring                (* [$(li).find('.zeebr').text()] *)
}.

(** A [div] of [$('#recommend-anime-series .isi-anime')]. *)
Record recommend_div := {
  judul_href : option jsstring;   (* [$(div).find('.judul-anime a').attr('href')] *)
  judul_text : jsstring;          (* [$(div).find('.judul-anime a').text()] *)
  rec_img_src : option jsstring   (* [$(div).find('img').attr('src')] *)
}.

(** What the selectors of [extractBasicInfo] and [extractEpisodes] find
    below [main = $('.venser')]. *)
Record venser := {
  jdlrx_h1_text : jsstring;            (* [main.find('.jdlrx h1').text()] *)
  fotoanime_img_src : option jsstring; (* [main.find('.fotoanime img').attr('src')] *)
  sinopc_text : jsstring;              (* [main.find('.sinopc').text()] *)
  infozingle_rows : list info_row;
  episodelist_items : list episode_li
}.

(** What the selectors of the list, search and details scrapers find in
    a loaded document. *)
Record page := {
  venz_items : list list_entry;
  chivsrc_items : list search_entry;
  (** [$('.venser')], [None] when its length is 0 *)
  venser_main : option venser;
  recommend_divs : list recommend_div
}.

(** The parts of the runtime that these scrapers use besides the
    [world]: [cheerio.load(data)] for their pages and
    [String.prototype.toLowerCase], which the labels of a page (any
    Unicode text) need in full. *)
Record runtime := {
  load : json -> outcome page;
  lower_case : jsstring -> jsstring
}.

(** ** 12.3 Results *)

(** An element of the result of [getAnimeList]. *)
Record list_item := {
  item_title : jsstring;
  item_slug : jsstring;
  item_image : option jsstring;        (* [None] is null *)
  item_link : jsstring;
  item_episodes : jsstring;
  item_score : jsstring;
  item_date : jsstring
}.

(** An element of the result of [searchAnime]. *)
Record search_item := {
  found_title : jsstring;
  found_slug : jsstring;
  found_link : jsstring;
  found_image : option jsstring;
  found_genres : list jsstring;
  found_status : jsstring;
  found_rating : jsstring
}.

(** An element of the result of [extractEpisodes]. *)
Record episode_item := {
  episode_title : jsstring;
  episode_slug : jsstring;
  episode_link : jsstring;
  episode_date : option jsstring
}.

(** An element of the result of [extractRecommendations]. *)
Record recommendation := {
  rec_title : jsstring;
  rec_slug : jsstring;
  rec_link : jsstring;
  rec_image : option jsstring
}.

#[global] Instance info_Truthy : Truthy (jsobj json) := fun _ => true.
#[global] Instance episodes_Truthy : Truthy (list episode_item) := fun _ => true.
#[global] Instance recommendations_Truthy : Truthy (list recommendation) :=
  fun _ => true.

(** [v || null] for the value of an attribute. *)
Definition or_null (v : option jsstring) : option jsstring :=
  match v with
  | Some s => if truthy s then Some s else None
  | None => None
  end.

Definition json_of_text (v : option jsstring) : json :=
  match v with
  | Some s => JStr s
  | None => JNull
  end.

Definition json_of_episode (e : episode_item) : json :=
  JObj [(js "title", JStr (episode_title e));
        (js "slug", JStr (episode_slug e));
        (js "link", JStr (episode_link e));
        (js "date", json_of_text (episode_date e))].

Definition json_of_recommendation (r : recommendation) : json :=
  JObj [(js "title", JStr (rec_title r));
        (js "slug", JStr (rec_slug r));
        (js "link", JStr (rec_link r));
        (js "image", json_of_text (rec_image r))].

(** ** 12.4 The scrapers *)

(** [s.replace(lit, '')] for a non-empty text [lit]: the first occurrence
    is removed. *)
Fixpoint remove_first (lit s : jsstring) : jsstring :=
  match expect lit s with
  | Some rest => rest
  | None =>
      match s with
      | [] => []
      | c :: s' => c :: remove_first lit s'
      end
  end.

(** [s.replace(/\s+/g, '_')] *)
Fixpoint underscore_from (in_run : bool) (s : jsstring) : jsstring :=
  match s with
  | [] => []
  | c :: rest =>
      if is_js_space c then
        if in_run then underscore_from true rest
        else 95 :: underscore_from true rest
      else c :: underscore_from false rest
  end.

(** The run of code units before the first colon, and the rest. *)
Fixpoint span_label (s : jsstring) : jsstring * jsstring :=
  match s with
  | c :: rest =>
      if c =? 58 then ([], s)
      else let '(v, r) := span_label rest in (c :: v, r)
  | [] => ([], [])
  end.

(** [s.replace(/^[^:]+:\s*/i, '')]: a non-empty label, its colon and the
    white space after it are removed from the start. *)
Definition strip_label (s : jsstring) : jsstring :=
  match span_label s with
  | (_ :: _, _ :: rest) => drop_spaces rest
  | _ => s
  end.

(** The page fetch of the scrapers:
    [utils.retryRequest(() => httpClient.get(url))]. *)
Definition fetch_page (w : world) (target : jsstring) : M (option response) :=
  retryRequest (fun i => httpClient_get w (PageFetch i) target) 2 1000.

(** The scrapers of the catalogue. They are in a module of their own
    because [getAnimeDetails] is also the name of the field through
    which the [world] hands the details to the route. *)
Module scrapers.

(** The callback of [main.find('.infozingle p').each((_, el) => ...)]. *)
Definition info_step (rt : runtime) (info : jsobj json) (el : info_row)
  : jsobj json :=
  let key := underscore_from false
               (lower_case rt (trim (remove_first (js ":") (row_b_text el)))) in
  let val := trim (strip_label (row_text el)) in
  if jsstring_eqb key (js "genre") then
    obj_assign (js "genres")
      (JArr (List.map (fun g => JStr (trim g)) (row_a_texts el))) info
  else if truthy key && truthy val then obj_assign key (JStr val) info
  else info.

(** [extractBasicInfo($, main)] *)
Definition extractBasicInfo (rt : runtime) (main : venser) : M (jsobj json) :=
  let info :=
    [(js "title", JStr (trim (jdlrx_h1_text main)));
     (js "poster", json_of_text (or_null (fotoanime_img_src main)));
     (js "synopsis",
      JStr (js_or (trim (sinopc_text main)) (js "No synopsis available.")))] in
  ret (fold_left (info_step rt) (infozingle_rows main) info).

(** The callback of [main.find('.episodelist ul li').map((_, li) => ...)]. *)
Definition episode_of (apiBaseUrl : jsstring) (li : episode_li)
  : option episode_item :=
  let epSlug := parseSlugFromLink (ep_href li) EpisodeLink in
  match epSlug with
  | Some s =>
      if negb (truthy s) then None
      else Some {| episode_title := trim (ep_a_text li);
                   episode_slug := s;
                   episode_link := buildUrl apiBaseUrl (js "/episode/" ++ s);
                   episode_date :=
                     or_null (Some (trim (zeebr_text li))) |}
  | None => None
  end.

(** [extractEpisodes($, main, apiBaseUrl)] *)
Definition extractEpisodes (main : venser) (apiBaseUrl : jsstring)
  : M (list episode_item) :=
  let episodes := non_null (List.map (episode_of apiBaseUrl)
                              (episodelist_items main)) in
  ret (rev episodes).

(** The callback of [$('#recommend-anime-series .isi-anime').map(...)]. *)
Definition recommendation_of (apiBaseUrl : jsstring) (div : recommend_div)
  : option recommendation :=
  let recSlug := parseSlugFromLink (judul_href div) AnimeLink in
  match recSlug with
  | Some s =>
      if negb (truthy s) then None
      else Some {| rec_title := trim (judul_text div);
                   rec_slug := s;
                   rec_link := buildUrl apiBaseUrl (js "/anime/" ++ s);
                   rec_image := or_null (rec_img_src div) |}
  | None => None
  end.

(** [extractRecommendations($, apiBaseUrl)] *)
Definition extractRecommendations (pg : page) (apiBaseUrl : jsstring)
  : M (list recommendation) :=
  ret (non_null (List.map (recommendation_of apiBaseUrl) (recommend_divs pg))).

(** [getAnimeDetails(slug, sourceUrl, apiBaseUrl)] *)
Definition getAnimeDetails (w : world) (rt : runtime)
    (slug sourceUrl apiBaseUrl : jsstring) : M json :=
  let target := buildUrl sourceUrl (js "/anime/" ++ slug) in
  try_catch
    (fetched <- fetch_page w target ;;
     match fetched with
     | None => throw (TypeError (js "Cannot read properties of undefined"))
     | Some r =>
         pg <- lift (load rt (resp_data r)) ;;
         match venser_main pg with
         | None =>
             throw (Error (js "Anime not found (page structure mismatch)"))
         | Some main =>
             basicInfo <- allSettled (extractBasicInfo rt main) ;;
             episodes <- allSettled (extractEpisodes main apiBaseUrl) ;;
             recommendations <-
               allSettled (extractRecommendations pg apiBaseUrl) ;;
             let result :=
               obj_define (js "recommendations")
                 (JArr (List.map json_of_recommendation
                          (getSettledValue recommendations [])))
                 (obj_define (js "episodes")
                    (JArr (List.map json_of_episode
                             (getSettledValue episodes [])))
                    (getSettledValue basicInfo [])) in
             if negb (truthy (obj_get (js "title") result))
             then throw (Error (js "Anime not found (title could not be extracted)"))
             else ret (JObj result)
         end
     end)
    (fun error => throw error).

(** The callback of [$('.venz ul li').map((_, el) => ...)]. *)
Definition list_item_of (apiBaseUrl : jsstring) (el : list_entry)
  : option list_item :=
  let slug := parseSlugFromLink (list_href el) AnimeLink in
  if negb (truthy (jdlflm_text el)) || negb (truthy slug) then None
  else
    match slug with
    | Some s =>
        Some {| item_title := trim (jdlflm_text el);
                item_slug := s;
                item_image := or_null (list_img_src el);
                item_link := buildUrl apiBaseUrl (js "/anime/" ++ s);
                item_episodes := js_or (trim (epz_text el)) (js "N/A");
                item_score := js_or (trim (epztipe_text el)) (js "N/A");
                item_date := js_or (trim (newnime_text el)) (js "N/A") |}
    | None => None
    end.

(** [getAnimeList(path, sourceUrl, apiBaseUrl)] *)
Definition getAnimeList (w : world) (rt : runtime)
    (path sourceUrl apiBaseUrl : jsstring) : M (list list_item) :=
  let target := buildUrl sourceUrl (js "/" ++ path ++ js "/") in
  try_catch
    (fetched <- fetch_page w target ;;
     match fetched with
     | None => throw (TypeError (js "Cannot read properties of undefined"))
     | Some r =>
         pg <- lift (load rt (resp_data r)) ;;
         ret (non_null (List.map (list_item_of apiBaseUrl) (venz_items pg)))
     end)
    (fun error => throw error).

(** The callback of [$('ul.chivsrc > li').map((_, el) => ...)]. *)
Definition search_item_of (apiBaseUrl : jsstring) (el : search_entry)
  : option search_item :=
  let slug := parseSlugFromLink (h2_a_href el) AnimeLink in
  if negb (truthy slug) || negb (truthy (h2_a_text el)) then None
  else
    match slug with
    | Some s =>
        Some {| found_title := trim (h2_a_text el);
                found_slug := s;
                found_link := buildUrl apiBaseUrl (js "/anime/" ++ s);
                found_image := or_null (search_img_src el);
                found_genres := List.map trim (set0_a_texts el);
                found_status :=
                  js_or (trim (remove_first (js "Status :") (set1_text el)))
                    (js "Unknown");
                found_rating :=
                  js_or (trim (remove_first (js "Rating :") (set2_text el)))
                    (js "N/A") |}
    | None => None
    end.

(** The URL of a search, [None] when [encodeURIComponent] throws. *)
Definition search_url (sourceUrl query : jsstring) : option jsstring :=
  match encodeURIComponent query with
  | Some q => Some (sourceUrl ++ js "/?s=" ++ q ++ js "&post_type=anime")
  | None => None
  end.

(** [searchAnime(query, sourceUrl, apiBaseUrl)] *)
Definition searchAnime (w : world) (rt : runtime)
    (query sourceUrl apiBaseUrl : jsstring) : M (list search_item) :=
  match search_url sourceUrl query with
  | None => throw (URIError (js "URI malformed"))
  | Some target =>
      try_catch
        (fetched <- fetch_page w target ;;
         match fetched with
         | None => throw (TypeError (js "Cannot read properties of undefined"))
         | Some r =>
             pg <- lift (load rt (resp_data r)) ;;
             ret (non_null (List.map (search_item_of apiBaseUrl)
                              (chivsrc_items pg)))
         end)
        (fun error => throw error)
  end.

(** [getOngoingAnime(sourceUrl, apiBaseUrl)] *)
Definition getOngoingAnime (w : world) (rt : runtime)
    (sourceUrl apiBaseUrl : jsstring) : M (list list_item) :=
  getAnimeList w rt (js "ongoing-anime") sourceUrl apiBaseUrl.

(** [getCompletedAnime(sourceUrl, apiBaseUrl)] *)
Definition getCompletedAnime (w : world) (rt : runtime)
    (sourceUrl apiBaseUrl : jsstring) : M (list list_item) :=
  getAnimeList w rt (js "complete-anime") sourceUrl apiBaseUrl.

End scrapers.

(** [w] with the details scraper of this development behind the field
    that the route calls. *)
Definition with_scrapers (w : world) (rt : runtime) : world :=
  {| net_get := net_get w;
     net_post := net_post w;
     cheerio_load := cheerio_load w;
     form_urlencoded := form_urlencoded w;
     buffer_from_object := buffer_from_object w;
     completion_order := completion_order w;
     now_iso := now_iso w;
     getAnimeDetails := scrapers.getAnimeDetails w rt |}.

(** ** 12.5 Measures *)

(** The details page [pg] gives no title: it has no main element, or
    the title that [extractBasicInfo] ends with is empty. *)
Definition lacks_title (rt : runtime) (pg : page) : Prop :=
  match venser_main pg with
  | None => True
  | Some main =>
      match snd (scrapers.extractBasicInfo rt main) with
      | Returned info => truthy (obj_get (js "title") info) = false
      | Thrown _ => False
      end
  end.

(** A text without white space and without markup characters. *)
Definition plain_text (s : jsstring) : Prop :=
  Forall (fun c => is_js_space c = false /\ is_markup_unit c = false) s.

(** A UTF-16 code unit that is not a surrogate. *)
Definition scalar_unit (c : N) : Prop :=
  c < 55296 \/ (57343 < c /\ c < 65536).

(** No field that [extractBasicInfo] sets, the title apart, is an empty
    text. *)
Definition filled (info : jsobj json) : Prop :=
  forall k v, obj_get k info = Some v -> k <> js "title" -> v <> JStr [].


(* ===================================================================== *)
(** * 13. routes.js: the list routes                                      *)
(* ===================================================================== *)

(** The JSON bodies of /search, /ongoing and /completed. *)
Inductive list_body :=
| QueryError (error message : jsstring) (success : bool)
| ListError (error : jsstring) (success : bool) (timestamp : jsstring)
| SearchBody (success : bool) (query : jsstring) (data : list search_item)
             (timestamp : jsstring)
| ListBody (success : bool) (data : list list_item) (timestamp : jsstring).

Definition list_success (b : list_body) : bool :=
  match b with
  | QueryError _ _ success => success
  | ListError _ success _ => success
  | SearchBody success _ _ _ => success
  | ListBody success _ _ => success
  end.

(** What a handler of a list route leaves behind: the status and the
    body of its answer, the cache and the effects it started. *)
Record list_handled := {
  list_status : Z;
  list_answer : list_body;
  list_cache_after : gmap jsstring list_body;
  list_effects : list event
}.

(** [withCache(req, res, cacheKey, cacheDuration, asyncFunction)] for the
    bodies of the list routes. The cache of the service is one; its keys
    begin with the name of the route, so the entries of these routes are
    kept apart from those of the slug routes here. *)
Definition withCache_list (w : world) (cache : gmap jsstring list_body)
    (cacheKey : jsstring) (cacheDuration : Z) (asyncFunction : M list_body)
  : list_handled :=
  match cache !! cacheKey with
  | Some cached =>
      {| list_status := 200; list_answer := cached; list_cache_after := cache;
         list_effects := [EvCacheGet cacheKey] |}
  | None =>
      match asyncFunction with
      | (evs, Returned result) =>
          if list_success result
          then {| list_status := 200; list_answer := result;
                  list_cache_after := <[cacheKey := result]> cache;
                  list_effects := EvCacheGet cacheKey :: evs
                                  ++ [EvCacheSet cacheKey cacheDuration] |}
          else {| list_status := 200; list_answer := result;
                  list_cache_after := cache;
                  list_effects := EvCacheGet cacheKey :: evs |}
      | (evs, Thrown error) =>
          let errorInfo := handleError error in
          {| list_status := info_status errorInfo;
             list_answer := ListError (info_message errorInfo) false (now_iso w);
             list_cache_after := cache;
             list_effects := EvCacheGet cacheKey :: evs |}
      end
  end.

(** [config.cache.routeCacheTTL] for the list routes *)
Record list_ttl := {
  ttl_search : Z;
  ttl_ongoing : Z;
  ttl_completed : Z
}.

Definition default_list_ttl : list_ttl :=
  {| ttl_search := 600; ttl_ongoing := 600; ttl_completed := 3600 |}.

(** [router.get('/search', ...)] with [req.query.q = q] *)
Definition route_search (w : world) (rt : runtime) (cfg : config)
    (ttl : list_ttl) (cache : gmap jsstring list_body) (q : jsval)
  : list_handled :=
  let query := sanitizeQuery q in
  if negb (truthy query) || (length query <? 2)%nat then
    {| list_status := 400;
       list_answer :=
         QueryError (js "Invalid or short query")
           (js "Search query must be at least 2 characters.") false;
       list_cache_after := cache; list_effects := [] |}
  else
    let cacheKey := generateCacheKey (js "search") [Some query] in
    withCache_list w cache cacheKey (ttl_search ttl)
      (results <- scrapers.searchAnime w rt query (sourceUrl cfg)
                    (app_baseUrl cfg) ;;
       ret (SearchBody true query results (now_iso w))).

(** [router.get('/ongoing', ...)] *)
Definition route_ongoing (w : world) (rt : runtime) (cfg : config)
    (ttl : list_ttl) (cache : gmap jsstring list_body) : list_handled :=
  let cacheKey := generateCacheKey (js "ongoing") [] in
  withCache_list w cache cacheKey (ttl_ongoing ttl)
    (results <- scrapers.getOngoingAnime w rt (sourceUrl cfg) (app_baseUrl cfg) ;;
     ret (ListBody true results (now_iso w))).

(** [router.get('/completed', ...)] *)
Definition route_completed (w : world) (rt : runtime) (cfg : config)
    (ttl : list_ttl) (cache : gmap jsstring list_body) : list_handled :=
  let cacheKey := generateCacheKey (js "completed") [] in
  withCache_list w cache cacheKey (ttl_completed ttl)
    (results <- scrapers.getCompletedAnime w rt (sourceUrl cfg) (app_baseUrl cfg) ;;
     ret (ListBody true results (now_iso w))).

(* ===================================================================== *)
(** * 14. Sample pages                                                    *)
(* ===================================================================== *)


(** A list page: the second entry has no title and the third one links
    to no anime. *)
Definition sample_list : list list_entry :=
  [ {| jdlflm_text := js " One Piece ";
       list_href := Some (js "https://otakudesu.cloud/anime/one-piece-sub-indo/");
       list_img_src := Some (js "https://otakudesu.cloud/op.jpg");
       epz_text := js " Episode 1100";
       epztipe_text := js " ";
       newnime_text := js "" |};
    {| jdlflm_text := js "";
       list_href := Some (js "https://otakudesu.cloud/anime/bleach/");
       list_img_src := None;
       epz_text := js "Episode 1";
       epztipe_text := js "8.1";
       newnime_text := js "01 Jan" |};
    {| jdlflm_text := js "Batch";
       list_href := Some (js "https://otakudesu.cloud/batch/");
       list_img_src := None;
       epz_text := js "";
       epztipe_text := js "";
       newnime_text := js "" |} ].

(** The main element of a details page with two episodes, the older one
    first, and a row labelled as the episode list is keyed. *)
Definition sample_main : venser :=
  {| jdlrx_h1_text := js " One Piece Subtitle Indonesia ";
     fotoanime_img_src := Some (js "");
     sinopc_text := js "";
     infozingle_rows :=
       [ {| row_b_text := js "Total Episode:";
            row_text := js "Total Episode: Unknown";
            row_a_texts := [] |};
         {| row_b_text := js "Episodes";
            row_text := js "Episodes: many";
            row_a_texts := [] |};
         {| row_b_text := js "Genre";
            row_text := js "Genre: Action, Adventure";
            row_a_texts := [js "Action"; js " Adventure "] |} ];
     episodelist_items :=
       [ {| ep_href := Some (js "https://otakudesu.cloud/episode/op-episode-1/");
            ep_a_text := js "One Piece Episode 1";
            zeebr_text := js "1 Januari, 2020" |};
         {| ep_href := Some (js "https://otakudesu.cloud/batch/op-batch/");
            ep_a_text := js "One Piece Batch";
            zeebr_text := js "" |};
         {| ep_href := Some (js "https://otakudesu.cloud/episode/op-episode-2/");
            ep_a_text := js "One Piece Episode 2";
            zeebr_text := js " " |} ] |}.

Definition sample_page : page :=
  {| venz_items := sample_list;
     chivsrc_items :=
       [ {| h2_a_text := js "One Piece";
            h2_a_href := Some (js "https://otakudesu.cloud/anime/one-piece-sub-indo/");
            search_img_src := Some (js "");
            set0_a_texts := [js "Action"; js " Adventure"];
            set1_text := js "Status : ";
            set2_text := js "Rating : 8.72" |};
         {| h2_a_text := js "";
            h2_a_href := Some (js "https://otakudesu.cloud/anime/bleach/");
            search_img_src := None;
            set0_a_texts := [];
            set1_text := js "";
            set2_text := js "" |} ];
     venser_main := Some sample_main;
     recommend_divs :=
       [ {| judul_href := Some (js "https://otakudesu.cloud/anime/bleach-sub-indo/");
            judul_text := js "Bleach";
            rec_img_src := None |} ] |}.

(** A page that the upstream serves for a slug it does not know. *)
Definition unknown_page : page :=
  {| venz_items := []; chivsrc_items := []; venser_main := None;
     recommend_divs := [] |}.

(** Every document loads as [pg]; lower case as in [toLowerCase]. *)
Definition showing (pg : page) : runtime :=
  {| load := fun _ => Returned pg; lower_case := toLowerCase |}.


(* ===================================================================== *)
(** * Properties                                                          *)
(* ===================================================================== *)

Example base64_decode_demo :
  base64_decode (js "eyJpZCI6MX0=") = js "{" ++ [34] ++ js "id" ++ [34] ++ js ":1}".
Proof. vm_compute. reflexivity. Qed.

Example base64_encode_demo :
  base64_encode (js "Man") = js "TWFu" /\ base64_encode (js "Ma") = js "TWE="
  /\ base64_encode (js "M") = js "TQ==".
Proof. vm_compute. auto. Qed.

Example utf8_decode_demo :
  utf8_decode [226; 130; 172; 240; 159; 152; 128; 255; 65] =
  [8364; 55357; 56832; 65533; 65].
Proof. vm_compute. reflexivity. Qed.

Example digits_demo : digits 0 = js "0" /\ digits 1234567890 = js "1234567890"
  /\ digits_Z (-42) = js "-42".
Proof. vm_compute. auto. Qed.

Example JSON_parse_demo :
  JSON_parse (js " { " ++ quote (js "id") ++ js " : [1, -2.50e3, true, null, "
              ++ quote (js "a") ++ js "],"
              ++ quote (js "id") ++ js ":{} } ")
  = Some (JObj [(js "id", JObj [])])
  /\ JSON_parse (js "[1,]") = None
  /\ JSON_parse (js "01") = None
  /\ JSON_parse (js "[1, -2.50e3, 1E+2]")
     = Some (JArr [JNum 1 0; JNum (-250) 1; JNum 1 2])
  /\ JSON_parse (js "null") = Some JNull
  /\ JSON_parse (34 :: js "aA\n" ++ [34]) = Some (JStr (js "aA" ++ [10])).
Proof. vm_compute. repeat split. Qed.

Example Number_toString_demo :
  Number_toString 0 0 = js "0" /\ Number_toString (-186) 0 = js "-186"
  /\ Number_toString 15 (-1) = js "1.5"
  /\ Number_toString 12345 (-2) = js "123.45"
  /\ Number_toString 1 (-6) = js "0.000001"
  /\ Number_toString 123 (-9) = js "1.23e-7"
  /\ Number_toString 5 (-324) = js "5e-324"
  /\ Number_toString 100000000000000000000 0 = js "100000000000000000000"
  /\ Number_toString 1 21 = js "1e+21"
  /\ Number_toString 12345 17 = js "1.2345e+21"
  /\ Number_toString 30000000000000004 (-17) = js "0.30000000000000004"
  /\ Number_toString 17976931348623157 292 = js "1.7976931348623157e+308".
Proof. vm_compute. repeat split. Qed.

(** Literals and their doubles: 0.1, 2^53 + 1 (a tie, which goes to
    2^53), the least and the greatest double, and a literal beyond the
    greatest. *)
Example to_double_demo :
  to_double 1 (-1) = Some (7205759403792794, -56)%Z
  /\ to_double 9007199254740993 0 = Some (4503599627370496, 1)%Z
  /\ to_double 5 (-324) = Some (1, -1074)%Z
  /\ to_double 2 (-324) = Some (0, -1074)%Z
  /\ to_double 17976931348623157 292 = Some (9007199254740991, 971)%Z
  /\ to_double 18 307 = None.
Proof. vm_compute. repeat split. Qed.

(** The digits printed for 0.1, for 0.1 + 0.2, for the least double and
    its double, for 2^70 and for the number nearest to 10^23. *)
Example Number_digits_demo :
  Number_digits (7205759403792794, -56)%Z = Some (1, -1)%Z
  /\ Number_digits (5404319552844596, -54)%Z = Some (30000000000000004, -17)%Z
  /\ Number_digits (1, -1074)%Z = Some (5, -324)%Z
  /\ Number_digits (2, -1074)%Z = Some (10, -324)%Z
  /\ Number_digits (4503599627370496, 18)%Z = Some (11805916207174113, 5)%Z
  /\ Number_digits (5960464477539062, 24)%Z = Some (10, 22)%Z.
Proof. vm_compute. repeat split. Qed.

(** Decimals that JavaScript prints, among them 100, 1.5 and 10^21 in a
    second spelling, and decimals that it does not print: two whose
    double prints with fewer digits, an integer between two doubles, the
    exact digits of 2^60, a decimal that is not the nearest of its
    length to its double, and a decimal beyond the doubles. *)
Example printed_number_demo :
  forallb (fun '(m, e) => printed_number m e)
    [(0, 0); (186, 0); (-186, 0); (15, -1); (3, -1); (30000000000000004, -17);
     (1, -6); (123, -9); (5, -324); (1, -323); (22250738585072014, -324);
     (9007199254740991, 0); (9007199254740992, 0); (9007199254740994, 0);
     (123456789012345680000, 0); (1, 21); (1, 23); (11805916207174113, 5);
     (17976931348623157, 292); (1152921504606847000, 0);
     (1, 2); (150, -2); (1000000000000000000000, 0)]%Z = true
  /\ forallb (fun '(m, e) => negb (printed_number m e))
       [(10000000000000000555, -20); (3000000000000000444, -19);
        (9007199254740993, 0); (1152921504606846976, 0); (4, -324);
        (9, -324); (17976931348623158, 292); (18, 307)]%Z = true.
Proof. vm_compute. split; reflexivity. Qed.

(** All of these are numbers of JavaScript but the last two, which are
    beyond the doubles. *)
Example js_number_demo :
  forallb (fun '(m, e) => js_number m e)
    [(0, 0); (186, 0); (15, -1); (-5, -324); (2, -324); (1, -400);
     (9007199254740993, 0); (1152921504606846976, 0);
     (10000000000000000555, -20); (17976931348623158, 292); (1, 21)]%Z
  = true
  /\ js_number 18 307 = false /\ js_number (-1) 400 = false.
Proof. vm_compute. repeat split. Qed.

(** What is printed for a decimal and what is read from the print. *)
Example stringify_number_demo :
  stringify_number 15 (-1) = js "1.5"
  /\ stringify_number 150 (-2) = js "1.5"
  /\ stringify_number 9007199254740993 0 = js "9007199254740992"
  /\ stringify_number 1152921504606846976 0 = js "1152921504606847000"
  /\ stringify_number 10000000000000000555 (-20) = js "0.1"
  /\ stringify_number (-1) 21 = js "-1e+21"
  /\ stringify_number (-2) (-324) = js "0"
  /\ stringify_number 18 307 = js "null"
  /\ reprinted_number 150 (-2) = JNum 15 (-1)
  /\ reprinted_number 9007199254740993 0 = JNum 9007199254740992 0
  /\ reprinted_number 1 2 = JNum 100 0
  /\ reprinted_number (-2) (-324) = JNum 0 0
  /\ reprinted_number 18 307 = JNull.
Proof. vm_compute. repeat split. Qed.

(** The same number in two decimals, and two numbers. *)
Example same_number_demo :
  same_number 150 (-2) 15 (-1) = true
  /\ same_number 9007199254740993 0 9007199254740992 0 = true
  /\ same_number 0 0 (-2) (-324) = true
  /\ same_number 15 (-1) (-15) (-1) = false
  /\ same_number 9007199254740992 0 9007199254740994 0 = false.
Proof. vm_compute. repeat split. Qed.

(** The spelling in which a printed number is read. *)
Example Number_literal_demo :
  Number_literal 1 2 = (100, 0)%Z /\ Number_literal 150 (-2) = (15, -1)%Z
  /\ Number_literal 1000000000000000000000 0 = (1, 21)%Z
  /\ Number_literal (-2500) (-1) = (-250, 0)%Z
  /\ Number_literal 0 7 = (0, 0)%Z
  /\ Number_literal 15 (-1) = (15, -1)%Z.
Proof. vm_compute. repeat split. Qed.

(** A payload whose numbers are written otherwise than JavaScript
    prints them is decoded to the same numbers as they are printed. *)
Example decodePayload_spelling_demo :
  decodePayload (encodePayload (JObj [(js "t", JNum 150 (-2));
                                      (js "n", JNum 1 2);
                                      (js "w", JNum 9007199254740993 0);
                                      (js "z", JNum 0 7)]))
  = Some (JObj [(js "t", JNum 15 (-1)); (js "n", JNum 100 0);
                (js "w", JNum 9007199254740992 0); (js "z", JNum 0 0)])
  /\ stringify (JObj [(js "t", JNum 150 (-2)); (js "n", JNum 1 2);
                      (js "w", JNum 9007199254740993 0); (js "z", JNum 0 7)])
     = js "{" ++ quote (js "t") ++ js ":1.5," ++ quote (js "n") ++ js ":100,"
       ++ quote (js "w") ++ js ":9007199254740992," ++ quote (js "z")
       ++ js ":0}".
Proof. vm_compute. split; reflexivity. Qed.

Example stringify_demo :
  stringify (JObj [(js "id", JNum 186 0); (js "q", JStr (js "360p"));
                   (js "l", JArr [JBool true; JNull; JStr [10; 34; 55296]])])
  = js "{" ++ quote (js "id") ++ js ":186," ++ quote (js "q") ++ js ":"
    ++ quote (js "360p") ++ js "," ++ quote (js "l") ++ js ":[true,null,"
    ++ [34] ++ js "\n\" ++ [34] ++ js "\ud800" ++ [34] ++ js "]}".
Proof. vm_compute. reflexivity. Qed.

(* ===================================================================== *)
(** * Properties of the runtime model                                     *)
(* ===================================================================== *)

(** Arithmetic with division and remainder by constants. *)
Ltac divmod := zify; Z.to_euclidean_division_equations; lia.

(** Case analysis on a boolean comparison of the goal. *)
Ltac case_cmp :=
  match goal with
  | |- context [N.eqb ?a ?b] => destruct (N.eqb_spec a b)
  | |- context [N.ltb ?a ?b] => destruct (N.ltb_spec a b)
  | |- context [N.leb ?a ?b] => destruct (N.leb_spec a b)
  end.

Section Base64.

Lemma base64_char_small v : v < 64 -> base64_char v < 128.
Proof. intros Hv. unfold base64_char. repeat case_cmp; lia. Qed.

Lemma unbase64_char v : v < 64 -> unbase64 (base64_char v) = Some v.
Proof.
  intros Hv. unfold base64_char, unbase64.
  repeat (case_cmp; simpl; try lia; try (f_equal; lia)).
Qed.

Lemma base64_sextets_char v rest :
  v < 64 ->
  base64_sextets (base64_char v :: rest) = v :: base64_sextets rest.
Proof.
  intros Hv. simpl.
  pose proof (base64_char_small v Hv).
  rewrite N.mod_small by lia.
  now rewrite unbase64_char.
Qed.

Lemma base64_sextets_pad rest : base64_sextets (61 :: rest) = [].
Proof. reflexivity. Qed.

(** Lists three elements at a time. *)
Lemma list_ind3 {A} (P : list A -> Prop) :
  P [] -> (forall x, P [x]) -> (forall x y, P [x; y]) ->
  (forall x y z rest, P rest -> P (x :: y :: z :: rest)) ->
  forall l, P l.
Proof.
  intros H0 H1 H2 H3.
  fix IH 1. intros [|x [|y [|z rest]]];
    [apply H0 | apply H1 | apply H2 | apply H3, IH].
Qed.

(** Decoding undoes the standard encoding of any sequence of bytes. *)
Lemma base64_decode_encode bs :
  Forall (fun b => b < 256) bs -> base64_decode (base64_encode bs) = bs.
Proof.
  unfold base64_decode.
  induction bs as [|x|x y|x y z rest IH] using list_ind3; intros Hb.
  - reflexivity.
  - inversion_clear Hb as [|? ? Hx _].
    cbn [base64_encode].
    rewrite !base64_sextets_char, base64_sextets_pad by divmod.
    cbn [sextets_to_bytes]. f_equal. divmod.
  - inversion_clear Hb as [|? ? Hx Hb']. inversion_clear Hb' as [|? ? Hy _].
    cbn [base64_encode].
    rewrite !base64_sextets_char, base64_sextets_pad by divmod.
    cbn [sextets_to_bytes]. repeat f_equal; divmod.
  - inversion_clear Hb as [|? ? Hx Hb']. inversion_clear Hb' as [|? ? Hy Hb].
    inversion_clear Hb as [|? ? Hz Hrest].
    cbn [base64_encode].
    rewrite !base64_sextets_char by divmod.
    cbn [sextets_to_bytes]. rewrite (IH Hrest).
    repeat f_equal; divmod.
Qed.

End Base64.

Section Utf8.

Lemma utf8_decode_ascii bs : ascii_only bs -> utf8_decode bs = bs.
Proof.
  unfold utf8_decode. induction 1 as [|b bs Hb _ IH]; [reflexivity|].
  cbn [utf8_run utf8_step utf8_init u_needed]. unfold utf8_lead.
  destruct (N.ltb_spec b 128); [|lia].
  cbn. now rewrite IH.
Qed.

Lemma utf8_encode_ascii s : ascii_only s -> utf8_encode s = s.
Proof.
  induction 1 as [|c s Hc _ IH]; [reflexivity|].
  cbn [utf8_encode]. unfold is_high_surrogate, is_low_surrogate, utf8_bytes.
  destruct (N.leb_spec 55296 c); [lia|].
  destruct (N.leb_spec 56320 c); [lia|].
  destruct (N.ltb_spec c 128); [|lia].
  cbn. now rewrite IH.
Qed.

Lemma ascii_only_bytes s : ascii_only s -> Forall (fun b => b < 256) s.
Proof. induction 1; constructor; [lia | assumption]. Qed.

End Utf8.

Section Digits.

Lemma digits_aux_app fuel : forall n acc,
  digits_aux fuel n acc = digits_aux fuel n [] ++ acc.
Proof.
  induction fuel as [|fuel IH]; intros n acc; [reflexivity|].
  cbn [digits_aux]. destruct (n <? 10); [reflexivity|].
  rewrite (IH _ (_ :: acc)), (IH _ [_]). now rewrite <- app_assoc.
Qed.

(** Any fuel that covers the binary length of [n] gives the same digits. *)
Lemma digits_aux_fuel f1 : forall f2 n acc,
  n < 2 ^ N.of_nat f1 -> n < 2 ^ N.of_nat f2 ->
  (0 < f1)%nat -> (0 < f2)%nat ->
  digits_aux f1 n acc = digits_aux f2 n acc.
Proof.
  induction f1 as [|f1 IH]; intros f2 n acc H1 H2 P1 P2; [lia|].
  destruct f2 as [|f2]; [lia|].
  cbn [digits_aux]. destruct (N.ltb_spec n 10); [reflexivity|].
  assert (Hpow : forall f, n < 2 ^ N.of_nat (S f) ->
                           n / 10 < 2 ^ N.of_nat f /\ (0 < f)%nat).
  { intros f Hf. rewrite Nat2N.inj_succ, N.pow_succ_r' in Hf.
    split.
    - apply N.Div0.div_lt_upper_bound. lia.
    - destruct f; [simpl in Hf; lia | lia]. }
  destruct (Hpow _ H1), (Hpow _ H2). now apply IH.
Qed.

Lemma digits_fuel_ok n : n < 2 ^ N.of_nat (S (N.to_nat (N.log2 n))).
Proof.
  rewrite Nat2N.inj_succ, N2Nat.id.
  destruct (N.eq_dec n 0) as [->|Hn]; [reflexivity|].
  apply N.log2_spec. lia.
Qed.

Lemma digits_small n : n < 10 -> digits n = [48 + n].
Proof.
  intros Hn. unfold digits. cbn [digits_aux].
  destruct (N.ltb_spec n 10); [|lia].
  now rewrite N.mod_small.
Qed.

Lemma digits_step n :
  10 <= n -> digits n = digits (n / 10) ++ [48 + n mod 10].
Proof.
  intros Hn. unfold digits at 1. cbn [digits_aux].
  destruct (N.ltb_spec n 10); [lia|].
  rewrite digits_aux_app. f_equal.
  pose proof (digits_fuel_ok n) as Hf.
  rewrite Nat2N.inj_succ, N.pow_succ_r' in Hf.
  apply digits_aux_fuel.
  - apply N.Div0.div_lt_upper_bound. lia.
  - apply digits_fuel_ok.
  - destruct (N.to_nat (N.log2 n)); [simpl in Hf; lia | lia].
  - lia.
Qed.

(** Induction along the decimal representation. *)
Lemma decimal_ind (P : N -> Prop) :
  (forall n, n < 10 -> P n) ->
  (forall n, 10 <= n -> P (n / 10) -> P n) ->
  forall n, P n.
Proof.
  intros Hs Hb n. induction n as [n IH] using (well_founded_induction N.lt_wf_0).
  destruct (N.lt_ge_cases n 10); [now apply Hs|].
  apply Hb; [assumption|]. apply IH. apply N.div_lt; lia.
Qed.

Lemma digits_value_snoc ds d :
  digits_value (ds ++ [d]) = digits_value ds * 10 + (d - 48).
Proof. unfold digits_value. now rewrite fold_left_app. Qed.

Lemma digits_value_digits n : digits_value (digits n) = n.
Proof.
  induction n as [n Hn|n Hn IH] using decimal_ind.
  - rewrite digits_small by assumption. cbn. lia.
  - rewrite digits_step, digits_value_snoc, IH by assumption. divmod.
Qed.

Lemma digits_all_digits n : Forall (fun c => is_digit c = true) (digits n).
Proof.
  induction n as [n Hn|n Hn IH] using decimal_ind.
  - rewrite digits_small by assumption. repeat constructor.
    unfold is_digit. apply andb_true_intro; split; apply N.leb_le; lia.
  - rewrite digits_step by assumption. apply Forall_app; split; [assumption|].
    repeat constructor.
    unfold is_digit. apply andb_true_intro; split; apply N.leb_le; divmod.
Qed.

(** The first digit is not a zero, except for the number zero. *)
Lemma digits_head n :
  exists c rest, digits n = c :: rest /\ is_digit c = true
                 /\ (c = 48 -> n = 0 /\ rest = []).
Proof.
  induction n as [n Hn|n Hn IH] using decimal_ind.
  - rewrite digits_small by assumption. exists (48 + n), []. split; [reflexivity|].
    split; [|intros; split; [lia|reflexivity]].
    unfold is_digit. apply andb_true_intro; split; apply N.leb_le; lia.
  - destruct IH as (c & rest & Heq & Hc & Hz).
    rewrite digits_step, Heq by assumption.
    exists c, (rest ++ [48 + n mod 10]). split; [reflexivity|]. split; [assumption|].
    intros Hc0. destruct (Hz Hc0) as [Hn0 _].
    exfalso. divmod.
Qed.

Lemma span_digits_all ds rest :
  Forall (fun c => is_digit c = true) ds ->
  match rest with [] => True | c :: _ => is_digit c = false end ->
  span_digits (ds ++ rest) = (ds, rest).
Proof.
  intros Hds Hrest. induction Hds as [|d ds Hd _ IH]; cbn [app span_digits].
  - destruct rest as [|c rest]; [reflexivity|].
    cbn [span_digits]. now rewrite Hrest.
  - now rewrite Hd, IH.
Qed.

End Digits.

Section JsonStrings.

Lemma parse_raw_unit c tail :
  32 <= c -> c <> 34 -> c <> 92 ->
  parse_string_body (c :: tail) = then_unit c tail.
Proof.
  intros H1 H2 H3. cbn [parse_string_body].
  destruct (N.eqb_spec c 34); [lia|].
  destruct (N.eqb_spec c 92); [lia|].
  destruct (N.ltb_spec c 32); [lia|]. reflexivity.
Qed.

Lemma hex_value_digit d : d < 16 -> hex_value (hex_digit d) = Some d.
Proof.
  intros Hd. unfold hex_digit, hex_value, is_digit.
  repeat (case_cmp; cbn [andb]; try lia; try (f_equal; lia)).
Qed.

Lemma parse_unicode_escape c tail :
  c < 65536 ->
  parse_string_body (unicode_escape c ++ tail) = then_unit c tail.
Proof.
  intros Hc. unfold unicode_escape. cbn [app parse_string_body].
  change (92 =? 34) with false. change (92 =? 92) with true.
  change (117 =? 117) with true. cbv iota.
  rewrite !hex_value_digit by (apply N.mod_lt; lia).
  unfold then_unit. 
  replace (c / 4096 mod 16 * 4096 + c / 256 mod 16 * 256
           + c / 16 mod 16 * 16 + c mod 16) with c by divmod.
  reflexivity.
Qed.

Lemma parse_simple_escape x u tail :
  x <> 117 -> simple_escape x = Some u ->
  parse_string_body (92 :: x :: tail) = then_unit u tail.
Proof.
  intros Hx Hu. cbn [parse_string_body].
  change (92 =? 34) with false. change (92 =? 92) with true. cbv iota.
  destruct (N.eqb_spec x 117); [lia|]. now rewrite Hu.
Qed.

Lemma parse_quote_unit c tail :
  parse_string_body (quote_unit c ++ tail) = then_unit c tail.
Proof.
  unfold quote_unit.
  repeat (case_cmp;
          [subst; apply parse_simple_escape; [lia | reflexivity]|]).
  destruct (N.ltb_spec c 32).
  - apply parse_unicode_escape. lia.
  - apply parse_raw_unit; lia.
Qed.

Lemma parse_quote_body_bounded n : forall s rest,
  (length s <= n)%nat ->
  parse_string_body (quote_body s ++ 34 :: rest) = Some (s, rest).
Proof.
  induction n as [|n IH]; intros s rest Hlen.
  - destruct s; [reflexivity | simpl in Hlen; lia].
  - destruct s as [|c s]; [reflexivity|]. simpl in Hlen.
    cbn [quote_body].
    destruct (is_high_surrogate c) eqn:Hhi.
    + unfold is_high_surrogate in Hhi. apply andb_true_iff in Hhi as [H1 H2].
      apply N.leb_le in H1, H2.
      destruct s as [|d s].
      * rewrite parse_unicode_escape by lia. reflexivity.
      * simpl in Hlen. destruct (is_low_surrogate d) eqn:Hlo.
        -- unfold is_low_surrogate in Hlo. apply andb_true_iff in Hlo as [H3 H4].
           apply N.leb_le in H3, H4.
           cbn [app]. rewrite parse_raw_unit by lia. unfold then_unit at 1.
           rewrite parse_raw_unit by lia. unfold then_unit.
           rewrite IH by lia. reflexivity.
        -- rewrite <- app_assoc, parse_unicode_escape by lia.
           unfold then_unit. rewrite IH by (simpl; lia). reflexivity.
    + destruct (is_low_surrogate c) eqn:Hlo.
      * unfold is_low_surrogate in Hlo. apply andb_true_iff in Hlo as [H3 H4].
        apply N.leb_le in H3, H4.
        rewrite <- app_assoc, parse_unicode_escape by lia.
        unfold then_unit. rewrite IH by lia. reflexivity.
      * rewrite <- app_assoc, parse_quote_unit.
        unfold then_unit. rewrite IH by lia. reflexivity.
Qed.

(** Reading back a quoted string gives the string, whatever its code
    units. *)
Lemma parse_quote_body s rest :
  parse_string_body (quote_body s ++ 34 :: rest) = Some (s, rest).
Proof. now apply (parse_quote_body_bounded (length s)). Qed.

End JsonStrings.

Section JsonRoundTrip.

(** Induction on a JSON value with the hypothesis for every element
    and every member. *)
Lemma json_nested_ind (P : json -> Prop) :
  P JNull -> (forall b, P (JBool b)) -> (forall m e, P (JNum m e)) ->
  (forall s, P (JStr s)) ->
  (forall items, Forall P items -> P (JArr items)) ->
  (forall members, Forall (fun kv => P (snd kv)) members -> P (JObj members)) ->
  forall v, P v.
Proof.
  intros Hnull Hbool Hnum Hstr Harr Hobj.
  fix IH 1. intros [| b | m e | s | items | members].
  - apply Hnull.
  - apply Hbool.
  - apply Hnum.
  - apply Hstr.
  - apply Harr. induction items as [|x items IHl]; constructor; [apply IH | apply IHl].
  - apply Hobj. induction members as [|[k x] members IHl]; constructor;
      [apply IH | apply IHl].
Qed.

Lemma stringify_array items :
  stringify (JArr items) = 91 :: stringify_elements items.
Proof. reflexivity. Qed.

Lemma stringify_object members :
  stringify (JObj members) = 123 :: stringify_fields members.
Proof. reflexivity. Qed.

Lemma skip_ws_not_ws c rest :
  is_json_ws c = false -> skip_ws (c :: rest) = c :: rest.
Proof. intros H. cbn [skip_ws]. now rewrite H. Qed.

Lemma skip_ws_delimited rest : delimited rest -> skip_ws rest = rest.
Proof.
  destruct rest as [|c rest]; [reflexivity|]. cbn [delimited].
  intros [-> | [-> | ->]]; reflexivity.
Qed.

(** *** Numbers *)

Lemma parse_int_part_digits n rest :
  match rest with [] => True | c :: _ => is_digit c = false end ->
  parse_int_part (digits n ++ rest) = Some (digits n, rest).
Proof.
  intros Hrest.
  destruct (digits_head n) as (c & tl & Heq & Hc & Hzero).
  unfold parse_int_part. rewrite Heq. cbn [app].
  destruct (N.eqb_spec c 48) as [H48|H48].
  - destruct (Hzero H48) as [_ ->]. subst c. reflexivity.
  - rewrite Hc. change (c :: tl ++ rest) with ((c :: tl) ++ rest).
    rewrite <- Heq. rewrite span_digits_all; auto using digits_all_digits.
Qed.

Lemma parse_number_integer m rest :
  delimited rest ->
  parse_number (digits_Z m ++ rest) = Some (JNum m 0, rest).
Proof.
  intros Hrest.
  assert (Hnd : match rest with [] => True | c :: _ => is_digit c = false end).
  { destruct rest as [|c rest]; [exact I|].
    destruct Hrest as [-> | [-> | ->]]; reflexivity. }
  assert (Hfrac : parse_frac_part rest = Some ([], rest)).
  { destruct rest as [|c rest]; [reflexivity|].
    destruct Hrest as [-> | [-> | ->]]; reflexivity. }
  assert (Hexp : parse_exp_part rest = Some (0%Z, rest)).
  { destruct rest as [|c rest]; [reflexivity|].
    destruct Hrest as [-> | [-> | ->]]; reflexivity. }
  unfold parse_number, digits_Z.
  destruct (Z.ltb_spec m 0).
  - cbn [app]. change (45 =? 45) with true. cbv iota.
    rewrite parse_int_part_digits, Hfrac, Hexp by assumption.
    rewrite app_nil_r, digits_value_digits. cbn [length].
    do 2 f_equal. f_equal; lia.
  - destruct (digits_head (Z.abs_N m)) as (c & tl & Heq & Hc & _).
    rewrite Heq at 1. cbn [app].
    assert ((c =? 45) = false) as ->.
    { unfold is_digit in Hc. apply andb_true_iff in Hc as [Hc _].
      apply N.leb_le in Hc. apply N.eqb_neq. lia. }
    rewrite parse_int_part_digits, Hfrac, Hexp by assumption.
    rewrite app_nil_r, digits_value_digits. cbn [length].
    do 2 f_equal. f_equal; lia.
Qed.

Lemma is_digit_range c : is_digit c = true <-> 48 <= c <= 57.
Proof.
  unfold is_digit. rewrite andb_true_iff, !N.leb_le. reflexivity.
Qed.

Lemma delimited_ends_digits rest : delimited rest -> ends_digits rest.
Proof.
  destruct rest as [|c rest]; [exact (fun _ => I)|].
  intros [-> | [-> | ->]]; reflexivity.
Qed.

Lemma repeat_all {A} (P : A -> Prop) x n : P x -> Forall P (repeat x n).
Proof. intros Hx. induction n; cbn [repeat]; constructor; assumption. Qed.

Lemma digits_value_app ds fs :
  Forall (fun c => c = 48) ds -> digits_value (ds ++ fs) = digits_value fs.
Proof.
  unfold digits_value. rewrite fold_left_app. intros Hz. f_equal.
  induction Hz as [|c ds -> _ IH]; [reflexivity|]. exact IH.
Qed.

Lemma digits_last n : exists front, digits n = front ++ [48 + n mod 10].
Proof.
  destruct (N.lt_ge_cases n 10) as [Hn|Hn].
  - exists []. rewrite digits_small by assumption.
    now rewrite N.mod_small.
  - exists (digits (n / 10)). now apply digits_step.
Qed.

Lemma digits_not_nil n : digits n <> [].
Proof. destruct (digits_head n) as (c & tl & -> & _). discriminate. Qed.

(** Fewer than [p] digits are not enough for 10^p. *)
Lemma digits_length_bound p : forall n,
  n < 10 ^ N.of_nat (S p) -> (length (digits n) <= S p)%nat.
Proof.
  induction p as [|p IH]; intros n Hn.
  - change (10 ^ N.of_nat 1) with 10 in Hn.
    rewrite digits_small by assumption. cbn. lia.
  - destruct (N.lt_ge_cases n 10) as [Hs|Hs].
    + rewrite digits_small by assumption. cbn. lia.
    + rewrite digits_step, length_app by assumption. cbn [length].
      assert (length (digits (n / 10)) <= S p)%nat; [|lia].
      apply IH. rewrite Nat2N.inj_succ, N.pow_succ_r' in Hn.
      apply N.Div0.div_lt_upper_bound. lia.
Qed.

Lemma drop_zeros_split l : exists z, l = repeat 48 z ++ drop_zeros l.
Proof.
  induction l as [|c l [z Hz]]; [now exists 0%nat|].
  cbn [drop_zeros]. destruct (N.eqb_spec c 48) as [->|Hc].
  - exists (S z). cbn [repeat app]. now f_equal.
  - now exists 0%nat.
Qed.

Lemma drop_zeros_last l c : c <> 48 -> drop_zeros (l ++ [c]) <> [].
Proof.
  intros Hc. induction l as [|d l IH]; cbn [app drop_zeros].
  - destruct (N.eqb_spec c 48); [contradiction | discriminate].
  - destruct (d =? 48); [exact IH | discriminate].
Qed.

(** The digits are the significant ones and the trailing zeros. *)
Lemma significant_split ds :
  ds = significant ds ++ repeat 48 (length ds - length (significant ds)).
Proof.
  unfold significant. destruct (drop_zeros_split (rev ds)) as [z Hz].
  assert (Hds : ds = rev (drop_zeros (rev ds)) ++ repeat 48 z).
  { rewrite <- (rev_involutive ds) at 1. rewrite Hz at 1.
    now rewrite rev_app_distr, rev_repeat. }
  assert (Hlen : (length ds - length (rev (drop_zeros (rev ds))))%nat = z).
  { rewrite Hds at 1. rewrite length_app, repeat_length. lia. }
  now rewrite Hlen.
Qed.

Lemma significant_last front c : c <> 48 -> significant (front ++ [c]) = front ++ [c].
Proof.
  intros Hc. unfold significant. rewrite rev_app_distr. cbn [rev app drop_zeros].
  destruct (N.eqb_spec c 48); [contradiction|].
  cbn [rev]. now rewrite rev_involutive.
Qed.

Lemma significant_digits n : n mod 10 <> 0 -> significant (digits n) = digits n.
Proof.
  intros Hn. destruct (digits_last n) as [front ->].
  apply significant_last. lia.
Qed.

Lemma significant_all_digits ds :
  Forall (fun c => is_digit c = true) ds ->
  Forall (fun c => is_digit c = true) (significant ds).
Proof.
  intros Hds. rewrite (significant_split ds) in Hds.
  now apply Forall_app in Hds as [H _].
Qed.

(** The first digit stays when it is not a zero. *)
Lemma significant_head c tl :
  c <> 48 -> exists tl', significant (c :: tl) = c :: tl'.
Proof.
  intros Hc. pose proof (significant_split (c :: tl)) as Hs.
  destruct (significant (c :: tl)) as [|d tl'] eqn:Hsig.
  - exfalso. unfold significant in Hsig. cbn [rev] in Hsig.
    apply (f_equal (@rev N)) in Hsig. rewrite rev_involutive in Hsig.
    now apply (drop_zeros_last (rev tl) c).
  - cbn [app] in Hs. injection Hs as -> _. eauto.
Qed.


Lemma parse_int_written c tl rest :
  c <> 48 -> Forall (fun c => is_digit c = true) (c :: tl) ->
  ends_digits rest ->
  parse_int_part ((c :: tl) ++ rest) = Some (c :: tl, rest).
Proof.
  intros Hc Hds Hrest. cbn [app parse_int_part].
  destruct (N.eqb_spec c 48); [contradiction|].
  assert (is_digit c = true) as -> by now inversion Hds.
  change (c :: tl ++ rest) with ((c :: tl) ++ rest).
  now rewrite span_digits_all.
Qed.

Lemma parse_frac_written fs rest :
  fs <> [] -> Forall (fun c => is_digit c = true) fs -> ends_digits rest ->
  parse_frac_part (46 :: fs ++ rest) = Some (fs, rest).
Proof.
  intros Hne Hfs Hrest. cbn [parse_frac_part]. change (46 =? 46) with true.
  cbv iota. rewrite span_digits_all by assumption.
  destruct fs; [congruence | reflexivity].
Qed.

Lemma parse_frac_none rest :
  match rest with [] => True | c :: _ => c <> 46 end ->
  parse_frac_part rest = Some ([], rest).
Proof.
  destruct rest as [|c rest]; [reflexivity|]. intros Hc.
  cbn [parse_frac_part]. now destruct (N.eqb_spec c 46).
Qed.

Lemma parse_exp_none rest :
  delimited rest -> parse_exp_part rest = Some (0%Z, rest).
Proof.
  destruct rest as [|c rest]; [reflexivity|].
  intros [-> | [-> | ->]]; reflexivity.
Qed.

Lemma parse_exp_written x rest :
  ends_digits rest ->
  parse_exp_part (101 :: (if (x <? 0)%Z then 45 else 43)
                      :: digits (Z.abs_N x) ++ rest)
  = Some (x, rest).
Proof.
  intros Hrest. cbn [parse_exp_part]. change (101 =? 101) with true.
  cbn [orb]. cbv iota.
  destruct (Z.ltb_spec x 0).
  - change (45 =? 45) with true. cbv iota.
    rewrite span_digits_all by auto using digits_all_digits.
    destruct (digits (Z.abs_N x)) eqn:Hd; [now apply digits_not_nil in Hd|].
    rewrite <- Hd, digits_value_digits. do 2 f_equal. lia.
  - change (43 =? 45) with false. change (43 =? 43) with true. cbv iota.
    rewrite span_digits_all by auto using digits_all_digits.
    destruct (digits (Z.abs_N x)) eqn:Hd; [now apply digits_not_nil in Hd|].
    rewrite <- Hd, digits_value_digits. do 2 f_equal. lia.
Qed.

(** A number literal from its three parts. *)
Lemma parse_number_parts (neg : bool) c tl rest ds fs x s2 s3 :
  is_digit c = true ->
  parse_int_part (c :: tl ++ rest) = Some (ds, s2) ->
  parse_frac_part s2 = Some (fs, s3) ->
  parse_exp_part s3 = Some (x, rest) ->
  parse_number ((if neg then [45] else []) ++ (c :: tl) ++ rest)
  = Some (JNum (if neg then (- Z.of_N (digits_value (ds ++ fs)))%Z
                else Z.of_N (digits_value (ds ++ fs)))
               (x - Z.of_nat (length fs))%Z, rest).
Proof.
  intros Hc Hint Hfrac Hexp. unfold parse_number.
  destruct neg; cbn [app].
  - change (45 =? 45) with true. cbv iota. now rewrite Hint, Hfrac, Hexp.
  - assert ((c =? 45) = false) as ->.
    { apply is_digit_range in Hc. apply N.eqb_neq. lia. }
    now rewrite Hint, Hfrac, Hexp.
Qed.

(** The three parts of a number in the exponent notation. *)
Lemma parse_exponent_notation c tl n rest :
  c <> 48 -> Forall (fun c => is_digit c = true) (c :: tl) ->
  delimited rest ->
  number_parts
    (match tl with
     | [] => c :: 101 :: (if (n - 1 <? 0)%Z then 45 else 43)
                      :: digits (Z.abs_N (n - 1))
     | _ :: _ => c :: 46 :: tl ++ 101 :: (if (n - 1 <? 0)%Z then 45 else 43)
                      :: digits (Z.abs_N (n - 1))
     end) (c :: tl) n rest.
Proof.
  intros Hc Hs Hrest.
  pose proof (delimited_ends_digits rest Hrest) as Hend.
  assert (Hone : Forall (fun c => is_digit c = true) [c])
    by (inversion Hs; now repeat constructor).
  assert (Hdc : is_digit c = true) by now inversion Hs.
  set (exponent := 101 :: (if (n - 1 <? 0)%Z then 45 else 43)
                       :: digits (Z.abs_N (n - 1))).
  destruct tl as [|d more].
  - exists exponent, c, [c], [], (n - 1)%Z, (exponent ++ rest), (exponent ++ rest).
    split; [reflexivity|]. split; [assumption|]. split.
    { apply (parse_int_written c [] (exponent ++ rest)); auto. reflexivity. }
    split; [apply parse_frac_none; cbn; lia|].
    split; [apply parse_exp_written; assumption|].
    split; [reflexivity|]. cbn [length]. lia.
  - exists (46 :: (d :: more) ++ exponent), c, [c], (d :: more), (n - 1)%Z,
      (46 :: (d :: more) ++ exponent ++ rest), (exponent ++ rest).
    split; [reflexivity|]. split; [assumption|]. split.
    { cbn [app]. rewrite <- app_assoc.
      apply (parse_int_written c [] (46 :: (d :: more) ++ exponent ++ rest));
        auto. reflexivity. }
    split.
    { apply parse_frac_written; [discriminate | now inversion Hs | reflexivity]. }
    split; [apply parse_exp_written; assumption|].
    split; [reflexivity|]. cbn [length]. lia.
Qed.

(** The three parts of a number with the point inside its digits. *)
Lemma parse_point_notation c tl n rest :
  let s := c :: tl in
  c <> 48 -> Forall (fun c => is_digit c = true) s ->
  (0 < n < Z.of_nat (length s))%Z -> delimited rest ->
  number_parts (firstn (Z.to_nat n) s ++ 46 :: skipn (Z.to_nat n) s) s n rest.
Proof.
  intros s Hc Hs Hn Hrest.
  pose proof (delimited_ends_digits rest Hrest) as Hend.
  assert (Hdc : is_digit c = true) by now inversion Hs.
  assert (Hlt : (Z.to_nat n < length s)%nat) by lia.
  destruct (Z.to_nat n) as [|j] eqn:Hj; [lia|].
  assert (Hskip : skipn (S j) s <> []).
  { intros Hnil. apply (f_equal (@length N)) in Hnil.
    rewrite length_skipn in Hnil. cbn [length] in Hnil. lia. }
  exists (firstn j tl ++ 46 :: skipn (S j) s), c, (firstn (S j) s),
    (skipn (S j) s), 0%Z, (46 :: skipn (S j) s ++ rest), rest.
  split; [reflexivity|]. split; [assumption|]. split.
  { rewrite <- app_assoc.
    apply (parse_int_written c (firstn j tl) (46 :: skipn (S j) s ++ rest));
      auto; [|reflexivity].
    change (c :: firstn j tl) with (firstn (S j) s).
    now apply Forall_take. }
  split.
  { apply parse_frac_written; auto. now apply Forall_drop. }
  split; [now apply parse_exp_none|].
  split; [now rewrite firstn_skipn|].
  rewrite length_skipn. lia.
Qed.

(** The three parts of a number with zeros after the point. *)
Lemma parse_zeros_notation c tl n rest :
  let s := c :: tl in
  Forall (fun c => is_digit c = true) s -> (n <= 0)%Z -> delimited rest ->
  number_parts (48 :: 46 :: repeat 48 (Z.to_nat (- n)) ++ s) s n rest.
Proof.
  intros s Hs Hn Hrest.
  pose proof (delimited_ends_digits rest Hrest) as Hend.
  exists (46 :: repeat 48 (Z.to_nat (- n)) ++ s), 48, [48],
    (repeat 48 (Z.to_nat (- n)) ++ s), 0%Z,
    (46 :: (repeat 48 (Z.to_nat (- n)) ++ s) ++ rest), rest.
  split; [reflexivity|]. split; [reflexivity|].
  split; [reflexivity|]. split.
  { apply parse_frac_written; auto.
    - subst s. destruct (repeat 48 (Z.to_nat (- n))); discriminate.
    - apply Forall_app; split; [|assumption]. now apply repeat_all. }
  split; [now apply parse_exp_none|]. split.
  { change ([48] ++ repeat 48 (Z.to_nat (- n)) ++ s)
      with ((48 :: repeat 48 (Z.to_nat (- n))) ++ s).
    apply digits_value_app. constructor; [reflexivity|]. now apply repeat_all. }
  rewrite length_app, repeat_length. lia.
Qed.

(** The three parts of a number that is not printed as an integer. *)
Lemma parse_layout c tl n rest :
  let s := c :: tl in
  c <> 48 -> Forall (fun c => is_digit c = true) s ->
  ~ (Z.of_nat (length s) <= n <= 21)%Z ->
  delimited rest ->
  number_parts (number_layout s n) s n rest.
Proof.
  intros s Hc Hs Hn Hrest.
  pose proof (parse_exponent_notation c tl n rest Hc Hs Hrest) as Hexp.
  pose proof (parse_point_notation c tl n rest Hc Hs) as Hpoint.
  pose proof (parse_zeros_notation c tl n rest Hs) as Hzeros.
  cbv zeta in Hpoint, Hzeros. fold s in Hexp, Hpoint, Hzeros.
  unfold number_layout. fold s.
  destruct (Z.leb_spec (Z.of_nat (length s)) n);
    destruct (Z.leb_spec n 21); destruct (Z.ltb_spec 0 n);
    destruct (Z.ltb_spec (-6) n); destruct (Z.leb_spec n 0);
    cbn [andb]; try lia;
    first [ apply Hpoint; [lia | assumption]
          | apply Hzeros; assumption
          | subst s; destruct tl; exact Hexp ].
Qed.


(** The digits of a number that is not zero, without the trailing
    zeros: every one a digit, the first one not a zero. *)
Lemma significant_digits_head n :
  n <> 0 ->
  exists c tl, significant (digits n) = c :: tl /\ c <> 48
               /\ Forall (fun c => is_digit c = true) (c :: tl).
Proof.
  intros Hn. destruct (digits_head n) as (c & tl & Heq & _ & Hzero).
  assert (Hc : c <> 48) by (intros H48; now destruct (Hzero H48)).
  destruct (significant_head c tl Hc) as [tl' Hsig].
  exists c, tl'. rewrite Heq. split; [assumption|]. split; [assumption|].
  rewrite <- Hsig, <- Heq. apply significant_all_digits, digits_all_digits.
Qed.

Lemma significant_length ds : (length (significant ds) <= length ds)%nat.
Proof.
  pose proof (f_equal (@length N) (significant_split ds)) as H.
  rewrite length_app in H. lia.
Qed.

(** An integer of at most 21 digits prints as its digits. *)
Lemma Number_toString_integer m :
  (length (digits (Z.abs_N m)) <= 21)%nat -> Number_toString m 0 = digits_Z m.
Proof.
  intros Hlen. unfold Number_toString, digits_Z.
  destruct (Z.eqb_spec m 0) as [->|Hm]; [reflexivity|].
  pose proof (significant_length (digits (Z.abs_N m))) as Hk.
  assert (number_layout (significant (digits (Z.abs_N m)))
            (Z.of_nat (length (digits (Z.abs_N m))) + 0)
          = digits (Z.abs_N m)) as ->.
  { unfold number_layout.
    destruct (Z.leb_spec (Z.of_nat (length (significant (digits (Z.abs_N m)))))
                (Z.of_nat (length (digits (Z.abs_N m))) + 0)); [|lia].
    destruct (Z.leb_spec (Z.of_nat (length (digits (Z.abs_N m))) + 0) 21);
      [|lia].
    cbn [andb]. rewrite (significant_split (digits (Z.abs_N m))) at 4.
    do 2 f_equal. lia. }
  now destruct (m <? 0)%Z.
Qed.

(** The first character of a printed number is a minus sign or a
    digit. *)
Lemma Number_toString_head m e :
  exists c tl, Number_toString m e = c :: tl /\ (c = 45 \/ is_digit c = true).
Proof.
  unfold Number_toString.
  destruct (Z.eqb_spec m 0) as [->|Hm]; [exists 48, []; auto|].
  destruct (m <? 0)%Z; [cbn [app]; eauto|]. cbn [app].
  destruct (significant_digits_head (Z.abs_N m)) as (c & tl & -> & Hc & Hs);
    [lia|].
  assert (Hdc : is_digit c = true) by now inversion Hs.
  unfold number_layout.
  destruct (Z.ltb_spec 0 (Z.of_nat (length (digits (Z.abs_N m))) + e))
    as [Hn|Hn]; cbn [andb];
    repeat match goal with
           | |- context [if ?b then _ else _] => destruct b
           end; cbn [app]; try solve [eauto].
  destruct (Z.to_nat (Z.of_nat (length (digits (Z.abs_N m))) + e))
    eqn:Hj; [lia|]. cbn [firstn app]. eauto.
Qed.

(** Reading back a printed number, whatever follows it. *)
Lemma parse_number_toString m e rest :
  delimited rest ->
  parse_number (Number_toString m e ++ rest)
  = Some (let '(m', e') := Number_literal m e in JNum m' e', rest).
Proof.
  intros Hrest. unfold Number_toString, Number_literal.
  destruct (Z.eqb_spec m 0) as [->|Hm];
    [exact (parse_number_integer 0 rest Hrest)|].
  destruct (significant_digits_head (Z.abs_N m)) as (c & tl & Hsig & Hc & Hs);
    [lia|].
  rewrite Hsig.
  set (n := (Z.of_nat (length (digits (Z.abs_N m))) + e)%Z).
  assert (Hdc : is_digit c = true) by now inversion Hs.
  destruct ((Z.of_nat (length (c :: tl)) <=? n)%Z && (n <=? 21)%Z) eqn:Hint.
  - (* printed as an integer *)
    apply andb_true_iff in Hint as [Hk H21].
    apply Z.leb_le in Hk, H21.
    unfold number_layout. fold n.
    destruct (Z.leb_spec (Z.of_nat (length (c :: tl))) n); [|lia].
    destruct (Z.leb_spec n 21); [|lia]. cbn [andb].
    set (zeros := repeat 48 (Z.to_nat (n - Z.of_nat (length (c :: tl))))).
    change ((c :: tl) ++ zeros) with (c :: (tl ++ zeros)).
    change (digits_value (c :: tl ++ zeros))
      with (digits_value ((c :: tl) ++ zeros)).
    rewrite <- app_assoc.
    rewrite (parse_number_parts (m <? 0)%Z c (tl ++ zeros) rest
               (c :: tl ++ zeros) [] 0%Z rest rest); try assumption.
    + rewrite app_nil_r. reflexivity.
    + apply (parse_int_written c (tl ++ zeros) rest); auto.
      * change (c :: tl ++ zeros) with ((c :: tl) ++ zeros).
        apply Forall_app. split; [assumption | now apply repeat_all].
      * now apply delimited_ends_digits.
    + apply parse_frac_none. destruct rest as [|d rest]; [exact I|].
      destruct Hrest as [-> | [-> | ->]]; lia.
    + now apply parse_exp_none.
  - (* printed with a point or an exponent *)
    destruct (parse_layout c tl n rest)
      as (tl' & c' & ds & fs & x & s2 & s3 & Htext & Hc' & Hip & Hfp
          & Hep & Hvalue & Hx); try assumption.
    { apply andb_false_iff in Hint as [H|H]; apply Z.leb_gt in H; lia. }
    rewrite Htext, <- app_assoc.
    rewrite (parse_number_parts (m <? 0)%Z c' tl' rest ds fs x s2 s3)
      by assumption.
    now rewrite Hvalue, Hx.
Qed.

Lemma digits_value_zeros ds j :
  digits_value (ds ++ repeat 48 j) = digits_value ds * 10 ^ N.of_nat j.
Proof.
  induction j as [|j IH].
  - cbn [repeat]. rewrite app_nil_r. cbn. lia.
  - replace (repeat 48 (S j)) with (repeat 48 j ++ [48])
      by (rewrite <- repeat_cons; reflexivity).
    rewrite app_assoc, digits_value_snoc, IH.
    rewrite Nat2N.inj_succ, N.pow_succ_r'. lia.
Qed.

(** The digits of a number are its significant digits and zeros. *)
Lemma significant_value n :
  n = digits_value (significant (digits n))
      * 10 ^ N.of_nat (length (digits n) - length (significant (digits n))).
Proof.
  rewrite <- digits_value_zeros, <- significant_split.
  now rewrite digits_value_digits.
Qed.

(** A number in the form of a printed literal is read back as it is. *)
Lemma Number_literal_form m e :
  number_form m e = true -> Number_literal m e = (m, e).
Proof.
  intros Hform. unfold number_form in Hform. unfold Number_literal.
  pose proof (significant_length (digits (Z.abs_N m))) as Hk.
  apply orb_true_iff in Hform as [Hint|Hfrac].
  - apply andb_true_iff in Hint as [He Hlen].
    apply Z.eqb_eq in He. apply Z.leb_le in Hlen. subst e.
    destruct (Z.eqb_spec m 0) as [->|Hm]; [reflexivity|].
    destruct (Z.leb_spec (Z.of_nat (length (significant (digits (Z.abs_N m)))))
                (Z.of_nat (length (digits (Z.abs_N m))) + 0)); [|lia].
    destruct (Z.leb_spec (Z.of_nat (length (digits (Z.abs_N m))) + 0) 21);
      [|lia].
    cbn [andb].
    replace (Z.to_nat (Z.of_nat (length (digits (Z.abs_N m))) + 0
                       - Z.of_nat (length (significant (digits (Z.abs_N m))))))
      with (length (digits (Z.abs_N m))
            - length (significant (digits (Z.abs_N m))))%nat by lia.
    rewrite <- significant_split, digits_value_digits.
    f_equal. destruct (Z.ltb_spec m 0); lia.
  - apply andb_true_iff in Hfrac as [Hlast He].
    apply negb_true_iff, N.eqb_neq in Hlast.
    assert (Hm : m <> 0%Z) by (intros ->; now apply Hlast).
    destruct (Z.eqb_spec m 0); [contradiction|].
    rewrite significant_digits by assumption.
    destruct (Z.leb_spec (Z.of_nat (length (digits (Z.abs_N m))))
                (Z.of_nat (length (digits (Z.abs_N m))) + e));
      destruct (Z.leb_spec (Z.of_nat (length (digits (Z.abs_N m))) + e) 21);
      cbn [andb].
    + apply orb_true_iff in He as [He|He]; apply Z.ltb_lt in He; lia.
    + rewrite digits_value_digits. f_equal; [|lia].
      destruct (Z.ltb_spec m 0); lia.
    + rewrite digits_value_digits. f_equal; [|lia].
      destruct (Z.ltb_spec m 0); lia.
    + rewrite digits_value_digits. f_equal; [|lia].
      destruct (Z.ltb_spec m 0); lia.
Qed.

(** A value that begins with a sign or a digit is a number. *)
Lemma parse_value_number fuel m e rest :
  parse_value (S fuel) (Number_toString m e ++ rest)
  = parse_number (Number_toString m e ++ rest).
Proof.
  destruct (Number_toString_head m e) as (c & tl & -> & Hc).
  cbn [app parse_value].
  assert (Hrange : c = 45 \/ (48 <= c <= 57)).
  { destruct Hc as [->|Hc]; [now left|right]. now apply is_digit_range. }
  rewrite skip_ws_not_ws.
  2:{ unfold is_json_ws. repeat (case_cmp; try lia). }
  repeat (case_cmp; [lia|]). reflexivity.
Qed.



(** A printed number begins with a sign, a digit or the n of null. *)
Lemma stringify_number_head m e :
  exists c tl, stringify_number m e = c :: tl
               /\ (c = 45 \/ is_digit c = true \/ c = 110).
Proof.
  unfold stringify_number.
  destruct (to_double (Z.abs m) e) as [[M E]|]; [|exists 110, (js "ull"); auto].
  destruct (M =? 0)%Z; [exists 48, []; auto|].
  destruct (Number_digits (M, E)) as [[s g]|].
  - destruct (Number_toString_head (if (m <? 0)%Z then (- s)%Z else s) g)
      as (c & tl & -> & [Hc|Hc]); exists c, tl; auto.
  - destruct (Number_toString_head m e) as (c & tl & -> & [Hc|Hc]);
      exists c, tl; auto.
Qed.

(** Reading back the text of a number, whatever follows it. *)
Lemma parse_stringify_number fuel m e rest :
  delimited rest ->
  parse_value (S fuel) (stringify_number m e ++ rest)
  = Some (reprinted_number m e, rest).
Proof.
  intros Hrest. unfold stringify_number, reprinted_number.
  destruct (to_double (Z.abs m) e) as [[M E]|]; [|reflexivity].
  destruct (M =? 0)%Z.
  { change [48] with (Number_toString 0 0).
    rewrite parse_value_number, parse_number_toString by assumption.
    reflexivity. }
  destruct (Number_digits (M, E)) as [[s g]|];
    now rewrite parse_value_number, parse_number_toString by assumption.
Qed.

(** *** Objects without repeated keys *)

Lemma distinct_NoDup keys : distinct keys = true <-> NoDup keys.
Proof.
  induction keys as [|k keys IH]; cbn [distinct].
  - split; [constructor | reflexivity].
  - rewrite andb_true_iff, negb_true_iff, IH. split.
    + intros [Hk Hnd]. constructor; [|assumption].
      intros Hin. apply not_true_iff_false in Hk. apply Hk.
      apply existsb_exists. exists k. split.
      * now apply list_elem_of_In.
      * unfold jsstring_eqb. now apply bool_decide_eq_true.
    + intros Hnd. inversion_clear Hnd as [|? ? Hk Hnd'].
      split; [|assumption].
      apply not_true_iff_false. intros Hex.
      apply existsb_exists in Hex as (k' & Hin & Heq).
      unfold jsstring_eqb in Heq. apply bool_decide_eq_true in Heq. subst k'.
      apply Hk. now apply list_elem_of_In.
Qed.

Lemma obj_define_fresh {V} k (v : V) o :
  ~ In k (List.map fst o) -> obj_define k v o = o ++ [(k, v)].
Proof.
  induction o as [|[k' v'] o IH]; intros Hk; [reflexivity|].
  cbn [obj_define List.map fst In app] in *.
  unfold jsstring_eqb. rewrite bool_decide_eq_false_2 by tauto.
  rewrite IH by tauto. reflexivity.
Qed.

Lemma obj_of_members_from {V} (members : list (jsstring * V)) : forall o,
  NoDup (List.map fst (o ++ members)) ->
  fold_left (fun o kv => obj_define (fst kv) (snd kv) o) members o
  = o ++ members.
Proof.
  induction members as [|[k v] members IH]; intros o Hnd.
  - now rewrite app_nil_r.
  - cbn [fold_left fst snd].
    assert (Hsplit : o ++ (k, v) :: members = (o ++ [(k, v)]) ++ members)
      by now rewrite <- app_assoc.
    rewrite obj_define_fresh.
    + rewrite IH; [now rewrite <- app_assoc|]. now rewrite <- Hsplit.
    + rewrite Hsplit, !map_app in Hnd.
      apply NoDup_app in Hnd as (Hnd & _ & _).
      apply NoDup_app in Hnd as (_ & Hdisj & _).
      intros Hin. apply (Hdisj k); [now apply list_elem_of_In | cbn; left].
Qed.

Lemma obj_of_members_distinct {V} (members : list (jsstring * V)) :
  distinct (List.map fst members) = true -> obj_of_members members = members.
Proof.
  intros Hd. apply distinct_NoDup in Hd.
  unfold obj_of_members. now rewrite obj_of_members_from.
Qed.


(** *** Values *)

Lemma parse_value_null fuel rest :
  parse_value (S fuel) (js "null" ++ rest) = Some (JNull, rest).
Proof. reflexivity. Qed.

Lemma parse_value_true fuel rest :
  parse_value (S fuel) (js "true" ++ rest) = Some (JBool true, rest).
Proof. reflexivity. Qed.

Lemma parse_value_false fuel rest :
  parse_value (S fuel) (js "false" ++ rest) = Some (JBool false, rest).
Proof. reflexivity. Qed.

Lemma parse_value_string fuel s rest :
  parse_value (S fuel) (quote s ++ rest) = Some (JStr s, rest).
Proof.
  unfold quote. cbn [app parse_value skip_ws].
  change (is_json_ws 34) with false. cbv iota.
  change (34 =? 123) with false. change (34 =? 91) with false.
  change (34 =? 34) with true. cbv iota.
  rewrite <- app_assoc. cbn [app]. now rewrite parse_quote_body.
Qed.

(** The first character of a serialisation is neither white space nor a
    closing bracket or brace. *)
Lemma stringify_head v :
  exists c tl, stringify v = c :: tl /\ is_json_ws c = false
               /\ c <> 93 /\ c <> 125.
Proof.
  assert (Hlit : forall c tl text, text = c :: tl -> is_json_ws c = false ->
                   c <> 93 -> c <> 125 ->
                   exists c tl, text = c :: tl /\ is_json_ws c = false
                                /\ c <> 93 /\ c <> 125) by eauto 8.
  destruct v as [| [|] | m e | s | items | members].
  - now apply (Hlit 110 (js "ull")).
  - now apply (Hlit 116 (js "rue")).
  - now apply (Hlit 102 (js "alse")).
  - shelve.
  - now apply (Hlit 34 (quote_body s ++ [34])).
  - now apply (Hlit 91 (stringify_elements items)).
  - now apply (Hlit 123 (stringify_fields members)).
  Unshelve.
  clear Hlit. cbn [stringify].
  destruct (stringify_number_head m e) as (c & tl & -> & Hc).
  exists c, tl. split; [reflexivity|].
  assert (Hrange : c = 45 \/ (48 <= c <= 57) \/ c = 110).
  { destruct Hc as [->|[Hc| ->]]; [now left | right; left | now right; right].
    unfold is_digit in Hc. apply andb_true_iff in Hc as [H1 H2].
    apply N.leb_le in H1, H2. lia. }
  split; [|lia].
  unfold is_json_ws. repeat (case_cmp; try lia).
Qed.

Lemma parse_elements_stringify items :
  items <> [] -> Forall reads_back items ->
  forallb distinct_keys items = true ->
  forall fuel rest,
    (fold_right (fun x n => S (json_size x + n)) O items < fuel)%nat ->
    parse_elements fuel (stringify_elements items ++ rest)
    = Some (List.map reprinted items, rest).
Proof.
  intros Hne Hall. induction Hall as [|x items Hx Hall IH]; [congruence|].
  intros Hplain fuel rest Hfuel. clear Hne.
  cbn [forallb] in Hplain. apply andb_true_iff in Hplain as [Hpx Hpl].
  cbn [fold_right] in Hfuel.
  destruct fuel as [|fuel]; [lia|].
  destruct items as [|y items].
  - cbn [stringify_elements parse_elements]. rewrite <- app_assoc. cbn [app].
    rewrite (Hx Hpx) by (cbn; auto; lia).
    reflexivity.
  - change (stringify_elements (x :: y :: items))
      with (stringify x ++ 44 :: stringify_elements (y :: items)).
    cbn [parse_elements]. rewrite <- app_assoc. cbn [app].
    rewrite (Hx Hpx) by (cbn; auto; lia).
    cbn [skip_ws]. change (is_json_ws 44) with false. cbv iota.
    change (44 =? 44) with true. cbv iota.
    rewrite IH; [reflexivity | congruence | assumption | lia].
Qed.

Lemma parse_members_stringify (members : jsobj json) :
  members <> [] -> Forall (fun kv => reads_back (snd kv)) members ->
  forallb (fun kv => distinct_keys (snd kv)) members = true ->
  forall fuel rest,
    (fold_right (fun kv n => S (json_size (snd kv) + n)) O members < fuel)%nat ->
    parse_members fuel (stringify_fields members ++ rest)
    = Some (List.map (fun kv => (fst kv, reprinted (snd kv))) members, rest).
Proof.
  intros Hne Hall. induction Hall as [|[k x] members Hx Hall IH]; [congruence|].
  intros Hplain fuel rest Hfuel. clear Hne.
  cbn [forallb snd] in Hplain. apply andb_true_iff in Hplain as [Hpx Hpl].
  cbn [fold_right snd] in Hfuel. cbn [snd] in Hx.
  destruct fuel as [|fuel]; [lia|].
  assert (Hkey : forall tail,
    parse_members (S fuel) (quote k ++ 58 :: stringify x ++ tail)
    = match parse_value fuel (stringify x ++ tail) with
      | None => None
      | Some (v, r) =>
          match skip_ws r with
          | c :: r' =>
              if c =? 44 then
                match parse_members fuel r' with
                | Some (kvs, r'') => Some ((k, v) :: kvs, r'')
                | None => None
                end
              else if c =? 125 then Some ([(k, v)], r')
              else None
          | [] => None
          end
      end).
  { intros tail. unfold quote. cbn [app parse_members skip_ws].
    change (is_json_ws 34) with false. cbv iota.
    change (34 =? 34) with true. cbv iota.
    rewrite <- app_assoc. cbn [app]. rewrite parse_quote_body.
    cbn [skip_ws]. change (is_json_ws 58) with false. cbv iota.
    change (58 =? 58) with true. cbv iota. reflexivity. }
  destruct members as [|[k' y] members].
  - change (stringify_fields [(k, x)])
      with (quote k ++ 58 :: stringify x ++ [125]).
    rewrite <- !app_assoc. cbn [app]. rewrite <- app_assoc, Hkey. cbn [app].
    rewrite (Hx Hpx) by (cbn; auto; lia).
    reflexivity.
  - change (stringify_fields ((k, x) :: (k', y) :: members))
      with (quote k ++ 58 :: stringify x ++ 44
              :: stringify_fields ((k', y) :: members)).
    rewrite <- !app_assoc. cbn [app]. rewrite <- app_assoc, Hkey. cbn [app].
    rewrite (Hx Hpx) by (cbn; auto; lia).
    cbn [skip_ws]. change (is_json_ws 44) with false. cbv iota.
    change (44 =? 44) with true. cbv iota.
    rewrite IH; [reflexivity | congruence | assumption | lia].
Qed.

(** Reading back the serialisation of a value gives the value, its
    numbers as they are read from the text printed for them. *)
Lemma parse_stringify v : reads_back v.
Proof.
  induction v as [| b | m e | s | items IH | members IH]
    using json_nested_ind; intros Hplain fuel rest Hfuel Hrest;
    (destruct fuel as [|fuel]; [cbn in Hfuel; lia|]).
  - apply parse_value_null.
  - destruct b; [apply parse_value_true | apply parse_value_false].
  - cbn [stringify reprinted]. now apply parse_stringify_number.
  - apply parse_value_string.
  - rewrite stringify_array. cbn [json_size] in Hfuel. cbn [reprinted].
    destruct items as [|x items].
    + reflexivity.
    + cbn [distinct_keys] in Hplain.
      destruct (stringify_head x) as (c & tl & Hhead & Hws & Hc & _).
      cbn [app parse_value skip_ws].
      change (is_json_ws 91) with false. cbv iota.
      change (91 =? 123) with false. change (91 =? 91) with true. cbv iota.
      rewrite parse_elements_stringify by (auto; try congruence; lia).
      assert (Hfirst : exists tl', stringify_elements (x :: items) ++ rest = c :: tl').
      { destruct items; cbn [stringify_elements]; rewrite Hhead; eauto. }
      destruct Hfirst as [tl' ->].
      rewrite skip_ws_not_ws by assumption.
      destruct (N.eqb_spec c 93); [lia | reflexivity].
  - rewrite stringify_object. cbn [json_size] in Hfuel. cbn [reprinted].
    destruct members as [|[k x] members].
    + reflexivity.
    + cbn [distinct_keys] in Hplain. apply andb_true_iff in Hplain as [Hd Hpl].
      cbn [app parse_value skip_ws].
      change (is_json_ws 123) with false. cbv iota.
      change (123 =? 123) with true. cbv iota.
      rewrite parse_members_stringify by (auto; try congruence; lia).
      rewrite obj_of_members_distinct
        by (rewrite List.map_map; cbn [fst]; exact Hd).
      assert (Hfirst : exists tl', stringify_fields ((k, x) :: members) ++ rest = 34 :: tl').
      { destruct members as [|[k' y] members]; cbn [stringify_fields]; unfold quote;
          cbn [app]; eauto. }
      destruct Hfirst as [tl' ->].
      reflexivity.
Qed.


Lemma json_size_le v : (json_size v <= length (stringify v))%nat.
Proof.
  induction v as [| b | m e | s | items IH | members IH]
    using json_nested_ind; try (cbn [json_size]; lia).
  - rewrite stringify_array. cbn [json_size length]. apply le_n_S.
    induction IH as [|x items Hx _ IHl]; [cbn; lia|].
    cbn [fold_right].
    destruct items as [|y items].
    + cbn [stringify_elements fold_right]. rewrite length_app. cbn [length]. lia.
    + change (stringify_elements (x :: y :: items))
        with (stringify x ++ 44 :: stringify_elements (y :: items)).
      rewrite length_app. cbn [length]. lia.
  - rewrite stringify_object. cbn [json_size length]. apply le_n_S.
    induction IH as [|[k x] members Hx _ IHl]; [cbn; lia|].
    cbn [fold_right snd] in *.
    destruct members as [|[k' y] members].
    + cbn [stringify_fields fold_right]. rewrite !length_app. cbn [length].
      rewrite length_app. lia.
    + change (stringify_fields ((k, x) :: (k', y) :: members))
        with (quote k ++ 58 :: stringify x ++ 44
                :: stringify_fields ((k', y) :: members)).
      rewrite length_app. cbn [length]. rewrite length_app. cbn [length]. lia.
Qed.

(** [JSON.parse(JSON.stringify(v))] is [v] with the numbers as they are
    printed. *)
Lemma JSON_parse_stringify v :
  distinct_keys v = true -> JSON_parse (stringify v) = Some (reprinted v).
Proof.
  intros Hplain. unfold JSON_parse.
  rewrite <- (app_nil_r (stringify v)) at 2.
  rewrite parse_stringify; [reflexivity | assumption | | exact I].
  pose proof (json_size_le v). lia.
Qed.

(** The spelling changes, the number does not. *)
Lemma Number_literal_value m e :
  same_decimal (fst (Number_literal m e)) (snd (Number_literal m e)) m e = true.
Proof.
  unfold Number_literal. cbv zeta.
  destruct (Z.eqb_spec m 0) as [->|Hm].
  { unfold same_decimal. cbn [fst snd]. now rewrite !Z.mul_0_l. }
  rewrite digits_value_zeros.
  pose proof (significant_length (digits (Z.abs_N m))) as Hk.
  pose proof (significant_value (Z.abs_N m)) as Hv.
  set (V := digits_value (significant (digits (Z.abs_N m)))) in *.
  set (lk := length (significant (digits (Z.abs_N m)))) in *.
  set (ld := length (digits (Z.abs_N m))) in *.
  assert (Habs : Z.abs m = (Z.of_N V * 10 ^ Z.of_nat (ld - lk))%Z).
  { rewrite <- N2Z.inj_abs_N, Hv at 1.
    rewrite N2Z.inj_mul, N2Z.inj_pow, nat_N_Z. reflexivity. }
  assert (Hsigned : forall x : N,
            (if (m <? 0)%Z then (- Z.of_N x)%Z else Z.of_N x)
            = (Z.sgn m * Z.of_N x)%Z).
  { intros x. destruct (Z.ltb_spec m 0); [rewrite Z.sgn_neg | rewrite Z.sgn_pos];
      lia. }
  assert (Hm' : m = (Z.sgn m * Z.abs m)%Z) by (rewrite Z.mul_comm; symmetry; apply Z.abs_sgn).
  rewrite !Hsigned. unfold same_decimal.
  assert (Hz : (lk <= ld)%nat) by exact Hk.
  clearbody V lk ld. clear Hsigned Hv Hk.
  assert (Hright : forall y, (m * y = Z.sgn m * (Z.abs m * y))%Z).
  { intros y. rewrite Z.mul_assoc. now rewrite <- Hm'. }
  destruct ((Z.of_nat lk <=? Z.of_nat ld + e)%Z && (Z.of_nat ld + e <=? 21)%Z)
    eqn:Hint; cbn [fst snd]; apply Z.eqb_eq; rewrite Hright, Habs.
  - apply andb_true_iff in Hint as [Hn _]. apply Z.leb_le in Hn.
    rewrite N2Z.inj_mul, N2Z.inj_pow, nat_N_Z.
    rewrite Z2Nat.id by lia. change (Z.of_N 10) with 10%Z.
    rewrite <- !Z.mul_assoc. do 2 f_equal.
    rewrite <- !Z.pow_add_r by lia. f_equal. lia.
  - rewrite Z.min_r by lia.
    rewrite <- !Z.mul_assoc. do 2 f_equal.
    rewrite <- Z.pow_add_r by lia. f_equal. lia.
Qed.

Lemma same_decimal_refl m e : same_decimal m e m e = true.
Proof. unfold same_decimal. apply Z.eqb_refl. Qed.

Lemma jsstring_eqb_refl s : jsstring_eqb s s = true.
Proof. unfold jsstring_eqb. now apply bool_decide_eq_true. Qed.

Lemma js_value_distinct v : js_value v = true -> distinct_keys v = true.
Proof.
  induction v as [| b | m e | s | items IH | members IH]
    using json_nested_ind; try reflexivity.
  - cbn [js_value distinct_keys]. induction IH as [|x items Hx _ IHl];
      [reflexivity|].
    cbn [forallb]. intros H. apply andb_true_iff in H as [H1 H2].
    apply andb_true_intro. auto.
  - cbn [js_value distinct_keys]. intros H.
    apply andb_true_iff in H as [Hd H]. apply andb_true_intro.
    split; [assumption|]. clear Hd.
    induction IH as [|[k x] members Hx _ IHl]; [reflexivity|].
    cbn [forallb snd] in *. apply andb_true_iff in H as [H1 H2].
    apply andb_true_intro. auto.
Qed.

Lemma as_printed_distinct v : as_printed v = true -> distinct_keys v = true.
Proof.
  induction v as [| b | m e | s | items IH | members IH]
    using json_nested_ind; try reflexivity.
  - cbn [as_printed distinct_keys]. induction IH as [|x items Hx _ IHl];
      [reflexivity|].
    cbn [forallb]. intros H. apply andb_true_iff in H as [H1 H2].
    apply andb_true_intro. auto.
  - cbn [as_printed distinct_keys]. intros H.
    apply andb_true_iff in H as [Hd H]. apply andb_true_intro.
    split; [assumption|]. clear Hd.
    induction IH as [|[k x] members Hx _ IHl]; [reflexivity|].
    cbn [forallb snd] in *. apply andb_true_iff in H as [H1 H2].
    apply andb_true_intro. auto.
Qed.

(** An integer of at most sixteen digits is in the form of its printed
    literal. *)
Lemma number_form_integer m :
  (Z.abs m <= 9007199254740991)%Z -> number_form m 0 = true.
Proof.
  intros Hm. unfold number_form. cbn [Z.eqb andb].
  apply orb_true_iff. left. apply Z.leb_le.
  pose proof (digits_length_bound 15 (Z.abs_N m)) as Hlen.
  assert (Hlt : Z.abs_N m < 10 ^ N.of_nat 16)
    by (change (10 ^ N.of_nat 16) with 10000000000000000; lia).
  specialize (Hlen Hlt). lia.
Qed.

End JsonRoundTrip.

(** *** Spellings of one decimal *)

Section Spelling.

Lemma digits_times_ten n : n <> 0 -> digits (n * 10) = digits n ++ [48].
Proof.
  intros Hn. rewrite digits_step by lia.
  rewrite N.div_mul by lia. rewrite N.Div0.mod_mul. now rewrite N.add_0_r.
Qed.

Lemma digits_times_pow10 n j :
  n <> 0 -> digits (n * 10 ^ N.of_nat j) = digits n ++ repeat 48 j.
Proof.
  intros Hn. induction j as [|j IH].
  - cbn [repeat]. now rewrite N.mul_1_r, app_nil_r.
  - rewrite Nat2N.inj_succ, N.pow_succ_r'.
    replace (n * (10 * 10 ^ N.of_nat j)) with (n * 10 ^ N.of_nat j * 10) by lia.
    rewrite digits_times_ten, IH.
    + rewrite <- app_assoc. f_equal.
      change [48] with (repeat 48 1). rewrite <- repeat_app.
      f_equal. lia.
    + pose proof (N.pow_nonzero 10 (N.of_nat j)). lia.
Qed.

Lemma drop_zeros_zeros j l : drop_zeros (repeat 48 j ++ l) = drop_zeros l.
Proof. induction j as [|j IH]; [reflexivity|]. exact IH. Qed.

Lemma significant_zeros l j : significant (l ++ repeat 48 j) = significant l.
Proof.
  unfold significant. now rewrite rev_app_distr, rev_repeat, drop_zeros_zeros.
Qed.

Lemma abs_N_shift m j :
  (0 <= j)%Z -> Z.abs_N (m * 10 ^ j) = Z.abs_N m * 10 ^ N.of_nat (Z.to_nat j).
Proof.
  intros Hj. rewrite Zabs2N.inj_mul. f_equal.
  apply N2Z.inj. rewrite N2Z.inj_abs_N, N2Z.inj_pow, nat_N_Z, Z2Nat.id by lia.
  change (Z.of_N 10) with 10%Z. apply Z.abs_eq. apply Z.pow_nonneg. lia.
Qed.

(** Zeros moved from the exponent into the digits change neither the
    printed text nor the decimal read from it. *)
Lemma Number_toString_shift m e j :
  (0 <= j)%Z -> Number_toString (m * 10 ^ j) (e - j) = Number_toString m e.
Proof.
  intros Hj. unfold Number_toString.
  pose proof (Z.pow_pos_nonneg 10 j ltac:(lia) Hj) as Hp.
  destruct (Z.eqb_spec m 0) as [->|Hm]; [reflexivity|].
  destruct (Z.eqb_spec (m * 10 ^ j) 0); [nia|].
  rewrite abs_N_shift, digits_times_pow10, significant_zeros by lia.
  rewrite length_app, repeat_length.
  replace (m * 10 ^ j <? 0)%Z with (m <? 0)%Z
    by (destruct (Z.ltb_spec m 0); destruct (Z.ltb_spec (m * 10 ^ j) 0); nia).
  do 2 f_equal. lia.
Qed.

Lemma Number_literal_shift m e j :
  (0 <= j)%Z -> Number_literal (m * 10 ^ j) (e - j) = Number_literal m e.
Proof.
  intros Hj. unfold Number_literal.
  pose proof (Z.pow_pos_nonneg 10 j ltac:(lia) Hj) as Hp.
  destruct (Z.eqb_spec m 0) as [->|Hm]; [reflexivity|].
  destruct (Z.eqb_spec (m * 10 ^ j) 0); [nia|].
  rewrite abs_N_shift, digits_times_pow10, significant_zeros by lia.
  rewrite length_app, repeat_length.
  replace (m * 10 ^ j <? 0)%Z with (m <? 0)%Z
    by (destruct (Z.ltb_spec m 0); destruct (Z.ltb_spec (m * 10 ^ j) 0); nia).
  replace (Z.of_nat (length (digits (Z.abs_N m)) + Z.to_nat j) + (e - j))%Z
    with (Z.of_nat (length (digits (Z.abs_N m))) + e)%Z by lia.
  reflexivity.
Qed.

Lemma Number_literal_same m e m' e' :
  same_decimal m e m' e' = true -> Number_literal m e = Number_literal m' e'.
Proof.
  intros Hsame. unfold same_decimal in Hsame. apply Z.eqb_eq in Hsame.
  rewrite <- (Number_literal_shift m e (e - Z.min e e')) by lia.
  rewrite <- (Number_literal_shift m' e' (e' - Z.min e e')) by lia.
  rewrite Hsame. f_equal; lia.
Qed.

Lemma Number_toString_same m e m' e' :
  same_decimal m e m' e' = true -> Number_toString m e = Number_toString m' e'.
Proof.
  intros Hsame. unfold same_decimal in Hsame. apply Z.eqb_eq in Hsame.
  rewrite <- (Number_toString_shift m e (e - Z.min e e')) by lia.
  rewrite <- (Number_toString_shift m' e' (e' - Z.min e e')) by lia.
  rewrite Hsame. f_equal; lia.
Qed.

End Spelling.

(** *** Doubles of fractions *)

Section Binary64Scaling.

Local Open Scope Z_scope.

Lemma pow2_pos x : 0 <= x -> 0 < 2 ^ x.
Proof. intros. apply Z.pow_pos_nonneg; lia. Qed.

Lemma pow2_succ x : 0 <= x -> 2 ^ (x + 1) = 2 * 2 ^ x.
Proof. intros. rewrite Z.pow_add_r by lia. lia. Qed.

Lemma floor_log2_spec a b : 0 < a -> 0 < b -> in_binade a b (floor_log2 a b).
Proof.
  intros Ha Hb. unfold floor_log2, in_binade.
  pose proof (Z.log2_spec a Ha) as [Hla Hua].
  pose proof (Z.log2_spec b Hb) as [Hlb Hub].
  pose proof (Z.log2_nonneg a) as Hna. pose proof (Z.log2_nonneg b) as Hnb.
  rewrite <- Z.add_1_r in Hua, Hub.
  rewrite pow2_succ in Hua, Hub by assumption.
  set (la := Z.log2 a) in *. set (lb := Z.log2 b) in *.
  destruct (Z.leb_spec 0 (la - lb)) as [Hl|Hl].
  - (* a has at least as many bits as b *)
    assert (Hsplit : 2 ^ la = 2 ^ (la - lb) * 2 ^ lb)
      by (rewrite <- Z.pow_add_r by lia; f_equal; lia).
    pose proof (pow2_pos (la - lb) Hl) as Hp.
    destruct (Z.leb_spec (b * 2 ^ (la - lb)) a) as [Ht|Ht].
    + destruct (Z.leb_spec 0 (la - lb)); [|lia].
      rewrite pow2_succ by lia. split; [assumption|]. nia.
    + destruct (Z.leb_spec 0 (la - lb - 1)) as [H1|H1].
      * replace (la - lb - 1 + 1) with (la - lb) by lia.
        split; [|assumption].
        assert (Hhalf : 2 ^ (la - lb) = 2 * 2 ^ (la - lb - 1)).
        { rewrite <- pow2_succ by lia. f_equal. lia. }
        pose proof (pow2_pos (la - lb - 1) H1). nia.
      * assert (Heq : la - lb = 0) by lia. rewrite Heq in *.
        replace (- (0 - 1)) with 1 by lia. cbn in Hsplit, Ht |- *. nia.
  - (* b has more bits than a *)
    assert (Hsplit : 2 ^ lb = 2 ^ (- (la - lb)) * 2 ^ la)
      by (rewrite <- Z.pow_add_r by lia; f_equal; lia).
    pose proof (pow2_pos (- (la - lb)) ltac:(lia)) as Hp.
    destruct (Z.leb_spec b (a * 2 ^ (- (la - lb)))) as [Ht|Ht].
    + destruct (Z.leb_spec 0 (la - lb)); [lia|]. split; [assumption|]. nia.
    + destruct (Z.leb_spec 0 (la - lb - 1)); [lia|].
      replace (- (la - lb - 1)) with (- (la - lb) + 1) by lia.
      rewrite pow2_succ by lia. split; nia.
Qed.


Lemma in_binade_lt a b r r' :
  0 < a -> 0 < b -> in_binade a b r -> in_binade a b r' -> ~ r < r'.
Proof.
  intros Ha Hb Hr Hr' Hlt. unfold in_binade in Hr, Hr'.
  destruct (Z.leb_spec 0 r) as [H0|H0];
    destruct (Z.leb_spec 0 r') as [H0'|H0']; try lia.
  - assert (2 ^ (r + 1) <= 2 ^ r') by (apply Z.pow_le_mono_r; lia).
    pose proof (pow2_pos (r + 1) ltac:(lia)). nia.
  - pose proof (pow2_pos r' H0').
    assert (2 ^ (- r) = 2 * 2 ^ (- r - 1))
      by (rewrite <- pow2_succ by lia; f_equal; lia).
    pose proof (pow2_pos (- r - 1) ltac:(lia)). nia.
  - assert (2 ^ (- r') <= 2 ^ (- r - 1)) by (apply Z.pow_le_mono_r; lia).
    assert (2 ^ (- r) = 2 * 2 ^ (- r - 1))
      by (rewrite <- pow2_succ by lia; f_equal; lia).
    pose proof (pow2_pos (- r') ltac:(lia)). nia.
Qed.

Lemma in_binade_unique a b r r' :
  0 < a -> 0 < b -> in_binade a b r -> in_binade a b r' -> r = r'.
Proof.
  intros Ha Hb Hr Hr'.
  pose proof (in_binade_lt a b r r' Ha Hb Hr Hr').
  pose proof (in_binade_lt a b r' r Ha Hb Hr' Hr). lia.
Qed.

Lemma in_binade_scale a b c r :
  0 < c -> in_binade a b r -> in_binade (a * c) (b * c) r.
Proof.
  intros Hc. unfold in_binade. destruct (0 <=? r); intros [H1 H2]; split; nia.
Qed.

Lemma floor_log2_scale a b c :
  0 < a -> 0 < b -> 0 < c -> floor_log2 (a * c) (b * c) = floor_log2 a b.
Proof.
  intros Ha Hb Hc. apply (in_binade_unique (a * c) (b * c)); try nia.
  - apply floor_log2_spec; nia.
  - apply in_binade_scale; [assumption|]. now apply floor_log2_spec.
Qed.

Lemma compare_scale x y c : 0 < c -> (x * c ?= y * c) = (x ?= y).
Proof.
  intros Hc.
  destruct (Z.compare_spec x y); destruct (Z.compare_spec (x * c) (y * c));
    try reflexivity; nia.
Qed.

Lemma round_half_even_scale a b c :
  0 < b -> 0 < c -> round_half_even (a * c) (b * c) = round_half_even a b.
Proof.
  intros Hb Hc. unfold round_half_even.
  rewrite Z.div_mul_cancel_r, Z.mul_mod_distr_r by lia.
  rewrite Z.mul_assoc, compare_scale by assumption. reflexivity.
Qed.

Lemma scale_scale base a b c x :
  scale base (a * c) (b * c) x
  = (fst (scale base a b x) * c, snd (scale base a b x) * c).
Proof. unfold scale. destruct (0 <=? x); cbn [fst snd]; f_equal; lia. Qed.

Lemma scale_pos base a b x :
  0 < base -> 0 < b -> 0 < snd (scale base a b x).
Proof.
  intros Hbase Hb. unfold scale. destruct (Z.leb_spec 0 x); cbn [snd];
    [assumption|].
  apply Z.mul_pos_pos; [assumption|]. apply Z.pow_pos_nonneg; lia.
Qed.

(** The nearest double is that of the quotient, whatever the fraction
    that gives it. *)
Lemma nearest_double_scale a b c :
  0 <= a -> 0 < b -> 0 < c ->
  nearest_double (a * c) (b * c) = nearest_double a b.
Proof.
  intros Ha Hb Hc. unfold nearest_double.
  destruct (Z.eqb_spec a 0) as [->|Ha0]; [reflexivity|].
  destruct (Z.eqb_spec (a * c) 0); [nia|].
  rewrite floor_log2_scale by lia.
  rewrite scale_scale.
  pose proof (scale_pos 2 a b (- Z.max (floor_log2 a b - 52) (-1074))
                ltac:(lia) Hb) as Hpos.
  destruct (scale 2 a b (- Z.max (floor_log2 a b - 52) (-1074))) as [a' b'].
  cbn [fst snd] in *. now rewrite round_half_even_scale.
Qed.


Lemma pow10_pos x : 0 <= x -> 0 < 10 ^ x.
Proof. intros. apply Z.pow_pos_nonneg; lia. Qed.

(** Zeros moved from the exponent into the digits do not change the
    double. *)
Lemma to_double_shift m e j :
  0 <= m -> 0 <= j -> to_double (m * 10 ^ j) (e - j) = to_double m e.
Proof.
  intros Hm Hj. unfold to_double, scale.
  pose proof (pow10_pos j Hj) as Hpj.
  destruct (Z.leb_spec 0 (e - j)) as [H1|H1];
    destruct (Z.leb_spec 0 e) as [H2|H2]; try lia.
  - f_equal. rewrite <- Z.mul_assoc, <- Z.pow_add_r by lia.
    do 2 f_equal. lia.
  - pose proof (pow10_pos (- (e - j)) ltac:(lia)) as Hc.
    replace (m * 10 ^ j) with (m * 10 ^ e * 10 ^ (- (e - j))).
    + now rewrite nearest_double_scale by (try apply Z.mul_nonneg_nonneg; lia).
    + rewrite <- Z.mul_assoc, <- Z.pow_add_r by lia. do 2 f_equal. lia.
  - pose proof (pow10_pos (- e) ltac:(lia)) as Hc.
    replace (1 * 10 ^ (- (e - j))) with (1 * 10 ^ (- e) * 10 ^ j).
    + now rewrite nearest_double_scale by lia.
    + rewrite <- Z.mul_assoc, <- Z.pow_add_r by lia. do 2 f_equal. lia.
Qed.

(** Two spellings of one decimal have one double. *)
Lemma to_double_same_decimal m e m' e' :
  0 <= m -> 0 <= m' -> same_decimal m e m' e' = true ->
  to_double m e = to_double m' e'.
Proof.
  intros Hm Hm' Hsame. unfold same_decimal in Hsame.
  apply Z.eqb_eq in Hsame.
  rewrite <- (to_double_shift m e (e - Z.min e e')) by lia.
  rewrite <- (to_double_shift m' e' (e' - Z.min e e')) by lia.
  rewrite Hsame. f_equal; lia.
Qed.

(** The digits that are found round to the double. *)
Lemma digits_of_length_sound d k s g :
  digits_of_length d k = Some (s, g) -> rounds_to d s g = true.
Proof.
  unfold digits_of_length.
  destruct (scale 2 (fst d) 1 (snd d)) as [a b].
  destruct (scale 10 a b (- (decimal_point a b - k))) as [a' b'].
  destruct (rounds_to d (a' / b') (decimal_point a b - k)) eqn:Hlo;
    destruct (rounds_to d (a' / b' + 1) (decimal_point a b - k)) eqn:Hhi;
    try discriminate.
  - destruct (2 * (a' mod b') ?= b'); [destruct (Z.even (a' / b'))| |];
      intros Heq; injection Heq as <- <-; assumption.
  - intros Heq; injection Heq as <- <-; assumption.
  - intros Heq; injection Heq as <- <-; assumption.
Qed.

Lemma Number_digits_sound d s g :
  Number_digits d = Some (s, g) -> rounds_to d s g = true.
Proof.
  unfold Number_digits. generalize 1. generalize 17%nat.
  intros fuel. induction fuel as [|fuel IH]; intros k; [discriminate|].
  cbn [shortest_from].
  destruct (digits_of_length d k) as [[s' g']|] eqn:Hk.
  - intros Heq. injection Heq as -> ->. now apply (digits_of_length_sound d k).
  - apply IH.
Qed.

End Binary64Scaling.

(** *** Integers among the doubles *)

Section Binary64Integers.

Local Open Scope Z_scope.

Lemma log2_below_53 y : 0 < y < 2 ^ 53 -> 0 <= Z.log2 y <= 52.
Proof.
  intros Hy. split; [apply Z.log2_nonneg|].
  assert (Z.log2 y < 53); [|lia]. apply Z.log2_lt_pow2; lia.
Qed.

Lemma integer_significand y :
  0 < y < 2 ^ 53 -> 2 ^ 52 <= y * 2 ^ (52 - Z.log2 y) < 2 ^ 53.
Proof.
  intros Hy. pose proof (log2_below_53 y Hy) as Hp.
  pose proof (Z.log2_spec y ltac:(lia)) as [Hlo Hhi].
  assert (Hpow : 0 < 2 ^ (52 - Z.log2 y)) by (apply Z.pow_pos_nonneg; lia).
  replace (2 ^ 52) with (2 ^ Z.log2 y * 2 ^ (52 - Z.log2 y))
    by (rewrite <- Z.pow_add_r by lia; f_equal; lia).
  replace (2 ^ 53) with (2 ^ Z.succ (Z.log2 y) * 2 ^ (52 - Z.log2 y))
    by (rewrite <- Z.pow_add_r by lia; f_equal; lia).
  split; [apply Z.mul_le_mono_nonneg_r | apply Z.mul_lt_mono_pos_r]; lia.
Qed.

Lemma nearest_double_integer y :
  0 < y < 2 ^ 53 -> nearest_double y 1 = Some (double_of_integer y).
Proof.
  intros Hy. pose proof (log2_below_53 y Hy) as Hp.
  pose proof (Z.log2_spec y ltac:(lia)) as [Hlo Hhi].
  pose proof (integer_significand y Hy) as HM.
  unfold nearest_double, double_of_integer.
  destruct (Z.eqb_spec y 0); [lia|].
  assert (floor_log2 y 1 = Z.log2 y) as ->.
  { unfold floor_log2. change (Z.log2 1) with 0. rewrite Z.sub_0_r.
    destruct (Z.leb_spec 0 (Z.log2 y)); [|lia].
    destruct (Z.leb_spec (1 * 2 ^ Z.log2 y) y); [reflexivity | lia]. }
  rewrite Z.max_l by lia. unfold scale.
  destruct (Z.leb_spec 0 (- (Z.log2 y - 52))); [|lia].
  replace (- (Z.log2 y - 52)) with (52 - Z.log2 y) by lia.
  unfold round_half_even. rewrite Z.div_1_r, Z.mod_1_r.
  change (2 * 0 ?= 1) with Lt. cbv iota.
  destruct (Z.eqb_spec (y * 2 ^ (52 - Z.log2 y)) (2 ^ 53)); [lia|].
  destruct (Z.leb_spec (Z.log2 y - 52) 971); [reflexivity | lia].
Qed.

Lemma nearest_double_large y M E :
  2 ^ 53 <= y -> nearest_double y 1 = Some (M, E) -> 1 <= E.
Proof.
  intros Hy. assert (Hp : 53 <= Z.log2 y) by (apply Z.log2_le_pow2; lia).
  pose proof (Z.log2_spec y ltac:(lia)) as [Hlo Hhi].
  unfold nearest_double. destruct (Z.eqb_spec y 0); [lia|].
  assert (floor_log2 y 1 = Z.log2 y) as ->.
  { unfold floor_log2. change (Z.log2 1) with 0. rewrite Z.sub_0_r.
    destruct (Z.leb_spec 0 (Z.log2 y)); [|lia].
    destruct (Z.leb_spec (1 * 2 ^ Z.log2 y) y); [reflexivity | lia]. }
  rewrite Z.max_l by lia.
  destruct (scale 2 y 1 (- (Z.log2 y - 52))) as [a' b'].
  destruct (round_half_even a' b' =? 2 ^ 53);
    match goal with |- context [?x <=? 971] => destruct (x <=? 971) end;
    intros Heq; inversion Heq; lia.
Qed.


(** Only the integer itself rounds to the double of an integer below
    2^53. *)
Lemma rounds_to_integer a t g :
  0 < a < 2 ^ 53 -> 0 <= t -> 0 <= g ->
  rounds_to (double_of_integer a) t g = true <-> t * 10 ^ g = a.
Proof.
  intros Ha Ht Hg. unfold rounds_to, to_double, scale.
  destruct (Z.leb_spec 0 g); [|lia].
  assert (Hy : 0 <= t * 10 ^ g) by (apply Z.mul_nonneg_nonneg; lia).
  pose proof (log2_below_53 a Ha) as Hpa.
  pose proof (integer_significand a Ha) as HMa.
  split.
  - destruct (Z.eq_dec (t * 10 ^ g) 0) as [H0|H0].
    { rewrite H0. change (nearest_double 0 1) with (Some (0, -1074)).
      unfold double_of_integer. cbn [fst snd]. intros Hr.
      apply andb_true_iff in Hr as [Hr _]. apply Z.eqb_eq in Hr. lia. }
    destruct (Z.lt_ge_cases (t * 10 ^ g) (2 ^ 53)) as [Hlt|Hge].
    + rewrite nearest_double_integer by lia. unfold double_of_integer.
      cbn [fst snd]. intros Hr. apply andb_true_iff in Hr as [HM HE].
      apply Z.eqb_eq in HM, HE.
      assert (Hp : Z.log2 (t * 10 ^ g) = Z.log2 a) by lia.
      rewrite Hp in HM.
      apply Z.mul_reg_r in HM; [assumption|].
      apply Z.pow_nonzero; lia.
    + destruct (nearest_double (t * 10 ^ g) 1) as [[M E]|] eqn:Hd;
        [|discriminate].
      apply nearest_double_large in Hd; [|assumption].
      unfold double_of_integer. cbn [fst snd]. intros Hr.
      apply andb_true_iff in Hr as [_ HE]. apply Z.eqb_eq in HE. lia.
  - intros ->. rewrite nearest_double_integer by assumption.
    unfold double_of_integer. cbn [fst snd]. now rewrite !Z.eqb_refl.
Qed.

(** The double of an integer, as a fraction. *)
Lemma double_of_integer_fraction a :
  0 < a < 2 ^ 53 ->
  exists b, 0 < b
    /\ scale 2 (fst (double_of_integer a)) 1 (snd (double_of_integer a))
       = (a * b, b).
Proof.
  intros Ha. pose proof (log2_below_53 a Ha) as Hp.
  unfold double_of_integer, scale. cbn [fst snd].
  destruct (Z.leb_spec 0 (Z.log2 a - 52)).
  - exists 1. split; [lia|].
    replace (Z.log2 a - 52) with 0 by lia.
    replace (52 - Z.log2 a) with 0 by lia. f_equal. cbn. lia.
  - exists (2 ^ (52 - Z.log2 a)). split; [apply Z.pow_pos_nonneg; lia|].
    f_equal. replace (- (Z.log2 a - 52)) with (52 - Z.log2 a) by lia. lia.
Qed.

(** With [k] digits, of the [n] that the integer has, the digits are
    found when the last n - k digits of the integer are zeros. *)
Lemma digits_of_length_integer a k :
  0 < a < 2 ^ 53 -> 1 <= k <= digits_count a ->
  (digits_of_length (double_of_integer a) k = None /\ k < digits_count a)
  \/ exists t, digits_of_length (double_of_integer a) k
               = Some (t, digits_count a - k)
               /\ t * 10 ^ (digits_count a - k) = a.
Proof.
  intros Ha Hk. unfold digits_of_length.
  destruct (double_of_integer_fraction a Ha) as (b & Hb & ->).
  assert (decimal_point (a * b) b = digits_count a) as ->.
  { unfold decimal_point. destruct (Z.leb_spec b (a * b)); [|nia].
    now rewrite Z.div_mul by lia. }
  set (g := digits_count a - k). assert (Hg : 0 <= g) by (subst g; lia).
  assert (Hpow : 0 < 10 ^ g) by (apply Z.pow_pos_nonneg; lia).
  assert (Hscale : exists a' b', scale 10 (a * b) b (- g) = (a', b')
                                 /\ a' / b' = a / 10 ^ g).
  { unfold scale. destruct (Z.leb_spec 0 (- g)).
    - exists (a * b * 10 ^ (- g)), b. split; [reflexivity|].
      replace g with 0 by lia. cbn. rewrite Z.mul_1_r, Z.div_1_r.
      now rewrite Z.div_mul by lia.
    - exists (a * b), (b * 10 ^ (- - g)). split; [reflexivity|].
      rewrite Z.opp_involutive, <- Z.div_div by lia.
      now rewrite Z.div_mul by lia. }
  destruct Hscale as (a' & b' & -> & ->).
  pose proof (Z.mul_div_le a (10 ^ g) Hpow) as Hlo.
  pose proof (Z.mul_succ_div_gt a (10 ^ g) Hpow) as Hhi.
  assert (Ht : 0 <= a / 10 ^ g) by (apply Z.div_pos; lia).
  assert (rounds_to (double_of_integer a) (a / 10 ^ g + 1) g = false) as ->.
  { apply not_true_iff_false. rewrite rounds_to_integer by lia. lia. }
  destruct (rounds_to (double_of_integer a) (a / 10 ^ g) g) eqn:Hr.
  - right. exists (a / 10 ^ g). split; [reflexivity|].
    now apply rounds_to_integer in Hr.
  - left. split; [reflexivity|].
    destruct (Z.eq_dec k (digits_count a)) as [Heq|]; [|lia].
    exfalso. apply not_true_iff_false in Hr. apply Hr.
    apply rounds_to_integer; try lia.
    replace g with 0 by (subst g; lia). cbn. rewrite Z.div_1_r. lia.
Qed.

Lemma shortest_from_integer a fuel : forall k,
  0 < a < 2 ^ 53 -> 1 <= k <= digits_count a ->
  digits_count a - k < Z.of_nat fuel ->
  exists s g, shortest_from fuel (double_of_integer a) k = Some (s, g)
              /\ 0 <= g /\ s * 10 ^ g = a.
Proof.
  induction fuel as [|fuel IH]; intros k Ha Hk Hfuel; [lia|].
  cbn [shortest_from].
  destruct (digits_of_length_integer a k Ha Hk) as [[-> Hlt] | (t & -> & Ht)].
  - apply IH; [assumption | lia | lia].
  - exists t, (digits_count a - k). split; [reflexivity|]. split; [lia | assumption].
Qed.


Lemma digits_count_integer a :
  0 < a < 2 ^ 53 -> 1 <= digits_count a <= 16.
Proof.
  intros Ha. unfold digits_count.
  pose proof (digits_not_nil (Z.to_N a)) as Hne.
  pose proof (digits_length_bound 15 (Z.to_N a)) as Hlen.
  assert (Hlt : (Z.to_N a < 10 ^ N.of_nat 16)%N)
    by (change (10 ^ N.of_nat 16)%N with 10000000000000000%N; lia).
  specialize (Hlen Hlt).
  destruct (digits (Z.to_N a)); [congruence|]. cbn [length] in *. lia.
Qed.

(** JavaScript prints every integer that a double holds exactly with
    the digits of the integer. *)
Lemma printed_number_integer m :
  Z.abs m <= 9007199254740991 -> printed_number m 0 = true.
Proof.
  intros Hm. unfold printed_number.
  destruct (Z.eqb_spec m 0) as [|Hm0]; [reflexivity|]. cbn [orb].
  assert (Ha : 0 < Z.abs m < 2 ^ 53) by lia.
  unfold prints_back, to_double, scale. cbn [Z.leb Z.compare].
  rewrite Z.pow_0_r, Z.mul_1_r, nearest_double_integer by assumption.
  pose proof (integer_significand (Z.abs m) Ha) as HM.
  pose proof (digits_count_integer (Z.abs m) Ha) as Hn.
  destruct (shortest_from_integer (Z.abs m) 17 1 Ha) as (s & g & Hs & Hg & Hv);
    [lia | lia |].
  unfold double_of_integer at 1. cbv iota beta.
  fold (double_of_integer (Z.abs m)). unfold Number_digits. rewrite Hs.
  apply andb_true_intro. split; [apply Z.ltb_lt; lia|].
  unfold same_decimal. rewrite Z.min_r by lia.
  rewrite !Z.sub_0_r, Z.pow_0_r, Z.mul_1_r. now apply Z.eqb_eq.
Qed.

End Binary64Integers.

(** *** The value that is read back *)

Section SameValue.

Local Open Scope Z_scope.

Lemma scale_nonneg base a b x :
  0 < base -> 0 <= a -> 0 <= fst (scale base a b x).
Proof.
  intros Hbase Ha. unfold scale. destruct (Z.leb_spec 0 x); cbn [fst];
    [|assumption].
  apply Z.mul_nonneg_nonneg; [assumption|]. apply Z.pow_nonneg. lia.
Qed.

Lemma round_half_even_nonneg a b : 0 <= a -> 0 < b -> 0 <= round_half_even a b.
Proof.
  intros Ha Hb. unfold round_half_even.
  pose proof (Z.div_pos a b Ha Hb).
  destruct (2 * (a mod b) ?= b); [destruct (Z.even (a / b))| |]; lia.
Qed.

Lemma nearest_double_nonneg a b M E :
  0 <= a -> 0 < b -> nearest_double a b = Some (M, E) -> 0 <= M.
Proof.
  intros Ha Hb. unfold nearest_double.
  destruct (a =? 0); [intros Heq; injection Heq as <- _; lia|].
  pose proof (scale_nonneg 2 a b (- Z.max (floor_log2 a b - 52) (-1074))
                ltac:(lia) Ha) as Hsa.
  pose proof (scale_pos 2 a b (- Z.max (floor_log2 a b - 52) (-1074))
                ltac:(lia) Hb) as Hsb.
  destruct (scale 2 a b (- Z.max (floor_log2 a b - 52) (-1074))) as [a' b'].
  cbn [fst snd] in *.
  pose proof (round_half_even_nonneg a' b' Hsa Hsb).
  destruct (round_half_even a' b' =? 2 ^ 53);
    match goal with |- context [?x <=? 971] => destruct (x <=? 971) end;
    intros Heq; inversion Heq; lia.
Qed.

Lemma to_double_nonneg m e M E :
  0 <= m -> to_double m e = Some (M, E) -> 0 <= M.
Proof.
  intros Hm. unfold to_double.
  pose proof (scale_nonneg 10 m 1 e ltac:(lia) Hm) as Hsa.
  pose proof (scale_pos 10 m 1 e ltac:(lia) ltac:(lia)) as Hsb.
  destruct (scale 10 m 1 e) as [a b]. cbn [fst snd] in *.
  now apply nearest_double_nonneg.
Qed.

Lemma to_double_zero g : to_double 0 g = Some (0, -1074).
Proof.
  unfold to_double, scale. destruct (0 <=? g); [|reflexivity].
  now rewrite Z.mul_0_l.
Qed.

(** The digits of a double are not negative, and they are not zero
    unless the double is. *)
Lemma digits_of_length_nonneg d k s g :
  0 <= fst d -> digits_of_length d k = Some (s, g) -> 0 <= s.
Proof.
  intros Hd. unfold digits_of_length.
  pose proof (scale_nonneg 2 (fst d) 1 (snd d) ltac:(lia) Hd) as Hsa.
  pose proof (scale_pos 2 (fst d) 1 (snd d) ltac:(lia) ltac:(lia)) as Hsb.
  destruct (scale 2 (fst d) 1 (snd d)) as [a b]. cbn [fst snd] in *.
  pose proof (scale_nonneg 10 a b (- (decimal_point a b - k)) ltac:(lia) Hsa)
    as Hta.
  pose proof (scale_pos 10 a b (- (decimal_point a b - k)) ltac:(lia) Hsb)
    as Htb.
  destruct (scale 10 a b (- (decimal_point a b - k))) as [a' b'].
  cbn [fst snd] in *.
  pose proof (Z.div_pos a' b' Hta Htb) as Ht.
  destruct (rounds_to d (a' / b') (decimal_point a b - k));
    destruct (rounds_to d (a' / b' + 1) (decimal_point a b - k));
    try discriminate.
  - destruct (2 * (a' mod b') ?= b'); [destruct (Z.even (a' / b'))| |];
      intros Heq; injection Heq as <- _; lia.
  - intros Heq; injection Heq as <- _; lia.
  - intros Heq; injection Heq as <- _; lia.
Qed.

Lemma Number_digits_nonneg d s g :
  0 <= fst d -> Number_digits d = Some (s, g) -> 0 <= s.
Proof.
  intros Hd. unfold Number_digits. generalize 1. generalize 17%nat.
  intros fuel. induction fuel as [|fuel IH]; intros k; [discriminate|].
  cbn [shortest_from].
  destruct (digits_of_length d k) as [[s' g']|] eqn:Hk.
  - intros Heq. injection Heq as -> ->.
    now apply (digits_of_length_nonneg d k s g).
  - apply IH.
Qed.

(** The digits found for a double that is not zero: positive, and with
    that double. *)
Lemma Number_digits_positive M E s g :
  0 <= M -> M <> 0 -> Number_digits (M, E) = Some (s, g) ->
  0 < s /\ to_double s g = Some (M, E).
Proof.
  intros HM HM0 Hd.
  pose proof (Number_digits_nonneg (M, E) s g HM Hd) as Hs.
  apply Number_digits_sound in Hd. unfold rounds_to in Hd. cbn [fst snd] in Hd.
  destruct (Z.eq_dec s 0) as [->|Hs0].
  - rewrite to_double_zero in Hd. apply andb_true_iff in Hd as [Hd _].
    apply Z.eqb_eq in Hd. lia.
  - split; [lia|]. destruct (to_double s g) as [[M' E']|]; [|discriminate].
    apply andb_true_iff in Hd as [H1 H2]. apply Z.eqb_eq in H1, H2.
    now subst.
Qed.


(** The number that is read back is the number that was printed. *)
Lemma same_number_reprinted m e :
  js_number m e = true ->
  same_value (reprinted_number m e) (JNum m e) = true.
Proof.
  unfold js_number, reprinted_number.
  destruct (to_double (Z.abs m) e) as [[M E]|] eqn:Hd; [|discriminate].
  pose proof (to_double_nonneg (Z.abs m) e M E (Z.abs_nonneg m) Hd) as HM.
  destruct (Z.eqb_spec M 0) as [->|HM0].
  { intros _. cbn [same_value]. unfold same_number.
    change (Z.abs 0) with 0. rewrite to_double_zero, Hd. reflexivity. }
  cbn [orb]. destruct (Number_digits (M, E)) as [[s g]|] eqn:Hdigits;
    [intros _ | discriminate].
  destruct (Number_digits_positive M E s g HM HM0 Hdigits) as [Hs Hsg].
  pose proof (Number_literal_value (if m <? 0 then - s else s) g) as Hvalue.
  destruct (Number_literal (if m <? 0 then - s else s) g) as [m' e'].
  cbn [fst snd] in Hvalue. cbn [same_value]. unfold same_number.
  unfold same_decimal in Hvalue. apply Z.eqb_eq in Hvalue.
  set (c := Z.min e' g) in *.
  pose proof (pow10_pos (e' - c) ltac:(lia)) as HP.
  pose proof (pow10_pos (g - c) ltac:(lia)) as HQ.
  assert (Hsign : (m' <? 0) = (m <? 0)).
  { destruct (Z.ltb_spec m 0); destruct (Z.ltb_spec m' 0); try reflexivity; nia. }
  assert (Habs : same_decimal (Z.abs m') e' s g = true).
  { unfold same_decimal. fold c. apply Z.eqb_eq.
    destruct (Z.ltb_spec m 0); destruct (Z.abs_spec m') as [[? ->]|[? ->]]; nia. }
  rewrite (to_double_same_decimal (Z.abs m') e' s g) by (try assumption; lia).
  rewrite Hsg, Hd, !Z.eqb_refl, Hsign, eqb_reflx. cbn [andb].
  apply orb_true_r.
Qed.

(** A decimal that JavaScript prints, in the spelling in which it is
    read, is read back as it is. *)
Lemma reprinted_number_printed m e :
  number_form m e = true -> printed_number m e = true ->
  reprinted_number m e = JNum m e.
Proof.
  intros Hform Hprinted. unfold printed_number in Hprinted.
  destruct (Z.eqb_spec m 0) as [->|Hm].
  { unfold number_form in Hform. cbn in Hform. rewrite orb_false_r in Hform.
    apply andb_true_iff in Hform as [He _]. apply Z.eqb_eq in He. now subst e. }
  cbn [orb] in Hprinted. unfold prints_back in Hprinted.
  unfold reprinted_number.
  destruct (to_double (Z.abs m) e) as [[M E]|]; [|discriminate].
  apply andb_true_iff in Hprinted as [HM Hdigits]. apply Z.ltb_lt in HM.
  destruct (Z.eqb_spec M 0); [lia|].
  destruct (Number_digits (M, E)) as [[s g]|]; [|discriminate].
  assert (Hsame : same_decimal (if m <? 0 then - s else s) g m e = true).
  { unfold same_decimal in *. apply Z.eqb_eq in Hdigits. apply Z.eqb_eq.
    destruct (Z.ltb_spec m 0); destruct (Z.abs_spec m) as [[? Ha]|[? Ha]];
      rewrite Ha in Hdigits; nia. }
  rewrite (Number_literal_same _ _ _ _ Hsame).
  now rewrite Number_literal_form.
Qed.


(** The value that is read back is the value that was serialised. *)
Lemma same_value_reprinted v :
  js_value v = true -> same_value (reprinted v) v = true.
Proof.
  induction v as [| b | m e | s | items IH | members IH]
    using json_nested_ind; try reflexivity.
  - now destruct b.
  - apply same_number_reprinted.
  - intros _. apply jsstring_eqb_refl.
  - cbn [js_value reprinted same_value].
    induction IH as [|x items Hx _ IHl]; [reflexivity|].
    cbn [forallb List.map]. intros H. apply andb_true_iff in H as [H1 H2].
    now rewrite Hx, IHl.
  - cbn [js_value reprinted same_value]. intros H.
    apply andb_true_iff in H as [_ H].
    induction IH as [|[k x] members Hx _ IHl]; [reflexivity|].
    cbn [forallb List.map fst snd] in *. apply andb_true_iff in H as [H1 H2].
    now rewrite jsstring_eqb_refl, Hx, IHl.
Qed.

(** A value that is written as JavaScript prints it is read back as it
    is. *)
Lemma reprinted_as_printed v : as_printed v = true -> reprinted v = v.
Proof.
  induction v as [| b | m e | s | items IH | members IH]
    using json_nested_ind; try reflexivity.
  - cbn [as_printed reprinted]. intros H. apply andb_true_iff in H as [H1 H2].
    now apply reprinted_number_printed.
  - cbn [as_printed reprinted]. intros H. f_equal.
    induction IH as [|x items Hx _ IHl]; [reflexivity|].
    cbn [forallb] in H. apply andb_true_iff in H as [H1 H2].
    cbn [List.map]. now rewrite Hx, IHl.
  - cbn [as_printed reprinted]. intros H.
    apply andb_true_iff in H as [_ H]. f_equal.
    induction IH as [|[k x] members Hx _ IHl]; [reflexivity|].
    cbn [forallb snd] in *. apply andb_true_iff in H as [H1 H2].
    cbn [List.map fst snd]. now rewrite Hx, IHl.
Qed.

(** A decimal that JavaScript prints is a number of JavaScript. *)
Lemma printed_js_number m e : printed_number m e = true -> js_number m e = true.
Proof.
  unfold printed_number, js_number.
  destruct (Z.eqb_spec m 0) as [->|Hm].
  { intros _. change (Z.abs 0) with 0. now rewrite to_double_zero. }
  cbn [orb]. unfold prints_back.
  destruct (to_double (Z.abs m) e) as [[M E]|]; [|discriminate].
  intros H. apply andb_true_iff in H as [_ H].
  destruct (Number_digits (M, E)); [apply orb_true_r | discriminate].
Qed.

Lemma as_printed_js_value v : as_printed v = true -> js_value v = true.
Proof.
  induction v as [| b | m e | s | items IH | members IH]
    using json_nested_ind; try reflexivity.
  - cbn [as_printed js_value]. intros H. apply andb_true_iff in H as [_ H].
    now apply printed_js_number.
  - cbn [as_printed js_value]. induction IH as [|x items Hx _ IHl];
      [reflexivity|].
    cbn [forallb]. intros H. apply andb_true_iff in H as [H1 H2].
    apply andb_true_intro. auto.
  - cbn [as_printed js_value]. intros H.
    apply andb_true_iff in H as [Hd H]. apply andb_true_intro.
    split; [assumption|]. clear Hd.
    induction IH as [|[k x] members Hx _ IHl]; [reflexivity|].
    cbn [forallb snd] in *. apply andb_true_iff in H as [H1 H2].
    apply andb_true_intro. auto.
Qed.

(** The values whose numbers are integers that a double holds exactly
    are written as JavaScript prints them. *)
Lemma plain_as_printed v : plain_json v = true -> as_printed v = true.
Proof.
  induction v as [| b | m e | s | items IH | members IH]
    using json_nested_ind; try reflexivity.
  - cbn [plain_json as_printed]. intros H.
    apply andb_true_iff in H as [He Hm].
    apply Z.eqb_eq in He. apply Z.leb_le in Hm. subst e.
    apply andb_true_intro. split;
      [now apply number_form_integer | now apply printed_number_integer].
  - cbn [plain_json as_printed]. induction IH as [|x items Hx _ IHl];
      [reflexivity|].
    cbn [forallb]. intros H. apply andb_true_iff in H as [H1 H2].
    apply andb_true_intro. auto.
  - cbn [plain_json as_printed]. intros H.
    apply andb_true_iff in H as [Hd H]. apply andb_true_intro.
    split; [assumption|]. clear Hd.
    induction IH as [|[k x] members Hx _ IHl]; [reflexivity|].
    cbn [forallb snd] in *. apply andb_true_iff in H as [H1 H2].
    apply andb_true_intro. auto.
Qed.

End SameValue.

Section Retry.

Context {A : Type} (requestFn : Z -> M A) (maxRetries delay : Z).

Lemma retry_loop_step n i :
  retry_loop requestFn maxRetries delay (S n) i =
  match requestFn i with
  | (evs, Returned a) => (evs, Returned (Some a))
  | (evs, Thrown error) =>
      if (i =? maxRetries)%Z then (evs, Thrown error)
      else if no_retry_status error then (evs, Thrown error)
      else
        let '(evs', r) := retry_loop requestFn maxRetries delay n (i + 1)%Z in
        (evs ++ EvSleep (delay * (i + 1)) :: evs', r)
  end.
Proof using Type.
  cbn [retry_loop]. unfold try_catch, bind, ret, throw, emit.
  destruct (requestFn i) as [evs [a|error]].
  - now rewrite app_nil_r.
  - destruct (i =? maxRetries)%Z; [now rewrite app_nil_r|].
    destruct (no_retry_status error); [now rewrite app_nil_r|].
    destruct (retry_loop requestFn maxRetries delay n (i + 1)%Z) as [evs' r].
    reflexivity.
Qed.

(** The loop from iteration [i] with [n] iterations left: it stops at
    some call [i + k], every earlier call having failed with an error
    that allows a retry. *)
Lemma retry_loop_spec n : forall i,
  (Z.of_nat (S n) = maxRetries + 1 - i)%Z ->
  exists k : nat,
    (k <= n)%nat
    /\ fst (retry_loop requestFn maxRetries delay (S n) i)
       = attempts_log requestFn delay k i
    /\ (forall j, (j < k)%nat ->
          exists e, snd (requestFn (i + Z.of_nat j)%Z) = Thrown e
                    /\ no_retry_status e = false)
    /\ match snd (requestFn (i + Z.of_nat k)%Z) with
       | Returned a =>
           snd (retry_loop requestFn maxRetries delay (S n) i)
           = Returned (Some a)
       | Thrown e =>
           snd (retry_loop requestFn maxRetries delay (S n) i) = Thrown e
           /\ ((i + Z.of_nat k)%Z = maxRetries \/ no_retry_status e = true)
       end.
Proof using Type.
  induction n as [|n IH]; intros i Hn; rewrite retry_loop_step.
  - exists O. rewrite Z.add_0_r. cbn [attempts_log].
    assert (Hi : (i =? maxRetries)%Z = true) by (apply Z.eqb_eq; lia).
    destruct (requestFn i) as [evs [a|error]]; cbn [fst snd].
    + repeat split; [lia | intros; lia].
    + rewrite Hi. repeat split; [lia | intros; lia | left; lia].
  - destruct (requestFn i) as [evs [a|error]] eqn:Hreq.
    + exists O. rewrite Z.add_0_r, Hreq. cbn [attempts_log fst snd].
      rewrite Hreq. repeat split; [lia | intros; lia].
    + destruct (Z.eqb_spec i maxRetries) as [Hi|Hi]; [lia|].
      destruct (no_retry_status error) eqn:Hno.
      * exists O. rewrite Z.add_0_r, Hreq. cbn [attempts_log fst snd].
        rewrite Hreq. repeat split; [lia | intros; lia | now right].
      * destruct (IH (i + 1)%Z ltac:(lia)) as (k & Hk & Hlog & Hprev & Hlast).
        destruct (retry_loop requestFn maxRetries delay (S n) (i + 1)%Z)
          as [evs' r].
        cbn [fst snd] in *.
        exists (S k). split; [lia|]. split.
        { cbn [attempts_log]. now rewrite Hreq, Hlog. }
        split.
        { intros [|j] Hj.
          - rewrite Z.add_0_r, Hreq. eauto.
          - replace (i + Z.of_nat (S j))%Z with (i + 1 + Z.of_nat j)%Z by lia.
            apply Hprev. lia. }
        replace (i + Z.of_nat (S k))%Z with (i + 1 + Z.of_nat k)%Z by lia.
        exact Hlast.
Qed.

End Retry.

Section SrcPattern.

Lemma expect_prefix lit : forall s r, expect lit s = Some r -> s = lit ++ r.
Proof.
  induction lit as [|a lit IH]; intros s r H.
  - cbn in H. now injection H as ->.
  - destruct s as [|b s]; [discriminate|]. cbn [expect] in H.
    destruct (N.eqb_spec a b) as [->|]; [|discriminate].
    cbn [app]. f_equal. now apply IH.
Qed.

Lemma expect_app lit r : expect lit (lit ++ r) = Some r.
Proof.
  induction lit as [|a lit IH]; [reflexivity|].
  cbn [app expect]. now rewrite N.eqb_refl.
Qed.

Lemma span_unquoted_spec s : forall v r,
  span_unquoted s = (v, r) ->
  s = v ++ r /\ ~ In 34 v /\ match r with [] => True | c :: _ => c = 34 end.
Proof.
  induction s as [|c s IH]; intros v r H; cbn [span_unquoted] in H.
  - injection H as <- <-. auto.
  - destruct (N.eqb_spec c 34) as [->|Hc].
    + injection H as <- <-. auto.
    + destruct (span_unquoted s) as [v' r'] eqn:Hs. injection H as <- <-.
      destruct (IH _ _ eq_refl) as (-> & Hv & Hr).
      repeat split; [|assumption]. intros [?|?]; [lia | auto].
Qed.

Lemma span_unquoted_app v r :
  ~ In 34 v -> span_unquoted (v ++ 34 :: r) = (v, 34 :: r).
Proof.
  induction v as [|c v IH]; intros Hv; [reflexivity|].
  cbn [app span_unquoted].
  destruct (N.eqb_spec c 34) as [->|Hc]; [exfalso; apply Hv; now left|].
  rewrite IH; [reflexivity|]. intros Hin. apply Hv. now right.
Qed.

Lemma unquoted_check v :
  forallb (fun c => negb (c =? 34)) v = true -> ~ In 34 v.
Proof.
  induction v as [|c v IH]; cbn [forallb In]; [tauto|].
  rewrite andb_true_iff, negb_true_iff, N.eqb_neq. intros [Hc Hv] [?|?].
  - congruence.
  - now apply IH.
Qed.

(** A result of [match_src] is an occurrence of the pattern. *)
Lemma match_src_sound html v : match_src html = Some v -> src_attribute html v.
Proof.
  induction html as [|c html IH]; [discriminate|].
  intros H. cbn [match_src] in H.
  assert (Hlater : match_src html = Some v -> src_attribute (c :: html) v).
  { intros Hm. destruct (IH Hm) as (before & after & -> & Hne & Hq).
    exists (c :: before), after. auto. }
  destruct (expect (js "src=" ++ [34]) (c :: html)) as [rest|] eqn:Hexp;
    [|now apply Hlater].
  destruct (span_unquoted rest) as [[|d v'] [|q r]] eqn:Hspan;
    try (now apply Hlater).
  assert (v = d :: v') as -> by congruence. clear H.
  apply expect_prefix in Hexp. apply span_unquoted_spec in Hspan.
  destruct Hspan as (-> & Hq & ->).
  exists [], r. rewrite Hexp. split; [|split; [congruence | assumption]].
  cbn [app]. now rewrite <- app_assoc.
Qed.

(** Where the pattern occurs, [match_src] finds a match. *)
Lemma match_src_complete html v :
  src_attribute html v -> exists v', match_src html = Some v'.
Proof.
  intros (before & after & -> & Hne & Hq).
  induction before as [|c before IH].
  - destruct v as [|d v]; [congruence|].
    change ([] ++ js "src=" ++ 34 :: (d :: v) ++ 34 :: after)
      with (115 :: (js "rc=" ++ [34]) ++ (d :: v) ++ 34 :: after).
    cbn [match_src].
    change (115 :: (js "rc=" ++ [34]) ++ (d :: v) ++ 34 :: after)
      with ((js "src=" ++ [34]) ++ (d :: v) ++ 34 :: after).
    rewrite expect_app, span_unquoted_app by assumption. eauto.
  - cbn [app match_src].
    destruct (expect (js "src=" ++ [34]) _) as [rest|]; [|exact IH].
    destruct (span_unquoted rest) as [[|d v'] [|q r]]; eauto.
Qed.

Lemma match_src_none html :
  match_src html = None <-> (forall v, ~ src_attribute html v).
Proof.
  split.
  - intros Hnone v Hv. destruct (match_src_complete _ _ Hv) as [v' Hv'].
    congruence.
  - intros Hno. destruct (match_src html) as [v|] eqn:Hm; [|reflexivity].
    exfalso. exact (Hno v (match_src_sound _ _ Hm)).
Qed.

End SrcPattern.

(** Unfolding the combinators of [M]. *)
Ltac async_unfold :=
  unfold try_catch, bind, lift, ret, throw, emit, allSettled, httpClient_post,
    httpClient_get in *.

Section Nonce.

Lemma getNonce_run w site src :
  getNonce w site src
  = ([EvPost (ajax_url src) nonce_body (nonce_headers src)],
     Returned
       match axios_settle (net_post w site (ajax_url src) nonce_body
                             (nonce_headers src)) with
       | Returned r => js_or (get_data (resp_data r)) null
       | Thrown _ => null
       end).
Proof.
  unfold getNonce. async_unfold.
  destruct (axios_settle _) as [r|e]; reflexivity.
Qed.

End Nonce.

Section Resolver.

Context (w : world) (site : call_site) (nonce : json) (src slug : jsstring).

(** What is left of [fetchIframeUrl] once the response has arrived. *)
Lemma fetchIframeUrl_never_throws content :
  exists result evs,
    fetchIframeUrl w site content nonce src slug = (evs, Returned result).
Proof using Type.
  unfold fetchIframeUrl. async_unfold.
  destruct (Buffer_from_base64 w content) as [bytes|e]; [|eauto].
  destruct (JSON_parse (utf8_decode bytes)) as [payload|]; [|eauto].
  destruct (form_urlencoded w _) as [body|e]; [|eauto].
  destruct (axios_settle _) as [r|e]; [|eauto].
  destruct (get_data (resp_data r)) as [d|]; [|eauto].
  destruct (truthy d); cbn [negb]; [|eauto].
  destruct (Buffer_from_base64 w d) as [bytes'|e]; eauto.
Qed.

Lemma fetchIframeUrl_undecodable s :
  decodePayload s = None ->
  fetchIframeUrl w site (JStr s) nonce src slug = ([], Returned None).
Proof using Type.
  unfold decodePayload, fetchIframeUrl. async_unfold.
  cbn [Buffer_from_base64]. now intros ->.
Qed.

Lemma fetchIframeUrl_unserialisable s payload e :
  decodePayload s = Some payload ->
  form_urlencoded w (resolve_params payload nonce) = Thrown e ->
  fetchIframeUrl w site (JStr s) nonce src slug = ([], Returned None).
Proof using Type.
  unfold decodePayload, fetchIframeUrl. async_unfold.
  cbn [Buffer_from_base64]. now intros -> ->.
Qed.

(** After the request has been sent, the result is a function of the
    answer. *)
Lemma fetchIframeUrl_answered s payload body :
  decodePayload s = Some payload ->
  form_urlencoded w (resolve_params payload nonce) = Returned body ->
  fetchIframeUrl w site (JStr s) nonce src slug
  = ([EvPost (ajax_url src) body (resolve_headers src slug)],
     Returned
       match axios_settle (net_post w site (ajax_url src) body
                             (resolve_headers src slug)) with
       | Thrown _ => None
       | Returned r =>
           match get_data (resp_data r) with
           | None => None
           | Some d =>
               if truthy d then
                 match Buffer_from_base64 w d with
                 | Returned bytes => match_src (utf8_decode bytes)
                 | Thrown _ => None
                 end
               else None
           end
       end).
Proof using Type.
  unfold decodePayload, fetchIframeUrl. async_unfold.
  cbn [Buffer_from_base64]. intros -> ->. cbn [app].
  destruct (axios_settle _) as [r|e]; [|reflexivity].
  destruct (get_data (resp_data r)) as [d|]; [|reflexivity].
  destruct (truthy d); cbn [negb]; [|reflexivity].
  destruct (Buffer_from_base64 w d) as [bytes'|e]; reflexivity.
Qed.

End Resolver.

Section Assembly.

Context (w : world) (slug src : jsstring).

(** Without a title nothing is started after the page fetch. *)
Lemma getEpisodeStreaming_no_title evs r doc :
  fetch_episode_page w slug src = (evs, Returned (Some r)) ->
  cheerio_load w (resp_data r) = Returned doc ->
  trim (venutama_h1_text doc) = [] ->
  getEpisodeStreaming w slug src
  = (evs, Thrown (Error (js "Episode not found"))).
Proof using Type.
  intros Hfetch Hload Htitle.
unfold getEpisodeStreaming. rewrite Hfetch. async_unfold. rewrite Hload, Htitle.
  cbn. now rewrite !app_nil_r.
Qed.

(** With a title the three branches settle and the result is
    assembled. *)
Lemma getEpisodeStreaming_title evs r doc :
  fetch_episode_page w slug src = (evs, Returned (Some r)) ->
  cheerio_load w (resp_data r) = Returned doc ->
  trim (venutama_h1_text doc) <> [] ->
  exists s, snd (getEpisodeStreaming w slug src) = Returned s
            /\ title s = trim (venutama_h1_text doc).
Proof using Type.
  intros Hfetch Hload Htitle.
unfold getEpisodeStreaming. rewrite Hfetch. async_unfold. rewrite Hload.
  destruct (trim (venutama_h1_text doc)) as [|c t] eqn:Ht; [congruence|].
  cbn [truthy jsstring_Truthy negb app].
  rewrite getNonce_run.
  destruct (extractMirrorLinks w doc src slug) as [evs1 [m|e]];
    destruct (extractDownloadLinks doc) as [evs2 [d|e']];
    cbn; eauto.
Qed.

End Assembly.

Section Objects.

Context {V : Type}.

Lemma obj_get_define k (v : V) q o :
  obj_get q (obj_define k v o) = if jsstring_eqb k q then Some v else obj_get q o.
Proof using Type.
  induction o as [|[k' v'] o IH]; cbn [obj_define obj_get].
  - reflexivity.
  - unfold jsstring_eqb in *.
    destruct (bool_decide_reflect (k' = k)) as [->|Hk]; cbn [obj_get].
    + unfold jsstring_eqb. now destruct (bool_decide (k = q)).
    + unfold jsstring_eqb. rewrite IH.
      destruct (bool_decide_reflect (k' = q)) as [->|Hq]; [|reflexivity].
      now rewrite bool_decide_eq_false_2 by congruence.
Qed.

Lemma obj_get_assign k (v : V) q o :
  q <> js "__proto__" ->
  obj_get q (obj_assign k v o) = if jsstring_eqb k q then Some v else obj_get q o.
Proof using Type.
  intros Hq. unfold obj_assign.
  destruct (jsstring_eqb k (js "__proto__")) eqn:Hk.
  - apply bool_decide_eq_true in Hk. subst k.
    unfold jsstring_eqb. now rewrite bool_decide_eq_false_2 by congruence.
  - apply obj_get_define.
Qed.

(** A key that is not assigned keeps its value. *)
Lemma obj_get_store_all_other q (done : list (jsstring * V)) : forall o,
  q <> js "__proto__" -> ~ In q (List.map fst done) ->
  obj_get q (store_all done o) = obj_get q o.
Proof using Type.
  induction done as [|[k v] done IH]; intros o Hq Hnot; [reflexivity|].
  cbn [store_all fold_left fst snd List.map In] in *.
  change (fold_left _ done ?x) with (store_all done x).
  rewrite IH by tauto. rewrite obj_get_assign by assumption.
  unfold jsstring_eqb. now rewrite bool_decide_eq_false_2 by tauto.
Qed.

(** Among assignments to distinct keys each one is kept. *)
Lemma obj_get_store_all q (v : V) (done : list (jsstring * V)) : forall o,
  q <> js "__proto__" -> NoDup (List.map fst done) -> In (q, v) done ->
  obj_get q (store_all done o) = Some v.
Proof using Type.
  induction done as [|[k v'] done IH]; intros o Hq Hnd Hin; [destruct Hin|].
  cbn [List.map fst] in Hnd. apply NoDup_cons in Hnd as [Hk Hnd].
  cbn [store_all fold_left fst snd]. change (fold_left _ done ?x) with (store_all done x).
  destruct Hin as [Heq|Hin].
  - injection Heq as -> ->.
    rewrite obj_get_store_all_other.
    + rewrite obj_get_assign by assumption.
      unfold jsstring_eqb. now rewrite bool_decide_eq_true_2.
    + assumption.
    + intros Hin. apply Hk. now apply list_elem_of_In.
  - now apply IH.
Qed.

(** Every assigned key is present at the end. *)
Lemma obj_get_store_all_present q (done : list (jsstring * V)) : forall o,
  q <> js "__proto__" ->
  In q (List.map fst done) \/ is_Some (obj_get q o) ->
  is_Some (obj_get q (store_all done o)).
Proof using Type.
  induction done as [|[k v] done IH]; intros o Hq Hin.
  - destruct Hin as [[]|H]. exact H.
  - cbn [store_all fold_left fst snd List.map In] in *.
    change (fold_left _ done ?x) with (store_all done x).
    apply IH; [assumption|].
    rewrite obj_get_assign by assumption. unfold jsstring_eqb.
    destruct (bool_decide_reflect (k = q)) as [->|Hk]; [right; eauto|].
    destruct Hin as [[?|?]|?]; [congruence | now left | now right].
Qed.

End Objects.

Section Aggregator.

Context (w : world) (doc : document) (nonce : json) (src slug : jsstring).

Lemma indexed_from_cons {A} i (x : A) l :
  indexed_from i (x :: l) = (i, x) :: indexed_from (S i) l.
Proof using Type. reflexivity. Qed.

(** The promise of one link never rejects; it gives the entry of the
    link when the link has a content and null otherwise. *)
Lemma resolve_link_run ti li el :
  exists evs y,
    resolve_link w nonce src slug ti li el = (evs, Returned y)
    /\ if has_content (li, el)
       then exists link, y = Some link
                         /\ entry_of w nonce src slug ti (li, el) link
       else y = None.
Proof using Type.
  unfold resolve_link, has_content, entry_of. cbn [fst snd].
  destruct (a_data_content el) as [c|]; [|eexists _, _; split; reflexivity].
  change (truthy (Some c)) with (truthy c).
  destruct (truthy c); cbn [negb]; [|eexists _, _; split; reflexivity].
  destruct (fetchIframeUrl_never_throws w (Resolve ti li) nonce src slug c)
    as (u & evs & Hu).
  async_unfold. rewrite Hu. eexists _, _. split; [reflexivity|].
  eexists. split; [reflexivity|]. cbn [name url]. split; [reflexivity|].
  exists c. now rewrite Hu.
Qed.

(** [Promise.all] over the links of a tab: one entry for each link
    with a content, in the order of the page. *)
Lemma resolve_links_run ti els : forall li,
  exists evs ys,
    all_from (resolve_link w nonce src slug ti) li els = (evs, Returned ys)
    /\ Forall2 (entry_of w nonce src slug ti)
         (List.filter has_content (indexed_from li els)) (non_null ys).
Proof using Type.
  induction els as [|el els IH]; intros li.
  - exists [], []. split; [reflexivity | constructor].
  - destruct (resolve_link_run ti li el) as (evs1 & y & Hy & Hentry).
    destruct (IH (S li)) as (evs2 & ys & Hys & Hall).
    cbn [all_from]. async_unfold. rewrite Hy, Hys.
    eexists _, _. split; [reflexivity|].
    rewrite indexed_from_cons. cbn [List.filter].
    destruct (has_content (li, el)).
    + destruct Hentry as (link & -> & Hlink). cbn [non_null]. now constructor.
    + subst y. exact Hall.
Qed.

(** A tab whose selector parses settles with its quality and its
    entries. *)
Lemma resolve_tab_run ti t els :
  select_anchors doc (links_selector t) = Returned els ->
  exists evs links,
    resolve_tab w doc nonce src slug ti t
    = (evs, Returned (quality_of t, links))
    /\ Forall2 (entry_of w nonce src slug ti)
         (List.filter has_content (indexed_from 0 els)) links.
Proof using Type.
  intros Hsel. unfold resolve_tab. fold (links_selector t). rewrite Hsel.
  destruct (resolve_links_run ti els 0%nat) as (evs & ys & Hys & Hall).
  async_unfold. rewrite Hys. eexists _, _. split; [reflexivity | exact Hall].
Qed.

(** All tabs, when every selector parses. *)
Lemma resolve_tabs_run tabs : forall ti,
  (forall t, In t tabs ->
     exists els, select_anchors doc (links_selector t) = Returned els) ->
  exists evs tiers,
    all_from (resolve_tab w doc nonce src slug) ti tabs = (evs, Returned tiers)
    /\ Forall2
         (fun it tier =>
            fst tier = quality_of (snd it)
            /\ forall els,
                 select_anchors doc (links_selector (snd it)) = Returned els ->
                 Forall2 (entry_of w nonce src slug (fst it))
                   (List.filter has_content (indexed_from 0 els)) (snd tier))
         (indexed_from ti tabs) tiers.
Proof using Type.
  induction tabs as [|t tabs IH]; intros ti Hsel.
  - exists [], []. split; [reflexivity | constructor].
  - destruct (Hsel t (or_introl eq_refl)) as [els Hels].
    destruct (resolve_tab_run ti t els Hels) as (evs1 & links & Hrun & Hlinks).
    destruct (IH (S ti)) as (evs2 & tiers & Htiers & Hall).
    { intros t' Ht'. apply Hsel. now right. }
    cbn [all_from]. async_unfold. rewrite Hrun, Htiers.
    eexists _, _. split; [reflexivity|].
    rewrite indexed_from_cons. constructor; [|exact Hall].
    cbn [fst snd]. split; [reflexivity|].
    intros els' Hels'. rewrite Hels in Hels'. now injection Hels' as <-.
Qed.


Lemma Forall2_indexed_nth {A B} (R : nat * A -> B -> Prop) (l : list A) :
  forall i ys k x,
    Forall2 R (indexed_from i l) ys -> nth_error l k = Some x ->
    exists y, nth_error ys k = Some y /\ R ((i + k)%nat, x) y.
Proof using Type.
  induction l as [|a l IH]; intros i ys k x Hall Hk.
  - destruct k; discriminate.
  - rewrite indexed_from_cons in Hall.
    inversion Hall as [|? y ? ys' Hy Hrest]; subst.
    destruct k as [|k]; cbn [nth_error] in *.
    + injection Hk as <-. exists y. rewrite Nat.add_0_r. auto.
    + destruct (IH _ _ _ _ Hrest Hk) as (y' & Hy' & HR).
      exists y'. split; [assumption|].
      now replace (i + S k)%nat with (S i + k)%nat by lia.
Qed.

Lemma Forall2_indexed_keys (tabs : list tab) (R : nat * tab -> _ -> Prop) :
  forall i (tiers : list (jsstring * list resolved_mirror)),
    Forall2 (fun it tier => fst tier = quality_of (snd it) /\ R it tier)
      (indexed_from i tabs) tiers ->
    List.map fst tiers = List.map quality_of tabs.
Proof using Type.
  induction tabs as [|t tabs IH]; intros i tiers Hall.
  - inversion Hall. reflexivity.
  - rewrite indexed_from_cons in Hall.
    inversion Hall as [|? tier ? tiers' [Hq _] Hrest]; subst.
    cbn [List.map]. f_equal; [exact Hq | exact (IH _ _ Hrest)].
Qed.

(** Without a nonce nothing is resolved and the result is the empty
    array. *)
Lemma extractMirrorLinks_no_nonce v :
  snd (getNonce w NonceOfAggregator src) = Returned v ->
  truthy v = false ->
  extractMirrorLinks w doc src slug
  = (fst (getNonce w NonceOfAggregator src), Returned EmptyArray).
Proof using Type.
  unfold extractMirrorLinks.
  destruct (getNonce w NonceOfAggregator src) as [evs o]. cbn [fst snd].
  intros -> Hv. async_unfold.
  destruct v as [n|]; [|now rewrite app_nil_r].
  change (truthy (Some n)) with (truthy n) in Hv. rewrite Hv. cbn [negb].
  now rewrite app_nil_r.
Qed.

End Aggregator.

Section PayloadCodec.

(** Decoding undoes encoding, up to the way the numbers are written, on
    every value whose serialisation is ASCII. *)
Lemma decodePayload_encodePayload_reprinted v :
  distinct_keys v = true -> ascii_only (stringify v) ->
  decodePayload (encodePayload v) = Some (reprinted v).
Proof.
  intros Hkeys Hascii. unfold decodePayload, encodePayload.
  rewrite utf8_encode_ascii by assumption.
  rewrite base64_decode_encode by now apply ascii_only_bytes.
  rewrite utf8_decode_ascii by assumption.
  now apply JSON_parse_stringify.
Qed.

Lemma decodePayload_encodePayload v :
  plain_json v = true -> ascii_only (stringify v) ->
  decodePayload (encodePayload v) = Some v.
Proof.
  intros Hplain Hascii. apply plain_as_printed in Hplain.
  rewrite decodePayload_encodePayload_reprinted
    by (try apply as_printed_distinct; assumption).
  now rewrite reprinted_as_printed.
Qed.

End PayloadCodec.

Section ParserFuel.

Lemma skip_ws_length s : (length (skip_ws s) <= length s)%nat.
Proof.
  induction s as [|c s IH]; cbn [skip_ws length]; [lia|].
  destruct (is_json_ws c); cbn [length]; lia.
Qed.

Lemma parse_string_body_length n : forall s str r,
  (length s <= n)%nat ->
  parse_string_body s = Some (str, r) -> (length r < length s)%nat.
Proof.
  induction n as [|n IH]; intros s str r Hn H.
  - destruct s; [discriminate | cbn in Hn; lia].
  - destruct s as [|c s]; [discriminate|]. cbn [parse_string_body] in H.
    cbn [length] in *.
    destruct (c =? 34); [injection H as <- <-; lia|].
    destruct (c =? 92).
    + destruct s as [|x s1]; [discriminate|]. cbn [length] in *.
      destruct (x =? 117).
      * destruct s1 as [|h1 [|h2 [|h3 [|h4 s2]]]]; try discriminate.
        destruct (hex_value h1), (hex_value h2), (hex_value h3), (hex_value h4);
          try discriminate.
        destruct (parse_string_body s2) as [[str' r']|] eqn:Hs; [|discriminate].
        injection H as <- <-. apply IH in Hs; cbn [length] in *; lia.
      * destruct (simple_escape x); [|discriminate].
        destruct (parse_string_body s1) as [[str' r']|] eqn:Hs; [|discriminate].
        injection H as <- <-. apply IH in Hs; lia.
    + destruct (c <? 32); [discriminate|].
      destruct (parse_string_body s) as [[str' r']|] eqn:Hs; [|discriminate].
      injection H as <- <-. apply IH in Hs; lia.
Qed.

Lemma span_digits_length s : forall ds r,
  span_digits s = (ds, r) -> (length r <= length s)%nat.
Proof.
  induction s as [|c s IH]; intros ds r H; cbn [span_digits] in H.
  - injection H as <- <-. lia.
  - destruct (is_digit c).
    + destruct (span_digits s) as [ds' r'] eqn:Hs. injection H as <- <-.
      specialize (IH _ _ eq_refl). cbn [length]. lia.
    + injection H as <- <-. lia.
Qed.

Lemma parse_int_part_length s ds r :
  parse_int_part s = Some (ds, r) -> (length r < length s)%nat.
Proof.
  unfold parse_int_part. intros H. destruct s as [|c r1]; [discriminate|].
  destruct (c =? 48); [injection H as <- <-; cbn; lia|].
  destruct (is_digit c) eqn:Hc; [|discriminate].
  cbn [span_digits] in H. rewrite Hc in H.
  destruct (span_digits r1) as [ds' r'] eqn:Hsp. injection H as <- <-.
  apply span_digits_length in Hsp. cbn; lia.
Qed.

Lemma parse_frac_part_length s fs r :
  parse_frac_part s = Some (fs, r) -> (length r <= length s)%nat.
Proof.
  unfold parse_frac_part. intros H. destruct s as [|c r2].
  - injection H as <- <-. lia.
  - destruct (c =? 46).
    + destruct (span_digits r2) as [[|d fs'] r'] eqn:Hsp; [discriminate|].
      injection H as <- <-. apply span_digits_length in Hsp. cbn; lia.
    + injection H as <- <-. lia.
Qed.

Lemma parse_exp_part_length s x r :
  parse_exp_part s = Some (x, r) -> (length r <= length s)%nat.
Proof.
  unfold parse_exp_part. intros H. destruct s as [|c r3].
  - injection H as <- <-. lia.
  - destruct ((c =? 101) || (c =? 69)); [|injection H as <- <-; lia].
    destruct r3 as [|sg r'].
    + cbn in H. discriminate.
    + destruct (sg =? 45); [|destruct (sg =? 43)];
        match type of H with
        | context [span_digits ?t] =>
            destruct (span_digits t) as [[|d es] r0] eqn:Hsp; [discriminate|];
            injection H as <- <-; apply span_digits_length in Hsp; cbn in *; lia
        end.
Qed.

Lemma parse_number_length s v r :
  parse_number s = Some (v, r) -> (length r < length s)%nat.
Proof.
  assert (Hrest : forall neg s1,
            match parse_int_part s1 with
            | None => None
            | Some (ds, s2) =>
                match parse_frac_part s2 with
                | None => None
                | Some (fs, s3) =>
                    match parse_exp_part s3 with
                    | None => None
                    | Some (x, s4) =>
                        let mag := Z.of_N (digits_value (ds ++ fs)) in
                        Some (JNum (if neg : bool then (- mag)%Z else mag)
                                (x - Z.of_nat (length fs))%Z, s4)
                    end
                end
            end = Some (v, r) -> (length r < length s1)%nat).
  { intros neg s1 H.
    destruct (parse_int_part s1) as [[ds s2]|] eqn:Hint; [|discriminate].
    destruct (parse_frac_part s2) as [[fs s3]|] eqn:Hfrac; [|discriminate].
    destruct (parse_exp_part s3) as [[x s4]|] eqn:Hexp; [|discriminate].
    apply parse_int_part_length in Hint. apply parse_frac_part_length in Hfrac.
    apply parse_exp_part_length in Hexp. injection H as <- <-. lia. }
  unfold parse_number. intros H. destruct s as [|c r0].
  - discriminate H.
  - destruct (c =? 45); [apply (Hrest true) in H | apply (Hrest false) in H];
      cbn [length] in *; lia.
Qed.

Lemma expect_length lit s r :
  expect lit s = Some r -> (length r <= length s)%nat.
Proof.
  intros H. apply expect_prefix in H. subst s. rewrite length_app. lia.
Qed.


(** With the first goal closed by arithmetic, the second one fixes a
    fuel of at least one. *)
Ltac enough_fuel g g' :=
  split; [cbn [length] in *; lia|];
  intros g ?; destruct g as [|g']; [cbn [length] in *; lia|];
  cbn [parse_value parse_elements parse_members].

(** A successful run consumes input, and any fuel that covers the
    consumed length gives the same result. *)
Lemma parse_fuel_enough f :
  (forall s v r,
     parse_value f s = Some (v, r) ->
     (length r < length s)%nat
     /\ forall g, (length s - length r <= g)%nat ->
                  parse_value g s = Some (v, r))
  /\ (forall s vs r,
        parse_elements f s = Some (vs, r) ->
        (length r < length s)%nat
        /\ forall g, (length s - length r <= g)%nat ->
                     parse_elements g s = Some (vs, r))
  /\ (forall s kvs r,
        parse_members f s = Some (kvs, r) ->
        (length r < length s)%nat
        /\ forall g, (length s - length r <= g)%nat ->
                     parse_members g s = Some (kvs, r)).
Proof.
  induction f as [|f (IHv & IHe & IHm)]; [repeat split; discriminate|].
  split; [|split].
  - intros s v r H. cbn [parse_value] in H.
    pose proof (skip_ws_length s) as Hws.
    destruct (skip_ws s) as [|c rest] eqn:Hskip; [discriminate|].
    cbn [length] in Hws.
    destruct (c =? 123) eqn:H123.
    { pose proof (skip_ws_length rest) as Hws2.
      destruct (skip_ws rest) as [|d rest'] eqn:Hskip2; [discriminate|].
      destruct (d =? 125) eqn:H125.
      - injection H as <- <-. enough_fuel g g'.
        now rewrite Hskip, H123, Hskip2, H125.
      - destruct (parse_members f rest) as [[kvs r0]|] eqn:Hm; [|discriminate].
        injection H as <- <-. destruct (IHm _ _ _ Hm) as [Hlen Hfuel].
        enough_fuel g g'.
        now rewrite Hskip, H123, Hskip2, H125, (Hfuel g') by lia. }
    destruct (c =? 91) eqn:H91.
    { pose proof (skip_ws_length rest) as Hws2.
      destruct (skip_ws rest) as [|d rest'] eqn:Hskip2; [discriminate|].
      destruct (d =? 93) eqn:H93.
      - injection H as <- <-. enough_fuel g g'.
        now rewrite Hskip, H123, H91, Hskip2, H93.
      - destruct (parse_elements f rest) as [[vs r0]|] eqn:He; [|discriminate].
        injection H as <- <-. destruct (IHe _ _ _ He) as [Hlen Hfuel].
        enough_fuel g g'.
        now rewrite Hskip, H123, H91, Hskip2, H93, (Hfuel g') by lia. }
    destruct (c =? 34) eqn:H34.
    { destruct (parse_string_body rest) as [[str r0]|] eqn:Hstr; [|discriminate].
      injection H as <- <-.
      apply (parse_string_body_length (length rest)) in Hstr as Hlen; [|lia].
      enough_fuel g g'. now rewrite Hskip, H123, H91, H34, Hstr. }
    destruct (c =? 116) eqn:H116.
    { destruct (expect (js "rue") rest) as [r0|] eqn:Hexp; [|discriminate].
      injection H as <- <-. apply expect_length in Hexp as Hlen.
      enough_fuel g g'. now rewrite Hskip, H123, H91, H34, H116, Hexp. }
    destruct (c =? 102) eqn:H102.
    { destruct (expect (js "alse") rest) as [r0|] eqn:Hexp; [|discriminate].
      injection H as <- <-. apply expect_length in Hexp as Hlen.
      enough_fuel g g'. now rewrite Hskip, H123, H91, H34, H116, H102, Hexp. }
    destruct (c =? 110) eqn:H110.
    { destruct (expect (js "ull") rest) as [r0|] eqn:Hexp; [|discriminate].
      injection H as <- <-. apply expect_length in Hexp as Hlen.
      enough_fuel g g'.
      now rewrite Hskip, H123, H91, H34, H116, H102, H110, Hexp. }
    apply parse_number_length in H as Hlen.
    enough_fuel g g'. now rewrite Hskip, H123, H91, H34, H116, H102, H110.
  - intros s vs r H. cbn [parse_elements] in H.
    destruct (parse_value f s) as [[v r0]|] eqn:Hv; [|discriminate].
    destruct (IHv _ _ _ Hv) as [Hlen1 Hfuel1].
    pose proof (skip_ws_length r0) as Hws.
    destruct (skip_ws r0) as [|c r'] eqn:Hskip; [discriminate|].
    destruct (c =? 44) eqn:H44.
    + destruct (parse_elements f r') as [[vs' r'']|] eqn:He; [|discriminate].
      injection H as <- <-. destruct (IHe _ _ _ He) as [Hlen2 Hfuel2].
      enough_fuel g g'.
      now rewrite (Hfuel1 g'), Hskip, H44, (Hfuel2 g') by (cbn [length] in *; lia).
    + destruct (c =? 93) eqn:H93; [|discriminate]. injection H as <- <-.
      enough_fuel g g'.
      now rewrite (Hfuel1 g'), Hskip, H44, H93 by (cbn [length] in *; lia).
  - intros s kvs r H. cbn [parse_members] in H.
    pose proof (skip_ws_length s) as Hws.
    destruct (skip_ws s) as [|q s1] eqn:Hskip; [discriminate|].
    destruct (q =? 34) eqn:H34; [|discriminate].
    destruct (parse_string_body s1) as [[k s2]|] eqn:Hkey; [|discriminate].
    apply (parse_string_body_length (length s1)) in Hkey as Hlen0; [|lia].
    pose proof (skip_ws_length s2) as Hws2.
    destruct (skip_ws s2) as [|colon s3] eqn:Hskip2; [discriminate|].
    destruct (colon =? 58) eqn:H58; [|discriminate].
    destruct (parse_value f s3) as [[v r0]|] eqn:Hv; [|discriminate].
    destruct (IHv _ _ _ Hv) as [Hlen1 Hfuel1].
    pose proof (skip_ws_length r0) as Hws3.
    destruct (skip_ws r0) as [|c r'] eqn:Hskip3; [discriminate|].
    destruct (c =? 44) eqn:H44.
    + destruct (parse_members f r') as [[kvs' r'']|] eqn:Hm; [|discriminate].
      injection H as <- <-. destruct (IHm _ _ _ Hm) as [Hlen2 Hfuel2].
      enough_fuel g g'.
      now rewrite Hskip, H34, Hkey, Hskip2, H58, (Hfuel1 g'), Hskip3, H44,
        (Hfuel2 g') by (cbn [length] in *; lia).
    + destruct (c =? 125) eqn:H125; [|discriminate]. injection H as <- <-.
      enough_fuel g g'.
      now rewrite Hskip, H34, Hkey, Hskip2, H58, (Hfuel1 g'), Hskip3, H44, H125
        by (cbn [length] in *; lia).
Qed.

(** The fuel that [JSON.parse] starts with loses no parse: what any
    amount of fuel accepts, the length of the text accepts. *)
Lemma JSON_parse_fuel_independent text fuel v rest :
  parse_value fuel text = Some (v, rest) ->
  parse_value (S (length text)) text = Some (v, rest).
Proof.
  intros H. destruct (parse_fuel_enough fuel) as (Hv & _ & _).
  destruct (Hv _ _ _ H) as [_ Hfuel]. apply Hfuel. lia.
Qed.

End ParserFuel.

Section Scenarios.

(** The scenario of the specification: two tiers, the nonce succeeds,
    the first and the third mirror resolve and the token of the second
    does not decode; the link without a token has no entry. *)
Example partial_failure_scenario :
  snd (extractMirrorLinks resolving_world episode_page
         (js "https://otakudesu.cloud") (js "one-piece-episode-1"))
  = Returned
      (ByQuality
         [(js "360p",
           [{| name := js "desudesu";
               url := Some (js "https://desustream.me/e/1") |};
            {| name := js "otakustream"; url := None |}]);
          (js "720p",
           [{| name := js "desudesu";
               url := Some (js "https://desustream.me/e/1") |}])]).
Proof. vm_compute. reflexivity. Qed.

(** The requests of that run, in the order they are started: the nonce,
    then one resolve request for each token that decodes. *)
Example partial_failure_requests :
  List.map (fun ev => match ev with
                      | EvPost _ body _ => body
                      | _ => []
                      end)
    (fst (extractMirrorLinks resolving_world episode_page
            (js "https://otakudesu.cloud") (js "one-piece-episode-1")))
  = [nonce_body; js "nonce=n0nce&action=resolve";
     js "nonce=n0nce&action=resolve"].
Proof. vm_compute. reflexivity. Qed.

Example handleError_cases :
  info_status (handleError (Error (js "Episode not found"))) = 404%Z
  /\ info_status (handleError (Error (js "timeout of 25000ms exceeded"))) = 408%Z
  /\ info_status (handleError {| err_message := js "Request failed with status code 503";
                                 err_code := Some (js "ERR_BAD_RESPONSE");
                                 err_status := Some 503%Z |}) = 503%Z
  /\ info_status (handleError (Error (js "socket hang up"))) = 500%Z.
Proof. vm_compute. repeat split. Qed.

Example isValidSlug_cases :
  isValidSlug (Some (JStr (js "one-piece-episode-1"))) = Some (JBool true)
  /\ isValidSlug (Some (JStr (js "one piece"))) = Some (JBool false)
  /\ isValidSlug (Some (JStr (js "abc" ++ [10]))) = Some (JBool false)
  /\ isValidSlug (Some (JStr [])) = Some (JStr [])
  /\ isValidSlug (Some (JNum 7 0)) = Some (JBool false)
  /\ isValidSlug None = None.
Proof. vm_compute. repeat split. Qed.

Example sanitizeQuery_cases :
  sanitizeQuery (Some (JStr (js "  one   <b>piece</b> " ++ [9; 10] ++ js "x ")))
  = js "one bpiece/b x"
  /\ sanitizeQuery None = []
  /\ sanitizeQuery (Some (JNum 5 0)) = [].
Proof. vm_compute. repeat split. Qed.

End Scenarios.

(* ===================================================================== *)
(** * Properties of the service                                           *)
(* ===================================================================== *)

(** ** Payload Decoder *)

(** C8. Round trip of the Payload Decoder: for every JSON object whose
    serialisation is ASCII-safe, base64-encoding the UTF-8 bytes of the
    serialisation and then decoding as [fetchIframeUrl] does (base64
    decode, UTF-8 decode, JSON.parse) gives back the object, key for key
    and value for value. The object is any JSON object: its keys are
    distinct, at every depth, and its numbers are any decimals in the
    range of the doubles, with or without a fraction or an exponent and
    of any size. The decoded value is the same value of JavaScript: the
    same structure, keys, strings and booleans, and numbers with the
    same double. It is the object itself, decimal for decimal, when the
    numbers of the object are written as JavaScript prints them. *)
Theorem payload_round_trip (members : jsobj json) :
  js_value (JObj members) = true ->
  ascii_only (stringify (JObj members)) ->
  exists decoded,
    decodePayload (encodePayload (JObj members)) = Some decoded
    /\ same_value decoded (JObj members) = true
    /\ (as_printed (JObj members) = true -> decoded = JObj members).
Proof.
  intros Hvalue Hascii. exists (reprinted (JObj members)). split; [|split].
  - apply decodePayload_encodePayload_reprinted; [|exact Hascii].
    now apply js_value_distinct.
  - now apply same_value_reprinted.
  - apply reprinted_as_printed.
Qed.

Lemma payload_round_trip_witness :
  let members := [(js "id", JNum 186 0); (js "i", JNum 0 0);
                  (js "q", JStr (js "360p")); (js "t", JNum 15 (-1));
                  (js "far", JNum 1 21); (js "near", JNum (-5) (-324));
                  (js "wide", JNum 9007199254740994 0);
                  (js "sum", JNum 30000000000000004 (-17));
                  (js "more", JArr [JNum 123 (-9); JBool true; JNull;
                                    JObj [(js "top", JNum 17976931348623157 292)]])] in
  js_value (JObj members) = true
  /\ ascii_only (stringify (JObj members))
  /\ as_printed (JObj members) = true
  /\ decodePayload (encodePayload (JObj members)) = Some (JObj members).
Proof.
  intros members.
  assert (Hvalue : js_value (JObj members) = true) by (vm_compute; reflexivity).
  assert (Hascii : ascii_only (stringify (JObj members))).
  { vm_compute. repeat constructor. }
  assert (Hprinted : as_printed (JObj members) = true)
    by (vm_compute; reflexivity).
  split; [exact Hvalue|]. split; [exact Hascii|]. split; [exact Hprinted|].
  destruct (payload_round_trip members Hvalue Hascii)
    as (decoded & Hdecoded & _ & Hsame).
  rewrite Hdecoded. f_equal. exact (Hsame Hprinted).
Defined.

(** ** Settled promises *)

(** C9. [getSettledValue] returns the default value when the promise was
    rejected and also whenever it fulfilled with a falsy value (null,
    undefined, the empty string, 0, false): to the caller a fulfilled
    falsy result and a rejection are the same. *)
Theorem getSettledValue_falsy_as_rejected {A} `{Truthy A}
    (value defaultValue : A) (reason : js_error) :
  truthy value = false ->
  getSettledValue (Rejected reason) defaultValue = defaultValue
  /\ getSettledValue (Fulfilled value) defaultValue = defaultValue
  /\ getSettledValue (Fulfilled value) defaultValue
     = getSettledValue (Rejected reason) defaultValue
  /\ Forall (fun falsy : jsval => truthy falsy = false)
       [null; None; Some (JStr []); Some (JNum 0 0); Some (JBool false)].
Proof.
  intros Hfalsy. unfold getSettledValue, js_or. rewrite Hfalsy.
  repeat split. repeat constructor.
Qed.

Lemma getSettledValue_falsy_as_rejected_witness :
  truthy (Some (JStr [])) = false
  /\ getSettledValue (Fulfilled (Some (JStr []))) (Some (JStr (js "default")))
     = Some (JStr (js "default")).
Proof.
  split; [reflexivity|].
  apply (getSettledValue_falsy_as_rejected (Some (JStr []))
           (Some (JStr (js "default"))) (Error (js "unused"))).
  reflexivity.
Defined.

(** ** Cache keys *)

(** C10. [generateCacheKey] is not injective. It drops null and undefined
    arguments and replaces every code unit outside [a-zA-Z0-9\-_] by an
    underscore, so the two sanitized search queries 'a b' and 'a_b' get
    one cache key and share one cache entry. *)
Theorem generateCacheKey_not_injective :
  (forall prefix args,
     generateCacheKey prefix (None :: args) = generateCacheKey prefix args)
  /\ (forall arg, length (sanitize_arg arg) = length arg
                  /\ Forall (fun c => is_slug_unit c = true) (sanitize_arg arg)
                  /\ forall i c, nth_error arg i = Some c ->
                       nth_error (sanitize_arg arg) i
                       = Some (if is_slug_unit c then c else 95))
  /\ sanitizeQuery (Some (JStr (js "a b"))) = js "a b"
  /\ sanitizeQuery (Some (JStr (js "a_b"))) = js "a_b"
  /\ js "a b" <> js "a_b"
  /\ generateCacheKey (js "search") [Some (js "a b")]
     = generateCacheKey (js "search") [Some (js "a_b")]
  /\ ~ (forall prefix args1 args2,
          generateCacheKey prefix args1 = generateCacheKey prefix args2 ->
          args1 = args2).
Proof.
  split; [reflexivity|].
  split.
  { intros arg. unfold sanitize_arg. split; [apply length_map|]. split.
    - induction arg as [|c arg IH]; constructor; [|exact IH].
      destruct (is_slug_unit c) eqn:Hc; [exact Hc | reflexivity].
    - intros i c Hi. now rewrite nth_error_map, Hi. }
  split; [reflexivity|]. split; [reflexivity|].
  split; [discriminate|]. split; [reflexivity|].
  intros Hinj.
  specialize (Hinj (js "search") [Some (js "a b")] [Some (js "a_b")] eq_refl).
  discriminate Hinj.
Qed.

(** ** Slug validation at the routes *)

(** C7. A request to /episode/:slug or /anime/:slug whose slug does not
    match [^[a-zA-Z0-9\-_]+$] (the empty string and every value that is
    not a string included) is answered with status 400 and a body
    [{error, success: false}]; the cache is neither read nor written and
    no network call is made. *)
Theorem invalid_slug_rejected_first (w : world) (cfg : config)
    (cache : gmap jsstring api_body) (slug : jsval) :
  match slug with
  | Some (JStr s) => slug_pattern s = false
  | _ => True
  end ->
  route_episode w cfg cache slug
  = {| answer := {| res_status := 400;
                    res_body := ErrorBody (js "Invalid episode slug") false None |};
       cache_after := cache; effects := [] |}
  /\ route_anime w cfg cache slug
     = {| answer := {| res_status := 400;
                       res_body := ErrorBody (js "Invalid anime slug") false None |};
          cache_after := cache; effects := [] |}.
Proof.
  intros Hbad.
  assert (Hfalsy : truthy (isValidSlug slug) = false).
  { unfold isValidSlug.
    destruct (truthy slug) eqn:Hs; cbn [negb]; [|exact Hs].
    destruct slug as [[| b | m e | s | items | members]|]; try reflexivity.
    cbn. exact Hbad. }
  unfold route_episode, route_anime. rewrite Hfalsy. split; reflexivity.
Qed.

Lemma invalid_slug_rejected_first_witness :
  slug_pattern (js "one-piece/../x") = false
  /\ route_episode offline_world default_config ∅
       (Some (JStr (js "one-piece/../x")))
     = {| answer := {| res_status := 400;
                       res_body := ErrorBody (js "Invalid episode slug") false None |};
          cache_after := ∅; effects := [] |}.
Proof.
  split; [reflexivity|].
  apply (invalid_slug_rejected_first offline_world default_config ∅
           (Some (JStr (js "one-piece/../x")))).
  reflexivity.
Defined.

(** ** Retries *)

(** C6. [retryRequest] calls the request function at most
    [1 + maxRetries] times (three times with the default
    [maxRetries = 2]): its run is the calls number [0] to [k] for some
    [k <= maxRetries], with a pause of [delay * (j + 1)] after the call
    number [j]. Every call before the last failed with an error that
    allows a retry; the last call either returned, and its value is the
    result, or threw, and its error is rethrown, which happens when the
    retries are used up ([k = maxRetries]) or at once when the error
    carries a response status from 400 up other than 429, the 4xx range
    included. *)
Theorem retryRequest_bounded_linear {A} (requestFn : Z -> M A)
    (maxRetries delay : Z) :
  (0 <= maxRetries)%Z ->
  exists k : nat,
    (Z.of_nat k <= maxRetries)%Z
    /\ fst (retryRequest requestFn maxRetries delay)
       = attempts_log requestFn delay k 0
    /\ (forall j, (j < k)%nat ->
          exists e, snd (requestFn (Z.of_nat j)) = Thrown e
                    /\ no_retry_status e = false)
    /\ match snd (requestFn (Z.of_nat k)) with
       | Returned a =>
           snd (retryRequest requestFn maxRetries delay) = Returned (Some a)
       | Thrown e =>
           snd (retryRequest requestFn maxRetries delay) = Thrown e
           /\ (Z.of_nat k = maxRetries \/ no_retry_status e = true)
       end
    /\ (forall j e status,
          (j <= k)%nat -> snd (requestFn (Z.of_nat j)) = Thrown e ->
          err_status e = Some status ->
          (400 <= status < 500)%Z -> status <> 429%Z ->
          j = k /\ snd (retryRequest requestFn maxRetries delay) = Thrown e).
Proof.
  intros Hmax. unfold retryRequest.
  replace (Z.to_nat (maxRetries + 1)) with (S (Z.to_nat maxRetries)) by lia.
  destruct (retry_loop_spec requestFn maxRetries delay (Z.to_nat maxRetries) 0%Z
              ltac:(lia)) as (k & Hk & Hlog & Hprev & Hlast).
  rewrite Z.add_0_l in Hlast.
  assert (Hprev' : forall j, (j < k)%nat ->
            exists e, snd (requestFn (Z.of_nat j)) = Thrown e
                      /\ no_retry_status e = false).
  { intros j Hj. destruct (Hprev j Hj) as (e & He & Hretry).
    rewrite Z.add_0_l in He. eauto. }
  clear Hprev. rename Hprev' into Hprev.
  exists k. split; [lia|]. split; [exact Hlog|]. split; [exact Hprev|].
  split; [exact Hlast|].
  intros j e status Hj Hthrown Hstatus Hrange H429.
  assert (Hno : no_retry_status e = true).
  { unfold no_retry_status. rewrite Hstatus.
    apply andb_true_intro. split; [apply Z.leb_le; lia|].
    apply negb_true_iff, Z.eqb_neq. exact H429. }
  assert (j = k) as ->.
  { destruct (Nat.eq_dec j k) as [|Hne]; [assumption|].
    destruct (Hprev j ltac:(lia)) as (e' & He' & Hretry). congruence. }
  split; [reflexivity|]. rewrite Hthrown in Hlast. apply Hlast.
Qed.

Lemma retryRequest_bounded_linear_witness :
  (0 <= 2)%Z
  /\ retryRequest flaky_request 2 1000
     = ([EvGet (js "https://otakudesu.cloud/episode/x"); EvSleep 1000;
         EvGet (js "https://otakudesu.cloud/episode/x"); EvSleep 2000;
         EvGet (js "https://otakudesu.cloud/episode/x")],
        Returned (Some 7))
  /\ exists k : nat,
       (Z.of_nat k <= 2)%Z
       /\ fst (retryRequest flaky_request 2 1000)
          = attempts_log flaky_request 1000 k 0.
Proof.
  split; [lia|]. split; [reflexivity|].
  destruct (retryRequest_bounded_linear flaky_request 2 1000 ltac:(lia))
    as (k & Hk & Hlog & _).
  exists k. split; [exact Hk | exact Hlog].
Defined.

(** ** Nonce Provider *)

(** C5, as stated, fails: the HTTP client accepts every status below
    500, so a response with status 403 whose body has a [data] field is
    a success for [getNonce], which returns that field and not null. *)
Lemma getNonce_non_2xx_counterexample :
  net_post forbidden_world NonceOfAggregator
    (ajax_url (js "https://otakudesu.cloud")) nonce_body
    (nonce_headers (js "https://otakudesu.cloud"))
  = NetResponse 403 (JObj [(js "success", JBool false);
                           (js "data", JStr (js "forbidden"))])
  /\ ~ (200 <= 403 < 300)%Z
  /\ snd (getNonce forbidden_world NonceOfAggregator (js "https://otakudesu.cloud"))
     = Returned (Some (JStr (js "forbidden")))
  /\ snd (getNonce forbidden_world NonceOfAggregator (js "https://otakudesu.cloud"))
     <> Returned null.
Proof. split; [reflexivity|]. split; [lia|]. split; [reflexivity | discriminate]. Qed.

(** C5, amended. [getNonce] never throws and sends exactly one POST. It
    returns null when the request fails without a response, when the
    status of the response is 500 or more, and when the body has no
    [data] field or a falsy one. Every response with a status below 500,
    the statuses outside 2xx included, counts as a success: the result
    is then the value of the [data] field of the body. *)
Theorem getNonce_never_throws (w : world) (site : call_site) (src : jsstring) :
  fst (getNonce w site src)
  = [EvPost (ajax_url src) nonce_body (nonce_headers src)]
  /\ exists v,
       snd (getNonce w site src) = Returned v
       /\ match net_post w site (ajax_url src) nonce_body (nonce_headers src) with
          | NetFail _ => v = null
          | NetResponse status data =>
              if (500 <=? status)%Z then v = null
              else match get_data data with
                   | Some d => v = if truthy d then Some d else null
                   | None => v = null
                   end
          end.
Proof.
  rewrite getNonce_run. split; [reflexivity|]. eexists. split; [reflexivity|].
  unfold axios_settle, validateStatus.
  destruct (net_post w site _ _ _) as [e|status data]; [reflexivity|].
  destruct (Z.ltb_spec status 500), (Z.leb_spec 500 status); try lia;
    [|reflexivity].
  cbn [resp_data]. unfold js_or.
  destruct (get_data data) as [d|]; [|reflexivity].
  change (truthy (Some d)) with (truthy d).
  destruct (truthy d); reflexivity.
Qed.

(** ** Mirror Resolver *)

(** C4, as stated, fails: a payload that decodes to a JSON value other
    than an object (here the text [null]) does not stop the resolver;
    the request is sent without payload parameters and the answer is
    used. *)
Lemma fetchIframeUrl_non_object_counterexample :
  decodePayload (js "bnVsbA==") = Some JNull
  /\ (forall members, decodePayload (js "bnVsbA==") <> Some (JObj members))
  /\ snd (fetchIframeUrl resolving_world (Resolve 0 0) (JStr (js "bnVsbA=="))
            (JStr (js "n0nce")) (js "https://otakudesu.cloud") (js "ep-1"))
     = Returned (Some (js "https://desustream.me/e/1"))
  /\ snd (fetchIframeUrl resolving_world (Resolve 0 0) (JStr (js "bnVsbA=="))
            (JStr (js "n0nce")) (js "https://otakudesu.cloud") (js "ep-1"))
     <> Returned None.
Proof.
  assert (Hnull : decodePayload (js "bnVsbA==") = Some JNull)
    by (vm_compute; reflexivity).
  assert (Hrun : snd (fetchIframeUrl resolving_world (Resolve 0 0)
                        (JStr (js "bnVsbA==")) (JStr (js "n0nce"))
                        (js "https://otakudesu.cloud") (js "ep-1"))
                 = Returned (Some (js "https://desustream.me/e/1")))
    by (vm_compute; reflexivity).
  split; [exact Hnull|]. split; [rewrite Hnull; discriminate|].
  split; [exact Hrun|]. rewrite Hrun. discriminate.
Qed.

(** C4, amended. [fetchIframeUrl] never throws, whatever the content. For
    a string content it returns null when the decoded text is not valid
    JSON (JSON.parse throws), when the request body cannot be built, when
    the request fails without a response or with a status of 500 or
    more, when the body of the response has no [data] field or a falsy
    one, and when the decoded fragment holds no [src] attribute with a
    non-empty value in double quotes. Otherwise it returns the value of
    such an attribute of the fragment. A payload that parses to a JSON
    value other than an object is no failure. *)
Theorem fetchIframeUrl_null_or_src (w : world) (site : call_site)
    (content nonce : json) (src slug : jsstring) :
  (exists result,
     snd (fetchIframeUrl w site content nonce src slug) = Returned result)
  /\ forall s, content = JStr s ->
     let result := snd (fetchIframeUrl w site content nonce src slug) in
     match decodePayload s with
     | None => result = Returned None
     | Some payload =>
         match form_urlencoded w (resolve_params payload nonce) with
         | Thrown _ => result = Returned None
         | Returned body =>
             match net_post w site (ajax_url src) body
                     (resolve_headers src slug) with
             | NetFail _ => result = Returned None
             | NetResponse status data =>
                 ((500 <= status)%Z -> result = Returned None)
                 /\ ((status < 500)%Z ->
                     (get_data data = None -> result = Returned None)
                     /\ (forall d, get_data data = Some d -> truthy d = false ->
                           result = Returned None)
                     /\ (forall d, get_data data = Some (JStr d) -> d <> [] ->
                           let html := utf8_decode (base64_decode d) in
                           ((forall v, ~ src_attribute html v) ->
                              result = Returned None)
                           /\ ((exists v, src_attribute html v) ->
                                 exists v, result = Returned (Some v)
                                           /\ src_attribute html v)))
             end
         end
     end.
Proof.
  split.
  { destruct (fetchIframeUrl_never_throws w site nonce src slug content)
      as (result & evs & ->). eauto. }
  intros s -> result. subst result.
  destruct (decodePayload s) as [payload|] eqn:Hpayload.
  2:{ now rewrite fetchIframeUrl_undecodable. }
  destruct (form_urlencoded w _) as [body|e] eqn:Hbody.
  2:{ now rewrite (fetchIframeUrl_unserialisable _ _ _ _ _ _ _ e Hpayload Hbody). }
  rewrite (fetchIframeUrl_answered _ _ _ _ _ _ _ _ Hpayload Hbody).
  cbn [snd]. unfold axios_settle, validateStatus.
  destruct (net_post w site _ _ _) as [e|status data]; [reflexivity|].
  split.
  - intros Hstatus. destruct (Z.ltb_spec status 500); [lia | reflexivity].
  - intros Hstatus. destruct (Z.ltb_spec status 500); [|lia].
    cbn [resp_data]. split; [now intros ->|]. split.
    + intros d -> Hfalsy. now rewrite Hfalsy.
    + intros d -> Hd.
      assert (truthy (JStr d) = true) as -> by (destruct d; [congruence | reflexivity]).
      cbn [Buffer_from_base64]. split.
      * intros Hnone. f_equal. now apply match_src_none.
      * intros [v Hv]. destruct (match_src_complete _ _ Hv) as [v' Hv'].
        exists v'. rewrite Hv'. split; [reflexivity|]. now apply match_src_sound.
Qed.

Lemma fetchIframeUrl_null_or_src_witness :
  exists v,
    snd (fetchIframeUrl resolving_world (Resolve 0 0)
           (JStr (encodePayload (JObj [(js "id", JNum 186 0)])))
           (JStr (js "n0nce")) (js "https://otakudesu.cloud") (js "ep-1"))
    = Returned (Some v)
    /\ src_attribute
         (utf8_decode (base64_decode (base64_encode (utf8_encode iframe_html)))) v.
Proof.
  pose proof (proj2 (fetchIframeUrl_null_or_src resolving_world (Resolve 0 0)
                  (JStr (encodePayload (JObj [(js "id", JNum 186 0)])))
                  (JStr (js "n0nce")) (js "https://otakudesu.cloud")
                  (js "ep-1")) _ eq_refl) as H.
  cbv zeta in H.
  assert (Hdec : decodePayload (encodePayload (JObj [(js "id", JNum 186 0)]))
                 = Some (JObj [(js "id", JNum 186 0)])).
  { apply decodePayload_encodePayload; [reflexivity | vm_compute; repeat constructor]. }
  rewrite Hdec in H.
  change (form_urlencoded resolving_world ?p)
    with (Returned (A := jsstring) (js "nonce=n0nce&action=resolve")) in H.
  cbv iota in H.
  change (net_post resolving_world (Resolve 0 0) ?a ?b ?c)
    with (NetResponse 200
            (JObj [(js "data", JStr (base64_encode (utf8_encode iframe_html)))]))
    in H.
  cbv iota in H.
  destruct H as [_ H]. specialize (H ltac:(lia)). destruct H as (_ & _ & H).
  specialize (H (base64_encode (utf8_encode iframe_html)) eq_refl).
  assert (Hne : base64_encode (utf8_encode iframe_html) <> []).
  { vm_compute. discriminate. }
  apply (H Hne).
  assert (Hhtml : utf8_decode (base64_decode (base64_encode (utf8_encode iframe_html)))
                  = iframe_html) by (vm_compute; reflexivity).
  rewrite Hhtml.
  exists (js "https://desustream.me/e/1").
  exists (js "<iframe "), (js " allowfullscreen></iframe>").
  split; [reflexivity|]. split; [discriminate|].
  apply unquoted_check. vm_compute. reflexivity.
Defined.

(** ** Streaming Assembly *)

(** C3. Once the episode page is fetched and loaded, [getEpisodeStreaming]
    fails if and only if the page has no title. It then throws the error
    'Episode not found' without starting anything else and without a
    partial result, and the route answers with status 404 and writes
    nothing to the cache. With a title it returns a result, whatever
    happens to the nonce, to the mirrors and to the downloads. *)
Theorem getEpisodeStreaming_fails_only_without_title (w : world)
    (slug src : jsstring) (evs : list event) (r : response) (doc : document) :
  fetch_episode_page w slug src = (evs, Returned (Some r)) ->
  cheerio_load w (resp_data r) = Returned doc ->
  ((exists e, snd (getEpisodeStreaming w slug src) = Thrown e)
   <-> trim (venutama_h1_text doc) = [])
  /\ (trim (venutama_h1_text doc) = [] ->
      getEpisodeStreaming w slug src
      = (evs, Thrown (Error (js "Episode not found")))
      /\ info_status (handleError (Error (js "Episode not found"))) = 404%Z
      /\ forall cfg cache,
           sourceUrl cfg = src -> slug_pattern slug = true ->
           cache !! generateCacheKey (js "episode") [Some slug] = None ->
           let h := route_episode w cfg cache (Some (JStr slug)) in
           res_status (answer h) = 404%Z
           /\ body_success (res_body (answer h)) = false
           /\ cache_after h = cache)
  /\ (trim (venutama_h1_text doc) <> [] ->
      exists s, snd (getEpisodeStreaming w slug src) = Returned s
                /\ title s = trim (venutama_h1_text doc)).
Proof.
  intros Hfetch Hload.
  assert (Hnone : trim (venutama_h1_text doc) = [] ->
                  getEpisodeStreaming w slug src
                  = (evs, Thrown (Error (js "Episode not found"))))
    by now apply getEpisodeStreaming_no_title with (r := r).
  assert (Hsome : trim (venutama_h1_text doc) <> [] ->
                  exists s, snd (getEpisodeStreaming w slug src) = Returned s
                            /\ title s = trim (venutama_h1_text doc))
    by now apply getEpisodeStreaming_title with (evs := evs) (r := r).
  split; [|split; [|exact Hsome]].
  - split.
    + intros [e He].
      destruct (trim (venutama_h1_text doc)) as [|c t] eqn:Ht; [reflexivity|].
      destruct Hsome as (s & Hs & _); [discriminate | congruence].
    + intros Ht. rewrite (Hnone Ht). eauto.
  - intros Ht. split; [exact (Hnone Ht)|]. split; [reflexivity|].
    intros cfg cache Hsrc Hslug Hmiss h. subst h.
    unfold route_episode, isValidSlug.
    assert (Hstring : truthy (Some (JStr slug) : jsval) = true)
      by (destruct slug; [discriminate | reflexivity]).
    rewrite Hstring. cbn [negb].
    change (truthy (Some (JBool (slug_pattern slug)) : jsval))
      with (slug_pattern slug).
    rewrite Hslug. cbn [negb slug_text]. unfold withCache.
    rewrite Hmiss, Hsrc, (Hnone Ht). cbn. auto.
Qed.

Lemma getEpisodeStreaming_fails_only_without_title_witness :
  getEpisodeStreaming (serving missing_page offline_world) (js "no-such-episode")
    (js "https://otakudesu.cloud")
  = ([EvGet (js "https://otakudesu.cloud/episode/no-such-episode")],
     Thrown (Error (js "Episode not found")))
  /\ exists s,
       snd (getEpisodeStreaming (serving episode_page offline_world)
              (js "one-piece-episode-1") (js "https://otakudesu.cloud"))
       = Returned s
       /\ title s = js "One Piece Episode 1 Subtitle Indonesia"
       /\ mirrors s = EmptyArray.
Proof.
  split.
  - apply (getEpisodeStreaming_fails_only_without_title
             (serving missing_page offline_world) (js "no-such-episode")
             (js "https://otakudesu.cloud")
             [EvGet (js "https://otakudesu.cloud/episode/no-such-episode")]
             {| resp_status := 200; resp_data := JStr (js "<!DOCTYPE html>") |}
             missing_page eq_refl eq_refl).
    reflexivity.
  - destruct (getEpisodeStreaming_fails_only_without_title
                (serving episode_page offline_world) (js "one-piece-episode-1")
                (js "https://otakudesu.cloud")
                [EvGet (js "https://otakudesu.cloud/episode/one-piece-episode-1")]
                {| resp_status := 200; resp_data := JStr (js "<!DOCTYPE html>") |}
                episode_page eq_refl eq_refl) as (_ & _ & H).
    destruct H as (s & Hs & Ht); [discriminate|].
    exists s. split; [exact Hs|]. split; [exact Ht|].
    vm_compute in Hs. injection Hs as <-. reflexivity.
Defined.

(** ** Quality Aggregator *)

(** C1, as stated, fails: without a nonce [extractMirrorLinks] returns
    the empty array, in which no tier of the page is a key; the tier
    360p of the sample page is not mapped to an empty sequence. *)
Lemma extractMirrorLinks_without_nonce_counterexample :
  snd (getNonce offline_world NonceOfAggregator (js "https://otakudesu.cloud"))
  = Returned null
  /\ ~ (exists m,
         snd (extractMirrorLinks offline_world episode_page
                (js "https://otakudesu.cloud") (js "one-piece-episode-1"))
         = Returned m
         /\ forall t, In t (mirror_tabs episode_page) ->
                      mirrors_get (quality_of t) m = Some []).
Proof.
  split; [reflexivity|]. intros (m & Hm & Hall).
  assert (m = EmptyArray) as -> by (vm_compute in Hm; congruence).
  specialize (Hall _ (or_introl eq_refl)). discriminate Hall.
Qed.

(** C1, amended. When the Nonce Provider yields no nonce (null or any
    other falsy value), [extractMirrorLinks] returns, without throwing
    and without any request besides the one for the nonce, the empty
    array: a result with no key at all, in which no tier of the page
    appears. *)
Theorem extractMirrorLinks_without_nonce (w : world) (doc : document)
    (src slug : jsstring) (v : jsval) :
  snd (getNonce w NonceOfAggregator src) = Returned v ->
  truthy v = false ->
  extractMirrorLinks w doc src slug
  = ([EvPost (ajax_url src) nonce_body (nonce_headers src)], Returned EmptyArray)
  /\ forall q, mirrors_get q EmptyArray = None.
Proof.
  intros Hv Hfalsy.
  rewrite (extractMirrorLinks_no_nonce w doc src slug v Hv Hfalsy).
  rewrite getNonce_run. split; reflexivity.
Qed.

Lemma extractMirrorLinks_without_nonce_witness :
  extractMirrorLinks offline_world episode_page (js "https://otakudesu.cloud")
    (js "one-piece-episode-1")
  = ([EvPost (ajax_url (js "https://otakudesu.cloud")) nonce_body
        (nonce_headers (js "https://otakudesu.cloud"))],
     Returned EmptyArray).
Proof.
  apply (extractMirrorLinks_without_nonce offline_world episode_page
           (js "https://otakudesu.cloud") (js "one-piece-episode-1") null);
    reflexivity.
Defined.

(** C2, as stated, fails: the statement holds for every page, with or
    without a nonce, and without a nonce the tier 360p of the sample page
    is not a key of the result. *)
Lemma extractMirrorLinks_tier_key_counterexample :
  In {| tab_text := js " 360p "; tab_href := Some (js "#m360p") |}
     (mirror_tabs episode_page)
  /\ ~ (exists m,
         snd (extractMirrorLinks offline_world episode_page
                (js "https://otakudesu.cloud") (js "one-piece-episode-1"))
         = Returned m
         /\ forall t, In t (mirror_tabs episode_page) ->
                      exists links, mirrors_get (quality_of t) m = Some links).
Proof.
  split; [now left|]. intros (m & Hm & Hall).
  assert (m = EmptyArray) as -> by (vm_compute in Hm; congruence).
  destruct (Hall _ (or_introl eq_refl)) as [links Hlinks]. discriminate Hlinks.
Qed.

(** C2, amended. When a nonce is obtained and the selector of every tab
    parses, [extractMirrorLinks] returns an object that has, for every
    tab of the page, the trimmed text of the tab as a key (the key
    '__proto__' apart). When the tabs have distinct texts, the sequence
    under the key of a tab has exactly one entry for each link of the
    tab that carries a content, in the order of the page; the name of an
    entry is the trimmed text of its link and its url is the result of
    the Mirror Resolver, null when the resolution failed. A link without
    a content has no entry; a tab without such links keeps its key with
    an empty sequence. *)
Theorem extractMirrorLinks_keeps_every_tier (w : world) (doc : document)
    (src slug : jsstring) (nonce : json) :
  fair_world w ->
  snd (getNonce w NonceOfAggregator src) = Returned (Some nonce) ->
  truthy nonce = true ->
  (forall t, In t (mirror_tabs doc) ->
     exists els, select_anchors doc (links_selector t) = Returned els) ->
  exists o,
    snd (extractMirrorLinks w doc src slug) = Returned (ByQuality o)
    /\ forall ti t els,
         nth_error (mirror_tabs doc) ti = Some t ->
         select_anchors doc (links_selector t) = Returned els ->
         quality_of t <> js "__proto__" ->
         exists links,
           obj_get (quality_of t) o = Some links
           /\ (NoDup (List.map quality_of (mirror_tabs doc)) ->
               Forall2 (entry_of w nonce src slug ti)
                 (List.filter has_content (indexed_from 0 els)) links
               /\ length links
                  = length (List.filter has_content (indexed_from 0 els))).
Proof.
  intros Hfair Hnonce Htruthy Hsel.
  destruct (resolve_tabs_run w doc nonce src slug (mirror_tabs doc) 0%nat Hsel)
    as (evs & tiers & Hrun & Hall).
  exists (store_links (completion_order w tiers)). split.
  { unfold extractMirrorLinks.
    destruct (getNonce w NonceOfAggregator src) as [evs0 o0].
    cbn [snd] in Hnonce. subst o0. async_unfold. rewrite Htruthy. cbn [negb].
    now rewrite Hrun. }
  intros ti t els Hti Hels Hproto.
  destruct (Forall2_indexed_nth _ _ _ _ _ _ Hall Hti) as ([q links] & Hnth & Hq & Hlinks).
  cbn [fst snd] in Hq, Hlinks. subst q. specialize (Hlinks els Hels).
  assert (Hin : In (quality_of t, links) (completion_order w tiers)).
  { eapply Permutation_in; [apply Permutation_sym, Hfair|].
    eapply nth_error_In. exact Hnth. }
  assert (Hkeys : List.map fst tiers = List.map quality_of (mirror_tabs doc))
    by exact (Forall2_indexed_keys _ _ _ _ Hall).
  destruct (obj_get_store_all_present (quality_of t) (completion_order w tiers) []
              Hproto) as [stored Hstored].
  { left. apply in_map_iff. exists (quality_of t, links). auto. }
  exists stored. split; [exact Hstored|].
  intros Hnd.
  assert (stored = links) as ->.
  { unfold store_links in *.
    rewrite (obj_get_store_all (quality_of t) links) in Hstored;
      [congruence | assumption | | assumption].
    assert (Hperm : Permutation (List.map fst tiers)
                      (List.map fst (completion_order w tiers)))
      by apply Permutation_map, Permutation_sym, Hfair.
    rewrite <- Hperm. now rewrite Hkeys. }
  split; [exact Hlinks|].
  symmetry. eapply Forall2_length. exact Hlinks.
Qed.

Lemma extractMirrorLinks_keeps_every_tier_witness :
  exists o,
    snd (extractMirrorLinks resolving_world episode_page
           (js "https://otakudesu.cloud") (js "one-piece-episode-1"))
    = Returned (ByQuality o)
    /\ exists links,
         obj_get (js "360p") o = Some links /\ length links = 2%nat.
Proof.
  destruct (extractMirrorLinks_keeps_every_tier resolving_world episode_page
              (js "https://otakudesu.cloud") (js "one-piece-episode-1")
              (JStr (js "n0nce")))
    as (o & Ho & Htiers).
  - intros l. reflexivity.
  - reflexivity.
  - reflexivity.
  - intros t [<-|[<-|[]]]; eexists; reflexivity.
  - exists o. split; [exact Ho|].
    destruct (Htiers 0%nat _ _ eq_refl eq_refl) as (links & Hget & Hentries).
    + discriminate.
    + exists links. split; [exact Hget|].
      destruct Hentries as [_ Hlen].
      * apply (bool_decide_unpack _). vm_compute. exact I.
      * exact Hlen.
Defined.


(* ===================================================================== *)
(** * Further properties of utils.js                                      *)
(* ===================================================================== *)

Section Queries.

(** What [collapse_from] leaves: no white space other than the plain
    space, and never a space after a space. *)
Lemma collapse_from_spaces s : forall in_run,
  Forall (fun c => is_js_space c = true -> c = 32) (collapse_from in_run s)
  /\ (forall a b, collapse_from in_run s <> a ++ 32 :: 32 :: b)
  /\ (in_run = true -> forall b, collapse_from in_run s <> 32 :: b).
Proof.
  induction s as [|c s IH]; intros in_run; cbn [collapse_from].
  - split; [constructor|]. split; [intros [|] ?; discriminate | discriminate].
  - destruct (is_js_space c) eqn:Hc.
    + destruct in_run.
      * exact (IH true).
      * destruct (IH true) as (Hall & Hpair & Hhead).
        split; [constructor; auto|]. split; [|discriminate].
        intros a b Heq. destruct a as [|x a]; cbn [app] in Heq.
        -- injection Heq as Heq. exact (Hhead eq_refl _ Heq).
        -- injection Heq as _ Heq. exact (Hpair _ _ Heq).
    + destruct (IH false) as (Hall & Hpair & _).
      split; [constructor; [congruence | assumption]|].
      split.
      * intros a b Heq. destruct a as [|x a]; cbn [app] in Heq.
        -- injection Heq as Heq _. subst c. discriminate.
        -- injection Heq as _ Heq. exact (Hpair _ _ Heq).
      * intros _ b Heq. injection Heq as -> _. discriminate.
Qed.

Lemma collapse_from_keeps (P : N -> Prop) s : forall in_run,
  P 32 -> Forall P s -> Forall P (collapse_from in_run s).
Proof.
  induction s as [|c s IH]; intros in_run H32 Hs; cbn [collapse_from];
    [constructor|].
  inversion Hs; subst.
  destruct (is_js_space c); [destruct in_run|]; auto.
Qed.

Lemma firstn_prefix {A} n (l : list A) : exists rest, l = firstn n l ++ rest.
Proof. exists (skipn n l). now rewrite firstn_skipn. Qed.

Lemma firstn_incl {A} n : forall (l : list A) x, In x (firstn n l) -> In x l.
Proof.
  induction n as [|n IH]; intros [|a l] x H; cbn in *; try contradiction.
  destruct H as [H|H]; [now left | right; now apply IH].
Qed.

End Queries.

(** X1. Whatever the query, the text that [sanitizeQuery] returns has at
    most 100 code units, holds none of the five markup characters, holds
    no white space other than the plain space, and never two spaces in a
    row. *)
Theorem sanitizeQuery_shape (query : jsval) :
  (length (sanitizeQuery query) <= 100)%nat
  /\ Forall (fun c => is_markup_unit c = false) (sanitizeQuery query)
  /\ Forall (fun c => is_js_space c = true -> c = 32) (sanitizeQuery query)
  /\ forall a b, sanitizeQuery query <> a ++ 32 :: 32 :: b.
Proof.
  unfold sanitizeQuery.
  destruct query as [[| b | m e | q | items | members]|];
    try (cbn [length]; split; [lia|]; split; [constructor|];
         split; [constructor|]; intros [|] ?; discriminate).
  set (kept := List.filter (fun c => negb (is_markup_unit c)) (trim q)).
  destruct (collapse_from_spaces kept false) as (Hspace & Hpair & _).
  fold (collapse_spaces kept) in Hspace, Hpair.
  destruct (firstn_prefix 100 (collapse_spaces kept)) as [rest Hrest].
  assert (Hmarkup : Forall (fun c => is_markup_unit c = false)
                      (collapse_spaces kept)).
  { apply collapse_from_keeps; [reflexivity|].
    apply List.Forall_forall. intros c Hc. apply filter_In in Hc as [_ Hc].
    now apply negb_true_iff. }
  rewrite List.Forall_forall in Hmarkup, Hspace.
  split; [apply firstn_le_length|].
  split.
  { apply List.Forall_forall. intros c Hc. apply Hmarkup.
    exact (firstn_incl _ _ _ Hc). }
  split.
  { apply List.Forall_forall. intros c Hc. apply Hspace.
    exact (firstn_incl _ _ _ Hc). }
  intros a b Heq. apply (Hpair a (b ++ rest)).
  rewrite Hrest, Heq, <- app_assoc. reflexivity.
Qed.

Section CacheKeys.

Lemma sanitize_arg_slug s : forallb is_slug_unit s = true -> sanitize_arg s = s.
Proof.
  induction s as [|c s IH]; [reflexivity|]. cbn [forallb sanitize_arg List.map].
  intros H. apply andb_prop in H as [Hc Hs]. rewrite Hc. f_equal. now apply IH.
Qed.

Lemma slug_pattern_units s : slug_pattern s = true -> forallb is_slug_unit s = true.
Proof. destruct s; [discriminate | exact (fun H => H)]. Qed.

Lemma generateCacheKey_slug prefix s :
  slug_pattern s = true ->
  generateCacheKey prefix [Some s] = prefix ++ 58 :: s.
Proof.
  intros H. unfold generateCacheKey. cbn [non_null List.map join].
  now rewrite sanitize_arg_slug by now apply slug_pattern_units.
Qed.

(** The text before the first colon and the text after it. *)
Lemma split_at_colon p1 : forall p2 s1 s2,
  ~ In 58 p1 -> ~ In 58 p2 -> p1 ++ 58 :: s1 = p2 ++ 58 :: s2 ->
  p1 = p2 /\ s1 = s2.
Proof.
  induction p1 as [|c p1 IH]; intros [|d p2] s1 s2 H1 H2 Heq; cbn in *.
  - injection Heq as ->. auto.
  - injection Heq as <- _. tauto.
  - injection Heq as -> _. tauto.
  - injection Heq as -> Heq. destruct (IH p2 s1 s2) as [-> ->]; auto.
Qed.

End CacheKeys.

(** X2. On slugs that [isValidSlug] accepts the cache key keeps the slug
    as it is, so for prefixes without a colon the key tells the prefix
    and the slug: two requests share a key only when they name the same
    route and the same slug. *)
Theorem generateCacheKey_injective_on_slugs (prefix1 prefix2 s1 s2 : jsstring) :
  slug_pattern s1 = true -> slug_pattern s2 = true ->
  ~ In 58 prefix1 -> ~ In 58 prefix2 ->
  generateCacheKey prefix1 [Some s1] = prefix1 ++ js ":" ++ s1
  /\ (generateCacheKey prefix1 [Some s1] = generateCacheKey prefix2 [Some s2] ->
      prefix1 = prefix2 /\ s1 = s2).
Proof.
  intros H1 H2 Hp1 Hp2. rewrite !generateCacheKey_slug by assumption.
  split; [reflexivity|]. now apply split_at_colon.
Qed.

Lemma generateCacheKey_injective_on_slugs_witness :
  generateCacheKey (js "anime") [Some (js "one-piece")]
  = js "anime" ++ js ":" ++ js "one-piece"
  /\ (generateCacheKey (js "anime") [Some (js "one-piece")]
      = generateCacheKey (js "episode") [Some (js "one-piece")] ->
      js "anime" = js "episode" /\ js "one-piece" = js "one-piece").
Proof.
  apply (generateCacheKey_injective_on_slugs (js "anime") (js "episode")
           (js "one-piece") (js "one-piece"));
    try reflexivity; vm_compute; intuition discriminate.
Defined.

Section Urls.

Lemma drop_slashes_repeat n s : drop_slashes (repeat 47 n ++ s) = drop_slashes s.
Proof. induction n as [|n IH]; [reflexivity|]. cbn. exact IH. Qed.

(** [drop_slashes] removes a run of slashes and what is left does not
    begin with one. *)
Lemma drop_slashes_spec s :
  exists n, s = repeat 47 n ++ drop_slashes s
            /\ forall rest, drop_slashes s <> 47 :: rest.
Proof.
  induction s as [|c s IH].
  - exists O. split; [reflexivity | discriminate].
  - cbn [drop_slashes]. destruct (N.eqb_spec c 47) as [->|Hc].
    + destruct IH as (n & Heq & Hhead). exists (S n). cbn [repeat app].
      split; [now f_equal | exact Hhead].
    + exists O. split; [reflexivity|]. intros rest H. injection H as H _.
      contradiction.
Qed.

Lemma rev_repeat {A} (x : A) n : rev (repeat x n) = repeat x n.
Proof.
  induction n as [|n IH]; [reflexivity|]. cbn [repeat rev]. rewrite IH.
  clear IH. induction n as [|n IH]; [reflexivity|]. cbn [repeat app].
  now rewrite IH.
Qed.

End Urls.

(** X3. [buildUrl] splits the base into a text that does not end with a
    slash and a run of slashes, the path into a run of slashes and a text
    that does not begin with one, and joins the two texts with exactly
    one slash. *)
Theorem buildUrl_single_slash (baseUrl path : jsstring) :
  exists cleanBase cleanPath n m,
    baseUrl = cleanBase ++ repeat 47 n
    /\ path = repeat 47 m ++ cleanPath
    /\ buildUrl baseUrl path = cleanBase ++ 47 :: cleanPath
    /\ (forall b, cleanBase <> b ++ [47])
    /\ (forall p, cleanPath <> 47 :: p).
Proof.
  destruct (drop_slashes_spec (rev baseUrl)) as (n & Hbase & Hb).
  destruct (drop_slashes_spec path) as (m & Hpath & Hp).
  exists (rev (drop_slashes (rev baseUrl))), (drop_slashes path), n, m.
  split.
  { rewrite <- (rev_involutive baseUrl) at 1. rewrite Hbase at 1.
    now rewrite rev_app_distr, rev_repeat. }
  split; [exact Hpath|]. split; [reflexivity|]. split; [|exact Hp].
  intros b Heq. apply (Hb (rev b)).
  rewrite <- (rev_involutive (drop_slashes (rev baseUrl))), Heq.
  now rewrite rev_app_distr.
Qed.

(** X4. Slashes at the end of the base and at the start of the path make
    no difference to [buildUrl]. *)
Theorem buildUrl_extra_slashes (baseUrl path : jsstring) (n m : nat) :
  buildUrl (baseUrl ++ repeat 47 n) (repeat 47 m ++ path)
  = buildUrl baseUrl path.
Proof.
  unfold buildUrl.
  now rewrite rev_app_distr, rev_repeat, !drop_slashes_repeat.
Qed.

Section Errors.

(** [handleError] never answers with a status below 400. *)
Lemma handleError_status_error error : (400 <= info_status (handleError error))%Z.
Proof.
  unfold handleError.
  destruct (_ || _); [cbn; lia|].
  destruct (err_status error) as [status|].
  - destruct (Z.eqb_spec status 404); [cbn; lia|].
    destruct (Z.leb_spec 400 status); [cbn; lia|].
    destruct (includes _ _); cbn; lia.
  - destruct (includes _ _); cbn; lia.
Qed.

Lemma includes_absent needle hay c rest :
  needle = c :: rest -> ~ In c hay -> includes needle hay = false.
Proof.
  intros ->. induction hay as [|h hay IH]; intros Hnot; [reflexivity|].
  cbn [includes starts_with].
  destruct (N.eqb_spec c h) as [->|_]; [exfalso; apply Hnot; now left|].
  cbn [andb orb]. apply IH. intros H. apply Hnot. now right.
Qed.

Lemma digits_Z_no_letter z c :
  is_digit c = false -> c <> 45 -> ~ In c (digits_Z z).
Proof.
  intros Hc H45 Hin. unfold digits_Z in Hin.
  assert (Hd : ~ In c (digits (Z.abs_N z))).
  { intros H. pose proof (digits_all_digits (Z.abs_N z)) as Hall.
    rewrite List.Forall_forall in Hall. apply Hall in H. congruence. }
  destruct (z <? 0)%Z; [destruct Hin as [?|?]; [congruence|]|]; tauto.
Qed.

(** The message of the error that axios raises for a response tells no
    timeout. *)
Lemma status_message_no_timeout status :
  includes (js "timeout")
    (js "Request failed with status code " ++ digits_Z status) = false.
Proof.
  cbn -[digits_Z].
  apply includes_absent with (c := 116) (rest := js "imeout"); [reflexivity|].
  now apply digits_Z_no_letter.
Qed.

End Errors.

(** X5. The status that [handleError] gives is 408, 404, 500 or the
    status of the response the error carries, and it is never below
    400; an error with the code ECONNABORTED gives 408 whatever response
    it carries. *)
Theorem handleError_status_range (error : js_error) :
  (400 <= info_status (handleError error))%Z
  /\ (info_status (handleError error) = 408%Z
      \/ info_status (handleError error) = 404%Z
      \/ info_status (handleError error) = 500%Z
      \/ err_status error = Some (info_status (handleError error)))
  /\ (err_code error = Some (js "ECONNABORTED") ->
      info_status (handleError error) = 408%Z).
Proof.
  split; [apply handleError_status_error|]. split.
  - unfold handleError.
    destruct (_ || _); [cbn; tauto|].
    destruct (err_status error) as [status|].
    + destruct (Z.eqb_spec status 404); [cbn; tauto|].
      destruct (Z.leb_spec 400 status); [cbn; tauto|].
      destruct (includes _ _); cbn; tauto.
    + destruct (includes _ _); cbn; tauto.
  - intros Hcode. unfold handleError.
    now rewrite bool_decide_eq_true_2 by assumption.
Qed.

Lemma handleError_status_range_witness :
  info_status
    (handleError {| err_message := js "aborted";
                    err_code := Some (js "ECONNABORTED");
                    err_status := Some 503%Z |}) = 408%Z.
Proof.
  apply (handleError_status_range
           {| err_message := js "aborted";
              err_code := Some (js "ECONNABORTED");
              err_status := Some 503%Z |}).
  reflexivity.
Defined.
(* ===================================================================== *)
(** * Further properties of the page fetch and of the routes              *)
(* ===================================================================== *)

Section PageFetch.

Context (w : world).

(** A response ends [retryRequest(() => httpClient.get(url))] at the
    first call, whatever its status. *)
Lemma fetch_response target status data :
  net_get w (PageFetch 0) target = NetResponse status data ->
  retryRequest (fun i => httpClient_get w (PageFetch i) target) 2 1000
  = ([EvGet target],
     match axios_settle (NetResponse status data) with
     | Returned r => Returned (Some r)
     | Thrown e => Thrown e
     end).
Proof using Type.
  intros Hget. unfold retryRequest.
  change (Z.to_nat (2 + 1)) with 3%nat. rewrite retry_loop_step.
  unfold httpClient_get. rewrite Hget. unfold axios_settle, validateStatus.
  destruct (Z.ltb_spec status 500) as [Hlt|Hge]; [reflexivity|].
  cbn [Z.eqb]. unfold no_retry_status. cbn [err_status].
  destruct (Z.leb_spec 400 status); [|lia].
  destruct (Z.eqb_spec status 429); [lia|]. reflexivity.
Qed.

(** Without a response, and unless the error forbids it, a pause and a
    second call follow. *)
Lemma fetch_no_response target e :
  net_get w (PageFetch 0) target = NetFail e ->
  no_retry_status e = false ->
  exists evs,
    fst (retryRequest (fun i => httpClient_get w (PageFetch i) target) 2 1000)
    = EvGet target :: EvSleep 1000 :: EvGet target :: evs.
Proof using Type.
  intros Hget Hretry. unfold retryRequest.
  change (Z.to_nat (2 + 1)) with 3%nat. rewrite retry_loop_step.
  unfold httpClient_get at 1. rewrite Hget. cbn [axios_settle Z.eqb].
  rewrite Hretry. rewrite retry_loop_step.
  unfold httpClient_get at 1.
  destruct (axios_settle (net_get w (PageFetch (0 + 1)) target)) as [r|e'].
  - eexists. reflexivity.
  - destruct ((0 + 1 =? 2)%Z); [eexists; reflexivity|].
    destruct (no_retry_status e'); [eexists; reflexivity|].
    destruct (retry_loop _ _ _ _ _) as [evs' r']. eexists. reflexivity.
Qed.

End PageFetch.

(** X6. Any HTTP response to the first request for the episode page ends
    the page fetch there: a status below 500 is the fetched page, a
    status of 500 or more is thrown at once, without a retry. A retry
    (after a pause of one second) is made only when no response came. *)
Theorem fetch_episode_page_retries_only_without_response (w : world)
    (slug src : jsstring) :
  let target := buildUrl src (js "/episode/" ++ slug) in
  (forall status data,
     net_get w (PageFetch 0) target = NetResponse status data ->
     fst (fetch_episode_page w slug src) = [EvGet target]
     /\ ((status < 500)%Z ->
         snd (fetch_episode_page w slug src)
         = Returned (Some {| resp_status := status; resp_data := data |}))
     /\ ((500 <= status)%Z ->
         exists e, snd (fetch_episode_page w slug src) = Thrown e
                   /\ err_status e = Some status))
  /\ (forall e,
        net_get w (PageFetch 0) target = NetFail e ->
        no_retry_status e = false ->
        exists evs,
          fst (fetch_episode_page w slug src)
          = EvGet target :: EvSleep 1000 :: EvGet target :: evs).
Proof.
  intros target. split.
  - intros status data Hget. unfold fetch_episode_page. fold target.
    rewrite (fetch_response w target status data Hget).
    unfold axios_settle, validateStatus.
    split; [reflexivity|]. split; intros Hs.
    + destruct (Z.ltb_spec status 500); [reflexivity | lia].
    + destruct (Z.ltb_spec status 500); [lia|]. eexists. split; reflexivity.
  - intros e Hget Hretry. exact (fetch_no_response w target e Hget Hretry).
Qed.

Lemma fetch_episode_page_retries_only_without_response_witness :
  fst (fetch_episode_page unavailable_world (js "one-piece-episode-1")
         (js "https://otakudesu.cloud"))
  = [EvGet (js "https://otakudesu.cloud/episode/one-piece-episode-1")].
Proof.
  apply (proj1 (fetch_episode_page_retries_only_without_response
                  unavailable_world (js "one-piece-episode-1")
                  (js "https://otakudesu.cloud"))
           503%Z (JStr (js "Service Unavailable"))).
  reflexivity.
Defined.

Section Routes.

Context (w : world) (cfg : config) (cache : gmap jsstring api_body).

Lemma isValidSlug_accepts slug :
  truthy (isValidSlug slug) = true ->
  exists s, slug = Some (JStr s) /\ slug_pattern s = true.
Proof using Type.
  unfold isValidSlug. destruct (truthy slug) eqn:Hs; cbn [negb]; [|congruence].
  destruct slug as [[| b | m e | s | items | members]|]; try discriminate.
  intros H. exists s. split; [reflexivity | exact H].
Qed.

Lemma isValidSlug_slug s :
  slug_pattern s = true -> truthy (isValidSlug (Some (JStr s))) = true.
Proof using Type.
  intros H. unfold isValidSlug.
  destruct s as [|c s]; [discriminate|]. cbn. exact H.
Qed.

Lemma route_episode_valid s :
  slug_pattern s = true ->
  route_episode w cfg cache (Some (JStr s))
  = withCache w cache (generateCacheKey (js "episode") [Some s]) (ttl_episode cfg)
      (streaming <- getEpisodeStreaming w s (sourceUrl cfg) ;;
       ret (DataBody true s (EpisodeData streaming) (now_iso w))).
Proof using Type.
  intros H. unfold route_episode. now rewrite isValidSlug_slug.
Qed.

Lemma route_anime_valid s :
  slug_pattern s = true ->
  route_anime w cfg cache (Some (JStr s))
  = withCache w cache (generateCacheKey (js "anime") [Some s]) (ttl_anime cfg)
      (details <- getAnimeDetails w s (sourceUrl cfg) (app_baseUrl cfg) ;;
       ret (DataBody true s (AnimeData details) (now_iso w))).
Proof using Type.
  intros H. unfold route_anime. now rewrite isValidSlug_slug.
Qed.

(** When the page fetch fails, [getEpisodeStreaming] fails with the same
    error and starts nothing else. *)
Lemma getEpisodeStreaming_fetch_failed slug src evs e :
  fetch_episode_page w slug src = (evs, Thrown e) ->
  getEpisodeStreaming w slug src = (evs, Thrown e).
Proof using Type.
  intros Hfetch. unfold getEpisodeStreaming. rewrite Hfetch. async_unfold.
  now rewrite app_nil_r.
Qed.

End Routes.

(** X7. When the upstream answers the request for the episode page with
    a status of 500 or more, the route answers with that same status and
    the message that names it, after a single GET, and writes nothing to
    the cache. *)
Theorem route_episode_upstream_5xx (w : world) (cfg : config)
    (cache : gmap jsstring api_body) (slug : jsstring) (status : Z)
    (data : json) :
  slug_pattern slug = true ->
  cache !! generateCacheKey (js "episode") [Some slug] = None ->
  net_get w (PageFetch 0) (buildUrl (sourceUrl cfg) (js "/episode/" ++ slug))
  = NetResponse status data ->
  (500 <= status)%Z ->
  route_episode w cfg cache (Some (JStr slug))
  = {| answer :=
         {| res_status := status;
            res_body :=
              ErrorBody (js "The target server responded with status "
                         ++ digits_Z status ++ js ".")
                false (Some (now_iso w)) |};
       cache_after := cache;
       effects :=
         [EvCacheGet (generateCacheKey (js "episode") [Some slug]);
          EvGet (buildUrl (sourceUrl cfg) (js "/episode/" ++ slug))] |}.
Proof.
  intros Hslug Hmiss Hget Hstatus.
  rewrite route_episode_valid by assumption.
  unfold withCache. rewrite Hmiss.
  rewrite (getEpisodeStreaming_fetch_failed w slug (sourceUrl cfg)
             [EvGet (buildUrl (sourceUrl cfg) (js "/episode/" ++ slug))]
             {| err_message :=
                  js "Request failed with status code " ++ digits_Z status;
                err_code := Some (js "ERR_BAD_RESPONSE");
                err_status := Some status |}).
  2:{ unfold fetch_episode_page. rewrite (fetch_response w _ status data Hget).
      unfold axios_settle, validateStatus.
      destruct (Z.ltb_spec status 500); [lia | reflexivity]. }
  unfold bind. unfold handleError. cbn [err_code err_message err_status].
  rewrite status_message_no_timeout.
  rewrite bool_decide_eq_false_2 by discriminate. cbn [orb].
  destruct (Z.eqb_spec status 404); [lia|].
  destruct (Z.leb_spec 400 status); [|lia]. reflexivity.
Qed.

Lemma route_episode_upstream_5xx_witness :
  res_status
    (answer (route_episode unavailable_world default_config ∅
               (Some (JStr (js "one-piece-episode-1")))))
  = 503%Z.
Proof.
  rewrite (route_episode_upstream_5xx unavailable_world default_config ∅
             (js "one-piece-episode-1") 503 (JStr (js "Service Unavailable")));
    [reflexivity | reflexivity | reflexivity | reflexivity | lia].
Defined.

Section Caching.

Context (w w' : world) (cache : gmap jsstring api_body) (key : jsstring)
        (ttl ttl' : Z) (f g : M api_body).

(** [withCache] keeps the discipline of the cache. *)
Lemma withCache_discipline :
  cache_discipline cache key (withCache w cache key ttl f).
Proof using Type.
  assert (H : let h := withCache w cache key ttl f in
              (forall k, k <> key -> cache_after h !! k = cache !! k)
              /\ (forall b, cache_after h !! key = Some b ->
                    cache !! key = Some b
                    \/ (body_success b = true /\ answer h = res_json b))
              /\ (res_status (answer h) <> 200%Z -> cache_after h = cache)).
  { unfold withCache. destruct (cache !! key) as [cached|] eqn:Hkey; cbn.
    - split; [reflexivity|]. split; [|reflexivity]. intros b Hb. left. congruence.
    - destruct f as [evs [result|error]]; cbn.
      + destruct (body_success result) eqn:Hs; cbn.
        * split; [intros k Hk; now rewrite lookup_insert_ne|].
          split; [|congruence].
          intros b Hb. rewrite lookup_insert_eq in Hb. injection Hb as <-. auto.
        * split; [reflexivity|]. split; [|reflexivity]. intros b Hb. congruence.
      + split; [reflexivity|]. split; [|reflexivity]. intros b Hb. congruence. }
  destruct H as (Hframe & Hkey & Herr).
  split; [exact Hframe|]. split; [exact Hkey|]. split; [exact Herr|].
  intros Hall k b Hb.
  destruct (decide (k = key)) as [->|Hk].
  - destruct (Hkey b Hb) as [Hold|[Hs _]]; [exact (Hall _ _ Hold) | exact Hs].
  - rewrite Hframe in Hb by assumption. exact (Hall _ _ Hb).
Qed.

(** So does a handler that answers without touching the cache. *)
Lemma rejected_discipline a evs :
  cache_discipline cache key
    {| answer := a; cache_after := cache; effects := evs |}.
Proof using Type.
  unfold cache_discipline. cbn. auto.
Qed.

(** Once [withCache] has answered with status 200 for a function that
    only returns successful bodies, the same key is answered from the
    cache. *)
Lemma withCache_replay :
  (forall evs b, f = (evs, Returned b) -> body_success b = true) ->
  res_status (answer (withCache w cache key ttl f)) = 200%Z ->
  withCache w' (cache_after (withCache w cache key ttl f)) key ttl' g
  = {| answer := answer (withCache w cache key ttl f);
       cache_after := cache_after (withCache w cache key ttl f);
       effects := [EvCacheGet key] |}.
Proof using Type.
  intros Hf. remember (withCache w cache key ttl f) as h eqn:Hh.
  unfold withCache in Hh.
  destruct (cache !! key) as [cached|] eqn:Hkey.
  - subst h. cbn. intros _. unfold withCache. now rewrite Hkey.
  - destruct f as [evs [result|error]].
    + rewrite (Hf evs result eq_refl) in Hh. subst h. cbn. intros _.
      unfold withCache. now rewrite lookup_insert_eq.
    + subst h. cbn. intros H. pose proof (handleError_status_error error). lia.
Qed.

End Caching.

Section RouteBodies.

Context (w : world).

Lemma episode_body_success s src :
  forall evs b,
    (streaming <- getEpisodeStreaming w s src ;;
     ret (DataBody true s (EpisodeData streaming) (now_iso w))) = (evs, Returned b) ->
    body_success b = true.
Proof using Type.
  intros evs b. unfold bind, ret.
  destruct (getEpisodeStreaming w s src) as [evs0 [st|e]]; [|discriminate].
  intros H. injection H as _ <-. reflexivity.
Qed.

Lemma anime_body_success s src api :
  forall evs b,
    (details <- getAnimeDetails w s src api ;;
     ret (DataBody true s (AnimeData details) (now_iso w))) = (evs, Returned b) ->
    body_success b = true.
Proof using Type.
  intros evs b. unfold bind, ret.
  destruct (getAnimeDetails w s src api) as [evs0 [st|e]]; [|discriminate].
  intros H. injection H as _ <-. reflexivity.
Qed.

End RouteBodies.

(** X8. Once a slug route has answered with status 200, the same request
    on the cache it left is answered from the cache, whatever the
    upstream does by then: the body is the same, nothing is fetched and
    the cache stays as it is. *)
Theorem routes_replay_from_cache (w w' : world) (cfg : config)
    (cache : gmap jsstring api_body) (slug : jsval) :
  (res_status (answer (route_episode w cfg cache slug)) = 200%Z ->
   route_episode w' cfg (cache_after (route_episode w cfg cache slug)) slug
   = {| answer := answer (route_episode w cfg cache slug);
        cache_after := cache_after (route_episode w cfg cache slug);
        effects := [EvCacheGet (generateCacheKey (js "episode")
                                  [Some (slug_text slug)])] |})
  /\ (res_status (answer (route_anime w cfg cache slug)) = 200%Z ->
      route_anime w' cfg (cache_after (route_anime w cfg cache slug)) slug
      = {| answer := answer (route_anime w cfg cache slug);
           cache_after := cache_after (route_anime w cfg cache slug);
           effects := [EvCacheGet (generateCacheKey (js "anime")
                                     [Some (slug_text slug)])] |}).
Proof.
  split.
  - unfold route_episode.
    destruct (truthy (isValidSlug slug)); cbn [negb]; [|discriminate].
    apply withCache_replay, episode_body_success.
  - unfold route_anime.
    destruct (truthy (isValidSlug slug)); cbn [negb]; [|discriminate].
    apply withCache_replay, anime_body_success.
Qed.

Lemma routes_replay_from_cache_witness :
  let first := route_episode (serving episode_page resolving_world)
                 default_config ∅ (Some (JStr (js "one-piece-episode-1"))) in
  res_status (answer first) = 200%Z
  /\ route_episode offline_world default_config (cache_after first)
       (Some (JStr (js "one-piece-episode-1")))
     = {| answer := answer first;
          cache_after := cache_after first;
          effects := [EvCacheGet (js "episode:one-piece-episode-1")] |}.
Proof.
  assert (H : res_status
                (answer (route_episode (serving episode_page resolving_world)
                           default_config ∅
                           (Some (JStr (js "one-piece-episode-1"))))) = 200%Z)
    by (vm_compute; reflexivity).
  split; [exact H|].
  exact (proj1 (routes_replay_from_cache (serving episode_page resolving_world)
                  offline_world default_config ∅
                  (Some (JStr (js "one-piece-episode-1")))) H).
Defined.

(** X9. A slug route changes the cache at no key but the key of the
    request, stores there only the successful body it answers with, and
    stores nothing when it answers with another status than 200; so a
    cache that holds only successful bodies keeps doing so. *)
Theorem routes_cache_discipline (w : world) (cfg : config)
    (cache : gmap jsstring api_body) (slug : jsval) :
  cache_discipline cache
    (generateCacheKey (js "episode") [Some (slug_text slug)])
    (route_episode w cfg cache slug)
  /\ cache_discipline cache
       (generateCacheKey (js "anime") [Some (slug_text slug)])
       (route_anime w cfg cache slug).
Proof.
  split.
  - unfold route_episode.
    destruct (truthy (isValidSlug slug)); cbn [negb];
      [apply withCache_discipline | apply rejected_discipline].
  - unfold route_anime.
    destruct (truthy (isValidSlug slug)); cbn [negb];
      [apply withCache_discipline | apply rejected_discipline].
Qed.

(* ===================================================================== *)
(** * Further properties of scraper.js                                    *)
(* ===================================================================== *)

Section Monad.

Lemma bind_ext {A B} (m : M A) (k k' : A -> M B) :
  (forall a, k a = k' a) -> bind m k = bind m k'.
Proof using Type.
  intros H. destruct m as [evs [a|e]]; cbn; [now rewrite H | reflexivity].
Qed.

Lemma fst_bind {A B} (m : M A) (k : A -> M B) :
  fst (bind m k)
  = fst m ++ match snd m with
             | Returned a => fst (k a)
             | Thrown _ => []
             end.
Proof using Type.
  destruct m as [evs [a|e]]; cbn; [|now rewrite app_nil_r].
  now destruct (k a).
Qed.

Lemma snd_bind {A B} (m : M A) (k : A -> M B) :
  snd (bind m k)
  = match snd m with
    | Returned a => snd (k a)
    | Thrown e => Thrown e
    end.
Proof using Type.
  destruct m as [evs [a|e]]; cbn; [|reflexivity]. now destruct (k a).
Qed.

Context {A B : Type}.

Lemma all_from_ext (f g : nat -> A -> M B) l : forall i,
  (forall i x, f i x = g i x) -> all_from f i l = all_from g i l.
Proof using Type.
  induction l as [|x l IH]; intros i H; [reflexivity|]. cbn [all_from].
  rewrite H. apply bind_ext. intros y. now rewrite (IH (S i) H).
Qed.

(** The effects of [all_from] are those of its elements. *)
Lemma all_from_events (P : event -> Prop) (cost : A -> nat)
    (f : nat -> A -> M B) l : forall i,
  (forall i x, Forall P (fst (f i x)) /\ (length (fst (f i x)) <= cost x)%nat) ->
  Forall P (fst (all_from f i l))
  /\ (length (fst (all_from f i l)) <= list_sum (List.map cost l))%nat.
Proof using Type.
  induction l as [|x l IH]; intros i H; cbn [all_from List.map].
  - split; [constructor | cbn; lia].
  - change (list_sum (cost x :: List.map cost l))
      with (cost x + list_sum (List.map cost l))%nat.
    rewrite fst_bind. destruct (H i x) as [HP Hlen].
    destruct (snd (f i x)) as [y|e].
    + rewrite fst_bind. destruct (IH (S i) H) as [HP' Hlen'].
      destruct (snd (all_from f (S i) l)); cbn [ret fst];
        rewrite ?app_nil_r, ?length_app;
        (split; [apply Forall_app; auto | lia]).
    + rewrite app_nil_r. split; [assumption | lia].
Qed.

(** An element whose promise rejects at every position makes
    [Promise.all] reject. *)
Lemma all_from_thrown (f : nat -> A -> M B) x l : forall i,
  (forall i, exists e, snd (f i x) = Thrown e) -> In x l ->
  exists e, snd (all_from f i l) = Thrown e.
Proof using Type.
  induction l as [|y l IH]; intros i Hx Hin; [destruct Hin|].
  cbn [all_from]. rewrite snd_bind.
  destruct (snd (f i y)) as [b|e] eqn:Hy; [|eauto].
  destruct Hin as [->|Hin].
  - destruct (Hx i) as [e He]. congruence.
  - rewrite snd_bind. destruct (IH (S i) Hx Hin) as [e ->]. eauto.
Qed.

End Monad.

Section ResolverRequests.

Context (w : world) (site : call_site) (nonce : json) (src slug : jsstring).

(** The request of [fetchIframeUrl], when it sends one. *)
Lemma fetchIframeUrl_run content :
  exists evs result,
    fetchIframeUrl w site content nonce src slug = (evs, Returned result)
    /\ (evs = []
        \/ exists body, evs = [EvPost (ajax_url src) body (resolve_headers src slug)])
    /\ forall u, result = Some u -> u <> [] /\ ~ In 34 u /\ evs <> [].
Proof using Type.
  unfold fetchIframeUrl. async_unfold.
  destruct (Buffer_from_base64 w content) as [bytes|e];
    [|eexists _, _; split; [reflexivity|]; split; [now left | discriminate]].
  destruct (JSON_parse (utf8_decode bytes)) as [payload|];
    [|eexists _, _; split; [reflexivity|]; split; [now left | discriminate]].
  destruct (form_urlencoded w _) as [body|e];
    [|eexists _, _; split; [reflexivity|]; split; [now left | discriminate]].
  destruct (axios_settle _) as [r|e];
    [|eexists _, _; split; [reflexivity|]; split; [right; eauto | discriminate]].
  destruct (get_data (resp_data r)) as [d|];
    [|eexists _, _; split; [reflexivity|]; split; [right; eauto | discriminate]].
  destruct (truthy d); cbn [negb];
    [|eexists _, _; split; [reflexivity|]; split; [right; eauto | discriminate]].
  destruct (Buffer_from_base64 w d) as [bytes'|e];
    [|eexists _, _; split; [reflexivity|]; split; [right; eauto | discriminate]].
  eexists _, _. split; [reflexivity|]. split; [right; eauto|].
  intros u Hu. apply match_src_sound in Hu.
  destruct Hu as (before & after & _ & Hne & Hq).
  split; [assumption|]. split; [assumption | discriminate].
Qed.

End ResolverRequests.

(** X10. The resolve request always carries the nonce of the caller and
    the resolve action: a payload cannot replace either, and every other
    field of the payload is sent as it is. *)
Theorem resolve_params_fixed_fields (payload nonce : json) :
  obj_get (js "action") (resolve_params payload nonce) = Some (JStr RESOLVE_ACTION)
  /\ obj_get (js "nonce") (resolve_params payload nonce) = Some nonce
  /\ forall k, k <> js "action" -> k <> js "nonce" ->
       obj_get k (resolve_params payload nonce) = obj_get k (spread payload).
Proof.
  unfold resolve_params. rewrite !obj_get_define.
  split; [reflexivity|]. split; [reflexivity|].
  intros k Ha Hn. rewrite !obj_get_define. unfold jsstring_eqb.
  now rewrite !bool_decide_eq_false_2 by congruence.
Qed.

(** X11. [fetchIframeUrl] sends at most one request, a POST to the ajax
    endpoint with the resolve headers, and never throws; a URL it returns
    is not empty, holds no double quote, and came out of a request that
    was sent. *)
Theorem fetchIframeUrl_one_request (w : world) (site : call_site)
    (content nonce : json) (src slug : jsstring) :
  exists evs result,
    fetchIframeUrl w site content nonce src slug = (evs, Returned result)
    /\ (evs = []
        \/ exists body, evs = [EvPost (ajax_url src) body (resolve_headers src slug)])
    /\ forall u, result = Some u -> u <> [] /\ ~ In 34 u /\ evs <> [].
Proof. apply fetchIframeUrl_run. Qed.

Section AggregatorRequests.

Context (w : world) (doc : document) (src slug : jsstring).

Lemma resolve_link_events nonce ti li el :
  Forall (ajax_post src) (fst (resolve_link w nonce src slug ti li el))
  /\ (length (fst (resolve_link w nonce src slug ti li el))
      <= if truthy (a_data_content el) then 1 else 0)%nat.
Proof using Type.
  unfold resolve_link. destruct (a_data_content el) as [c|];
    [|split; [constructor | cbn; lia]].
  change (truthy (Some c)) with (truthy c).
  destruct (truthy c); cbn [negb]; [|split; [constructor | cbn; lia]].
  destruct (fetchIframeUrl_run w (Resolve ti li) nonce src slug c)
    as (evs & result & -> & Hevs & _).
  cbn. rewrite app_nil_r.
  destruct Hevs as [->|[body ->]]; split; cbn; try lia; repeat constructor.
  eexists _, _. reflexivity.
Qed.

Lemma list_sum_filter {A} (p : A -> bool) l :
  list_sum (List.map (fun x => if p x then 1 else 0)%nat l)
  = length (List.filter p l).
Proof using Type.
  induction l as [|x l IH]; [reflexivity|]. cbn [List.map List.filter].
  change (list_sum (?a :: ?r)) with (a + list_sum r)%nat.
  rewrite IH. now destruct (p x).
Qed.

Lemma resolve_tab_events nonce ti t :
  Forall (ajax_post src) (fst (resolve_tab w doc nonce src slug ti t))
  /\ (length (fst (resolve_tab w doc nonce src slug ti t))
      <= content_links doc t)%nat.
Proof using Type.
  unfold resolve_tab, content_links. fold (links_selector t).
  destruct (select_anchors doc (links_selector t)) as [els|e];
    [|split; [constructor | cbn; lia]].
  unfold lift. rewrite fst_bind. cbn [fst snd app]. rewrite fst_bind.
  destruct (all_from_events (ajax_post src)
              (fun el => if truthy (a_data_content el) then 1 else 0)%nat
              (resolve_link w nonce src slug ti) els 0%nat
              (resolve_link_events nonce ti)) as [HP Hlen].
  rewrite list_sum_filter in Hlen.
  destruct (snd (all_from _ _ _)); cbn [ret fst]; rewrite app_nil_r; auto.
Qed.

Lemma resolve_tab_unparsable nonce t e ti :
  select_anchors doc (links_selector t) = Thrown e ->
  resolve_tab w doc nonce src slug ti t = ([], Thrown e).
Proof using Type.
  intros H. unfold resolve_tab. fold (links_selector t). now rewrite H.
Qed.

End AggregatorRequests.

(** X12. All that [extractMirrorLinks] sends are POST requests to the
    ajax endpoint: one for the nonce and at most one for each link of
    the page that carries a content. *)
Theorem extractMirrorLinks_requests_bounded (w : world) (doc : document)
    (src slug : jsstring) :
  Forall (fun ev => exists body headers, ev = EvPost (ajax_url src) body headers)
    (fst (extractMirrorLinks w doc src slug))
  /\ (length (fst (extractMirrorLinks w doc src slug))
      <= 1 + list_sum (List.map (content_links doc) (mirror_tabs doc)))%nat.
Proof.
  unfold extractMirrorLinks. rewrite fst_bind, getNonce_run. cbn [fst snd].
  assert (Hnonce : ajax_post src
                     (EvPost (ajax_url src) nonce_body (nonce_headers src)))
    by (eexists _, _; reflexivity).
  fold (ajax_post src).
  destruct (match axios_settle _ with Returned _ => _ | Thrown _ => _ end)
    as [n|]; [|split; [repeat constructor; assumption | cbn; lia]].
  destruct (truthy n); cbn [negb];
    [|split; [repeat constructor; assumption | cbn; lia]].
  rewrite fst_bind.
  destruct (all_from_events (ajax_post src) (content_links doc)
              (resolve_tab w doc n src slug) (mirror_tabs doc) 0%nat
              (resolve_tab_events w doc src slug n)) as [HP Hlen].
  destruct (snd (all_from _ _ _)); cbn [ret fst app]; rewrite app_nil_r;
    (split; [constructor; assumption | cbn [length]; lia]).
Qed.

Section Downloads.

Lemma extractDownloadLinks_fold doc :
  extractDownloadLinks doc
  = ([], Returned (fold_left download_step (download_items doc) [])).
Proof. reflexivity. Qed.

Lemma obj_get_assign_cases {V} k (v : V) q o x :
  obj_get q (obj_assign k v o) = Some x ->
  (k = q /\ x = v /\ q <> js "__proto__") \/ obj_get q o = Some x.
Proof.
  unfold obj_assign. destruct (jsstring_eqb k (js "__proto__")) eqn:Hk; [auto|].
  rewrite obj_get_define. unfold jsstring_eqb in *.
  destruct (bool_decide_reflect (k = q)) as [->|]; [|auto].
  intros H. injection H as <-. left. split; [reflexivity|]. split; [reflexivity|].
  now apply bool_decide_eq_false in Hk.
Qed.

Lemma obj_get_assign_other {V} k (v : V) q o :
  k <> q -> obj_get q (obj_assign k v o) = obj_get q o.
Proof.
  intros Hk. unfold obj_assign. destruct (jsstring_eqb k (js "__proto__")); [reflexivity|].
  rewrite obj_get_define. unfold jsstring_eqb.
  now rewrite bool_decide_eq_false_2.
Qed.

Lemma download_fold_keys items : forall o q links,
  obj_get q (fold_left download_step items o) = Some links ->
  obj_get q o = Some links
  \/ (q <> [] /\ q <> js "__proto__"
      /\ exists li, In li items /\ trim (li_strong_text li) = q
                    /\ links = List.map (fun a => {| provider := trim (da_text a); dl_url := da_href a |}) (li_anchors li)).
Proof.
  induction items as [|li items IH]; intros o q links H; [now left|].
  cbn [fold_left] in H. apply IH in H as [H|(Hq & Hp & li' & Hin & Hli)].
  - unfold download_step in H.
    destruct (trim (li_strong_text li)) as [|c t] eqn:Ht; cbn in H; [now left|].
    apply obj_get_assign_cases in H as [(Hk & Hx & Hp)|H]; [|now left].
    right. subst q. split; [discriminate|]. split; [assumption|].
    exists li. split; [now left|]. auto.
  - right. split; [assumption|]. split; [assumption|].
    exists li'. split; [now right | assumption].
Qed.

Lemma download_fold_other items : forall o q,
  Forall (fun li => trim (li_strong_text li) <> q) items ->
  obj_get q (fold_left download_step items o) = obj_get q o.
Proof.
  induction items as [|li items IH]; intros o q Hall; [reflexivity|].
  inversion Hall as [|? ? Hli Hrest]; subst. cbn [fold_left].
  rewrite IH by assumption. unfold download_step.
  destruct (negb _); [reflexivity|]. now apply obj_get_assign_other.
Qed.

End Downloads.

(** X13. [extractDownloadLinks] starts nothing and never throws, and
    every key of its result is the trimmed, non-empty text of the
    [strong] of some [li] of the download section, with the links of
    that [li] as its value. *)
Theorem extractDownloadLinks_keys (doc : document) :
  exists downloads,
    extractDownloadLinks doc = ([], Returned downloads)
    /\ forall q links,
         obj_get q downloads = Some links ->
         q <> [] /\ q <> js "__proto__"
         /\ exists li, In li (download_items doc)
                       /\ trim (li_strong_text li) = q
                       /\ links = List.map
                                    (fun a => {| provider := trim (da_text a);
                                                 dl_url := da_href a |})
                                    (li_anchors li).
Proof.
  eexists. split; [apply extractDownloadLinks_fold|].
  intros q links H. apply download_fold_keys in H as [H|H]; [discriminate|].
  exact H.
Qed.

(** X14. When several [li] of the download section have the same
    quality, the links of the last one are the ones kept. *)
Theorem extractDownloadLinks_last_wins (doc : document)
    (before after : list download_item) (li : download_item) :
  download_items doc = before ++ li :: after ->
  trim (li_strong_text li) <> [] ->
  trim (li_strong_text li) <> js "__proto__" ->
  Forall (fun li' => trim (li_strong_text li') <> trim (li_strong_text li)) after ->
  exists downloads,
    snd (extractDownloadLinks doc) = Returned downloads
    /\ obj_get (trim (li_strong_text li)) downloads
       = Some (List.map (fun a => {| provider := trim (da_text a);
                                     dl_url := da_href a |})
                 (li_anchors li)).
Proof.
  intros Hitems Hne Hproto Hafter. eexists.
  rewrite extractDownloadLinks_fold. split; [reflexivity|].
  rewrite Hitems, fold_left_app. cbn [fold_left].
  rewrite download_fold_other by assumption.
  unfold download_step at 1.
  destruct (trim (li_strong_text li)) as [|c t] eqn:Ht; [congruence|].
  cbn [truthy jsstring_Truthy negb].
  rewrite obj_get_assign by assumption.
  unfold jsstring_eqb. now rewrite bool_decide_eq_true_2.
Qed.

Lemma extractDownloadLinks_last_wins_witness :
  exists downloads,
    snd (extractDownloadLinks broken_page) = Returned downloads
    /\ obj_get (js "Mp4 360p") downloads
       = Some [ {| provider := js "Mega"; dl_url := None |} ].
Proof.
  apply (extractDownloadLinks_last_wins broken_page
           [ {| li_strong_text := js "Mp4 360p";
                li_anchors := [ {| da_text := js "ZippyShare";
                                   da_href := Some (js "https://zippy.example/1") |} ] |};
             {| li_strong_text := js " "; li_anchors := [] |} ]
           []
           {| li_strong_text := js " Mp4 360p ";
              li_anchors := [ {| da_text := js " Mega "; da_href := None |} ] |}).
  - reflexivity.
  - vm_compute. discriminate.
  - vm_compute. discriminate.
  - constructor.
Defined.

Section Trimming.

Lemma drop_spaces_fixed s c :
  drop_spaces (c :: s) = c :: s -> is_js_space c = false.
Proof.
  cbn [drop_spaces]. destruct (is_js_space c); [|reflexivity].
  intros H. exfalso.
  assert (Hlen : forall t, (length (drop_spaces t) <= length t)%nat).
  { induction t as [|d t IH]; cbn [drop_spaces length]; [lia|].
    destruct (is_js_space d); cbn [length]; lia. }
  specialize (Hlen s). rewrite H in Hlen. cbn [length] in Hlen. lia.
Qed.

Lemma drop_spaces_head s :
  match drop_spaces s with
  | [] => True
  | c :: _ => is_js_space c = false
  end.
Proof.
  induction s as [|c s IH]; cbn [drop_spaces]; [exact I|].
  destruct (is_js_space c) eqn:Hc; [exact IH | exact Hc].
Qed.

Lemma drop_spaces_suffix s : exists sp, s = sp ++ drop_spaces s.
Proof.
  induction s as [|c s [sp IH]]; [now exists []|]. cbn [drop_spaces].
  destruct (is_js_space c); [|now exists []].
  exists (c :: sp). cbn [app]. now f_equal.
Qed.

Lemma drop_spaces_noop s :
  match s with [] => True | c :: _ => is_js_space c = false end ->
  drop_spaces s = s.
Proof. destruct s as [|c s]; [reflexivity|]. cbn [drop_spaces]. now intros ->. Qed.

(** A trimmed text neither begins nor ends with white space. *)
Lemma trim_ends s :
  match trim s with [] => True | c :: _ => is_js_space c = false end
  /\ match rev (trim s) with [] => True | c :: _ => is_js_space c = false end.
Proof.
  unfold trim. rewrite rev_involutive. split; [|apply drop_spaces_head].
  pose proof (drop_spaces_head s) as Hhead.
  destruct (drop_spaces_suffix (rev (drop_spaces s))) as [sp Hsp].
  set (t := drop_spaces (rev (drop_spaces s))) in *.
  assert (Heq : drop_spaces s = rev t ++ rev sp).
  { rewrite <- (rev_involutive (drop_spaces s)), Hsp. apply rev_app_distr. }
  destruct (rev t) as [|c rest]; [exact I|].
  rewrite Heq in Hhead. exact Hhead.
Qed.

Lemma trim_idempotent s : trim (trim s) = trim s.
Proof.
  destruct (trim_ends s) as [Hhead Hlast].
  unfold trim at 1. rewrite (drop_spaces_noop (trim s)) by assumption.
  rewrite (drop_spaces_noop (rev (trim s))) by assumption.
  apply rev_involutive.
Qed.

End Trimming.

Section AssemblyResult.

Context (w : world) (slug src : jsstring).

(** The result of [getEpisodeStreaming] once the page is there and has a
    title. *)
Lemma getEpisodeStreaming_assembled evs r doc :
  fetch_episode_page w slug src = (evs, Returned (Some r)) ->
  cheerio_load w (resp_data r) = Returned doc ->
  trim (venutama_h1_text doc) <> [] ->
  snd (getEpisodeStreaming w slug src)
  = Returned
      {| title := trim (venutama_h1_text doc);
         iframe := match first_iframe_src doc with
                   | Some s => if truthy s then Some s else None
                   | None => None
                   end;
         mirrors := match snd (extractMirrorLinks w doc src slug) with
                    | Returned m => m
                    | Thrown _ => EmptyArray
                    end;
         downloads := fold_left download_step (download_items doc) [] |}.
Proof using Type.
  intros Hfetch Hload Htitle.
  unfold getEpisodeStreaming. rewrite Hfetch. async_unfold. rewrite Hload.
  destruct (trim (venutama_h1_text doc)) as [|c t] eqn:Ht; [congruence|].
  cbn [truthy jsstring_Truthy negb app].
  rewrite getNonce_run. rewrite extractDownloadLinks_fold.
  destruct (extractMirrorLinks w doc src slug) as [evs1 [m|e]]; reflexivity.
Qed.

(** A result of [getEpisodeStreaming] comes from a fetched page with a
    title. *)
Lemma getEpisodeStreaming_returned s :
  snd (getEpisodeStreaming w slug src) = Returned s ->
  exists evs r doc,
    fetch_episode_page w slug src = (evs, Returned (Some r))
    /\ cheerio_load w (resp_data r) = Returned doc
    /\ trim (venutama_h1_text doc) <> [].
Proof using Type.
  unfold getEpisodeStreaming.
  destruct (fetch_episode_page w slug src) as [evs [[r|]|e]] eqn:Hfetch;
    async_unfold; try discriminate.
  destruct (cheerio_load w (resp_data r)) as [doc|e] eqn:Hload;
    try discriminate.
  destruct (trim (venutama_h1_text doc)) as [|c t] eqn:Ht;
    cbn [truthy jsstring_Truthy negb]; [discriminate|].
  intros _. exists evs, r, doc. rewrite Ht. repeat split; congruence.
Qed.

End AssemblyResult.

(** X15. In every result of [getEpisodeStreaming] the title is not empty
    and neither begins nor ends with white space, and the iframe is null
    or a non-empty text. *)
Theorem getEpisodeStreaming_result_shape (w : world) (slug src : jsstring)
    (s : streaming) :
  snd (getEpisodeStreaming w slug src) = Returned s ->
  title s <> [] /\ trim (title s) = title s /\ iframe s <> Some [].
Proof.
  intros H.
  destruct (getEpisodeStreaming_returned w slug src s H)
    as (evs & r & doc & Hfetch & Hload & Htitle).
  rewrite (getEpisodeStreaming_assembled w slug src evs r doc Hfetch Hload Htitle)
    in H.
  injection H as <-. cbn [title iframe].
  split; [assumption|]. split; [apply trim_idempotent|].
  destruct (first_iframe_src doc) as [[|c u]|]; cbn; discriminate.
Qed.

Lemma getEpisodeStreaming_result_shape_witness :
  exists s,
    snd (getEpisodeStreaming (serving broken_page resolving_world)
           (js "one-piece-episode-2") (js "https://otakudesu.cloud"))
    = Returned s
    /\ title s <> [] /\ trim (title s) = title s /\ iframe s <> Some [].
Proof.
  eexists. split; [vm_compute; reflexivity|].
  apply (getEpisodeStreaming_result_shape (serving broken_page resolving_world)
           (js "one-piece-episode-2") (js "https://otakudesu.cloud")).
  vm_compute. reflexivity.
Defined.

(** X16. A tab of the page whose link selector cannot be parsed makes
    [extractMirrorLinks] fail as a whole, and [getEpisodeStreaming] then
    answers with the empty array for the mirrors, the tiers that did
    resolve included, next to the title and the downloads of the page. *)
Theorem getEpisodeStreaming_unparsable_tab (w : world) (slug src : jsstring)
    (evs : list event) (r : response) (doc : document) (nonce : json)
    (t : tab) (e : js_error) :
  fetch_episode_page w slug src = (evs, Returned (Some r)) ->
  cheerio_load w (resp_data r) = Returned doc ->
  trim (venutama_h1_text doc) <> [] ->
  snd (getNonce w NonceOfAggregator src) = Returned (Some nonce) ->
  truthy nonce = true ->
  In t (mirror_tabs doc) ->
  select_anchors doc (links_selector t) = Thrown e ->
  (exists e', snd (extractMirrorLinks w doc src slug) = Thrown e')
  /\ exists s,
       snd (getEpisodeStreaming w slug src) = Returned s
       /\ mirrors s = EmptyArray
       /\ title s = trim (venutama_h1_text doc)
       /\ snd (extractDownloadLinks doc) = Returned (downloads s).
Proof.
  intros Hfetch Hload Htitle Hnonce Htruthy Hin Hsel.
  assert (Hthrown : exists e', snd (extractMirrorLinks w doc src slug) = Thrown e').
  { unfold extractMirrorLinks. rewrite snd_bind, Hnonce, Htruthy. cbn [negb].
    rewrite snd_bind.
    destruct (all_from_thrown (resolve_tab w doc nonce src slug) t
                (mirror_tabs doc) 0%nat) as [e' ->]; [|assumption|eauto].
    intros i. exists e. now rewrite (resolve_tab_unparsable w doc src slug nonce t e). }
  split; [exact Hthrown|]. destruct Hthrown as [e' He'].
  eexists. split.
  { apply (getEpisodeStreaming_assembled w slug src evs r doc); assumption. }
  cbn [mirrors title downloads]. rewrite He'.
  split; [reflexivity|]. split; reflexivity.
Qed.

Lemma getEpisodeStreaming_unparsable_tab_witness :
  exists s,
    snd (getEpisodeStreaming (serving broken_page resolving_world)
           (js "one-piece-episode-2") (js "https://otakudesu.cloud"))
    = Returned s
    /\ mirrors s = EmptyArray.
Proof.
  destruct (getEpisodeStreaming_unparsable_tab
              (serving broken_page resolving_world)
              (js "one-piece-episode-2") (js "https://otakudesu.cloud")
              [EvGet (js "https://otakudesu.cloud/episode/one-piece-episode-2")]
              {| resp_status := 200; resp_data := JStr (js "<!DOCTYPE html>") |}
              broken_page (JStr (js "n0nce"))
              {| tab_text := js "480p"; tab_href := Some (js "a[") |}
              (Error (js "Unmatched selector")))
    as (_ & s & Hs & Hm & _).
  - reflexivity.
  - reflexivity.
  - vm_compute. discriminate.
  - reflexivity.
  - reflexivity.
  - right. left. reflexivity.
  - reflexivity.
  - exists s. split; assumption.
Defined.

Section AssemblyNonce.

Context (w : world)
        (post : call_site -> jsstring -> jsstring -> list (jsstring * jsstring)
                -> net_result).

Hypothesis Hagree : forall site target body headers,
  site <> NonceOfAssembly ->
  post site target body headers = net_post w site target body headers.

Lemma getNonce_with_post site src :
  site <> NonceOfAssembly ->
  getNonce (with_post w post) site src = getNonce w site src.
Proof using Hagree.
  intros Hsite. rewrite !getNonce_run. cbn [with_post net_post].
  now rewrite Hagree.
Qed.

Lemma fetchIframeUrl_with_post site content nonce src slug :
  site <> NonceOfAssembly ->
  fetchIframeUrl (with_post w post) site content nonce src slug
  = fetchIframeUrl w site content nonce src slug.
Proof using Hagree.
  intros Hsite. unfold fetchIframeUrl. f_equal.
  change (Buffer_from_base64 (with_post w post)) with (Buffer_from_base64 w).
  apply bind_ext. intros bytes. apply bind_ext. intros payload.
  change (form_urlencoded (with_post w post)) with (form_urlencoded w).
  apply bind_ext. intros body.
  unfold httpClient_post. cbn [with_post net_post]. now rewrite Hagree.
Qed.

Lemma extractMirrorLinks_with_post doc src slug :
  extractMirrorLinks (with_post w post) doc src slug
  = extractMirrorLinks w doc src slug.
Proof using Hagree.
  unfold extractMirrorLinks. rewrite getNonce_with_post by discriminate.
  apply bind_ext. intros [n|]; [|reflexivity].
  destruct (negb (truthy n)); [reflexivity|].
  change (completion_order (with_post w post)) with (completion_order w).
  f_equal. apply all_from_ext. intros ti t. unfold resolve_tab.
  apply bind_ext. intros els. f_equal. apply all_from_ext. intros li el.
  unfold resolve_link. destruct (a_data_content el) as [c|]; [|reflexivity].
  destruct (negb (truthy c)); [reflexivity|].
  now rewrite fetchIframeUrl_with_post by discriminate.
Qed.

End AssemblyNonce.

(** X17. The nonce that [getEpisodeStreaming] asks for itself is not
    used: whatever the upstream answers to that one request, the effects
    and the result are the same. *)
Theorem getEpisodeStreaming_own_nonce_unused (w : world)
    (post : call_site -> jsstring -> jsstring -> list (jsstring * jsstring)
            -> net_result)
    (slug src : jsstring) :
  (forall site target body headers,
     site <> NonceOfAssembly ->
     post site target body headers = net_post w site target body headers) ->
  getEpisodeStreaming (with_post w post) slug src
  = getEpisodeStreaming w slug src.
Proof.
  intros Hagree. unfold getEpisodeStreaming. f_equal.
  change (fetch_episode_page (with_post w post) slug src)
    with (fetch_episode_page w slug src).
  apply bind_ext. intros [r|]; [|reflexivity].
  change (cheerio_load (with_post w post)) with (cheerio_load w).
  apply bind_ext. intros doc.
  destruct (negb (truthy (trim (venutama_h1_text doc)))); [reflexivity|].
  rewrite !getNonce_run.
  rewrite (extractMirrorLinks_with_post w post Hagree).
  reflexivity.
Qed.

Lemma getEpisodeStreaming_own_nonce_unused_witness :
  getEpisodeStreaming
    (with_post (serving episode_page resolving_world)
       (fun site target body headers =>
          match site with
          | NonceOfAssembly => NetFail (Error (js "socket hang up"))
          | _ => net_post resolving_world site target body headers
          end))
    (js "one-piece-episode-1") (js "https://otakudesu.cloud")
  = getEpisodeStreaming (serving episode_page resolving_world)
      (js "one-piece-episode-1") (js "https://otakudesu.cloud").
Proof.
  apply (getEpisodeStreaming_own_nonce_unused
           (serving episode_page resolving_world)).
  intros site target body headers Hsite.
  destruct site; [reflexivity | contradiction | reflexivity | reflexivity].
Defined.

(* ===================================================================== *)
(** * The catalogue scrapers on sample inputs                             *)
(* ===================================================================== *)

Example parseSlugFromLink_cases :
  parseSlugFromLink (Some (js "https://otakudesu.cloud/anime/one-piece-sub-indo/"))
    AnimeLink = Some (js "one-piece-sub-indo")
  /\ parseSlugFromLink (Some (js "/anime//anime/x_y-1Z.html")) AnimeLink
     = Some (js "x_y-1Z")
  /\ parseSlugFromLink (Some (js "https://otakudesu.cloud/anime/one-piece/"))
       EpisodeLink = None
  /\ parseSlugFromLink (Some (js "https://otakudesu.cloud/episode/")) EpisodeLink
     = None
  /\ parseSlugFromLink (Some []) AnimeLink = None
  /\ parseSlugFromLink None AnimeLink = None.
Proof. repeat split; reflexivity. Qed.

Example encodeURIComponent_demo :
  encodeURIComponent (js "a b/c?d=e&f" ++ [233; 8364; 55357; 56832])
  = Some (js "a%20b%2Fc%3Fd%3De%26f%C3%A9%E2%82%AC%F0%9F%98%80")
  /\ encodeURIComponent [56832; 55357] = None.
Proof. split; reflexivity. Qed.

Example extractBasicInfo_sample :
  snd (scrapers.extractBasicInfo (showing sample_page) sample_main)
  = Returned
      [(js "title", JStr (js "One Piece Subtitle Indonesia"));
       (js "poster", JNull);
       (js "synopsis", JStr (js "No synopsis available."));
       (js "total_episode", JStr (js "Unknown"));
       (js "episodes", JStr (js "many"));
       (js "genres", JArr [JStr (js "Action"); JStr (js "Adventure")])].
Proof. vm_compute. reflexivity. Qed.

Example searchAnime_sample :
  snd (scrapers.searchAnime (serving missing_page offline_world)
         (showing sample_page) (js "one piece") (js "https://otakudesu.cloud")
         (js "http://localhost:3000"))
  = Returned
      [{| found_title := js "One Piece";
          found_slug := js "one-piece-sub-indo";
          found_link := js "http://localhost:3000/anime/one-piece-sub-indo";
          found_image := None;
          found_genres := [js "Action"; js "Adventure"];
          found_status := js "Unknown";
          found_rating := js "8.72" |}].
Proof. vm_compute. reflexivity. Qed.

(* ===================================================================== *)
(** * Further properties: slugs of links                                  *)
(* ===================================================================== *)

Section SlugPattern.

Lemma span_slug_spec s : forall v r,
  span_slug s = (v, r) ->
  s = v ++ r /\ forallb is_slug_unit v = true
  /\ match r with [] => True | c :: _ => is_slug_unit c = false end.
Proof.
  induction s as [|c s IH]; intros v r H; cbn [span_slug] in H.
  - injection H as <- <-. auto.
  - destruct (is_slug_unit c) eqn:Hc.
    + destruct (span_slug s) as [v' r'] eqn:Hs. injection H as <- <-.
      destruct (IH _ _ eq_refl) as (-> & Hv & Hr).
      cbn [forallb app]. rewrite Hc. auto.
    + injection H as <- <-. auto.
Qed.

Lemma span_slug_app v : forall r,
  forallb is_slug_unit v = true ->
  match r with [] => True | c :: _ => is_slug_unit c = false end ->
  span_slug (v ++ r) = (v, r).
Proof.
  induction v as [|c v IH]; intros r Hv Hr; cbn [app].
  - destruct r as [|d r]; [reflexivity|]. cbn [span_slug]. now rewrite Hr.
  - cbn [forallb] in Hv. apply andb_prop in Hv as [Hc Hv].
    cbn [span_slug]. rewrite Hc. now rewrite IH.
Qed.

Lemma match_slug_sound prefix url slug :
  match_slug prefix url = Some slug ->
  exists before after,
    url = before ++ prefix ++ slug ++ after
    /\ slug_pattern slug = true
    /\ match after with [] => True | c :: _ => is_slug_unit c = false end.
Proof.
  induction url as [|c url IH]; [discriminate|].
  intros H. cbn [match_slug] in H.
  assert (Hlater : match_slug prefix url = Some slug ->
                   exists before after,
                     c :: url = before ++ prefix ++ slug ++ after
                     /\ slug_pattern slug = true
                     /\ match after with
                        | [] => True
                        | c :: _ => is_slug_unit c = false
                        end).
  { intros Hm. destruct (IH Hm) as (before & after & -> & Hs & Ha).
    exists (c :: before), after. auto. }
  destruct (expect prefix (c :: url)) as [rest|] eqn:Hexp; [|now apply Hlater].
  destruct (span_slug rest) as [[|d v] r] eqn:Hspan; [now apply Hlater|].
  injection H as <-. apply expect_prefix in Hexp.
  apply span_slug_spec in Hspan as (-> & Hv & Hr).
  exists [], r. split; [exact Hexp|]. split; [exact Hv | exact Hr].
Qed.

(** [expect] looks at no more than the length of the literal. *)
Lemma expect_app_long lit : forall x y,
  (length lit <= length x)%nat ->
  expect lit (x ++ y)
  = match expect lit x with
    | Some r => Some (r ++ y)
    | None => None
    end.
Proof.
  induction lit as [|a lit IH]; intros x y Hlen; [reflexivity|].
  destruct x as [|b x]; [cbn in Hlen; lia|].
  cbn [app expect]. destruct (a =? b); [|reflexivity].
  apply IH. cbn in Hlen. lia.
Qed.

Lemma span_slug_app_none s y :
  s <> [] -> fst (span_slug s) = [] -> fst (span_slug (s ++ y)) = [].
Proof.
  destruct s as [|c s]; [congruence|]. intros _. cbn [span_slug app].
  destruct (is_slug_unit c); [|reflexivity].
  destruct (span_slug s). discriminate.
Qed.

(** A match that begins where the text [prefix ++ slug] begins is found
    when no match begins before it. *)
Lemma match_slug_complete prefix slug rest base :
  prefix <> [] ->
  slug_pattern slug = true ->
  match rest with [] => True | c :: _ => is_slug_unit c = false end ->
  match_slug prefix (base ++ prefix) = None ->
  match_slug prefix (base ++ prefix ++ slug ++ rest) = Some slug.
Proof.
  intros Hprefix Hslug Hrest.
  assert (Hunits : forallb is_slug_unit slug = true)
    by (destruct slug; [discriminate | exact Hslug]).
  induction base as [|b base IH]; intros Hnone.
  - cbn [app]. destruct prefix as [|p prefix]; [congruence|].
    change (match_slug (p :: prefix) ((p :: prefix) ++ slug ++ rest))
      with (match expect (p :: prefix) ((p :: prefix) ++ slug ++ rest) with
            | Some after =>
                match span_slug after with
                | (c :: v, _) => Some (c :: v)
                | ([], _) => match_slug (p :: prefix) (prefix ++ slug ++ rest)
                end
            | None => match_slug (p :: prefix) (prefix ++ slug ++ rest)
            end).
    rewrite expect_app, span_slug_app by assumption.
    destruct slug; [discriminate | reflexivity].
  - cbn [app match_slug] in Hnone |- *.
    assert (Hlen : (length prefix <= length (b :: base ++ prefix))%nat)
      by (cbn [length]; rewrite length_app; lia).
    change (b :: base ++ prefix ++ slug ++ rest)
      with ((b :: base) ++ prefix ++ slug ++ rest).
    rewrite (app_assoc (b :: base) prefix (slug ++ rest)).
    rewrite expect_app_long by exact Hlen.
    change ((b :: base) ++ prefix) with (b :: base ++ prefix).
    destruct (expect prefix (b :: base ++ prefix)) as [after|] eqn:Hexp.
    + destruct (span_slug after) as [[|d v] r] eqn:Hspan; [|discriminate].
      assert (Hafter : after <> []).
      { intros ->. apply expect_prefix in Hexp. rewrite app_nil_r in Hexp.
        apply (f_equal (@length N)) in Hexp. cbn [length] in Hexp.
        rewrite length_app in Hexp. lia. }
      pose proof (span_slug_app_none after (slug ++ rest) Hafter) as Hno.
      rewrite Hspan in Hno. specialize (Hno eq_refl).
      destruct (span_slug (after ++ slug ++ rest)) as [v' r'].
      cbn [fst] in Hno. subst v'. now apply IH.
    + now apply IH.
Qed.

(** An empty link has no match either. *)
Lemma parseSlugFromLink_match u type :
  parseSlugFromLink (Some u) type
  = match_slug (js "/" ++ type_text type ++ js "/") u.
Proof. destruct u; reflexivity. Qed.

End SlugPattern.

(** X18. A slug that [parseSlugFromLink] returns is one that
    [isValidSlug] accepts (so it is never the empty string), and it
    stands in the link right after the text '/anime/' (or '/episode/')
    and ends where the slug characters end. *)
Theorem parseSlugFromLink_sound (url : option jsstring) (type : link_type)
    (slug : jsstring) :
  parseSlugFromLink url type = Some slug ->
  isValidSlug (Some (JStr slug)) = Some (JBool true)
  /\ exists before after,
       url = Some (before ++ js "/" ++ type_text type ++ js "/" ++ slug ++ after)
       /\ match after with [] => True | c :: _ => is_slug_unit c = false end.
Proof.
  destruct url as [u|]; [|discriminate].
  rewrite parseSlugFromLink_match. intros H.
  apply match_slug_sound in H as (before & after & -> & Hslug & Hafter).
  split.
  - unfold isValidSlug. destruct slug as [|c s]; [discriminate|].
    cbn [truthy option_Truthy json_Truthy json_truthy negb]. now rewrite Hslug.
  - exists before, after. split; [|exact Hafter].
    now rewrite <- !app_assoc.
Qed.

Lemma parseSlugFromLink_sound_witness :
  isValidSlug (Some (JStr (js "one-piece-episode-1"))) = Some (JBool true).
Proof.
  apply (parseSlugFromLink_sound
           (Some (js "https://otakudesu.cloud/episode/one-piece-episode-1/"))
           EpisodeLink (js "one-piece-episode-1")).
  reflexivity.
Defined.

(** X19. A link made of a base, the text '/anime/' (or '/episode/'), a
    valid slug and a rest that does not go on with a slug character
    gives back that slug, provided that the base followed by '/anime/'
    has no slug of its own. *)
Theorem parseSlugFromLink_round_trip (base rest slug : jsstring)
    (type : link_type) :
  slug_pattern slug = true ->
  match rest with [] => True | c :: _ => is_slug_unit c = false end ->
  parseSlugFromLink (Some (base ++ js "/" ++ type_text type ++ js "/")) type
  = None ->
  parseSlugFromLink
    (Some (base ++ js "/" ++ type_text type ++ js "/" ++ slug ++ rest)) type
  = Some slug.
Proof.
  intros Hslug Hrest Hbase. rewrite parseSlugFromLink_match in *.
  set (prefix := js "/" ++ type_text type ++ js "/") in *.
  replace (base ++ js "/" ++ type_text type ++ js "/" ++ slug ++ rest)
    with (base ++ prefix ++ slug ++ rest)
    by (unfold prefix; now rewrite <- !app_assoc).
  apply match_slug_complete; try assumption. discriminate.
Qed.

Lemma parseSlugFromLink_round_trip_witness :
  parseSlugFromLink
    (Some (js "https://otakudesu.cloud" ++ js "/" ++ type_text EpisodeLink
           ++ js "/" ++ js "one-piece-episode-1" ++ js "/?ref=home"))
    EpisodeLink
  = Some (js "one-piece-episode-1").
Proof.
  apply (parseSlugFromLink_round_trip (js "https://otakudesu.cloud")
           (js "/?ref=home") (js "one-piece-episode-1") EpisodeLink);
    reflexivity.
Defined.

(* ===================================================================== *)
(** * Further properties: lists, search and details                       *)
(* ===================================================================== *)

Section Catalogue.

Lemma parseSlugFromLink_slug url type slug :
  parseSlugFromLink url type = Some slug -> slug_pattern slug = true.
Proof.
  destruct url as [u|]; [|discriminate]. rewrite parseSlugFromLink_match.
  intros H. now apply match_slug_sound in H as (_ & _ & _ & Hslug & _).
Qed.

Lemma isValidSlug_true s :
  slug_pattern s = true -> isValidSlug (Some (JStr s)) = Some (JBool true).
Proof.
  intros H. unfold isValidSlug. destruct s as [|c s]; [discriminate|].
  cbn [truthy option_Truthy json_Truthy json_truthy negb]. now rewrite H.
Qed.

Lemma non_null_Forall {A B} (f : A -> option B) (P : B -> Prop) l :
  (forall x y, f x = Some y -> P y) ->
  Forall P (non_null (List.map f l))
  /\ (length (non_null (List.map f l)) <= length l)%nat.
Proof.
  intros H. induction l as [|x l [IH1 IH2]]; [split; [constructor | cbn; lia]|].
  cbn [List.map non_null]. destruct (f x) as [y|] eqn:Hy.
  - split; [constructor; eauto | cbn [length]; lia].
  - split; [assumption | cbn [length]; lia].
Qed.

Lemma non_null_app {A} (l1 l2 : list (option A)) :
  non_null (l1 ++ l2) = non_null l1 ++ non_null l2.
Proof.
  induction l1 as [|[a|] l1 IH]; cbn [app non_null]; [reflexivity| |assumption].
  now rewrite IH.
Qed.

Lemma js_or_nonempty (a b : jsstring) : b <> [] -> js_or a b <> [].
Proof. intros Hb. unfold js_or. destruct a; [exact Hb | discriminate]. Qed.

Lemma or_null_nonempty v : or_null v <> Some [].
Proof. destruct v as [[|c s]|]; discriminate. Qed.

(** The first request of a page fetch. *)
Lemma fetch_page_first w target :
  exists evs, fst (fetch_page w target) = EvGet target :: evs.
Proof.
  unfold fetch_page, retryRequest. change (Z.to_nat (2 + 1)) with 3%nat.
  rewrite retry_loop_step. unfold httpClient_get at 1.
  destruct (axios_settle _) as [r|e]; [eexists; reflexivity|].
  destruct (0 =? 2)%Z; [eexists; reflexivity|].
  destruct (no_retry_status e); [eexists; reflexivity|].
  destruct (retry_loop _ _ _ _ _). eexists. reflexivity.
Qed.

Lemma list_item_of_spec api el it :
  scrapers.list_item_of api el = Some it ->
  isValidSlug (Some (JStr (item_slug it))) = Some (JBool true)
  /\ item_link it = buildUrl api (js "/anime/" ++ item_slug it)
  /\ item_episodes it <> [] /\ item_score it <> [] /\ item_date it <> []
  /\ item_image it <> Some [].
Proof.
  unfold scrapers.list_item_of.
  destruct (negb (truthy (jdlflm_text el)) || _); [discriminate|].
  destruct (parseSlugFromLink (list_href el) AnimeLink) as [s|] eqn:Hs;
    [|discriminate].
  intros H. injection H as <-. cbn.
  split; [apply isValidSlug_true, (parseSlugFromLink_slug _ _ _ Hs)|].
  split; [reflexivity|].
  repeat split; try (apply js_or_nonempty; discriminate).
  apply or_null_nonempty.
Qed.

Lemma search_item_of_spec api el it :
  scrapers.search_item_of api el = Some it ->
  isValidSlug (Some (JStr (found_slug it))) = Some (JBool true)
  /\ found_link it = buildUrl api (js "/anime/" ++ found_slug it)
  /\ found_status it <> [] /\ found_rating it <> []
  /\ found_image it <> Some [].
Proof.
  unfold scrapers.search_item_of.
  destruct (negb _ || _); [discriminate|].
  destruct (parseSlugFromLink (h2_a_href el) AnimeLink) as [s|] eqn:Hs;
    [|discriminate].
  intros H. injection H as <-. cbn.
  split; [apply isValidSlug_true, (parseSlugFromLink_slug _ _ _ Hs)|].
  split; [reflexivity|].
  repeat split; try (apply js_or_nonempty; discriminate).
  apply or_null_nonempty.
Qed.

Lemma episode_of_spec api li e :
  scrapers.episode_of api li = Some e ->
  isValidSlug (Some (JStr (episode_slug e))) = Some (JBool true)
  /\ episode_link e = buildUrl api (js "/episode/" ++ episode_slug e)
  /\ episode_date e <> Some [].
Proof.
  unfold scrapers.episode_of.
  destruct (parseSlugFromLink (ep_href li) EpisodeLink) as [s|] eqn:Hs;
    [|discriminate].
  destruct (negb (truthy s)); [discriminate|].
  intros H. injection H as <-. cbn [episode_slug episode_link episode_date].
  split; [apply isValidSlug_true, (parseSlugFromLink_slug _ _ _ Hs)|].
  split; [reflexivity | apply (or_null_nonempty (Some (trim (zeebr_text li))))].
Qed.

End Catalogue.

(** X20. Every element of a list that [getAnimeList] returns (so also of
    [getOngoingAnime] and [getCompletedAnime]) has a slug that
    [isValidSlug] accepts and the link of the anime route for that slug;
    its episodes, score and date are never empty and its image is null
    or a non-empty text. The list has at most one element for each [li]
    of the page. *)
Theorem getAnimeList_items (w : world) (rt : runtime)
    (path src api : jsstring) (evs : list event) (items : list list_item) :
  scrapers.getAnimeList w rt path src api = (evs, Returned items) ->
  Forall (fun it =>
            isValidSlug (Some (JStr (item_slug it))) = Some (JBool true)
            /\ item_link it = buildUrl api (js "/anime/" ++ item_slug it)
            /\ item_episodes it <> [] /\ item_score it <> []
            /\ item_date it <> [] /\ item_image it <> Some [])
    items
  /\ exists r pg,
       fetch_page w (buildUrl src (js "/" ++ path ++ js "/"))
       = (evs, Returned (Some r))
       /\ load rt (resp_data r) = Returned pg
       /\ (length items <= length (venz_items pg))%nat.
Proof.
  unfold scrapers.getAnimeList.
  destruct (fetch_page w _) as [evs0 [[r|]|e]]; async_unfold;
    try (rewrite ?app_nil_r; discriminate).
  destruct (load rt (resp_data r)) as [pg|e] eqn:Hload;
    try (rewrite ?app_nil_r; discriminate).
  rewrite !app_nil_r. intros H. injection H as <- <-.
  destruct (non_null_Forall (scrapers.list_item_of api) _ (venz_items pg)
              (list_item_of_spec api)) as [Hall Hlen].
  split; [exact Hall|]. exists r, pg. auto.
Qed.

Lemma getAnimeList_items_witness :
  exists items,
    snd (scrapers.getOngoingAnime (serving missing_page offline_world)
           (showing sample_page) (js "https://otakudesu.cloud")
           (js "http://localhost:3000"))
    = Returned items
    /\ List.map item_slug items = [js "one-piece-sub-indo"]
    /\ Forall (fun it =>
                 isValidSlug (Some (JStr (item_slug it))) = Some (JBool true)
                 /\ item_link it
                    = buildUrl (js "http://localhost:3000")
                        (js "/anime/" ++ item_slug it)
                 /\ item_episodes it <> [] /\ item_score it <> []
                 /\ item_date it <> [] /\ item_image it <> Some [])
         items.
Proof.
  eexists. split; [vm_compute; reflexivity|]. split; [reflexivity|].
  eapply (getAnimeList_items (serving missing_page offline_world)
            (showing sample_page) (js "ongoing-anime")
            (js "https://otakudesu.cloud") (js "http://localhost:3000")).
  vm_compute. reflexivity.
Defined.

Section Encoding.

Lemma upper_hex_digit_unreserved d :
  d < 16 -> is_uri_unreserved (upper_hex_digit d) = true.
Proof.
  intros Hd. unfold upper_hex_digit, is_uri_unreserved, is_digit.
  destruct (N.ltb_spec d 10).
  - replace ((48 <=? 48 + d) && (48 + d <=? 57)) with true; [now rewrite !orb_true_r|].
    symmetry. apply andb_true_intro. split; apply N.leb_le; lia.
  - replace ((65 <=? 55 + d) && (55 + d <=? 90)) with true; [now rewrite !orb_true_r|].
    symmetry. apply andb_true_intro. split; apply N.leb_le; lia.
Qed.

Lemma percent_safe b :
  b < 256 ->
  Forall (fun c => is_uri_unreserved c = true \/ c = 37) (percent b).
Proof.
  intros Hb. unfold percent.
  constructor; [now right|].
  constructor; [left; apply upper_hex_digit_unreserved; divmod|].
  constructor; [left; apply upper_hex_digit_unreserved; divmod|].
  constructor.
Qed.

Lemma utf8_bytes_small cp :
  cp < 65536 -> Forall (fun b => b < 256) (utf8_bytes cp).
Proof.
  intros Hcp. unfold utf8_bytes.
  destruct (N.ltb_spec cp 128); [repeat constructor; lia|].
  destruct (N.ltb_spec cp 2048); [repeat constructor; divmod|].
  destruct (N.ltb_spec cp 65536); [repeat constructor; divmod | lia].
Qed.

Lemma percent_encode_safe bytes :
  Forall (fun b => b < 256) bytes ->
  Forall (fun c => is_uri_unreserved c = true \/ c = 37) (percent_encode bytes).
Proof.
  induction 1 as [|b bytes Hb _ IH]; [constructor|].
  cbn [percent_encode flat_map]. apply Forall_app. split; [|exact IH].
  now apply percent_safe.
Qed.

Lemma scalar_not_surrogate c :
  scalar_unit c -> is_low_surrogate c = false /\ is_high_surrogate c = false.
Proof.
  unfold scalar_unit, is_low_surrogate, is_high_surrogate. intros Hc.
  split; apply andb_false_iff;
    [destruct (N.leb_spec 56320 c); [right; apply N.leb_gt; lia | now left]
    |destruct (N.leb_spec 55296 c); [right; apply N.leb_gt; lia | now left]].
Qed.

(** A text without surrogates is encoded, into unreserved characters and
    percent signs. *)
Lemma encodeURIComponent_scalars s :
  Forall scalar_unit s ->
  exists q, encodeURIComponent s = Some q
            /\ Forall (fun c => is_uri_unreserved c = true \/ c = 37) q.
Proof.
  induction 1 as [|c s Hc _ (q & Hq & Hsafe)]; [exists []; split; [reflexivity | constructor]|].
  cbn [encodeURIComponent]. rewrite Hq.
  destruct (scalar_not_surrogate c Hc) as [-> ->].
  destruct (is_uri_unreserved c) eqn:Hu.
  - eexists. split; [reflexivity|]. constructor; auto.
  - eexists. split; [reflexivity|]. apply Forall_app. split; [|exact Hsafe].
    apply percent_encode_safe, utf8_bytes_small.
    destruct Hc as [?|[_ ?]]; lia.
Qed.

Lemma high_surrogate_kind c :
  is_high_surrogate c = true ->
  is_uri_unreserved c = false /\ is_low_surrogate c = false
  /\ is_js_space c = false /\ is_markup_unit c = false.
Proof.
  unfold is_high_surrogate. intros H. apply andb_prop in H as [H1 H2].
  apply N.leb_le in H1, H2.
  unfold is_uri_unreserved, is_low_surrogate, is_js_space, is_markup_unit,
    is_digit.
  repeat split; repeat (case_cmp; try lia); reflexivity.
Qed.

(** A text that ends with the first half of a surrogate pair is not
    encoded. *)
Lemma encodeURIComponent_cut n hi : forall s,
  (length s <= n)%nat -> is_high_surrogate hi = true ->
  encodeURIComponent (s ++ [hi]) = None.
Proof.
  induction n as [|n IH]; intros s Hlen Hhi;
    destruct (high_surrogate_kind hi Hhi) as (Hu & Hl & _ & _).
  - destruct s; [|cbn in Hlen; lia]. cbn. now rewrite Hu, Hl, Hhi.
  - destruct s as [|c s]; [cbn; now rewrite Hu, Hl, Hhi|].
    cbn [length] in Hlen. cbn [app encodeURIComponent].
    rewrite (IH s) by (assumption || lia).
    destruct (is_uri_unreserved c); [reflexivity|].
    destruct (is_low_surrogate c); [reflexivity|].
    destruct (is_high_surrogate c); [|reflexivity].
    destruct s as [|d s]; cbn [app]; [now rewrite Hl|].
    destruct (is_low_surrogate d); [|reflexivity].
    rewrite (IH s) by (assumption || (cbn [length] in Hlen; lia)).
    reflexivity.
Qed.

End Encoding.

(** X21. For a query without surrogate code units [searchAnime] starts
    with a GET of sourceUrl + '/?s=' + q + '&post_type=anime' where q,
    the encoded query, holds nothing but letters, digits, the marks
    [- _ . ! ~ * ' ( )] and percent signs: no character of the query can
    end the parameter or add one. *)
Theorem searchAnime_query_encoded (w : world) (rt : runtime)
    (query src api : jsstring) :
  Forall scalar_unit query ->
  exists q evs,
    encodeURIComponent query = Some q
    /\ Forall (fun c => is_uri_unreserved c = true \/ c = 37) q
    /\ fst (scrapers.searchAnime w rt query src api)
       = EvGet (src ++ js "/?s=" ++ q ++ js "&post_type=anime") :: evs.
Proof.
  intros Hquery.
  destruct (encodeURIComponent_scalars query Hquery) as (q & Hq & Hsafe).
  unfold scrapers.searchAnime, scrapers.search_url. rewrite Hq.
  destruct (fetch_page_first w (src ++ js "/?s=" ++ q ++ js "&post_type=anime"))
    as [evs Hevs].
  destruct (fetch_page w _) as [evs0 [[r|]|e]]; cbn [fst] in Hevs; subst evs0;
    async_unfold.
  - destruct (load rt (resp_data r)); eexists q, _; cbn [fst];
      (split; [reflexivity|]; split; [exact Hsafe | reflexivity]).
  - exists q. eexists. split; [reflexivity|]. split; [exact Hsafe | reflexivity].
  - exists q. eexists. split; [reflexivity|]. split; [exact Hsafe | reflexivity].
Qed.

Lemma searchAnime_query_encoded_witness :
  exists evs,
    fst (scrapers.searchAnime offline_world (showing sample_page)
           (js "one piece & co") (js "https://otakudesu.cloud")
           (js "http://localhost:3000"))
    = EvGet (js "https://otakudesu.cloud/?s=one%20piece%20%26%20co&post_type=anime")
      :: evs.
Proof.
  destruct (searchAnime_query_encoded offline_world (showing sample_page)
              (js "one piece & co") (js "https://otakudesu.cloud")
              (js "http://localhost:3000")) as (q & evs & Hq & _ & Hevs).
  - repeat constructor; vm_compute; reflexivity.
  - exists evs. rewrite Hevs.
    vm_compute in Hq. injection Hq as <-. reflexivity.
Defined.

(** X22. Every element of a list that [searchAnime] returns has a slug
    that [isValidSlug] accepts and the link of the anime route for that
    slug; its status and rating are never empty (they default to
    'Unknown' and 'N/A') and its image is null or a non-empty text. The
    list has at most one element for each [li] of the page. *)
Theorem searchAnime_items (w : world) (rt : runtime)
    (query src api : jsstring) (evs : list event) (items : list search_item) :
  scrapers.searchAnime w rt query src api = (evs, Returned items) ->
  Forall (fun it =>
            isValidSlug (Some (JStr (found_slug it))) = Some (JBool true)
            /\ found_link it = buildUrl api (js "/anime/" ++ found_slug it)
            /\ found_status it <> [] /\ found_rating it <> []
            /\ found_image it <> Some [])
    items
  /\ exists target r pg,
       scrapers.search_url src query = Some target
       /\ fetch_page w target = (evs, Returned (Some r))
       /\ load rt (resp_data r) = Returned pg
       /\ (length items <= length (chivsrc_items pg))%nat.
Proof.
  unfold scrapers.searchAnime.
  destruct (scrapers.search_url src query) as [target|] eqn:Hurl; [|discriminate].
  destruct (fetch_page w target) as [evs0 [[r|]|e]] eqn:Hfetch; async_unfold;
    try (rewrite ?app_nil_r; discriminate).
  destruct (load rt (resp_data r)) as [pg|e] eqn:Hload;
    try (rewrite ?app_nil_r; discriminate).
  rewrite !app_nil_r. intros H. injection H as <- <-.
  destruct (non_null_Forall (scrapers.search_item_of api) _ (chivsrc_items pg)
              (search_item_of_spec api)) as [Hall Hlen].
  split; [exact Hall|]. exists target, r, pg.
  split; [reflexivity|]. split; [exact Hfetch|]. split; [exact Hload | exact Hlen].
Qed.

Lemma searchAnime_items_witness :
  exists items,
    snd (scrapers.searchAnime (serving missing_page offline_world)
           (showing sample_page) (js "one piece")
           (js "https://otakudesu.cloud") (js "http://localhost:3000"))
    = Returned items
    /\ List.map found_status items = [js "Unknown"]
    /\ Forall (fun it =>
                 isValidSlug (Some (JStr (found_slug it))) = Some (JBool true)
                 /\ found_link it
                    = buildUrl (js "http://localhost:3000")
                        (js "/anime/" ++ found_slug it)
                 /\ found_status it <> [] /\ found_rating it <> []
                 /\ found_image it <> Some [])
         items.
Proof.
  eexists. split; [vm_compute; reflexivity|]. split; [reflexivity|].
  eapply (searchAnime_items (serving missing_page offline_world)
            (showing sample_page) (js "one piece")
            (js "https://otakudesu.cloud") (js "http://localhost:3000")).
  vm_compute. reflexivity.
Defined.

(** X23. [extractEpisodes] starts nothing and never throws; each episode
    it returns has a slug that [isValidSlug] accepts, the link of the
    episode route for that slug and a date that is null or not empty;
    and the episodes come in the reverse order of the page: those of the
    later entries first. *)
Theorem extractEpisodes_latest_first (main : venser) (api : jsstring) :
  exists episodes,
    scrapers.extractEpisodes main api = ([], Returned episodes)
    /\ Forall (fun e =>
                 isValidSlug (Some (JStr (episode_slug e))) = Some (JBool true)
                 /\ episode_link e
                    = buildUrl api (js "/episode/" ++ episode_slug e)
                 /\ episode_date e <> Some [])
         episodes
    /\ (length episodes <= length (episodelist_items main))%nat
    /\ forall before after,
         episodelist_items main = before ++ after ->
         episodes
         = rev (non_null (List.map (scrapers.episode_of api) after))
           ++ rev (non_null (List.map (scrapers.episode_of api) before)).
Proof.
  eexists. split; [reflexivity|].
  destruct (non_null_Forall (scrapers.episode_of api) _ (episodelist_items main)
              (episode_of_spec api)) as [Hall Hlen].
  split.
  { apply List.Forall_forall. intros e He. apply in_rev in He.
    revert e He. now apply List.Forall_forall. }
  split; [now rewrite length_rev|].
  intros before after ->. now rewrite List.map_app, non_null_app, rev_app_distr.
Qed.

Section Details.

Context (w : world) (rt : runtime) (slug src api : jsstring).

(** [getAnimeDetails] once the page is there. *)
Lemma getAnimeDetails_loaded evs r pg :
  fetch_page w (buildUrl src (js "/anime/" ++ slug)) = (evs, Returned (Some r)) ->
  load rt (resp_data r) = Returned pg ->
  scrapers.getAnimeDetails w rt slug src api
  = (evs,
     match venser_main pg with
     | None => Thrown (Error (js "Anime not found (page structure mismatch)"))
     | Some main =>
         match snd (scrapers.extractBasicInfo rt main) with
         | Returned info =>
             if truthy (obj_get (js "title") info)
             then Returned
                    (JObj
                       (obj_define (js "recommendations")
                          (JArr (List.map json_of_recommendation
                                   (non_null
                                      (List.map (scrapers.recommendation_of api)
                                         (recommend_divs pg)))))
                          (obj_define (js "episodes")
                             (JArr (List.map json_of_episode
                                      (rev (non_null
                                              (List.map (scrapers.episode_of api)
                                                 (episodelist_items main))))))
                             info)))
             else Thrown (Error (js "Anime not found (title could not be extracted)"))
         | Thrown e => Thrown e
         end
     end).
Proof using Type.
  intros Hfetch Hload. unfold scrapers.getAnimeDetails. rewrite Hfetch.
  async_unfold. rewrite Hload.
  destruct (venser_main pg) as [main|]; [|cbn [app]; now rewrite !app_nil_r].
  unfold scrapers.extractBasicInfo, scrapers.extractEpisodes,
    scrapers.extractRecommendations, ret.
  cbn [snd getSettledValue js_or truthy info_Truthy episodes_Truthy
       recommendations_Truthy app].
  rewrite !obj_get_define.
  change (jsstring_eqb (js "recommendations") (js "title")) with false.
  change (jsstring_eqb (js "episodes") (js "title")) with false.
  cbn iota.
  destruct (truthy (obj_get (js "title") _)); cbn [negb app];
    now rewrite ?app_nil_r.
Qed.

(** A result of [getAnimeDetails] comes from a fetched and loaded page. *)
Lemma getAnimeDetails_returned evs v :
  scrapers.getAnimeDetails w rt slug src api = (evs, Returned v) ->
  exists r pg,
    fetch_page w (buildUrl src (js "/anime/" ++ slug)) = (evs, Returned (Some r))
    /\ load rt (resp_data r) = Returned pg.
Proof using Type.
  intros H.
  destruct (fetch_page w (buildUrl src (js "/anime/" ++ slug)))
    as [evs0 [[r|]|e]] eqn:Hfetch.
  - destruct (load rt (resp_data r)) as [pg|e] eqn:Hload.
    + rewrite (getAnimeDetails_loaded evs0 r pg Hfetch Hload) in H.
      injection H as -> _. eauto.
    + unfold scrapers.getAnimeDetails in H. rewrite Hfetch in H.
      async_unfold. rewrite Hload in H. discriminate.
  - unfold scrapers.getAnimeDetails in H. rewrite Hfetch in H.
    async_unfold. discriminate.
  - unfold scrapers.getAnimeDetails in H. rewrite Hfetch in H.
    async_unfold. discriminate.
Qed.

End Details.

(** X24. Once the details page is fetched and loaded, [getAnimeDetails]
    fails if and only if the page gives no title: it has no main
    element, or the title that [extractBasicInfo] ends with is empty.
    Nothing else was started by then, and the anime route answers with
    status 404 and the message 'Content Not Found' and writes nothing
    to the cache. *)
Theorem getAnimeDetails_not_found (w : world) (rt : runtime)
    (slug src api : jsstring) (evs : list event) (r : response) (pg : page) :
  fetch_page w (buildUrl src (js "/anime/" ++ slug)) = (evs, Returned (Some r)) ->
  load rt (resp_data r) = Returned pg ->
  ((exists e, snd (scrapers.getAnimeDetails w rt slug src api) = Thrown e)
   <-> lacks_title rt pg)
  /\ (lacks_title rt pg ->
      fst (scrapers.getAnimeDetails w rt slug src api) = evs
      /\ forall cfg cache,
           sourceUrl cfg = src -> app_baseUrl cfg = api ->
           slug_pattern slug = true ->
           cache !! generateCacheKey (js "anime") [Some slug] = None ->
           route_anime (with_scrapers w rt) cfg cache (Some (JStr slug))
           = {| answer :=
                  {| res_status := 404;
                     res_body := ErrorBody (js "Content Not Found") false
                                   (Some (now_iso w)) |};
                cache_after := cache;
                effects :=
                  EvCacheGet (generateCacheKey (js "anime") [Some slug]) :: evs |}).
Proof.
  intros Hfetch Hload.
  pose proof (getAnimeDetails_loaded w rt slug src api evs r pg Hfetch Hload)
    as Hrun.
  assert (Hcases : lacks_title rt pg ->
            exists msg,
              scrapers.getAnimeDetails w rt slug src api = (evs, Thrown (Error msg))
              /\ handleError (Error msg)
                 = {| info_status := 404;
                      info_message := js "Content Not Found" |}).
  { unfold lacks_title. intros Hlacks. rewrite Hrun.
    destruct (venser_main pg) as [main|].
    - destruct (snd (scrapers.extractBasicInfo rt main)) as [info|e];
        [|contradiction].
      rewrite Hlacks. eexists. split; [reflexivity|]. vm_compute. reflexivity.
    - eexists. split; [reflexivity|]. vm_compute. reflexivity. }
  split; [split|].
  - intros [e He]. rewrite Hrun in He. cbn [snd] in He. unfold lacks_title.
    destruct (venser_main pg) as [main|]; [|exact I].
    destruct (snd (scrapers.extractBasicInfo rt main)) as [info|e'] eqn:Hinfo;
      [|discriminate].
    destruct (truthy (obj_get (js "title") info)); [discriminate | reflexivity].
  - intros Hlacks. destruct (Hcases Hlacks) as (msg & -> & _). eauto.
  - intros Hlacks. destruct (Hcases Hlacks) as (msg & Hthrown & Hinfo).
    split; [now rewrite Hthrown|].
    intros cfg cache Hsrc Hapi Hslug Hmiss.
    unfold route_anime.
    replace (truthy (isValidSlug (Some (JStr slug)))) with true
      by (rewrite isValidSlug_true by assumption; reflexivity).
    cbn [negb slug_text]. unfold withCache. rewrite Hmiss.
    change (getAnimeDetails (with_scrapers w rt))
      with (scrapers.getAnimeDetails w rt).
    rewrite Hsrc, Hapi, Hthrown. cbn [bind]. rewrite Hinfo. reflexivity.
Qed.

Lemma getAnimeDetails_not_found_witness :
  res_status
    (answer (route_anime
               (with_scrapers (serving missing_page offline_world)
                  (showing unknown_page))
               default_config ∅ (Some (JStr (js "no-such-anime")))))
  = 404%Z.
Proof.
  destruct (getAnimeDetails_not_found (serving missing_page offline_world)
              (showing unknown_page) (js "no-such-anime")
              (js "https://otakudesu.cloud") (js "http://localhost:3000")
              [EvGet (js "https://otakudesu.cloud/anime/no-such-anime")]
              {| resp_status := 200; resp_data := JStr (js "<!DOCTYPE html>") |}
              unknown_page eq_refl eq_refl) as [_ Hroute].
  destruct (Hroute I) as [_ Hanswer].
  rewrite (Hanswer default_config ∅); reflexivity.
Defined.

Section BasicInfo.

Context (rt : runtime).

Lemma info_step_filled info el :
  filled info -> filled (scrapers.info_step rt info el).
Proof using Type.
  intros Hinfo. unfold scrapers.info_step.
  destruct (jsstring_eqb _ (js "genre")).
  - intros k v Hk Hne. apply obj_get_assign_cases in Hk as [(_ & -> & _)|Hk];
      [discriminate | eauto].
  - destruct (truthy _ && truthy (trim (strip_label (row_text el)))) eqn:Hkv;
      [|exact Hinfo].
    apply andb_prop in Hkv as [_ Hval].
    intros k v Hk Hne. apply obj_get_assign_cases in Hk as [(_ & -> & _)|Hk]; [|eauto].
    destruct (trim (strip_label (row_text el))); [discriminate | discriminate].
Qed.

Lemma info_step_keeps info el k :
  is_Some (obj_get k info) -> is_Some (obj_get k (scrapers.info_step rt info el)).
Proof using Type.
  intros Hk. unfold scrapers.info_step.
  assert (Hassign : forall k' (v : json),
            is_Some (obj_get k (obj_assign k' v info))).
  { intros k' v. unfold obj_assign.
    destruct (jsstring_eqb k' (js "__proto__")); [exact Hk|].
    rewrite obj_get_define. destruct (jsstring_eqb k' k); [eauto | exact Hk]. }
  destruct (jsstring_eqb _ (js "genre")); [apply Hassign|].
  destruct (_ && _); [apply Hassign | exact Hk].
Qed.

End BasicInfo.

(** X25. [extractBasicInfo] starts nothing and never throws. Its result
    always has the fields title, poster and synopsis, whatever the rows
    of the page are, and no field other than the title is ever the empty
    string: the synopsis has its default text and an empty row value is
    not stored. *)
Theorem extractBasicInfo_fields (rt : runtime) (main : venser) :
  exists info,
    scrapers.extractBasicInfo rt main = ([], Returned info)
    /\ is_Some (obj_get (js "title") info)
    /\ is_Some (obj_get (js "poster") info)
    /\ is_Some (obj_get (js "synopsis") info)
    /\ forall k v, obj_get k info = Some v -> k <> js "title" -> v <> JStr [].
Proof.
  eexists. split; [reflexivity|].
  set (info0 := [(js "title", JStr (trim (jdlrx_h1_text main)));
                 (js "poster", json_of_text (or_null (fotoanime_img_src main)));
                 (js "synopsis",
                  JStr (js_or (trim (sinopc_text main))
                          (js "No synopsis available.")))]).
  assert (Hkeep : forall rows info k,
            is_Some (obj_get k info) ->
            is_Some (obj_get k (fold_left (scrapers.info_step rt) rows info))).
  { induction rows as [|el rows IH]; intros info k Hk; [exact Hk|].
    cbn [fold_left]. apply IH. now apply info_step_keeps. }
  assert (Hfilled : forall rows info,
            filled info -> filled (fold_left (scrapers.info_step rt) rows info)).
  { induction rows as [|el rows IH]; intros info Hinfo; [exact Hinfo|].
    cbn [fold_left]. apply IH. now apply info_step_filled. }
  split; [apply Hkeep; subst info0; cbn; eauto|].
  split; [apply Hkeep; subst info0; cbn; eauto|].
  split; [apply Hkeep; subst info0; cbn; eauto|].
  apply Hfilled. subst info0. intros k v Hk Hne.
  cbn [obj_get] in Hk. unfold jsstring_eqb in Hk.
  destruct (bool_decide_reflect (js "title" = k)); [congruence|].
  destruct (bool_decide_reflect (js "poster" = k)).
  { injection Hk as <-.
    destruct (fotoanime_img_src main) as [[|c s]|]; discriminate. }
  destruct (bool_decide_reflect (js "synopsis" = k)); [|discriminate].
  injection Hk as <-. intros Hv. injection Hv as Hv.
  now apply (js_or_nonempty (trim (sinopc_text main))
               (js "No synopsis available.")) in Hv.
Qed.

(** X26. In every result of [getAnimeDetails] the title is not empty, and
    the fields episodes and recommendations hold the lists of
    [extractEpisodes] and [extractRecommendations] whatever the rows of
    the page are called; every other field is the one of
    [extractBasicInfo]. *)
Theorem getAnimeDetails_result (w : world) (rt : runtime)
    (slug src api : jsstring) (evs : list event) (v : json) :
  scrapers.getAnimeDetails w rt slug src api = (evs, Returned v) ->
  exists r pg main info episodes recommendations members,
    fetch_page w (buildUrl src (js "/anime/" ++ slug)) = (evs, Returned (Some r))
    /\ load rt (resp_data r) = Returned pg
    /\ venser_main pg = Some main
    /\ scrapers.extractBasicInfo rt main = ([], Returned info)
    /\ scrapers.extractEpisodes main api = ([], Returned episodes)
    /\ scrapers.extractRecommendations pg api = ([], Returned recommendations)
    /\ v = JObj members
    /\ truthy (obj_get (js "title") members) = true
    /\ obj_get (js "episodes") members
       = Some (JArr (List.map json_of_episode episodes))
    /\ obj_get (js "recommendations") members
       = Some (JArr (List.map json_of_recommendation recommendations))
    /\ forall k, k <> js "episodes" -> k <> js "recommendations" ->
         obj_get k members = obj_get k info.
Proof.
  intros H.
  destruct (getAnimeDetails_returned w rt slug src api evs v H)
    as (r & pg & Hfetch & Hload).
  rewrite (getAnimeDetails_loaded w rt slug src api evs r pg Hfetch Hload) in H.
  injection H as H.
  destruct (venser_main pg) as [main|] eqn:Hmain; [|discriminate].
  cbn [scrapers.extractBasicInfo snd ret] in H.
  destruct (truthy (obj_get (js "title") _)) eqn:Htitle; [|discriminate].
  injection H as <-.
  eexists r, pg, main, _, _, _, _.
  split; [exact Hfetch|]. split; [exact Hload|]. split; [exact Hmain|].
  split; [reflexivity|]. split; [reflexivity|]. split; [reflexivity|].
  split; [reflexivity|].
  rewrite !obj_get_define.
  change (jsstring_eqb (js "recommendations") (js "title")) with false.
  change (jsstring_eqb (js "episodes") (js "title")) with false.
  change (jsstring_eqb (js "recommendations") (js "episodes")) with false.
  change (jsstring_eqb (js "episodes") (js "episodes")) with true.
  change (jsstring_eqb (js "recommendations") (js "recommendations")) with true.
  cbn iota.
  split; [exact Htitle|]. split; [reflexivity|]. split; [reflexivity|].
  intros k He Hr. rewrite !obj_get_define. unfold jsstring_eqb.
  now rewrite !bool_decide_eq_false_2 by congruence.
Qed.

Lemma getAnimeDetails_result_witness :
  exists members,
    snd (scrapers.getAnimeDetails (serving missing_page offline_world)
           (showing sample_page) (js "one-piece-sub-indo")
           (js "https://otakudesu.cloud") (js "http://localhost:3000"))
    = Returned (JObj members)
    /\ truthy (obj_get (js "title") members) = true
    /\ exists episodes,
         obj_get (js "episodes") members
         = Some (JArr (List.map json_of_episode episodes))
         /\ List.map episode_slug episodes
            = [js "op-episode-2"; js "op-episode-1"].
Proof.
  assert (H : exists evs v,
            scrapers.getAnimeDetails (serving missing_page offline_world)
              (showing sample_page) (js "one-piece-sub-indo")
              (js "https://otakudesu.cloud") (js "http://localhost:3000")
            = (evs, Returned v))
    by (vm_compute; eexists _, _; reflexivity).
  destruct H as (evs & v & Hv).
  destruct (getAnimeDetails_result _ _ _ _ _ evs v Hv)
    as (r & pg & main & info & episodes & recs & members
        & Hfetch & Hload & Hmain & Hinfo & Heps & Hrecs & -> & Htitle & He & _).
  exists members. rewrite Hv. split; [reflexivity|]. split; [exact Htitle|].
  exists episodes. split; [exact He|].
  cbn in Hload. injection Hload as <-. cbn in Hmain. injection Hmain as <-.
  vm_compute in Heps. injection Heps as <-. reflexivity.
Defined.

(* ===================================================================== *)
(** * Further properties: the list routes                                 *)
(* ===================================================================== *)

Section ListRoutes.

Lemma filter_length_le {A} (p : A -> bool) l :
  (length (List.filter p l) <= length l)%nat.
Proof.
  induction l as [|x l IH]; [cbn; lia|]. cbn [List.filter].
  destruct (p x); cbn [length]; lia.
Qed.

Lemma collapse_from_length s : forall in_run,
  (length (collapse_from in_run s) <= length s)%nat.
Proof.
  induction s as [|c s IH]; intros in_run; cbn [collapse_from length]; [lia|].
  destruct (is_js_space c); [destruct in_run|]; cbn [length];
    specialize (IH true) as IHt; specialize (IH false) as IHf; lia.
Qed.

Lemma drop_spaces_length s : (length (drop_spaces s) <= length s)%nat.
Proof.
  induction s as [|c s IH]; cbn [drop_spaces length]; [lia|].
  destruct (is_js_space c); cbn [length]; lia.
Qed.

Lemma trim_length s : (length (trim s) <= length s)%nat.
Proof.
  unfold trim. rewrite length_rev.
  etransitivity; [apply drop_spaces_length|]. rewrite length_rev.
  apply drop_spaces_length.
Qed.

(** Sanitizing never makes a query longer. *)
Lemma sanitizeQuery_length s :
  (length (sanitizeQuery (Some (JStr s))) <= length s)%nat.
Proof.
  unfold sanitizeQuery, collapse_spaces.
  rewrite List.length_firstn. etransitivity; [apply Nat.le_min_r|].
  etransitivity; [apply collapse_from_length|].
  etransitivity; [apply filter_length_le|]. apply trim_length.
Qed.

Lemma route_search_rejects w rt cfg ttl cache q :
  (length (sanitizeQuery q) < 2)%nat ->
  route_search w rt cfg ttl cache q
  = {| list_status := 400;
       list_answer :=
         QueryError (js "Invalid or short query")
           (js "Search query must be at least 2 characters.") false;
       list_cache_after := cache; list_effects := [] |}.
Proof.
  intros H. unfold route_search.
  destruct (Nat.ltb_spec (length (sanitizeQuery q)) 2); [|lia].
  now rewrite orb_true_r.
Qed.

Lemma route_search_accepts w rt cfg ttl cache q :
  (2 <= length (sanitizeQuery q))%nat ->
  route_search w rt cfg ttl cache q
  = withCache_list w cache
      (generateCacheKey (js "search") [Some (sanitizeQuery q)]) (ttl_search ttl)
      (results <- scrapers.searchAnime w rt (sanitizeQuery q) (sourceUrl cfg)
                    (app_baseUrl cfg) ;;
       ret (SearchBody true (sanitizeQuery q) results (now_iso w))).
Proof.
  intros H. unfold route_search.
  destruct (Nat.ltb_spec (length (sanitizeQuery q)) 2); [lia|].
  destruct (sanitizeQuery q); [cbn in H; lia | reflexivity].
Qed.

(** Once [withCache_list] has answered with status 200 for a function
    that only returns successful bodies, the key is answered from the
    cache. *)
Lemma withCache_list_replay w w' cache key ttl ttl' f g :
  (forall evs b, f = (evs, Returned b) -> list_success b = true) ->
  list_status (withCache_list w cache key ttl f) = 200%Z ->
  withCache_list w' (list_cache_after (withCache_list w cache key ttl f))
    key ttl' g
  = {| list_status := 200;
       list_answer := list_answer (withCache_list w cache key ttl f);
       list_cache_after := list_cache_after (withCache_list w cache key ttl f);
       list_effects := [EvCacheGet key] |}.
Proof.
  intros Hf. remember (withCache_list w cache key ttl f) as h eqn:Hh.
  unfold withCache_list in Hh.
  destruct (cache !! key) as [cached|] eqn:Hkey.
  - subst h. cbn. intros _. unfold withCache_list. now rewrite Hkey.
  - destruct f as [evs [result|error]].
    + rewrite (Hf evs result eq_refl) in Hh. subst h. cbn. intros _.
      unfold withCache_list. now rewrite lookup_insert_eq.
    + subst h. cbn. intros H. pose proof (handleError_status_error error). lia.
Qed.

Lemma search_body_success w rt query src api :
  forall evs b,
    (results <- scrapers.searchAnime w rt query src api ;;
     ret (SearchBody true query results (now_iso w))) = (evs, Returned b) ->
    list_success b = true.
Proof.
  intros evs b. unfold bind, ret.
  destruct (scrapers.searchAnime w rt query src api) as [evs0 [st|e]];
    [|discriminate].
  intros H. injection H as _ <-. reflexivity.
Qed.

End ListRoutes.

(** X27. /search answers with status 400 and the body 'Invalid or short
    query', without reading the cache and without any request, for every
    query that is not a string and for every string of fewer than two
    code units; sanitizing never makes a query longer, so no such string
    can pass. *)
Theorem route_search_rejects_short (w : world) (rt : runtime) (cfg : config)
    (ttl : list_ttl) (cache : gmap jsstring list_body) (q : jsval) :
  match q with
  | Some (JStr s) => (length s < 2)%nat
  | _ => True
  end ->
  route_search w rt cfg ttl cache q
  = {| list_status := 400;
       list_answer :=
         QueryError (js "Invalid or short query")
           (js "Search query must be at least 2 characters.") false;
       list_cache_after := cache; list_effects := [] |}.
Proof.
  intros Hq. apply route_search_rejects.
  destruct q as [[| b | m e | s | items | members]|]; try (cbn; lia).
  pose proof (sanitizeQuery_length s). lia.
Qed.

Lemma route_search_rejects_short_witness :
  list_status
    (route_search offline_world (showing sample_page) default_config
       default_list_ttl ∅ (Some (JArr [JStr (js "one"); JStr (js "piece")])))
  = 400%Z.
Proof.
  rewrite (route_search_rejects_short offline_world (showing sample_page)
             default_config default_list_ttl ∅
             (Some (JArr [JStr (js "one"); JStr (js "piece")])) I).
  reflexivity.
Defined.

(** X28. The cache key of a search is made from the sanitized query with
    every character outside the slug class turned into an underscore.
    So once a search has been answered with status 200, a search for any
    other query with the same key is answered from the cache with the
    body of the first one, the query it names included, without any
    request. *)
Theorem route_search_shared_key (w w' : world) (rt rt' : runtime)
    (cfg : config) (ttl : list_ttl) (cache : gmap jsstring list_body)
    (q1 q2 : jsval) :
  (2 <= length (sanitizeQuery q1))%nat ->
  (2 <= length (sanitizeQuery q2))%nat ->
  sanitize_arg (sanitizeQuery q1) = sanitize_arg (sanitizeQuery q2) ->
  list_status (route_search w rt cfg ttl cache q1) = 200%Z ->
  route_search w' rt' cfg ttl
    (list_cache_after (route_search w rt cfg ttl cache q1)) q2
  = {| list_status := 200;
       list_answer := list_answer (route_search w rt cfg ttl cache q1);
       list_cache_after := list_cache_after (route_search w rt cfg ttl cache q1);
       list_effects :=
         [EvCacheGet (js "search:" ++ sanitize_arg (sanitizeQuery q1))] |}
  /\ (cache !! (js "search:" ++ sanitize_arg (sanitizeQuery q1)) = None ->
      exists results,
        list_answer (route_search w rt cfg ttl cache q1)
        = SearchBody true (sanitizeQuery q1) results (now_iso w)).
Proof.
  intros H1 H2 Hkey.
  rewrite (route_search_accepts w rt cfg ttl cache q1 H1).
  rewrite (route_search_accepts w' rt' cfg ttl _ q2 H2).
  assert (Hk1 : generateCacheKey (js "search") [Some (sanitizeQuery q1)]
                = js "search:" ++ sanitize_arg (sanitizeQuery q1))
    by reflexivity.
  assert (Hk2 : generateCacheKey (js "search") [Some (sanitizeQuery q2)]
                = js "search:" ++ sanitize_arg (sanitizeQuery q1))
    by (rewrite Hkey; reflexivity).
  rewrite Hk1, Hk2. intros Hstatus. split.
  - apply withCache_list_replay; [apply search_body_success | exact Hstatus].
  - intros Hmiss. unfold withCache_list in Hstatus |- *.
    destruct (cache !! _) as [cached|]; [discriminate|].
    unfold bind, ret in Hstatus |- *.
    destruct (scrapers.searchAnime w rt (sanitizeQuery q1) (sourceUrl cfg)
                (app_baseUrl cfg)) as [evs [results|e]].
    + exists results. reflexivity.
    + cbn in Hstatus. pose proof (handleError_status_error e). lia.
Qed.

Lemma route_search_shared_key_witness :
  let first := route_search (serving missing_page offline_world)
                 (showing unknown_page) default_config default_list_ttl ∅
                 (Some (JStr (js "one piece"))) in
  list_answer
    (route_search offline_world (showing unknown_page) default_config
       default_list_ttl (list_cache_after first)
       (Some (JStr (js "one.piece"))))
  = SearchBody true (js "one piece") [] (js "2024-01-01T00:00:00.000Z").
Proof.
  cbv zeta.
  destruct (route_search_shared_key (serving missing_page offline_world)
              offline_world (showing unknown_page) (showing unknown_page)
              default_config default_list_ttl ∅
              (Some (JStr (js "one piece"))) (Some (JStr (js "one.piece"))))
    as [Hsecond _].
  - vm_compute. lia.
  - vm_compute. lia.
  - reflexivity.
  - vm_compute. reflexivity.
  - rewrite Hsecond. vm_compute. reflexivity.
Defined.

Section ListReplay.

Lemma list_body_success w (m : M (list list_item)) :
  forall evs b,
    (results <- m ;; ret (ListBody true results (now_iso w))) = (evs, Returned b) ->
    list_success b = true.
Proof.
  intros evs b. unfold bind, ret. destruct m as [evs0 [st|e]]; [|discriminate].
  intros H. injection H as _ <-. reflexivity.
Qed.

(** [withCache_list] touches no key but its own. *)
Lemma withCache_list_frame w cache key ttl f k :
  k <> key ->
  list_cache_after (withCache_list w cache key ttl f) !! k = cache !! k.
Proof.
  intros Hk. unfold withCache_list.
  destruct (cache !! key); [reflexivity|].
  destruct f as [evs [result|error]]; [|reflexivity].
  destruct (list_success result); [|reflexivity].
  cbn. now rewrite lookup_insert_ne.
Qed.

End ListReplay.

(** X29. /ongoing and /completed keep their lists under the keys
    'ongoing:' and 'completed:'. Once one of them has answered with
    status 200, the same request is answered from the cache with the
    same body and without any request, and neither route touches the
    entry of the other. *)
Theorem list_routes_replay (w w' : world) (rt rt' : runtime) (cfg : config)
    (ttl : list_ttl) (cache : gmap jsstring list_body) :
  (list_status (route_ongoing w rt cfg ttl cache) = 200%Z ->
   route_ongoing w' rt' cfg ttl
     (list_cache_after (route_ongoing w rt cfg ttl cache))
   = {| list_status := 200;
        list_answer := list_answer (route_ongoing w rt cfg ttl cache);
        list_cache_after := list_cache_after (route_ongoing w rt cfg ttl cache);
        list_effects := [EvCacheGet (js "ongoing:")] |})
  /\ (list_status (route_completed w rt cfg ttl cache) = 200%Z ->
      route_completed w' rt' cfg ttl
        (list_cache_after (route_completed w rt cfg ttl cache))
      = {| list_status := 200;
           list_answer := list_answer (route_completed w rt cfg ttl cache);
           list_cache_after :=
             list_cache_after (route_completed w rt cfg ttl cache);
           list_effects := [EvCacheGet (js "completed:")] |})
  /\ list_cache_after (route_ongoing w rt cfg ttl cache) !! js "completed:"
     = cache !! js "completed:"
  /\ list_cache_after (route_completed w rt cfg ttl cache) !! js "ongoing:"
     = cache !! js "ongoing:".
Proof.
  unfold route_ongoing, route_completed.
  change (generateCacheKey (js "ongoing") []) with (js "ongoing:").
  change (generateCacheKey (js "completed") []) with (js "completed:").
  split; [apply withCache_list_replay, list_body_success|].
  split; [apply withCache_list_replay, list_body_success|].
  split; apply withCache_list_frame; discriminate.
Qed.

Lemma list_routes_replay_witness :
  let first := route_ongoing (serving missing_page offline_world)
                 (showing sample_page) default_config default_list_ttl ∅ in
  list_status first = 200%Z
  /\ list_effects
       (route_ongoing offline_world (showing unknown_page) default_config
          default_list_ttl (list_cache_after first))
     = [EvCacheGet (js "ongoing:")].
Proof.
  cbv zeta.
  assert (H : list_status
                (route_ongoing (serving missing_page offline_world)
                   (showing sample_page) default_config default_list_ttl ∅)
              = 200%Z) by (vm_compute; reflexivity).
  split; [exact H|].
  rewrite (proj1 (list_routes_replay (serving missing_page offline_world)
                    offline_world (showing sample_page) (showing unknown_page)
                    default_config default_list_ttl ∅) H).
  reflexivity.
Defined.

Section CutQuery.

Lemma drop_spaces_plain s :
  Forall (fun c => is_js_space c = false) s -> drop_spaces s = s.
Proof. intros [|c s' Hc _]; [reflexivity|]. cbn [drop_spaces]. now rewrite Hc. Qed.

Lemma trim_plain s : Forall (fun c => is_js_space c = false) s -> trim s = s.
Proof.
  intros H. unfold trim. rewrite (drop_spaces_plain s H).
  rewrite drop_spaces_plain; [apply rev_involutive|].
  apply List.Forall_forall. intros c Hc. apply in_rev in Hc.
  revert c Hc. now apply List.Forall_forall.
Qed.

Lemma collapse_plain s : forall in_run,
  Forall (fun c => is_js_space c = false) s -> collapse_from in_run s = s.
Proof.
  induction s as [|c s IH]; intros in_run H; [reflexivity|].
  inversion H as [|? ? Hc Hs]; subst. cbn [collapse_from]. rewrite Hc.
  now rewrite IH.
Qed.

Lemma filter_plain s :
  Forall (fun c => is_markup_unit c = false) s ->
  List.filter (fun c => negb (is_markup_unit c)) s = s.
Proof.
  induction 1 as [|c s Hc _ IH]; [reflexivity|]. cbn [List.filter].
  now rewrite Hc, IH.
Qed.

End CutQuery.

(** X30. [sanitizeQuery] cuts a query at 100 code units even between the
    two halves of a surrogate pair; [searchAnime] then fails on the cut
    query with a URIError before any request, and /search answers with
    status 500 after the cache lookup alone. *)
Theorem searchAnime_cut_surrogate (w : world) (rt : runtime)
    (s : jsstring) (hi lo : N) (src api : jsstring) :
  length s = 99%nat -> plain_text s ->
  is_high_surrogate hi = true -> is_low_surrogate lo = true ->
  sanitizeQuery (Some (JStr (s ++ [hi; lo]))) = s ++ [hi]
  /\ scrapers.searchAnime w rt (sanitizeQuery (Some (JStr (s ++ [hi; lo])))) src api
     = ([], Thrown (URIError (js "URI malformed")))
  /\ forall cfg ttl cache,
       cache !! generateCacheKey (js "search") [Some (s ++ [hi])] = None ->
       route_search w rt cfg ttl cache (Some (JStr (s ++ [hi; lo])))
       = {| list_status := 500;
            list_answer := ListError (js "Internal Server Error") false (now_iso w);
            list_cache_after := cache;
            list_effects :=
              [EvCacheGet (generateCacheKey (js "search") [Some (s ++ [hi])])] |}.
Proof.
  intros Hlen Hplain Hhi Hlo.
  destruct (high_surrogate_kind hi Hhi) as (_ & _ & Hhs & Hhm).
  assert (Hls : is_js_space lo = false /\ is_markup_unit lo = false).
  { unfold is_low_surrogate in Hlo. apply andb_prop in Hlo as [H1 H2].
    apply N.leb_le in H1, H2. unfold is_js_space, is_markup_unit.
    split; repeat (case_cmp; try lia); reflexivity. }
  assert (Hspace : Forall (fun c => is_js_space c = false) (s ++ [hi; lo])).
  { apply Forall_app. split.
    - eapply List.Forall_impl; [|exact Hplain]. now intros c [? _].
    - repeat constructor; tauto. }
  assert (Hmarkup : Forall (fun c => is_markup_unit c = false) (s ++ [hi; lo])).
  { apply Forall_app. split.
    - eapply List.Forall_impl; [|exact Hplain]. now intros c [_ ?].
    - repeat constructor; tauto. }
  assert (Hcut : sanitizeQuery (Some (JStr (s ++ [hi; lo]))) = s ++ [hi]).
  { unfold sanitizeQuery, collapse_spaces.
    rewrite trim_plain, filter_plain, collapse_plain by assumption.
    rewrite List.firstn_app, Hlen, List.firstn_all2 by lia. reflexivity. }
  assert (Hthrown : forall src' api',
            scrapers.searchAnime w rt (s ++ [hi]) src' api'
            = ([], Thrown (URIError (js "URI malformed")))).
  { intros src' api'. unfold scrapers.searchAnime, scrapers.search_url.
    now rewrite (encodeURIComponent_cut (length s) hi s) by (lia || assumption). }
  split; [exact Hcut|]. split; [rewrite Hcut; apply Hthrown|].
  intros cfg ttl cache Hmiss.
  rewrite route_search_accepts by (rewrite Hcut, length_app, Hlen; cbn; lia).
  rewrite Hcut. unfold withCache_list. rewrite Hthrown.
  match goal with
  | |- context [cache !! ?k] =>
      replace (cache !! k) with (@None list_body) by (symmetry; exact Hmiss)
  end.
  reflexivity.
Qed.

Lemma searchAnime_cut_surrogate_witness :
  sanitizeQuery (Some (JStr (repeat 97 99 ++ [55357; 56832])))
  = repeat 97 99 ++ [55357]
  /\ list_status
       (route_search offline_world (showing sample_page) default_config
          default_list_ttl ∅ (Some (JStr (repeat 97 99 ++ [55357; 56832]))))
     = 500%Z.
Proof.
  destruct (searchAnime_cut_surrogate offline_world (showing sample_page)
              (repeat 97 99) 55357 56832
              (js "https://otakudesu.cloud") (js "http://localhost:3000"))
    as (Hcut & _ & Hroute).
  - reflexivity.
  - apply List.Forall_forall. intros c Hc. apply repeat_spec in Hc. subst c.
    split; reflexivity.
  - reflexivity.
  - reflexivity.
  - split; [exact Hcut|].
    rewrite (Hroute default_config default_list_ttl ∅); reflexivity.
Defined.
